(* ===== verification/_CoqProject ===== *)
-Q . S2P
Prelude.v
GoStrings.v
GoNet.v
GoURL.v
IPPool.v
Tcpip.v
Protocols.v
Switch.v
Link.v
Types.v
GoHTTP.v
DNS.v
Ports.v
UDPProxy.v
Nat.v
DHCP.v
VirtualNetwork.v
Network.v
Cmdline.v
SSH.v
Pipe.v
Splice.v
Tunnels.v
WinSSHProxy.v
Gvproxy.v
Shutdown.v
Transport.v
Stdio.v
Forwarder.v
Traffic.v
World.v
Client.v
Tools.v
MockServer.v
