(* ===== verification/Prelude.v ===== *)
(** gvisor-tap-vsock: a verification library.

    * The program

    gvproxy is a user-mode network for virtual machines.  The frames of a guest
    arrive over a socket (VPNKit/hyperkit, qemu, bess, vfkit or stdio framing) at
    a learning switch; the switch is plugged into the network stack of gVisor,
    the gateway, through a link endpoint.  On the gateway run a DHCP server, a
    DNS server, the forwarders of the flows the guests open to the outside, and
    the ports of the host exposed to the guests; an HTTP API shows and changes
    their state.  gvforwarder carries the frames inside the guest, pkg/client
    speaks to the API, pkg/sshclient tunnels sockets through the SSH server of
    the guest, for gvproxy and for win-sshproxy, its counterpart on Windows; three
    small programs serve the tests and qemu.  This library models that code and proves what makes it correct;
    where the code does not do what it means to, the behaviour is a theorem too.

    * The files

    Foundations
    - Prelude.v: errors and the outcome [res] of Go functions (a value, a non-nil
      error, or a panic), machine integers, the orders in which Go ranges over a
      map ([range_order]), [for] loops that return from their body ([for_loop]),
      reachability ([star]), tactics and hints.
    - GoStrings.v, GoNet.v: what the code uses of strings, strconv and
      encoding/binary, and of net (addresses, CIDR, MAC, host:port).
    - GoURL.v: what it uses of path and of the queries of net/url.
    - Tcpip.v: what it uses of gVisor's tcpip and header packages.
    - Types.v: pkg/types (configuration, requests, version) and the part of
      net/http shared by the handlers.
    - GoHTTP.v: the dispatch of requests by net/http's [ServeMux].

    The network
    - IPPool.v: pkg/tap/ip_pool.go with the address arithmetic of go-cidr.
    - Protocols.v: pkg/tap/protocols.go; the class [FramingLaws] is what the
      switch relies on.
    - Switch.v: pkg/tap/switch.go.  Every method is a computation of the monad
      [M], which threads the [Switch] record and logs the writes, closes and
      deliveries; [net_step] is the interleaving of the goroutines of the
      connections, one critical section per step.
    - Link.v: pkg/tap/link.go.
    - DNS.v: pkg/services/dns/dns.go.
    - DHCP.v: pkg/services/dhcp/dhcp.go and the message functions it calls.
    - Ports.v: pkg/services/forwarder/ports.go; the state is the table and the
      open sockets.
    - UDPProxy.v: pkg/services/forwarder/udp_proxy.go as a step relation between
      [Run], the reply loops and [Close].
    - Nat.v: pkg/services/forwarder/tcp.go and udp.go, and the NAT table.
    - VirtualNetwork.v: pkg/virtualnetwork: [New], the accept functions, the
      dialing functions, the HTTP API [VN_Mux].
    - Network.v: the network that [New] built under requests of the API, DHCP
      messages and steps of the switch in any order ([vn_step]); it composes
      VirtualNetwork.v, DHCP.v, Ports.v, DNS.v and Switch.v.

    The programs
    - Cmdline.v: pkg/types/gvproxy_command.go and the flags of gvproxy.
    - SSH.v: pkg/sshclient, in a monad over an abstract world with a log, and the
      accept loop of the programs that forward sockets.
    - Pipe.v: the goroutines that copy the bytes of a tunnel ([forward]) and close
      it, as a step relation with the two peers; what was written and not yet read is
      bounded, so a write to a peer that does not read blocks.
    - Splice.v: the copying of tcpproxy behind exposed ports, TCP flows and /tunnel, as
      a step relation on the directions of Pipe.v.
    - Tunnels.v: the UNIX proxies of ports.go whose remote is ssh-tunnel, on SSH.v
      with the dialer of ports.go ([gonetDialer], which can panic).
    - WinSSHProxy.v: cmd/win-sshproxy.
    - Gvproxy.v: cmd/gvproxy/main.go up to the goroutines that [run] starts.
    - Shutdown.v: these goroutines as they run: the error group, the context, the
      listeners and the signal they share, one blocking point per step.
    - Transport.v: pkg/transport, the resolution of endpoints on every platform,
      the vfkit socket, the handshake of /tunnel.
    - Stdio.v: pkg/net/stdio.
    - Forwarder.v: cmd/vm/main_linux.go.
    - Traffic.v: the gvforwarders of the guests, the sockets and the receive loops of
      the switch and the endpoint of the gateway as one system ([lan_step]); it composes
      Forwarder.v, Switch.v and Link.v.  A failing write may have put a part of its
      message on the socket; a connection that the switch has closed takes and yields
      no more bytes, though its receive loop still works on those it has buffered.
    - World.v: the whole program ([world_step]): Network.v and Traffic.v on one switch,
      with the DHCP and DNS servers, the forwarders of the flows and the API of the
      guests called by the network stack for the packets it was given; its runs
      project to those of both ([net_part], [w_lan]).
    - Client.v: pkg/client, and its composition with [VN_Mux].
    - Tools.v: cmd/ssh-over-vsock with the API at the other end of its tunnel,
      cmd/qemu-wrapper, cmd/test-companion.
    - MockServer.v: the SSH server of test-win-sshproxy.

    * How the code is represented

    A method that changes a struct is a function from the record to the new
    record; effects on the outside are logged or returned as data.  A function
    that can fail returns [res]; an error that the code only logs is an event.  A
    loop over a map takes the order of the iteration as an argument, and the
    theorems hold for every order of the map.  Concurrency is interleaving of the
    critical sections (the locks of the code) as steps, and the theorems about it
    are invariants of every reachable state.  What is not in the repository, or is
    vendored and large (the gVisor stack, miekg/dns, the operating system, the SSH
    protocol, JSON, url.Parse), is a parameter; the hypotheses on it are named and
    every theorem that has some is applied to a concrete instance.

    * The theorems

    - The whole program: every run is a run of its parts ([world_refines_parts]), and
      every lease, DHCP reply, DNS answer, flow and answer of the API inside the
      network stands for frames that guests have sent ([effects_asked_for]); a guest
      that asks for an address can be answered in every reachable state, as long as
      an address is left ([asking_gets_address]); what the guests may ask of the API
      ([guest_api_limited]).
    - Leases: the pool refines a table with one address per MAC address and back
      ([pool_refines]), gives the smallest free address ([GetOrAssign_spec]) and
      does so as long as one is free ([GetOrAssign_available]); the replies of
      the DHCP server agree with it ([replies_consistent], [handler_reply]).
    - Frames: framing round trips ([rxStream_deframes], [frames_roundtrip]),
      delivery from the device of a guest to that of another ([guest_to_guest]), whole
      frames in order, and a cut one at most at the end of a dropped connection,
      under every interleaving ([frames_end_to_end]), unicast, broadcast and gateway delivery ([unicast_delivery],
      [broadcast_delivery], [rxBuf_routing]), the invariant of the switch under
      every interleaving ([switch_invariant]: what is in its tables belongs to a running
      loop) and freedom from panics as long as
      writes do not fail ([tx_never_panics]); the frames of the gateway and the
      guard against spoofed ARP replies ([writePacket_frame],
      [arp_reply_not_spoofed], up to the sockets of the guests
      [gateway_frames_honest]); termination of the receive loop
      ([rxStream_terminates]).
    - Names: which zone and record answers a question ([addAnswers_in_zone],
      [added_record_served]), replies ([handle_reply]), the table of the zones
      ([addZone_spec]).
    - Ports and flows: the open sockets are those of the table
      ([sockets_match_table]), failed requests change nothing, Unexpose undoes
      Expose, the listing is sorted; destinations of the flows of the guests
      ([flow_destination], [parseNATTable_spec]); isolation of the clients of a
      UDP proxy ([clients_isolated], [run_iteration], [write_loop_total]).
    - Assembly: what [New] builds ([New_network]) and what stays true of it under
      every interleaving ([network_invariant]: fixed configuration, leases a
      one-to-one table with the reserved addresses, own sockets, running
      connections, zones kept); the VPNKit handshake; the addresses [Dial] and
      [Listen] accept ([conn_address_spec]); what gvproxy starts for accepted flags
      ([main_runs], [main_checks]) and how it stops ([group_errors], [gvproxy_stops]),
      the command line round trip
      ([Parse_ToCmdline]), the client against the API for arbitrary encodings
      ([client_refines_api]).
    - Tunnels: bounded retries of the SSH client ([connectForward_bounded],
      [initialConnection_spec]), the accept loop ([serve_loop_spec]) and the SSH
      tunnels of the port forwarder ([tunnel_connections]); the bytes of a tunnel
      under every interleaving ([tunnel_safe]; [tunnel_completes]: the end is reached, or
      a write to a peer that does not read blocks) and those that
      tcpproxy copies ([splice_spec], with the same reservation); the handshake
      of /tunnel ([tunnel_handshake]); the command lines of win-sshproxy
      ([WinSSHProxy.main_spec]).
    - Defects kept as theorems: frames shorter than a header panic the receive
      loop, a stale entry of the CAM panics a transmission, a zone below another
      one is never used, a UNIX socket exposed twice leaks, a broadcast stops at
      the first failing connection, an invalid URL on the command line of
      win-sshproxy is ignored, the VPNKit listener keeps gvproxy from stopping
      ([vpnkit_blocks_shutdown]), tcpproxy cuts a half-closed connection
      ([half_close_truncates]), a forwarded socket whose source has no scheme panics at
      its first accept ([tunnel_only_panics], [unlistened_panics]), an SSH server given by
      name panics the dialer of the tunnels ([by_name]), a peer that does not read keeps
      a tunnel from ending ([unread_blocks]), /tunnel answers OK to an address it then
      panics on ([tunnel_handshake]).

    * Bounds and fuel

    The receive loops take the number of bytes left plus one as fuel (each
    iteration reads at least the header), [connectForward] three attempts and
    three reconnections each, [initialConnection] the sixty attempts of the code;
    the theorems state that the answer is reached.  The accept loop runs for a
    number of iterations that the theorem quantifies over, and the steps of a
    tunnel, of tcpproxy and, once the context is done, of the goroutines of gvproxy
    decrease a measure.  Other loops are structural, or [for_loop] over a range of
    integers without fuel.  Integers are Z with the
    wrap-around of their width written out ([u16], [u32], [u64], [i64]) where the
    code converts or counts.

    * What is not modelled

    The network stack is gVisor's: which packets make it call a service is a parameter
    of World.v ([raised]), as are the packets it sends.  The DNS server shares the
    slice of the zones with the configuration it was started with; nothing reads that
    slice again, and the model gives the server a copy.  The packet capture, logging, the delivery of window messages and the HTTP server
    itself; the wire formats of DNS and DHCP messages and the reflection of JSON; of
    the vendored libraries, what the repository does not call.  JSON is not assumed to
    give back what was encoded: the theorems are about what the server decodes.  The
    frames of Traffic.v and World.v are those of hyperkit guests, and the ARP packets of
    the stack carry their 28 bytes in the network header ([arp_whole]).  Shutdown.v
    takes every SSH forward to have a listener, which is so when its URL has a scheme. *)
From stdpp Require Export base gmap strings list fin_maps.
From Stdlib Require Export ZArith Lia.

#[global] Open Scope Z_scope.

(** ** Errors and outcomes of Go functions *)

(** A Go [error] value.  [ErrMsg] is [errors.New]/[fmt.Errorf] with a text of
    this repository, [ErrWrap] is [errors.Wrap], [ErrStd] is an error built by
    the standard library (function and argument), [ErrExt] an error handed over
    by the operating system or a third-party package. *)
Inductive error :=
  | ErrMsg (msg : string)
  | ErrWrap (msg : string) (cause : error)
  | ErrStd (fn arg : string)
  | ErrExt (what : string).

#[export] Instance error_eq_dec : EqDecision error.
Proof. solve_decision. Defined.

(** The outcome of a call: it returns a value with a nil error, it returns a
    non-nil error, or the goroutine panics. *)
Inductive res (A : Type) :=
  | Ok (a : A)
  | Err (e : error)
  | Panic.
Arguments Ok {A} a.
Arguments Err {A} e.
Arguments Panic {A}.

#[export] Instance res_ret : MRet res := λ A a, Ok a.
#[export] Instance res_bind : MBind res := λ A B f m,
  match m with Ok a => f a | Err e => Err e | Panic => Panic end.
#[export] Instance res_fmap : FMap res := λ A B f m,
  match m with Ok a => Ok (f a) | Err e => Err e | Panic => Panic end.

#[export] Instance res_eq_dec {A} `{EqDecision A} : EqDecision (res A).
Proof. solve_decision. Defined.

(** [errors.Wrap]: nil stays nil. *)
Definition wrap {A} (msg : string) (r : res A) : res A :=
  match r with Err e => Err (ErrWrap msg e) | _ => r end.

Lemma res_bind_ok {A B} (m : res A) (f : A → res B) b :
  (m ≫= f) = Ok b ↔ ∃ a, m = Ok a ∧ f a = Ok b.
Proof. destruct m; cbn; naive_solver. Qed.

Lemma wrap_ok {A} msg (r : res A) a : wrap msg r = Ok a ↔ r = Ok a.
Proof. by destruct r. Qed.

Lemma res_bind_panic {A B} (m : res A) (f : A → res B) :
  (m ≫= f) = Panic ↔ m = Panic ∨ ∃ a, m = Ok a ∧ f a = Panic.
Proof. destruct m; cbn; naive_solver. Qed.

(** ** Machine integers *)

Definition u8 (z : Z) : Z := z mod 2 ^ 8.
Definition u16 (z : Z) : Z := z mod 2 ^ 16.
Definition u32 (z : Z) : Z := z mod 2 ^ 32.
Definition u64 (z : Z) : Z := z mod 2 ^ 64.
Definition i64 (z : Z) : Z := (z + 2 ^ 63) mod 2 ^ 64 - 2 ^ 63.

(** A byte of a [[]byte]. *)
Definition is_byte (b : Z) : Prop := 0 ≤ b < 256.
#[export] Instance is_byte_dec b : Decision (is_byte b).
Proof. unfold is_byte. apply _. Defined.

Lemma u16_bounds z : 0 ≤ u16 z < 65536.
Proof. unfold u16. change 65536 with (2 ^ 16). apply Z.mod_pos_bound. lia. Qed.
Lemma u32_bounds z : 0 ≤ u32 z < 2 ^ 32.
Proof. unfold u32. apply Z.mod_pos_bound. lia. Qed.
Lemma u16_small z : 0 ≤ z < 65536 → u16 z = z.
Proof. intros. unfold u16. apply Z.mod_small. lia. Qed.
Lemma u32_small z : 0 ≤ z < 2 ^ 32 → u32 z = z.
Proof. intros. unfold u32. by apply Z.mod_small. Qed.
Lemma u64_small z : 0 ≤ z < 2 ^ 64 → u64 z = z.
Proof. intros. unfold u64. by apply Z.mod_small. Qed.
Lemma u64_add_l a b : u64 (u64 a + b) = u64 (a + b).
Proof. unfold u64. apply Zplus_mod_idemp_l. Qed.
Lemma i64_small z : - 2 ^ 63 ≤ z < 2 ^ 63 → i64 z = z.
Proof. intros. unfold i64. rewrite Z.mod_small; lia. Qed.

Create HintDb machine.
Create Rewrite HintDb machine.
#[export] Hint Rewrite u16_small u32_small u64_small i64_small using lia : machine.
#[export] Hint Resolve u16_bounds u32_bounds : machine.
#[export] Hint Unfold is_byte : machine.

(** ** Iteration over a Go map

    [for k, v := range m] visits every entry once in an order the runtime
    chooses.  An operation that ranges over a map takes that order as an
    argument; [range_order m order] says it is a legal one. *)
Definition range_order {K V} `{Countable K} (m : gmap K V) (order : list (K * V)) : Prop :=
  order ≡ₚ map_to_list m.

Section range.
Context {K V : Type} `{Countable K}.
Implicit Types (m : gmap K V) (order : list (K * V)).

Lemma range_order_elem m order k v :
  range_order m order → (k, v) ∈ order ↔ m !! k = Some v.
Proof. unfold range_order. intros ->. apply elem_of_map_to_list. Qed.

Lemma range_order_NoDup m order : range_order m order → NoDup order.*1.
Proof. unfold range_order. intros ->. apply NoDup_fst_map_to_list. Qed.

Lemma range_order_canonical m : range_order m (map_to_list m).
Proof. by unfold range_order. Qed.

Lemma range_order_singleton (k : K) (v : V) order : range_order {[k := v]} order → order = [(k, v)].
Proof.
  unfold range_order. rewrite map_to_list_singleton. by intros ?%Permutation_singleton_r.
Qed.

Lemma range_order_perm m o1 o2 :
  range_order m o1 → range_order m o2 → o1 ≡ₚ o2.
Proof. unfold range_order. by intros -> ->. Qed.
Lemma foldl_insert_union (l : list (K * V)) m : NoDup l.*1 →
  foldl (λ (acc : gmap K V) kv, <[kv.1 := kv.2]> acc) m l = (list_to_map l : gmap K V) ∪ m.
Proof.
  revert m. induction l as [|[k v] l IH]; intros m Hnd; cbn; [by rewrite map_empty_union|].
  apply NoDup_cons in Hnd as [Hk Hnd]. rewrite IH by done.
  rewrite <- insert_union_l, <- insert_union_r; [done|]. by apply not_elem_of_list_to_map.
Qed.

Lemma range_order_foldl m order m0 : range_order m order →
  foldl (λ (acc : gmap K V) kv, <[kv.1 := kv.2]> acc) m0 order = m ∪ m0.
Proof.
  intros Ho. rewrite foldl_insert_union by by eapply range_order_NoDup.
  f_equal. rewrite <- (list_to_map_to_list m).
  by apply list_to_map_proper; [eapply range_order_NoDup|].
Qed.
Lemma filter_key_NoDup (l : list (K * V)) k : NoDup l.*1 →
  snd <$> filter (λ kv, kv.1 = k) l = option_list ((list_to_map l : gmap K V) !! k).
Proof.
  induction l as [|[k' v] l IH]; intros Hnd; [by cbn; rewrite lookup_empty|].
  apply NoDup_cons in Hnd as [Hk Hnd]. specialize (IH Hnd). cbn [list_to_map foldr fst snd].
  rewrite filter_cons. cbn [fst]. case_decide as E.
  - subst. rewrite fmap_cons, IH. cbn. rewrite lookup_insert_eq.
    rewrite (not_elem_of_list_to_map_1 _ _ Hk). done.
  - cbn. by rewrite lookup_insert_ne.
Qed.

(** The values of one key, in any range order. *)
Lemma range_order_key m order k : range_order m order →
  snd <$> filter (λ kv, kv.1 = k) order = option_list (m !! k).
Proof.
  intros Ho. rewrite filter_key_NoDup by by eapply range_order_NoDup.
  assert (list_to_map order = m) as ->; [|done]. rewrite <- (list_to_map_to_list m).
  by apply list_to_map_proper; [eapply range_order_NoDup|].
Qed.
End range.
#[export] Hint Resolve range_order_canonical range_order_NoDup : core.

(** ** Counting loops: [for i := lo; i < hi; i++ { ... return r }]

    The search is structural on the binary length of the interval, so that
    loops over 2^24 addresses can be evaluated when they return early. *)
Section for_loop.
Context {R : Type} (f : Z → option R).

Fixpoint search_pos (lo : Z) (p : positive) : option R :=
  match p with
  | xH => f lo
  | xO p' =>
      match search_pos lo p' with
      | Some r => Some r
      | None => search_pos (lo + Z.pos p') p'
      end
  | xI p' =>
      match f lo with
      | Some r => Some r
      | None =>
          match search_pos (lo + 1) p' with
          | Some r => Some r
          | None => search_pos (lo + 1 + Z.pos p') p'
          end
      end
  end.

Definition for_loop (lo hi : Z) : option R :=
  match hi - lo with Z.pos p => search_pos lo p | _ => None end.

Lemma search_pos_spec p lo :
  match search_pos lo p with
  | Some r => ∃ i, lo ≤ i < lo + Z.pos p ∧ f i = Some r ∧ ∀ j, lo ≤ j < i → f j = None
  | None => ∀ j, lo ≤ j < lo + Z.pos p → f j = None
  end.
Proof.
  revert lo; induction p as [p IH|p IH|]; intros lo; cbn [search_pos].
  - destruct (f lo) as [r|] eqn:E0.
    { exists lo. split_and!; [lia..|done|intros; lia]. }
    pose proof (IH (lo + 1)) as H1; pose proof (IH (lo + 1 + Z.pos p)) as H2.
    destruct (search_pos (lo + 1) p) as [r|].
    { destruct H1 as (i & Hi & Hf & Hlt). exists i. split_and!; [lia..|done|].
      intros j Hj. destruct (decide (j = lo)) as [->|]; [done|apply Hlt; lia]. }
    destruct (search_pos (lo + 1 + Z.pos p) p) as [r|].
    + destruct H2 as (i & Hi & Hf & Hlt). exists i. split_and!; [lia..|done|].
      intros j Hj. destruct (decide (j = lo)) as [->|]; [done|].
      destruct (decide (j < lo + 1 + Z.pos p)); [apply H1; lia|apply Hlt; lia].
    + intros j Hj. destruct (decide (j = lo)) as [->|]; [done|].
      destruct (decide (j < lo + 1 + Z.pos p)); [apply H1; lia|apply H2; lia].
  - pose proof (IH lo) as H1; pose proof (IH (lo + Z.pos p)) as H2.
    destruct (search_pos lo p) as [r|].
    { destruct H1 as (i & Hi & Hf & Hlt). exists i. split_and!; [lia..|done|done]. }
    destruct (search_pos (lo + Z.pos p) p) as [r|].
    + destruct H2 as (i & Hi & Hf & Hlt). exists i. split_and!; [lia..|done|].
      intros j Hj. destruct (decide (j < lo + Z.pos p)); [apply H1; lia|apply Hlt; lia].
    + intros j Hj. destruct (decide (j < lo + Z.pos p)); [apply H1; lia|apply H2; lia].
  - destruct (f lo) as [r|] eqn:E0.
    + exists lo. split_and!; [lia..|done|intros; lia].
    + intros j Hj. by replace j with lo by lia.
Qed.

Lemma for_loop_Some lo hi r :
  for_loop lo hi = Some r →
  ∃ i, lo ≤ i < hi ∧ f i = Some r ∧ ∀ j, lo ≤ j < i → f j = None.
Proof.
  unfold for_loop. destruct (hi - lo) as [|p|p] eqn:E; try done.
  intros Hs. pose proof (search_pos_spec p lo) as H. rewrite Hs in H.
  destruct H as (i & ? & ? & ?). exists i. split_and!; auto; lia.
Qed.

Lemma for_loop_None lo hi :
  for_loop lo hi = None ↔ ∀ j, lo ≤ j < hi → f j = None.
Proof.
  unfold for_loop. destruct (hi - lo) as [|p|p] eqn:E.
  - split; [intros _ j ?; lia|done].
  - pose proof (search_pos_spec p lo) as H. destruct (search_pos lo p) as [r|].
    + split; [done|]. intros Hn. destruct H as (i & ? & Hf & ?).
      rewrite Hn in Hf; [done|lia].
    + split; [|done]. intros _ j ?. apply H. lia.
  - split; [intros _ j ?; lia|done].
Qed.

Lemma for_loop_first lo hi i r :
  lo ≤ i < hi → f i = Some r → (∀ j, lo ≤ j < i → f j = None) →
  for_loop lo hi = Some r.
Proof.
  intros Hi Hf Hlt. destruct (for_loop lo hi) as [r'|] eqn:E.
  - apply for_loop_Some in E as (i' & Hi' & Hf' & Hlt').
    assert (i = i') as ->; [|congruence].
    destruct (Z.lt_trichotomy i i') as [?|[?|?]]; [|done|].
    + rewrite Hlt' in Hf; [done|lia].
    + rewrite Hlt in Hf'; [done|lia].
  - apply for_loop_None with (j := i) in E; [congruence|lia].
Qed.

(** The reading of the Go statement, one iteration at a time. *)
Lemma for_loop_unfold lo hi :
  for_loop lo hi =
    if decide (lo < hi)
    then match f lo with Some r => Some r | None => for_loop (lo + 1) hi end
    else None.
Proof.
  case_decide; [|apply for_loop_None; intros; lia].
  destruct (f lo) as [r|] eqn:E.
  { apply (for_loop_first lo hi lo r); [lia|done|intros; lia]. }
  destruct (for_loop (lo + 1) hi) as [r|] eqn:E'.
  - apply for_loop_Some in E' as (i & ? & ? & Hlt).
    apply (for_loop_first lo hi i r); [lia|done|]. intros j ?.
    destruct (decide (j = lo)) as [->|]; [done|apply Hlt; lia].
  - rewrite for_loop_None in E'. apply for_loop_None. intros j ?.
    destruct (decide (j = lo)) as [->|]; [done|apply E'; lia].
Qed.
End for_loop.

Lemma elem_of_concat {A} (x : A) (ls : list (list A)) : x ∈ concat ls ↔ ∃ l, l ∈ ls ∧ x ∈ l.
Proof.
  rewrite list_elem_of_In, in_concat. by setoid_rewrite list_elem_of_In.
Qed.

(** ** Reachability *)
Section star.
Context {S : Type} (step : S → S → Prop).

Inductive star : S → S → Prop :=
  | star_refl s : star s s
  | star_step s1 s2 s3 : step s1 s2 → star s2 s3 → star s1 s3.

Lemma star_snoc s1 s2 s3 : star s1 s2 → step s2 s3 → star s1 s3.
Proof. induction 1; eauto using star. Qed.

Lemma star_trans s1 s2 s3 : star s1 s2 → star s2 s3 → star s1 s3.
Proof. induction 1; eauto using star. Qed.

(** Rule induction for invariants. *)
Lemma star_invariant (I : S → Prop) s s' :
  (∀ a b, I a → step a b → I b) → I s → star s s' → I s'.
Proof. intros Hstep HI Hs. induction Hs; eauto. Qed.
End star.

(** ** Tactics *)

(** Case analysis on every [match] and [if decide] of the goal. *)
Ltac cases := repeat (case_match || case_decide); simplify_eq/=; try done.

(** Bytes of a concrete list. *)
Ltac byte_list := repeat constructor; unfold is_byte; lia.
