(* ===== verification/GoStrings.v ===== *)
(** The parts of Go's [strings], [strconv], [fmt] and [encoding/binary] packages
    that the program uses, as executable functions on strings and byte lists. *)
From Stdlib Require Import Ascii String.
From stdpp Require Export pretty.
From S2P Require Import Prelude.

Local Open Scope string_scope.
Local Open Scope list_scope.
Local Open Scope Z_scope.

(** The byte of a character and back. *)
Definition code (c : ascii) : Z := Z.of_N (N_of_ascii c).
Definition char (b : Z) : ascii := ascii_of_N (Z.to_N b).

(** Conversions [[]byte(s)] and [string(b)]. *)
Definition bytes_of_string (s : string) : list Z := code <$> list_ascii_of_string s.
Definition string_of_bytes (bs : list Z) : string := string_of_list_ascii (char <$> bs).

(** ** strings *)

(** [s[len(p):]] when [s] starts with [p]. *)
Fixpoint strip_prefix (p s : string) : option string :=
  match p, s with
  | EmptyString, _ => Some s
  | String a p', String b s' => if decide (a = b) then strip_prefix p' s' else None
  | String _ _, EmptyString => None
  end.

(** [s[:len(s)-len(suf)]] when [s] ends with [suf]. *)
Fixpoint strip_suffix (suf s : string) : option string :=
  if decide (s = suf) then Some EmptyString
  else match s with
       | EmptyString => None
       | String c s' => String c <$> strip_suffix suf s'
       end.

Definition HasPrefix (s p : string) : bool := bool_decide (is_Some (strip_prefix p s)).
Definition HasSuffix (s suf : string) : bool := bool_decide (is_Some (strip_suffix suf s)).
Definition TrimPrefix (s p : string) : string := default s (strip_prefix p s).
Definition TrimSuffix (s suf : string) : string := default s (strip_suffix suf s).

(** [strings.Contains]. *)
Fixpoint Contains (s sub : string) : bool :=
  HasPrefix s sub || match s with EmptyString => false | String _ s' => Contains s' sub end.

(** [strings.Split(s, sep)] for a one-character separator. *)
Fixpoint Split (sep : ascii) (s : string) : list string :=
  match s with
  | EmptyString => [EmptyString]
  | String c s' =>
      if decide (c = sep) then EmptyString :: Split sep s'
      else match Split sep s' with
           | [] => [String c EmptyString]
           | w :: ws => String c w :: ws
           end
  end.

(** [strings.IndexByte]: position of the first occurrence. *)
Fixpoint IndexByte (s : string) (c : ascii) : option nat :=
  match s with
  | EmptyString => None
  | String a s' => if decide (a = c) then Some O else S <$> IndexByte s' c
  end.

(** Position of the last occurrence. *)
Fixpoint LastIndexByte (s : string) (c : ascii) : option nat :=
  match s with
  | EmptyString => None
  | String a s' =>
      match LastIndexByte s' c with
      | Some n => Some (S n)
      | None => if decide (a = c) then Some O else None
      end
  end.

(** Slicing [s[i:]] and [s[:n]]. *)
Fixpoint str_drop (n : nat) (s : string) : string :=
  match n, s with
  | O, _ => s
  | S n', String _ s' => str_drop n' s'
  | S _, EmptyString => EmptyString
  end.
Fixpoint str_take (n : nat) (s : string) : string :=
  match n, s with
  | S n', String c s' => String c (str_take n' s')
  | _, _ => EmptyString
  end.

(** ** strconv *)

Definition digit_val (c : ascii) : option Z :=
  let b := code c in
  if decide (48 ≤ b ≤ 57) then Some (b - 48) else None.

Definition hex_val (c : ascii) : option Z :=
  let b := code c in
  if decide (48 ≤ b ≤ 57) then Some (b - 48)
  else if decide (97 ≤ b ≤ 102) then Some (b - 87)
  else if decide (65 ≤ b ≤ 70) then Some (b - 55)
  else None.

(** [strconv.Itoa]. *)
Definition Itoa (z : Z) : string := pretty z.

Fixpoint digits_val (s : string) (acc : Z) : option Z :=
  match s with
  | EmptyString => Some acc
  | String c s' => d ← digit_val c; digits_val s' (acc * 10 + d)
  end.

(** [strconv.ParseUint(s, 10, bitSize)]. *)
Definition ParseUint (s : string) (bitSize : Z) : res Z :=
  match s with
  | EmptyString => Err (ErrStd "strconv.ParseUint: invalid syntax" s)
  | _ =>
      match digits_val s 0 with
      | None => Err (ErrStd "strconv.ParseUint: invalid syntax" s)
      | Some n =>
          if decide (n < 2 ^ bitSize) then Ok n
          else Err (ErrStd "strconv.ParseUint: value out of range" s)
      end
  end.

(** [strconv.Atoi] on a 64-bit platform. *)
Definition Atoi (s : string) : res Z :=
  let syntax := Err (ErrStd "strconv.Atoi: invalid syntax" s) in
  let range := Err (ErrStd "strconv.Atoi: value out of range" s) in
  let body neg t :=
    match t with
    | EmptyString => syntax
    | _ =>
        match digits_val t 0 with
        | None => syntax
        | Some n =>
            if neg : bool then (if decide (n ≤ 2 ^ 63) then Ok (- n) else range)
            else (if decide (n < 2 ^ 63) then Ok n else range)
        end
    end in
  match s with
  | String "-" t => body true t
  | String "+" t => body false t
  | _ => body false s
  end.

(** ** encoding/binary *)

Definition put_u16_le (v : Z) : list Z := [v mod 256; v / 256 mod 256].
Definition put_u16_be (v : Z) : list Z := [v / 256 mod 256; v mod 256].
Definition put_u32_be (v : Z) : list Z :=
  [v / 16777216 mod 256; v / 65536 mod 256; v / 256 mod 256; v mod 256].

(** Big-endian value of a byte string, as [big.Int.SetBytes]. *)
Definition be_value (bs : list Z) : Z := foldl (λ a b, a * 256 + b) 0 bs.

(** The [n] low bytes of a value, most significant first. *)
Fixpoint be_bytes (n : nat) (v : Z) : list Z :=
  match n with
  | O => []
  | S n' => be_bytes n' (v / 256) ++ [v mod 256]
  end.

(** ** fmt: lower-case hexadecimal of a byte, two digits *)
Definition hex_digit (d : Z) : ascii :=
  if decide (d < 10) then char (48 + d) else char (87 + d).
Definition hex2 (b : Z) : string :=
  String (hex_digit (b / 16)) (String (hex_digit (b mod 16)) EmptyString).

(** ** Lemmas *)

Lemma string_app_nil_l (s : string) : "" +:+ s = s.
Proof. done. Qed.

Lemma string_app_cons c (s t : string) : String c s +:+ t = String c (s +:+ t).
Proof. done. Qed.

Lemma strip_prefix_Some p s t : strip_prefix p s = Some t ↔ s = p +:+ t.
Proof.
  revert s; induction p as [|a p IH]; intros s; cbn.
  - split; by intros [= ->].
  - rewrite string_app_cons. destruct s as [|b s]; [by split|].
    destruct (decide (a = b)) as [->|].
    + rewrite IH. split; [by intros ->|by intros [= ->]].
    + split; [done|by intros [= -> _]].
Qed.

Lemma string_app_length s t :
  String.length (s +:+ t) = (String.length s + String.length t)%nat.
Proof. induction s as [|c s IH]; [done|]. rewrite ?string_app_cons. cbn. by rewrite IH. Qed.

Lemma string_app_assoc (s t u : string) : (s +:+ t) +:+ u = s +:+ (t +:+ u).
Proof. induction s as [|c s IH]; [done|]. rewrite ?string_app_cons. cbn. by rewrite IH. Qed.

Lemma string_app_nil_r (s : string) : s +:+ "" = s.
Proof. induction s as [|c s IH]; [done|]. rewrite ?string_app_cons. cbn. by rewrite IH. Qed.

Lemma string_app_inv_self (p s : string) : s = p +:+ s → p = "".
Proof.
  intros H. apply (f_equal String.length) in H. rewrite string_app_length in H.
  destruct p; cbn in *; [done|lia].
Qed.

Lemma strip_suffix_app suf t : strip_suffix suf (t +:+ suf) = Some t.
Proof.
  induction t as [|c t IH].
  - change ("" +:+ suf) with suf. destruct suf; cbn; by rewrite decide_True.
  - rewrite string_app_cons. cbn. destruct (decide _) as [Heq|_]; [|by rewrite IH].
    by apply eq_sym, (string_app_inv_self (String c t)) in Heq.
Qed.

Lemma strip_suffix_Some suf s t : strip_suffix suf s = Some t ↔ s = t +:+ suf.
Proof.
  split; [|intros ->; apply strip_suffix_app].
  revert t; induction s as [|c s IH]; intros t; cbn; destruct (decide _) as [Heq|Hne].
  - intros [= <-]. by rewrite <- Heq.
  - done.
  - intros [= <-]. done.
  - rewrite fmap_Some. intros (t' & Hs & ->). by rewrite (IH _ Hs).
Qed.

Lemma HasSuffix_spec s suf : HasSuffix s suf = true ↔ ∃ t, s = t +:+ suf.
Proof.
  unfold HasSuffix. rewrite bool_decide_eq_true. unfold is_Some.
  by setoid_rewrite strip_suffix_Some.
Qed.

Lemma HasSuffix_app t suf : HasSuffix (t +:+ suf) suf = true.
Proof. apply HasSuffix_spec. by exists t. Qed.

Lemma TrimSuffix_app t suf : TrimSuffix (t +:+ suf) suf = t.
Proof. unfold TrimSuffix. by rewrite (proj2 (strip_suffix_Some suf (t +:+ suf) t)). Qed.

Lemma HasPrefix_spec s p : HasPrefix s p = true ↔ ∃ t, s = p +:+ t.
Proof.
  unfold HasPrefix. rewrite bool_decide_eq_true. unfold is_Some.
  by setoid_rewrite strip_prefix_Some.
Qed.

Lemma TrimPrefix_app p t : TrimPrefix (p +:+ t) p = t.
Proof. unfold TrimPrefix. by rewrite (proj2 (strip_prefix_Some p (p +:+ t) t)). Qed.

Lemma code_bounds c : is_byte (code c).
Proof.
  unfold is_byte, code. pose proof (N_ascii_bounded c). lia.
Qed.

Lemma char_code c : char (code c) = c.
Proof. unfold char, code. rewrite N2Z.id. apply ascii_N_embedding. Qed.

Lemma code_char b : is_byte b → code (char b) = b.
Proof.
  unfold is_byte, char, code. intros. rewrite N_ascii_embedding by lia. lia.
Qed.

Lemma length_put_u16_le v : length (put_u16_le v) = 2%nat.
Proof. done. Qed.
Lemma length_be_bytes n v : length (be_bytes n v) = n.
Proof.
  revert v; induction n as [|n IH]; intros v; [done|].
  cbn [be_bytes]. rewrite length_app, IH. apply Nat.add_1_r.
Qed.

Lemma be_value_app xs ys :
  be_value (xs ++ ys) = be_value xs * 256 ^ Z.of_nat (length ys) + be_value ys.
Proof.
  unfold be_value. rewrite foldl_app. generalize (foldl (λ a b, a * 256 + b) 0 xs).
  induction ys as [|y ys IH] using rev_ind; intros a.
  { cbn. lia. }
  rewrite !foldl_app, length_app, Nat2Z.inj_add, Z.pow_add_r by lia. cbn.
  rewrite IH. change (256 ^ Z.of_nat 1) with 256. lia.
Qed.

Lemma be_value_snoc xs b : be_value (xs ++ [b]) = be_value xs * 256 + b.
Proof. unfold be_value. by rewrite foldl_app. Qed.

Lemma be_value_be_bytes n v : be_value (be_bytes n v) = v mod 256 ^ Z.of_nat n.
Proof.
  revert v; induction n as [|n IH]; intros v; cbn [be_bytes].
  { cbn. by rewrite Z.mod_1_r. }
  rewrite be_value_snoc, IH, Nat2Z.inj_succ, Z.pow_succ_r by lia.
  rewrite Z.rem_mul_r; [lia|lia|]. apply Z.pow_pos_nonneg; lia.
Qed.

Lemma be_bytes_be_value bs :
  Forall is_byte bs → be_bytes (length bs) (be_value bs) = bs.
Proof.
  induction bs as [|b bs IH] using rev_ind; intros Hb; [done|].
  apply Forall_app in Hb as [Hbs [Hb _]%Forall_cons]. unfold is_byte in Hb.
  rewrite length_app, Nat.add_1_r. cbn [be_bytes]. rewrite be_value_snoc.
  rewrite Z.div_add_l, (Z.div_small b), Z.add_0_r by lia.
  rewrite IH by done. rewrite Z.add_comm, Z.mod_add, Z.mod_small by lia. done.
Qed.

Lemma be_bytes_is_byte n v : Forall is_byte (be_bytes n v).
Proof.
  revert v; induction n as [|n IH]; intros v; cbn; [constructor|].
  apply Forall_app. split; [apply IH|]. repeat constructor; apply Z.mod_pos_bound; lia.
Qed.

Lemma be_value_nonneg bs : Forall is_byte bs → 0 ≤ be_value bs < 256 ^ Z.of_nat (length bs).
Proof.
  intros Hb. rewrite <- (be_bytes_be_value bs Hb) at 1 2.
  rewrite be_value_be_bytes. apply Z.mod_pos_bound. apply Z.pow_pos_nonneg; lia.
Qed.

#[export] Hint Rewrite string_app_assoc string_app_nil_r TrimSuffix_app TrimPrefix_app
  HasSuffix_app length_be_bytes be_value_be_bytes : machine.

(** ** Splitting at a separator *)

(** [s] does not contain [c]. *)
Fixpoint char_free (c : ascii) (s : string) : bool :=
  match s with
  | EmptyString => true
  | String a s' => if decide (a = c) then false else char_free c s'
  end.

Lemma Split_free sep s : char_free sep s = true → Split sep s = [s].
Proof.
  induction s as [|c s IH]; cbn; [done|].
  destruct (decide (c = sep)); [done|]. intros H. by rewrite IH.
Qed.

Lemma Split_cons sep s t :
  char_free sep s = true → Split sep (s +:+ String sep t) = s :: Split sep t.
Proof.
  induction s as [|c s IH]; [rewrite string_app_nil_l; cbn; by rewrite decide_True|].
  rewrite string_app_cons. cbn.
  destruct (decide (c = sep)); [done|]. intros H. by rewrite IH.
Qed.

Lemma IndexByte_None s c : IndexByte s c = None ↔ char_free c s = true.
Proof.
  induction s as [|a s IH]; cbn; [done|]. destruct (decide (a = c)); [done|].
  rewrite fmap_None. apply IH.
Qed.

(** ** Decimal numbers *)

Lemma digit_val_pretty d : (d < 10)%N → digit_val (pretty_N_char d) = Some (Z.of_N d).
Proof.
  intros Hd. assert (Z.of_N d ∈ seqZ 0 10) as Hin by (apply elem_of_seqZ; lia).
  rewrite <- (N2Z.id d). revert Hin. generalize (Z.of_N d) as z. intros z Hin.
  vm_compute in Hin. repeat (apply elem_of_cons in Hin as [->|Hin]; [by vm_compute|]).
  by apply elem_of_nil in Hin.
Qed.

Lemma digits_val_go x s : digits_val (pretty_N_go x s) 0 = digits_val s (Z.of_N x).
Proof.
  revert s. induction x as [x IH] using (well_founded_induction N.lt_wf_0). intros s.
  destruct (decide (x = 0%N)) as [->|Hx]; [by rewrite pretty_N_go_0|].
  rewrite pretty_N_go_step by lia. rewrite IH by (apply N.div_lt; lia). cbn [digits_val].
  rewrite digit_val_pretty by (apply N.mod_lt; lia). cbn. f_equal.
  rewrite N2Z.inj_div, N2Z.inj_mod. pose proof (Z.div_mod (Z.of_N x) (Z.of_N 10)). lia.
Qed.

(** No character that is not a digit occurs in a decimal number. *)
Lemma char_free_go c x s :
  digit_val c = None → char_free c s = true → char_free c (pretty_N_go x s) = true.
Proof.
  intros Hc. revert s. induction x as [x IH] using (well_founded_induction N.lt_wf_0). intros s Hs.
  destruct (decide (x = 0%N)) as [->|Hx]; [by rewrite pretty_N_go_0|].
  rewrite pretty_N_go_step by lia. apply IH; [apply N.div_lt; lia|]. cbn [char_free].
  rewrite decide_False; [done|]. intros He.
  pose proof (digit_val_pretty (x mod 10) ltac:(apply N.mod_lt; lia)). congruence.
Qed.

Lemma Itoa_N z : 0 ≤ z →
  Itoa z = if decide (z = 0) then "0" else pretty_N_go (Z.to_N z) "".
Proof.
  intros Hz. unfold Itoa, pretty. destruct z as [|p|p]; [by vm_compute|by rewrite decide_False|lia].
Qed.

Lemma digits_val_Itoa z : 0 ≤ z → digits_val (Itoa z) 0 = Some z.
Proof.
  intros Hz. rewrite Itoa_N by done. case_decide; [by subst|].
  rewrite digits_val_go. cbn. by rewrite Z2N.id.
Qed.

Lemma char_free_Itoa c z : 0 ≤ z → digit_val c = None → char_free c (Itoa z) = true.
Proof.
  intros Hz Hc. rewrite Itoa_N by done. case_decide; [|by apply char_free_go].
  cbn. rewrite decide_False; [done|]. intros <-. done.
Qed.

Lemma digits_head s n : digits_val s n ≠ None → s = "" ∨ ∃ c t, s = String c t ∧ digit_val c ≠ None.
Proof. destruct s as [|c t]; [by left|]. cbn. right. exists c, t. by destruct (digit_val c). Qed.

Lemma Itoa_head z : 0 ≤ z → ∃ c t, Itoa z = String c t ∧ digit_val c ≠ None.
Proof.
  intros Hz. pose proof (digits_val_Itoa z Hz) as Hd.
  destruct (digits_head (Itoa z) 0) as [He|]; [congruence| |done].
  rewrite Itoa_N in He by done. case_decide as Hz0; [done|]. exfalso.
  pose proof (digits_val_go (Z.to_N z) "") as Hg. rewrite He in Hg. cbn in Hg.
  injection Hg as Hg. lia.
Qed.

Lemma Atoi_Itoa z : 0 ≤ z < 2 ^ 63 → Atoi (Itoa z) = Ok z.
Proof.
  intros Hz. destruct (Itoa_head z) as (c & t & He & Hc); [lia|].
  pose proof (digits_val_Itoa z ltac:(lia)) as Hd. unfold Atoi.
  assert (c ≠ "-"%char ∧ c ≠ "+"%char) as [H1 H2] by (split; intros ->; by apply Hc).
  rewrite He in *.
  destruct c as [[] [] [] [] [] [] [] []]; try done; rewrite Hd; by rewrite decide_True by lia.
Qed.

Lemma ParseUint_Itoa z n : 0 ≤ z < 2 ^ n → ParseUint (Itoa z) n = Ok z.
Proof.
  intros Hz. destruct (Itoa_head z) as (c & t & He & _); [lia|].
  pose proof (digits_val_Itoa z ltac:(lia)) as Hd. unfold ParseUint. rewrite He in *.
  rewrite Hd. by rewrite decide_True by lia.
Qed.
