(* ===== verification/GoNet.v ===== *)
(** The parts of Go's [net] package that the program uses: IP addresses, masks
    and networks, hardware addresses, and host:port strings.  An [net.IP] is its
    byte slice ([[]] is nil); the accepted and printed texts are the library's. *)
From Stdlib Require Import Ascii String.
From S2P Require Import Prelude GoStrings.

Local Open Scope string_scope.
Local Open Scope list_scope.
Local Open Scope Z_scope.

(** ** IP addresses *)

Definition v4InV6Prefix : list Z := replicate 10 0 ++ [255; 255].

(** [net.IPv4(a, b, c, d)]: the 16-byte form. *)
Definition v4in6 (ip4 : list Z) : list Z := v4InV6Prefix ++ ip4.

Definition To4 (ip : list Z) : list Z :=
  if decide (length ip = 4%nat) then ip
  else if decide (length ip = 16%nat ∧ take 12 ip = v4InV6Prefix) then drop 12 ip
  else [].

Definition To16 (ip : list Z) : list Z :=
  if decide (length ip = 4%nat) then v4in6 ip
  else if decide (length ip = 16%nat) then ip else [].

Definition IP_Equal (ip x : list Z) : bool :=
  if decide (length ip = length x) then bool_decide (ip = x)
  else if decide (length ip = 4%nat ∧ length x = 16%nat) then
    bool_decide (take 12 x = v4InV6Prefix ∧ ip = drop 12 x)
  else if decide (length ip = 16%nat ∧ length x = 4%nat) then
    bool_decide (take 12 ip = v4InV6Prefix ∧ drop 12 ip = x)
  else false.

(** *** Parsing *)

(** The four decimal fields of an IPv4 text ([parseIPv4Fields]). *)
Fixpoint parseIPv4_loop (s : string) (first prev_dot : bool) (val digLen : Z)
    (fields : list Z) : option (list Z) :=
  match s with
  | EmptyString => if decide (length fields < 3)%nat then None else Some (fields ++ [val])
  | String c s' =>
      match digit_val c with
      | Some d =>
          if decide (digLen = 1 ∧ val = 0) then None
          else let val' := val * 10 + d in
               if decide (val' > 255) then None
               else parseIPv4_loop s' false false val' (digLen + 1) fields
      | None =>
          if decide (c = "."%char) then
            if first || prev_dot || bool_decide (s' = EmptyString) then None
            else if decide (length fields = 3%nat) then None
            else parseIPv4_loop s' false true 0 0 (fields ++ [val])
          else None
      end
  end.
Definition parseIPv4 (s : string) : option (list Z) := parseIPv4_loop s true false 0 0 [].

(** One group of hexadecimal digits: its length, its value and the rest. *)
Fixpoint scan_hex (s : string) (off acc : Z) : option (Z * Z * string) :=
  match s with
  | EmptyString => Some (off, acc, s)
  | String c s' =>
      match hex_val c with
      | None => Some (off, acc, s)
      | Some d =>
          let acc' := acc * 16 + d in
          if decide (off > 3 ∨ acc' > 65535) then None
          else scan_hex s' (off + 1) acc'
      end
  end.

(** The groups of an IPv6 text: bytes so far, position of the ellipsis, the
    unread text.  At most eight groups are read. *)
Fixpoint parseIPv6_loop (fuel : nat) (s : string) (ip : list Z) (ellipsis : option nat)
    : option (list Z * option nat * string) :=
  match fuel with
  | O => Some (ip, ellipsis, s)
  | S fuel' =>
      match scan_hex s 0 0 with
      | None => None
      | Some (off, acc, rest) =>
          if decide (off = 0) then None
          else if HasPrefix rest "." then
            if decide (ellipsis = None ∧ length ip ≠ 12%nat) then None
            else if decide (16 < length ip + 4)%nat then None
            else v4 ← parseIPv4 s; Some (ip ++ v4, ellipsis, EmptyString)
          else
            let ip' := ip ++ [acc / 256; acc mod 256] in
            match rest with
            | EmptyString => Some (ip', ellipsis, EmptyString)
            | String c rest1 =>
                if decide (c ≠ ":"%char ∨ rest1 = EmptyString) then None
                else match rest1 with
                     | String ":" rest2 =>
                         match ellipsis with
                         | Some _ => None
                         | None =>
                             match rest2 with
                             | EmptyString => Some (ip', Some (length ip'), EmptyString)
                             | _ => parseIPv6_loop fuel' rest2 ip' (Some (length ip'))
                             end
                         end
                     | _ => parseIPv6_loop fuel' rest1 ip' ellipsis
                     end
            end
      end
  end.

Definition parseIPv6 (s : string) : option (list Z) :=
  let '(s1, e1) := match strip_prefix "::" s with
                   | Some t => (t, Some O)
                   | None => (s, None)
                   end in
  if bool_decide (s1 = EmptyString ∧ e1 = Some O) then Some (replicate 16 0)
  else
    match parseIPv6_loop 8 s1 [] e1 with
    | Some (ip, e, EmptyString) =>
        if decide (length ip < 16)%nat then
          match e with
          | None => None
          | Some n => Some (take n ip ++ replicate (16 - length ip) 0 ++ drop n ip)
          end
        else match e with Some _ => None | None => Some ip end
    | _ => None
    end.

(** The kind of a textual address: decided by its first '.' or ':'; an address
    with a zone is not a [net.IP]. *)
Fixpoint addr_kind (s : string) : option bool :=
  match s with
  | EmptyString => None
  | String "." _ => Some true
  | String ":" _ => Some false
  | String "%" _ => None
  | String _ s' => addr_kind s'
  end.

Definition ParseIP (s : string) : list Z :=
  match addr_kind s with
  | Some true => match parseIPv4 s with Some ip => v4in6 ip | None => [] end
  | Some false =>
      if char_free "%" s then match parseIPv6 s with Some ip => ip | None => [] end else []
  | None => []
  end.

(** *** Printing *)

Definition v4_string (ip4 : list Z) : string :=
  match ip4 with
  | [a; b; c; d] =>
      Itoa a +:+ "." +:+ Itoa b +:+ "." +:+ Itoa c +:+ "." +:+ Itoa d
  | _ => EmptyString
  end.

(** Hexadecimal without leading zeros. *)
Definition hex16 (v : Z) : string :=
  let ds := [v / 4096; v / 256 mod 16; v / 16 mod 16; v mod 16] in
  let fix strip (l : list Z) :=
    match l with
    | [d] => String (hex_digit d) EmptyString
    | 0 :: l' => strip l'
    | _ => string_of_list_ascii (hex_digit <$> l)
    end in
  strip ds.

Fixpoint groups (bs : list Z) : list Z :=
  match bs with
  | a :: b :: bs' => (a * 256 + b) :: groups bs'
  | _ => []
  end.

(** Length of the run of zero groups at the head. *)
Fixpoint zero_run (gs : list Z) : nat :=
  match gs with
  | g :: gs' => if decide (g = 0) then S (zero_run gs') else O
  | [] => O
  end.

(** The first longest run of at least two zero groups: start and end. *)
Fixpoint longest_run (i : nat) (gs : list Z) (best : nat * nat) : nat * nat :=
  match gs with
  | [] => best
  | _ :: gs' =>
      let l := zero_run gs in
      longest_run (S i) gs'
        (if decide (2 ≤ l ∧ best.2 - best.1 < l)%nat then (i, i + l)%nat else best)
  end.

Fixpoint join_hex (gs : list Z) : string :=
  match gs with
  | [] => EmptyString
  | [g] => hex16 g
  | g :: gs' => hex16 g +:+ ":" +:+ join_hex gs'
  end.

Definition v6_string (ip : list Z) : string :=
  let gs := groups ip in
  let '(s, e) := longest_run 0 gs (255, 255)%nat in
  if decide (s = 255%nat) then join_hex gs
  else join_hex (take s gs) +:+ "::" +:+ join_hex (drop e gs).

Fixpoint hexString (bs : list Z) : string :=
  match bs with [] => EmptyString | b :: bs' => hex2 b +:+ hexString bs' end.

Definition IP_String (ip : list Z) : string :=
  if decide (ip = []) then "<nil>"
  else if decide (length ip ≠ 4 ∧ length ip ≠ 16)%nat then "?" +:+ hexString ip
  else match To4 ip with
       | [] => v6_string ip
       | ip4 => v4_string ip4
       end.

(** ** Networks *)

Record IPNet := { net_IP : list Z; net_Mask : list Z }.

(** Number of leading one bits of a byte whose other bits are zero. *)
Definition ones8 (v : Z) : option Z :=
  match v with
  | 0 => Some 0 | 128 => Some 1 | 192 => Some 2 | 224 => Some 3 | 240 => Some 4
  | 248 => Some 5 | 252 => Some 6 | 254 => Some 7
  | _ => None
  end.

Fixpoint simpleMaskLength (m : list Z) : option Z :=
  match m with
  | [] => Some 0
  | v :: m' =>
      if decide (v = 255) then Z.add 8 <$> simpleMaskLength m'
      else n ← ones8 v; if decide (Forall (λ b, b = 0) m') then Some n else None
  end.

(** [IPMask.Size]: number of leading ones and total bits, (0, 0) if not canonical. *)
Definition Mask_Size (m : list Z) : Z * Z :=
  match simpleMaskLength m with
  | Some n => (n, 8 * Z.of_nat (length m))
  | None => (0, 0)
  end.

(** [net.CIDRMask(ones, bits)] for [0 <= ones <= bits]. *)
Fixpoint CIDRMask_bytes (l : nat) (n : Z) : list Z :=
  match l with
  | O => []
  | S l' =>
      if decide (n >= 8) then 255 :: CIDRMask_bytes l' (n - 8)
      else (255 - 255 / 2 ^ n) :: CIDRMask_bytes l' 0
  end.
Definition CIDRMask (ones bits : Z) : list Z := CIDRMask_bytes (Z.to_nat (bits / 8)) ones.

Definition IP_Mask (ip mask : list Z) : list Z :=
  let mask := if decide (length mask = 16%nat ∧ length ip = 4%nat ∧ take 12 mask = replicate 12 255)
              then drop 12 mask else mask in
  let ip := if decide (length mask = 4%nat ∧ length ip = 16%nat ∧ take 12 ip = v4InV6Prefix)
            then drop 12 ip else ip in
  if decide (length ip = length mask) then zip_with Z.land ip mask else [].

(** [dtoi]: the decimal prefix length of a CIDR text. *)
Definition dtoi_all (s : string) : option Z :=
  match s with
  | EmptyString => None
  | _ => n ← digits_val s 0; if decide (n >= 16777215) then None else Some n
  end.

Definition ParseCIDR (s : string) : res (list Z * IPNet) :=
  let err := Err (ErrStd "net.ParseCIDR: invalid CIDR address" s) in
  match IndexByte s "/" with
  | None => err
  | Some i =>
      let ip := ParseIP (str_take i s) in
      let bits := match addr_kind (str_take i s) with Some true => 32 | _ => 128 end in
      match ip, dtoi_all (str_drop (S i) s) with
      | _ :: _, Some n =>
          if decide (n > bits) then err
          else let m := CIDRMask n bits in
               Ok (ip, {| net_IP := IP_Mask ip m; net_Mask := m |})
      | _, _ => err
      end
  end.

(** ** Hardware addresses *)

(** [xtoi2]: two hexadecimal digits, followed by the end or by [sep]. *)
Definition xtoi2 (s : string) (sep : option ascii) : option Z :=
  match s with
  | String a (String b rest) =>
      match rest with
      | String c _ => if decide (Some c = sep) then (x ← hex_val a; y ← hex_val b; Some (x * 16 + y)) else None
      | EmptyString => x ← hex_val a; y ← hex_val b; Some (x * 16 + y)
      end
  | _ => None
  end.

Definition mac_len (n : nat) : bool := bool_decide (n ∈ [6; 8; 20]%nat).

Fixpoint mac_colon (n : nat) (s : string) (sep : ascii) : option (list Z) :=
  match n with
  | O => Some []
  | S n' =>
      b ← xtoi2 s (Some sep);
      bs ← mac_colon n' (str_drop 3 s) sep;
      Some (b :: bs)
  end.

Fixpoint mac_dot (n : nat) (s : string) : option (list Z) :=
  match n with
  | O => Some []
  | S n' =>
      a ← xtoi2 (str_take 2 s) None;
      b ← xtoi2 (str_drop 2 s) (Some "."%char);
      bs ← mac_dot n' (str_drop 5 s);
      Some (a :: b :: bs)
  end.

Definition ParseMAC (s : string) : res (list Z) :=
  let l := String.length s in
  let err := Err (ErrStd "net.ParseMAC: invalid MAC address" s) in
  if decide (l < 14)%nat then err
  else
    match String.get 2 s, String.get 4 s with
    | Some c2, Some c4 =>
        if decide (c2 = ":"%char ∨ c2 = "-"%char) then
          if decide ((l + 1) mod 3 ≠ 0)%nat then err
          else if negb (mac_len ((l + 1) / 3)) then err
          else match mac_colon ((l + 1) / 3) s c2 with Some m => Ok m | None => err end
        else if decide (c4 = "."%char) then
          if decide ((l + 1) mod 5 ≠ 0)%nat then err
          else if negb (mac_len (2 * (l + 1) / 5)) then err
          else match mac_dot ((l + 1) / 5) s with Some m => Ok m | None => err end
        else err
    | _, _ => err
    end.

Fixpoint HardwareAddr_String (hw : list Z) : string :=
  match hw with
  | [] => EmptyString
  | [b] => hex2 b
  | b :: hw' => hex2 b +:+ ":" +:+ HardwareAddr_String hw'
  end.

(** ** host:port *)

Definition SplitHostPort (hostport : string) : res (string * string) :=
  let err why := Err (ErrStd why hostport) in
  match LastIndexByte hostport ":" with
  | None => err "missing port in address"
  | Some i =>
      let port := str_drop (S i) hostport in
      let finish host j k :=
        if negb (char_free "[" (str_drop j hostport)) then err "unexpected '[' in address"
        else if negb (char_free "]" (str_drop k hostport)) then err "unexpected ']' in address"
        else Ok (host, port) in
      match hostport with
      | String "[" _ =>
          match IndexByte hostport "]" with
          | None => err "missing ']' in address"
          | Some e =>
              if decide (S e = String.length hostport) then err "missing port in address"
              else if decide (S e = i) then finish (str_take (e - 1) (str_drop 1 hostport)) 1%nat (S e)
              else if decide (String.get (S e) hostport = Some ":"%char)
                   then err "too many colons in address"
              else err "missing port in address"
          end
      | _ =>
          let host := str_take i hostport in
          if negb (char_free ":" host) then err "too many colons in address"
          else finish host O O
      end
  end.

Definition JoinHostPort (host port : string) : string :=
  if char_free ":" host then host +:+ ":" +:+ port else "[" +:+ host +:+ "]:" +:+ port.

(** ** IPv4 print/parse round trip *)

(** A 4-byte address. *)
Definition is_ip4 (ip : list Z) : Prop := length ip = 4%nat ∧ Forall is_byte ip.

Lemma is_ip4_inv ip :
  is_ip4 ip → ∃ a b c d, ip = [a; b; c; d] ∧ is_byte a ∧ is_byte b ∧ is_byte c ∧ is_byte d.
Proof.
  intros [Hl Hf]. destruct ip as [|a [|b [|c [|d [|]]]]]; try done.
  rewrite !Forall_cons in Hf. naive_solver.
Qed.

Lemma octets_elem b : is_byte b → b ∈ seqZ 0 256.
Proof. intros. apply elem_of_seqZ. unfold is_byte in *. lia. Qed.

Definition octet_len (b : Z) : Z :=
  if decide (b < 10) then 1 else if decide (b < 100) then 2 else 3.

(** The decimal text of an octet has one, two or three digits. *)
Definition octet_text (b : Z) : string :=
  if decide (b < 10) then String (char (48 + b)) ""
  else if decide (b < 100) then String (char (48 + b / 10)) (String (char (48 + b mod 10)) "")
  else String (char (48 + b / 100))
         (String (char (48 + b / 10 mod 10)) (String (char (48 + b mod 10)) "")).

Lemma Itoa_octets : Forall (λ b, Itoa b = octet_text b) (seqZ 0 256).
Proof. apply (bool_decide_unpack _). by vm_compute. Qed.

Lemma Itoa_octet b : is_byte b → Itoa b = octet_text b.
Proof.
  intros Hb%octets_elem. pose proof Itoa_octets as H. rewrite Forall_forall in H. by apply H.
Qed.

Lemma digit_val_char d : 0 ≤ d ≤ 9 → digit_val (char (48 + d)) = Some d.
Proof.
  intros Hd. unfold digit_val. rewrite code_char by (unfold is_byte; lia).
  rewrite decide_True by lia. f_equal. lia.
Qed.

Lemma parse_digit d s fi pd v dl fs :
  0 ≤ d ≤ 9 → ¬ (dl = 1 ∧ v = 0) → v * 10 + d ≤ 255 →
  parseIPv4_loop (String (char (48 + d)) s) fi pd v dl fs =
    parseIPv4_loop s false false (v * 10 + d) (dl + 1) fs.
Proof.
  intros Hd Hz Hv. cbn [parseIPv4_loop]. rewrite digit_val_char by done. cbv beta iota.
  by rewrite decide_False, decide_False by lia.
Qed.

(** Reading back the decimal text of one octet. *)
Lemma parse_octet b rest fi pd fs : is_byte b →
  parseIPv4_loop (Itoa b +:+ rest) fi pd 0 0 fs =
    parseIPv4_loop rest false false b (octet_len b) fs.
Proof.
  intros Hb. rewrite Itoa_octet by done. unfold octet_text, octet_len, is_byte in *.
  pose proof (Z.div_mod b 10). pose proof (Z.mod_pos_bound b 10).
  pose proof (Z.div_mod (b / 10) 10). pose proof (Z.mod_pos_bound (b / 10) 10).
  assert (b / 100 = b / 10 / 10) as E by (rewrite Z.div_div by lia; done).
  repeat case_decide; rewrite ?string_app_cons, string_app_nil_l;
    rewrite ?E, !parse_digit by lia; f_equal; lia.
Qed.

Lemma addr_kind_digit d s : 0 ≤ d ≤ 9 → addr_kind (String (char (48 + d)) s) = addr_kind s.
Proof.
  intros Hd.
  assert (d ∈ seqZ 0 10) as Hin by (apply elem_of_seqZ; lia).
  vm_compute in Hin. repeat (apply elem_of_cons in Hin as [->|Hin]; [done|]).
  by apply elem_of_nil in Hin.
Qed.

Lemma addr_kind_octet b rest : is_byte b → addr_kind (Itoa b +:+ rest) = addr_kind rest.
Proof.
  intros Hb. rewrite Itoa_octet by done. unfold octet_text, is_byte in *.
  pose proof (Z.div_mod b 10). pose proof (Z.mod_pos_bound b 10).
  pose proof (Z.div_mod (b / 10) 10). pose proof (Z.mod_pos_bound (b / 10) 10).
  assert (b / 100 = b / 10 / 10) as E by (rewrite Z.div_div by lia; done).
  repeat case_decide; rewrite ?string_app_cons, string_app_nil_l;
    by rewrite ?E, !addr_kind_digit by lia.
Qed.

Lemma Itoa_nonempty b rest : is_byte b → Itoa b +:+ rest ≠ "".
Proof.
  intros Hb. rewrite Itoa_octet by done. unfold octet_text.
  by repeat case_decide; rewrite ?string_app_cons.
Qed.

Lemma parse_dot s v dl fs :
  s ≠ "" → (length fs < 3)%nat →
  parseIPv4_loop ("." +:+ s) false false v dl fs =
    parseIPv4_loop s false true 0 0 (fs ++ [v]).
Proof.
  intros Hs Hl. change ("." +:+ s) with (String "." s). cbn [parseIPv4_loop].
  change (digit_val ".") with (@None Z). cbv iota beta.
  rewrite decide_True by done. rewrite bool_decide_eq_false_2 by done. cbn [orb].
  by rewrite decide_False by lia.
Qed.

Lemma parseIPv4_v4_string ip : is_ip4 ip → parseIPv4 (v4_string ip) = Some ip.
Proof.
  intros (a & b & c & d & -> & Ha & Hb & Hc & Hd)%is_ip4_inv.
  unfold parseIPv4, v4_string.
  rewrite parse_octet, parse_dot by (done || by apply Itoa_nonempty || (cbn; lia)).
  rewrite parse_octet, parse_dot by (done || by apply Itoa_nonempty || (cbn; lia)).
  rewrite parse_octet, parse_dot
    by (done || (rewrite <- (string_app_nil_r (Itoa d)); by apply Itoa_nonempty) || (cbn; lia)).
  rewrite <- (string_app_nil_r (Itoa d)). by rewrite parse_octet.
Qed.

Lemma addr_kind_v4_string ip : is_ip4 ip → addr_kind (v4_string ip) = Some true.
Proof.
  intros (a & b & c & d & -> & Ha & _)%is_ip4_inv. cbn [v4_string].
  by rewrite addr_kind_octet.
Qed.

Lemma To4_ip4 ip : is_ip4 ip → To4 ip = ip.
Proof. intros [Hl _]. unfold To4. by rewrite decide_True. Qed.

Lemma To4_v4in6 ip : is_ip4 ip → To4 (v4in6 ip) = ip.
Proof.
  intros [Hl _]. unfold To4, v4in6.
  rewrite decide_False by (rewrite length_app, Hl; done).
  rewrite decide_True; [done|]. rewrite length_app, Hl. done.
Qed.

Lemma IP_String_ip4 ip : is_ip4 ip → IP_String ip = v4_string ip.
Proof.
  intros Hip. unfold IP_String. rewrite (To4_ip4 _ Hip).
  apply is_ip4_inv in Hip as (a & b & c & d & -> & _). done.
Qed.

Lemma IP_String_v4in6 ip : is_ip4 ip → IP_String (v4in6 ip) = v4_string ip.
Proof.
  intros Hip. unfold IP_String. rewrite (To4_v4in6 _ Hip).
  apply is_ip4_inv in Hip as (a & b & c & d & -> & _). done.
Qed.

Lemma ParseIP_v4_string ip : is_ip4 ip → ParseIP (v4_string ip) = v4in6 ip.
Proof.
  intros Hip. unfold ParseIP. by rewrite addr_kind_v4_string, parseIPv4_v4_string.
Qed.

Lemma v4_string_inj ip1 ip2 :
  is_ip4 ip1 → is_ip4 ip2 → v4_string ip1 = v4_string ip2 → ip1 = ip2.
Proof.
  intros H1 H2 He. apply parseIPv4_v4_string in H1, H2. congruence.
Qed.

(** A printed IPv4 address has no separator of a host:port pair. *)
Lemma char_free_app c s t : char_free c (s +:+ t) = char_free c s && char_free c t.
Proof.
  induction s as [|a s IH]; [done|]. rewrite string_app_cons. cbn.
  by destruct (decide (a = c)).
Qed.

Lemma octet_chars :
  Forall (λ b, char_free ":" (Itoa b) = true ∧ char_free "[" (Itoa b) = true ∧
               char_free "]" (Itoa b) = true ∧ char_free "." (Itoa b) = true) (seqZ 0 256).
Proof. apply (bool_decide_unpack _). by vm_compute. Qed.

Lemma v4_string_char_free c ip :
  is_ip4 ip → c ∈ [":"; "["; "]"]%char → char_free c (v4_string ip) = true.
Proof.
  intros (x & y & z & w & -> & Hx & Hy & Hz & Hw)%is_ip4_inv Hc. cbn [v4_string].
  pose proof octet_chars as H. rewrite Forall_forall in H.
  apply octets_elem, H in Hx as (?&?&?&_), Hy as (?&?&?&_), Hz as (?&?&?&_), Hw as (?&?&?&_).
  rewrite !char_free_app.
  repeat (apply elem_of_cons in Hc as [->|Hc]; [by repeat match goal with H : char_free _ _ = true |- _ => rewrite H; clear H end|]).
  by apply elem_of_nil in Hc.
Qed.

#[export] Hint Rewrite To4_ip4 To4_v4in6 IP_String_ip4 IP_String_v4in6 ParseIP_v4_string
  using done : machine.

(** The text of an IPv4 address parses back to the same address: whatever
    4-byte address the program prints (lease keys, dial targets), [net.ParseIP]
    recovers it in its 16-byte form, and [To4] brings back the original bytes. *)
Theorem ParseIP_String_roundtrip ip :
  is_ip4 ip → ParseIP (IP_String ip) = v4in6 ip ∧ To4 (ParseIP (IP_String ip)) = ip.
Proof.
  intros Hip. rewrite IP_String_ip4, ParseIP_v4_string, To4_v4in6 by done. done.
Qed.

(** ** Splitting host:port *)

Lemma LastIndexByte_None s c : char_free c s = true → LastIndexByte s c = None.
Proof.
  induction s as [|a s IH]; cbn; [done|]. destruct (decide (a = c)); [done|].
  intros Hs. by rewrite IH.
Qed.

Lemma LastIndexByte_app s c t :
  char_free c t = true → LastIndexByte (s +:+ String c t) c = Some (String.length s).
Proof.
  intros Ht. induction s as [|a s IH].
  - rewrite string_app_nil_l. cbn. by rewrite LastIndexByte_None, decide_True.
  - rewrite string_app_cons. cbn. by rewrite IH.
Qed.

Lemma str_take_app s t : str_take (String.length s) (s +:+ t) = s.
Proof. induction s as [|a s IH]; [done|]. rewrite string_app_cons. cbn. by rewrite IH. Qed.

Lemma str_drop_app s t : str_drop (String.length s) (s +:+ t) = t.
Proof. induction s as [|a s IH]; [done|]. rewrite string_app_cons. cbn. by rewrite IH. Qed.

Lemma str_drop_S_app s c t : str_drop (S (String.length s)) (s +:+ String c t) = t.
Proof. induction s as [|a s IH]; [done|]. rewrite string_app_cons. cbn. apply IH. Qed.

(** A text without the separators of [host:port]. *)
Definition plain (s : string) : Prop :=
  char_free ":" s = true ∧ char_free "[" s = true ∧ char_free "]" s = true.

Lemma plain_Itoa z : 0 ≤ z → plain (Itoa z).
Proof. intros Hz. split_and!; by apply char_free_Itoa. Qed.
Lemma plain_v4_string ip : is_ip4 ip → plain (v4_string ip).
Proof. intros Hip. split_and!; (apply v4_string_char_free; [done|]); set_solver. Qed.
#[export] Hint Resolve plain_Itoa plain_v4_string : core.

Lemma SplitHostPort_plain host port :
  plain host → plain port → SplitHostPort (host +:+ ":" +:+ port) = Ok (host, port).
Proof.
  intros (Hh1 & Hh2 & Hh3) (Hp1 & Hp2 & Hp3). unfold SplitHostPort.
  change (":" +:+ port) with (String ":" port).
  rewrite LastIndexByte_app by done.
  rewrite str_drop_S_app, str_take_app. cbn [str_drop]. rewrite !char_free_app.
  cbn [char_free]. rewrite Hh1, Hh2, Hh3, !decide_False, Hp2, Hp3 by done. cbn [negb andb].
  destruct host as [|c host]; [done|]. rewrite string_app_cons.
  cbn [char_free] in Hh2. destruct (decide (c = "["%char)); [done|].
  destruct c as [[] [] [] [] [] [] [] []]; done.
Qed.
