(* ===== verification/GoURL.v ===== *)
(** The parts of Go's [path] and [net/url] packages that the program uses:
    [path.Join], and the query of a request. *)
From Stdlib Require Import Ascii String.
From S2P Require Import Prelude GoStrings GoNet.

Local Open Scope string_scope.
Local Open Scope list_scope.
Local Open Scope Z_scope.

(** ** path *)

Fixpoint join_with (sep : string) (l : list string) : string :=
  match l with
  | [] => ""
  | [s] => s
  | s :: l => s +:+ sep +:+ join_with sep l
  end.

(** The elements of a path one after the other; [out] is reversed. *)
Fixpoint clean_loop (rooted : bool) (out elems : list string) : list string :=
  match elems with
  | [] => rev out
  | e :: elems =>
      if decide (e = "" ∨ e = ".") then clean_loop rooted out elems
      else if decide (e = "..") then
        match out with
        | o :: out' => if decide (o = "..") then clean_loop rooted (e :: out) elems else clean_loop rooted out' elems
        | [] => clean_loop rooted (if rooted then [] else [e]) elems
        end
      else clean_loop rooted (e :: out) elems
  end.

(** [path.Clean]. *)
Definition path_Clean (p : string) : string :=
  if decide (p = "") then "."
  else
    let rooted := HasPrefix p "/" in
    let s := join_with "/" (clean_loop rooted [] (Split "/" p)) in
    if rooted then "/" +:+ s else if decide (s = "") then "." else s.

(** [path.Join]: empty elements are left out. *)
Definition path_Join (elems : list string) : string :=
  match filter (λ e, e ≠ "") elems with
  | [] => ""
  | l => path_Clean (join_with "/" l)
  end.

Example Clean_examples :
  path_Clean "a//b/./c/.." = "a/b" ∧ path_Clean "/../a" = "/a" ∧ path_Clean "../../x/.." = "../.." ∧
  path_Clean "/" = "/" ∧ path_Join [""; "x"] = "x" ∧ path_Join ["/vm"; "../y"] = "/y".
Proof. by vm_compute. Qed.

(** ** net/url: the query *)

(** [strings.Cut] at the first occurrence. *)
Definition Cut (sep : ascii) (s : string) : string * option string :=
  match IndexByte s sep with
  | Some i => (str_take i s, Some (str_drop (S i) s))
  | None => (s, None)
  end.

(** [url.QueryUnescape]: [None] is the error. *)
Fixpoint QueryUnescape (s : string) : option string :=
  match s with
  | EmptyString => Some EmptyString
  | String "%" s' =>
      match s' with
      | String a (String b t) => x ← hex_val a; y ← hex_val b; String (char (x * 16 + y)) <$> QueryUnescape t
      | _ => None
      end
  | String "+" t => String " " <$> QueryUnescape t
  | String c t => String c <$> QueryUnescape t
  end.

(** One element of a query; the elements with an error are dropped. *)
Definition query_pair (elem : string) : option (string * string) :=
  if decide (elem = "") then None
  else if negb (char_free ";" elem) then None
  else
    let '(k, v) := Cut "=" elem in
    k ← QueryUnescape k;
    v ← QueryUnescape (default "" v);
    Some (k, v).

(** [URL.Query()], in order, and [Values.Get]. *)
Definition Query (raw : string) : list (string * string) := omap query_pair (Split "&" raw).
Definition Query_Get (raw key : string) : string :=
  default "" (head (snd <$> filter (λ kv, kv.1 = key) (Query raw))).

(** The path and the raw query of the target of a request. *)
Definition request_path (target : string) : string := (Cut "?" target).1.
Definition request_query (target : string) : string := default "" (Cut "?" target).2.

(** ** Lemmas *)

Lemma IndexByte_app c s t : char_free c s = true → IndexByte (s +:+ String c t) c = Some (String.length s).
Proof.
  induction s as [|a s IH]; [intros _; rewrite string_app_nil_l; cbn; by rewrite decide_True|].
  rewrite string_app_cons. cbn. destruct (decide (a = c)); [done|]. intros H. by rewrite IH.
Qed.

Lemma Cut_app c s t : char_free c s = true → Cut c (s +:+ String c t) = (s, Some t).
Proof. intros H. unfold Cut. by rewrite IndexByte_app, str_take_app, str_drop_S_app. Qed.

(** A text that a query may hold as it is. *)
Definition query_plain (s : string) : Prop :=
  Forall (λ c, char_free c s = true) ["&"; ";"; "="; "%"; "+"]%char.

Lemma QueryUnescape_plain s : char_free "%" s = true → char_free "+" s = true → QueryUnescape s = Some s.
Proof.
  induction s as [|c s IH]; [done|]. cbn [char_free].
  destruct (decide (c = "%"%char)) as [|H1]; [done|]. destruct (decide (c = "+"%char)) as [|H2]; [done|].
  intros Hp Hq. specialize (IH Hp Hq).
  destruct c as [[] [] [] [] [] [] [] []]; cbn [QueryUnescape]; rewrite ?IH; done.
Qed.

Lemma query_pair_plain k v : k ≠ "" → query_plain k → query_plain v →
  query_pair (k +:+ "=" +:+ v) = Some (k, v).
Proof.
  unfold query_plain. rewrite !Forall_cons. intros Hk (? & Hk2 & Hk3 & Hk4 & Hk5 & _) (? & Hv2 & Hv3 & Hv4 & Hv5 & _).
  unfold query_pair. rewrite decide_False by by destruct k.
  rewrite !char_free_app, Hk2, Hv2. cbn [negb andb char_free].
  change (k +:+ "=" +:+ v) with (k +:+ String "=" v). rewrite Cut_app by done. cbn [default]. by rewrite !QueryUnescape_plain.
Qed.

(** The query of two plain parameters. *)
Lemma Query_two k1 v1 k2 v2 : k1 ≠ "" → k2 ≠ "" →
  query_plain k1 → query_plain v1 → query_plain k2 → query_plain v2 →
  Query (k1 +:+ "=" +:+ v1 +:+ "&" +:+ k2 +:+ "=" +:+ v2) = [(k1, v1); (k2, v2)].
Proof.
  intros Hk1 Hk2 Pk1 Pv1 Pk2 Pv2. unfold Query.
  assert (∀ k v, query_plain k → query_plain v → char_free "&" (k +:+ "=" +:+ v) = true) as Hfree.
  { intros k v [Hk _]%Forall_cons [Hv _]%Forall_cons. by rewrite !char_free_app, Hk, Hv. }
  pose proof (Split_cons "&" (k1 +:+ "=" +:+ v1) (k2 +:+ "=" +:+ v2) (Hfree _ _ Pk1 Pv1)) as Hs.
  rewrite !string_app_assoc in Hs.
  rewrite (Split_free "&" (k2 +:+ "=" +:+ v2)) in Hs by by apply Hfree.
  etransitivity; [apply (f_equal (omap query_pair)); exact Hs|].
  cbn. by rewrite !query_pair_plain.
Qed.

Lemma char_free_v4_string c ip : is_ip4 ip → digit_val c = None → c ≠ "."%char → char_free c (v4_string ip) = true.
Proof.
  intros (x & y & z & w & -> & Hx & Hy & Hz & Hw)%is_ip4_inv Hc Hd. cbn [v4_string]. unfold is_byte in *.
  rewrite !char_free_app, !char_free_Itoa by (done || lia). cbn. by rewrite decide_False by congruence.
Qed.

Lemma query_plain_v4_string ip : is_ip4 ip → query_plain (v4_string ip).
Proof. intros Hip. repeat constructor; by apply char_free_v4_string. Qed.
Lemma query_plain_Itoa z : 0 ≤ z → query_plain (Itoa z).
Proof. intros Hz. repeat constructor; by apply char_free_Itoa. Qed.
#[export] Hint Resolve query_plain_Itoa query_plain_v4_string : core.
