(* ===== verification/IPPool.v ===== *)
(** pkg/tap/ip_pool.go: the pool of leases shared by the DHCP server, the
    gateway and the static leases, on top of the address arithmetic of
    go-cidr (vendored).  Leases are kept as in the code, a map from the text of
    an address to the text of a hardware address. *)
From Stdlib Require Import Ascii String.
From S2P Require Import Prelude GoStrings GoNet.

Local Open Scope string_scope.
Local Open Scope list_scope.
Local Open Scope Z_scope.

(** ** go-cidr *)

(** [ipToInt]: value and width; panics on another length. *)
Definition ipToInt (ip : list Z) : res (Z * Z) :=
  if decide (length ip = 4%nat) then Ok (be_value ip, 32)
  else if decide (length ip = 16%nat) then Ok (be_value ip, 128)
  else Panic.

(** [intToIP]: the index into [ret] is out of range when the value needs more
    than [bits] bits. *)
Definition intToIP (ipInt bits : Z) : res (list Z) :=
  if decide (ipInt < 2 ^ bits) then Ok (be_bytes (Z.to_nat (bits / 8)) ipInt) else Panic.

Definition insertNumIntoIP (ip : list Z) (bigNum prefixLen : Z) : res (list Z) :=
  '(ipInt, totalBits) ← ipToInt ip;
  intToIP (Z.lor ipInt (Z.shiftl bigNum (totalBits - prefixLen))) totalBits.

(** [AddressCount]: a uint64 shift. *)
Definition AddressCount (network : IPNet) : Z :=
  let '(prefixLen, bits) := Mask_Size (net_Mask network) in
  u64 (Z.shiftl 1 (u64 (bits - prefixLen))).

(** [HostBig]; [Uint64] of a big.Int is the low 64 bits of its absolute value. *)
Definition HostBig (base : IPNet) (num : Z) : res (list Z) :=
  let ip := net_IP base in
  let '(parentLen, addrLen) := Mask_Size (net_Mask base) in
  let hostLen := addrLen - parentLen in
  let maxHostNum := 2 ^ hostLen - 1 in
  let '(numUint64, num) :=
    if decide (num < 0) then (- num - 1, maxHostNum - (- num - 1))
    else (i64 (u64 (Z.abs num)), num) in
  if decide (numUint64 > maxHostNum) then
    Err (ErrMsg "prefix does not accommodate a host with that number")
  else
    let bitlength := if decide (To4 ip ≠ []) then 32 else 128 in
    insertNumIntoIP ip num bitlength.

Definition Host (base : IPNet) (num : Z) : res (list Z) := HostBig base num.

(** ** The pool *)

Record IPPool := {
  base : IPNet;
  count : Z;
  leases : gmap string string;
}.

Definition set_leases (p : IPPool) (l : gmap string string) : IPPool :=
  {| base := base p; count := count p; leases := l |}.

Definition NewIPPool (b : IPNet) : IPPool :=
  {| base := b; count := AddressCount b; leases := ∅ |}.

(** The copy loop of [Leases]. *)
Definition Leases (order : list (string * string)) (p : IPPool) : gmap string string :=
  foldl (λ (acc : gmap string string) kv, <[kv.1 := kv.2]> acc) ∅ order.

Definition Mask (p : IPPool) : Z := (Mask_Size (net_Mask (base p))).1.

(** The range loops of [GetOrAssign] and [Release]: the address of the first
    entry, in range order, that belongs to [mac]. *)
Fixpoint find_lease (order : list (string * string)) (mac : string) : option string :=
  match order with
  | [] => None
  | (ip, candidate) :: order' =>
      if decide (candidate = mac) then Some ip else find_lease order' mac
  end.

(** Body of the counting loop: nothing when the host number is unusable or its
    address is leased, the address (or the panic) that ends the loop otherwise. *)
Definition try_host (p : IPPool) (i : Z) : option (res (list Z)) :=
  match Host (base p) (i64 i) with
  | Err _ => None
  | Panic => Some Panic
  | Ok candidate =>
      match leases p !! IP_String candidate with
      | Some _ => None
      | None => Some (Ok candidate)
      end
  end.

Definition GetOrAssign (order : list (string * string)) (mac : string) (p : IPPool)
    : IPPool * res (list Z) :=
  match find_lease order mac with
  | Some ip => (p, Ok (ParseIP ip))
  | None =>
      match for_loop (try_host p) 1 (count p) with
      | Some (Ok candidate) =>
          (set_leases p (<[IP_String candidate := mac]> (leases p)), Ok candidate)
      | Some r => (p, r)
      | None => (p, Err (ErrMsg "cannot find available IP"))
      end
  end.

Definition Reserve (ip : list Z) (mac : string) (p : IPPool) : IPPool :=
  set_leases p (<[IP_String ip := mac]> (leases p)).

Definition Release (order : list (string * string)) (given : string) (p : IPPool) : IPPool :=
  let found := default "" (find_lease order given) in
  if decide (found ≠ "") then set_leases p (delete found (leases p)) else p.

(** ** IPv4 networks *)

(** A canonical IPv4 network with [k] host bits, as [net.ParseCIDR] returns it:
    4-byte address whose host bits are zero. *)
Record net4 (n : IPNet) (k : Z) : Prop := {
  net4_ip : is_ip4 (net_IP n);
  net4_mask : Mask_Size (net_Mask n) = (32 - k, 32);
  net4_k : 0 ≤ k ≤ 32;
  net4_zero : be_value (net_IP n) mod 2 ^ k = 0;
}.

(** The [i]-th address of a network. *)
Definition host_addr (n : IPNet) (i : Z) : list Z := be_bytes 4 (be_value (net_IP n) + i).
Arguments host_addr n i : simpl never.

Lemma host_addr_is_ip4 n i : is_ip4 (host_addr n i).
Proof. split; [apply length_be_bytes|apply be_bytes_is_byte]. Qed.

Lemma lor_disjoint_add a b k : 0 ≤ k → a mod 2 ^ k = 0 → 0 ≤ b < 2 ^ k → Z.lor a b = a + b.
Proof.
  intros Hk Ha Hb.
  assert (Z.land a b = 0) as Hl.
  { apply Z.bits_inj'. intros j Hj. rewrite Z.land_spec, Z.bits_0.
    destruct (decide (j < k)).
    - rewrite <- (Z.mod_pow2_bits_low a k j), Ha, Z.bits_0 by lia. done.
    - rewrite <- (Z.mod_small b (2 ^ k)), Z.mod_pow2_bits_high by lia. apply andb_false_r. }
  rewrite Z.add_nocarry_lxor by done. symmetry. by apply Z.lxor_lor.
Qed.

Section net4.
Context (n : IPNet) (k : Z) (Hn : net4 n k).

Lemma net4_range i : 0 ≤ i < 2 ^ k → 0 ≤ be_value (net_IP n) + i < 2 ^ 32.
Proof.
  destruct Hn as [[Hl Hb] _ Hk Hz]. intros Hi.
  pose proof (be_value_nonneg _ Hb) as Hv. rewrite Hl in Hv.
  change (256 ^ Z.of_nat 4) with (2 ^ 32) in Hv.
  assert (2 ^ 32 = 2 ^ (32 - k) * 2 ^ k) as E by (rewrite <- Z.pow_add_r by lia; f_equal; lia).
  rewrite E in *. apply Z.div_exact in Hz; [|lia].
  pose proof (Z.div_lt_upper_bound (be_value (net_IP n)) (2 ^ k) (2 ^ (32 - k))). nia.
Qed.

Lemma Host_net4 i : 0 ≤ i < 2 ^ k → Host n i = Ok (host_addr n i).
Proof.
  intros Hi. pose proof (net4_range i Hi) as Hr. destruct Hn as [Hip Hm Hk Hz].
  assert (2 ^ k ≤ 2 ^ 32) as H32 by (apply Z.pow_le_mono_r; lia).
  unfold Host, HostBig. rewrite Hm. rewrite decide_False by lia.
  rewrite Z.abs_eq, u64_small, i64_small by lia.
  replace (32 - (32 - k)) with k by lia. rewrite decide_False by lia.
  rewrite (To4_ip4 _ Hip), decide_True by (destruct Hip as [Hl _]; by destruct (net_IP n)).
  unfold insertNumIntoIP, ipToInt. destruct Hip as [Hl _]. rewrite decide_True by done.
  cbn. rewrite Z.shiftl_0_r, (lor_disjoint_add _ _ k) by (done || lia).
  unfold intToIP. by rewrite decide_True by lia.
Qed.

Lemma host_addr_inj i j :
  0 ≤ i < 2 ^ k → 0 ≤ j < 2 ^ k → host_addr n i = host_addr n j → i = j.
Proof.
  intros Hi Hj He. apply net4_range in Hi, Hj.
  apply (f_equal be_value) in He. unfold host_addr in He.
  rewrite !be_value_be_bytes in He. change (256 ^ Z.of_nat 4) with (2 ^ 32) in He.
  rewrite !Z.mod_small in He by lia. lia.
Qed.

Lemma AddressCount_net4 : AddressCount n = 2 ^ k.
Proof.
  destruct Hn as [_ Hm Hk _]. unfold AddressCount. rewrite Hm.
  replace (32 - (32 - k)) with k by lia. rewrite (u64_small k) by lia.
  rewrite Z.shiftl_1_l. assert (2 ^ k ≤ 2 ^ 32) by (apply Z.pow_le_mono_r; lia).
  apply u64_small. lia.
Qed.
End net4.

(** A pool over a canonical IPv4 network. *)
Record pool4 (p : IPPool) (k : Z) : Prop := {
  pool4_net : net4 (base p) k;
  pool4_count : count p = 2 ^ k;
}.

(** The text under which the [i]-th address is leased. *)
Definition host_key (p : IPPool) (i : Z) : string := v4_string (host_addr (base p) i).
Arguments host_key p i : simpl never.

Lemma NewIPPool_pool4 n k : net4 n k → pool4 (NewIPPool n) k.
Proof. intros Hn. split; [done|]. by apply AddressCount_net4. Qed.

Lemma set_leases_pool4 p k l : pool4 p k → pool4 (set_leases p l) k.
Proof. by intros [??]. Qed.
#[export] Hint Resolve NewIPPool_pool4 set_leases_pool4 host_addr_is_ip4 : core.

Lemma try_host_pool4 p k i : pool4 p k → 0 ≤ i < 2 ^ k →
  try_host p i =
    match leases p !! host_key p i with
    | Some _ => None
    | None => Some (Ok (host_addr (base p) i))
    end.
Proof.
  intros [Hn Hc] Hi. unfold try_host.
  assert (2 ^ k ≤ 2 ^ 32) as H32
    by (apply Z.pow_le_mono_r; [lia|destruct (net4_k _ _ Hn); lia]).
  rewrite i64_small by lia. rewrite (Host_net4 _ k) by done.
  by rewrite IP_String_ip4 by auto.
Qed.

(** ** The lease search *)

Lemma find_lease_Some order mac ip :
  find_lease order mac = Some ip → (ip, mac) ∈ order.
Proof.
  induction order as [|[ip' c] order IH]; cbn; [done|]. case_decide; subst.
  - intros [= <-]. by left.
  - intros ?. right. auto.
Qed.

Lemma find_lease_None order mac : find_lease order mac = None ↔ ∀ ip, (ip, mac) ∉ order.
Proof.
  induction order as [|[ip' c] order IH]; cbn; [set_solver|]. case_decide; subst.
  - split; [done|]. intros H. exfalso. apply (H ip'). by left.
  - rewrite IH. set_solver.
Qed.

Section find.
Context (p : IPPool) (order : list (string * string)) (Ho : range_order (leases p) order).

Lemma find_lease_lookup mac ip :
  find_lease order mac = Some ip → leases p !! ip = Some mac.
Proof. intros H%find_lease_Some. by apply (range_order_elem _ _ _ _ Ho). Qed.

Lemma find_lease_free mac :
  find_lease order mac = None ↔ ∀ ip, leases p !! ip ≠ Some mac.
Proof.
  rewrite find_lease_None. apply forall_proper. intros ip.
  by rewrite (range_order_elem _ _ _ _ Ho).
Qed.
End find.

(** ** Properties *)

(** What [GetOrAssign] does on each of its branches. *)
Definition assign_spec (k : Z) (mac : string) (p p' : IPPool) (r : res (list Z)) : Prop :=
  match r with
  | Ok ip =>
      (∃ key, leases p !! key = Some mac ∧ p' = p ∧ ip = ParseIP key) ∨
      (∃ i, 1 ≤ i < 2 ^ k ∧ ip = host_addr (base p) i ∧
            leases p !! host_key p i = None ∧
            (∀ j, 1 ≤ j < i → is_Some (leases p !! host_key p j)) ∧
            (∀ key, leases p !! key ≠ Some mac) ∧
            p' = set_leases p (<[host_key p i := mac]> (leases p)))
  | Err _ =>
      p' = p ∧ (∀ key, leases p !! key ≠ Some mac) ∧
      (∀ j, 1 ≤ j < 2 ^ k → is_Some (leases p !! host_key p j))
  | Panic => False
  end.

Lemma GetOrAssign_branches order mac p k :
  pool4 p k → range_order (leases p) order →
  assign_spec k mac p (GetOrAssign order mac p).1 (GetOrAssign order mac p).2.
Proof.
  intros Hp Ho. unfold GetOrAssign. destruct (find_lease order mac) as [ip|] eqn:Ef.
  { left. exists ip. by apply (find_lease_lookup p order Ho) in Ef. }
  pose proof (proj1 (find_lease_free p order Ho mac) Ef) as Hfree.
  rewrite (pool4_count _ _ Hp).
  assert (∀ j, 1 ≤ j < 2 ^ k → try_host p j = None → is_Some (leases p !! host_key p j)) as Hocc.
  { intros j Hj. rewrite (try_host_pool4 _ k) by (done || lia). by case_match; eauto. }
  destruct (for_loop (try_host p) 1 (2 ^ k)) as [r|] eqn:El.
  - apply for_loop_Some in El as (i & Hi & Ht & Hlt).
    rewrite (try_host_pool4 _ k) in Ht by (done || lia).
    destruct (leases p !! host_key p i) as [|] eqn:Ek; [done|]. injection Ht as <-.
    right. exists i. rewrite IP_String_ip4 by auto. split_and!; try done; try lia.
    intros j Hj. apply Hocc; [lia|]. by apply Hlt.
  - rewrite for_loop_None in El. split_and!; [done..|]. intros j Hj. by apply Hocc, El.
Qed.

(** Functional behaviour of [GetOrAssign] on an IPv4 pool, for every order in
    which the runtime ranges over the leases: a known MAC gets the address of one
    of its leases and the pool is unchanged; otherwise the smallest host number
    from 1 whose address is not leased is assigned and recorded; it fails only
    when every host number of the network is leased; it never panics. *)
Theorem GetOrAssign_spec order mac p k :
  pool4 p k → range_order (leases p) order →
  assign_spec k mac p (GetOrAssign order mac p).1 (GetOrAssign order mac p).2.
Proof. apply GetOrAssign_branches. Qed.

(** *** Refinement: the pool implements a table from MAC to address *)

(** The abstract contract: every MAC owns at most one address. *)
Inductive pool_op := OpGet (mac : string) | OpRelease (mac : string).

Inductive pool_spec (n : IPNet) (k : Z) :
    gmap string (list Z) → pool_op → gmap string (list Z) → option (list Z) → Prop :=
  | spec_known a mac ip :
      a !! mac = Some ip → pool_spec n k a (OpGet mac) a (Some ip)
  | spec_fresh a mac i :
      a !! mac = None → 1 ≤ i < 2 ^ k →
      (∀ m, a !! m ≠ Some (host_addr n i)) →
      (∀ j, 1 ≤ j < i → ∃ m, a !! m = Some (host_addr n j)) →
      pool_spec n k a (OpGet mac) (<[mac := host_addr n i]> a) (Some (host_addr n i))
  | spec_full a mac :
      a !! mac = None →
      (∀ j, 1 ≤ j < 2 ^ k → ∃ m, a !! m = Some (host_addr n j)) →
      pool_spec n k a (OpGet mac) a None
  | spec_release a mac :
      pool_spec n k a (OpRelease mac) (delete mac a) None.

(** The concrete operations; the answer is the 4-byte address given out. *)
Definition pool_run (order : list (string * string)) (o : pool_op) (p : IPPool)
    : IPPool * option (list Z) :=
  match o with
  | OpGet mac =>
      let '(p', r) := GetOrAssign order mac p in
      (p', match r with Ok ip => Some (To4 ip) | _ => None end)
  | OpRelease mac => (Release order mac p, None)
  end.

(** Representation: the leases are exactly the inverted table, under the texts
    of 4-byte addresses. *)
Definition represents (p : IPPool) (a : gmap string (list Z)) : Prop :=
  (∀ mac ip, a !! mac = Some ip → is_ip4 ip ∧ leases p !! v4_string ip = Some mac) ∧
  (∀ key mac, leases p !! key = Some mac → ∃ ip, key = v4_string ip ∧ a !! mac = Some ip).

Lemma represents_free p a mac : represents p a →
  (∀ key, leases p !! key ≠ Some mac) → a !! mac = None.
Proof.
  intros [H1 _] Hf. destruct (a !! mac) as [ip|] eqn:E; [|done].
  apply H1 in E as [_ E]. by apply Hf in E.
Qed.

Lemma represents_host p a i : represents p a →
  (is_Some (leases p !! host_key p i) ↔ ∃ m, a !! m = Some (host_addr (base p) i)).
Proof.
  intros [H1 H2]. split.
  - intros [m Hm]. exists m. destruct (H2 _ _ Hm) as (ip & He & Ha).
    destruct (H1 _ _ Ha) as [Hip _]. apply v4_string_inj in He; [by subst|auto..].
  - intros [m Hm]. apply H1 in Hm as [_ Hm]. by eexists.
Qed.

Lemma represents_insert_ip p a mac ip : represents p a → is_ip4 ip →
  a !! mac = None → leases p !! v4_string ip = None →
  represents (set_leases p (<[v4_string ip := mac]> (leases p))) (<[mac := ip]> a).
Proof.
  intros [H1 H2] Hip Hm Hk. split; cbn.
  - intros m ip' [[<- <-]|[Hne Hl]]%lookup_insert_Some.
    { split; [done|]. apply lookup_insert_eq. }
    apply H1 in Hl as [Hip' Hl]. split; [done|]. rewrite lookup_insert_ne; [done|].
    congruence.
  - intros key m [[<- <-]|[Hne Hl]]%lookup_insert_Some.
    { eexists. split; [done|]. apply lookup_insert_eq. }
    apply H2 in Hl as (ip' & -> & Ha). exists ip'. split; [done|].
    rewrite lookup_insert_ne; [done|]. congruence.
Qed.

Lemma represents_insert p a mac i : represents p a →
  a !! mac = None → leases p !! host_key p i = None →
  represents (set_leases p (<[host_key p i := mac]> (leases p)))
    (<[mac := host_addr (base p) i]> a).
Proof. intros. by apply represents_insert_ip; auto. Qed.

(** Reserving a free address for a new MAC. *)
Lemma represents_Reserve p a mac ip : represents p a → is_ip4 ip →
  a !! mac = None → leases p !! v4_string ip = None →
  represents (Reserve (ParseIP (v4_string ip)) mac p) (<[mac := ip]> a).
Proof.
  intros. unfold Reserve. rewrite ParseIP_v4_string, IP_String_v4in6 by done. by apply represents_insert_ip.
Qed.

Lemma represents_delete p a mac ip : represents p a → a !! mac = Some ip →
  represents (set_leases p (delete (v4_string ip) (leases p))) (delete mac a).
Proof.
  intros [H1 H2] Hm. destruct (H1 _ _ Hm) as [Hip Hl]. split; cbn.
  - intros m ip' [Hne Ha]%lookup_delete_Some. destruct (H1 _ _ Ha) as [Hip' Hl'].
    split; [done|]. rewrite lookup_delete_ne; [done|]. intros He. congruence.
  - intros key m [Hne Hk]%lookup_delete_Some.
    destruct (H2 _ _ Hk) as (ip' & -> & Ha). exists ip'. split; [done|].
    rewrite lookup_delete_ne; [done|]. congruence.
Qed.

Lemma GetOrAssign_refines order mac p k a :
  pool4 p k → represents p a → range_order (leases p) order →
  ∃ a', pool_spec (base p) k a (OpGet mac) a' (pool_run order (OpGet mac) p).2 ∧
        represents (GetOrAssign order mac p).1 a' ∧ pool4 (GetOrAssign order mac p).1 k ∧
        base (GetOrAssign order mac p).1 = base p.
Proof.
  intros Hp HR Ho. cbn. pose proof (GetOrAssign_branches order mac p k Hp Ho) as Hs.
  destruct (GetOrAssign order mac p) as [p' [ip|e|]]; cbn in *; [|..|done].
  - destruct Hs as [(key & Hk & -> & ->)|(i & Hi & -> & Hfree & Hlow & Hmac & ->)].
    + destruct (proj2 HR _ _ Hk) as (ip & -> & Ha). destruct (proj1 HR _ _ Ha) as [Hip _].
      exists a. rewrite ParseIP_v4_string, To4_v4in6 by done.
      split_and!; [by constructor|done..].
    + pose proof (represents_free p a mac HR Hmac) as Ha. rewrite To4_ip4 by auto.
      eexists. split_and!; [|by apply represents_insert|by auto|done].
      constructor; try done.
      * intros m Hm. apply not_eq_None_Some in Hfree; [done|].
        apply (represents_host p a i HR). eauto.
      * intros j Hj. apply (represents_host p a j HR). auto.
  - destruct Hs as (-> & Hmac & Hall). exists a. split_and!; [|done..].
    apply spec_full; [by apply (represents_free p)|].
    intros j Hj. apply (represents_host p a j HR). auto.
Qed.

(** C9: refinement.  [GetOrAssign] and [Release] implement the table from MAC to
    address: for every legal range order, a step of the pool is a step of the
    specification and keeps the representation, so a MAC never holds two
    addresses and an address is never held by two MACs. *)
Theorem pool_refines order o p k a :
  pool4 p k → represents p a → range_order (leases p) order →
  ∃ a', pool_spec (base p) k a o a' (pool_run order o p).2 ∧
        represents (pool_run order o p).1 a' ∧
        pool4 (pool_run order o p).1 k.
Proof.
  intros Hp HR Ho. destruct o as [mac|mac].
  - destruct (GetOrAssign_refines order mac p k a Hp HR Ho) as (a' & Hs & HR' & Hp' & _).
    exists a'. cbn in *. by destruct (GetOrAssign order mac p).
  - cbn. exists (delete mac a). split; [constructor|]. unfold Release.
    destruct (find_lease order mac) as [key|] eqn:Ef; cbn.
    + apply (find_lease_lookup p order Ho) in Ef.
      destruct (proj2 HR _ _ Ef) as (ip & -> & Ha). rewrite decide_True.
      * split; [by apply represents_delete|auto].
      * destruct (proj1 HR _ _ Ha) as [(x&y&z&w&->&Hx&_)%is_ip4_inv _].
        by apply Itoa_nonempty.
    + pose proof (proj1 (find_lease_free p order Ho mac) Ef) as Hfree.
      rewrite decide_False by tauto. rewrite delete_id; [done|]. by apply (represents_free p).
Qed.

Lemma NewIPPool_represents n : represents (NewIPPool n) ∅.
Proof. split; cbn; intros ?? H; by apply lookup_empty_Some in H. Qed.

(** *** Stability *)

Definition mac_unique (p : IPPool) (mac : string) : Prop :=
  ∀ k1 k2, leases p !! k1 = Some mac → leases p !! k2 = Some mac → k1 = k2.

Lemma GetOrAssign_known order p mac key :
  range_order (leases p) order → mac_unique p mac → leases p !! key = Some mac →
  GetOrAssign order mac p = (p, Ok (ParseIP key)).
Proof.
  intros Ho Hu Hk. unfold GetOrAssign. destruct (find_lease order mac) as [key'|] eqn:Ef.
  - apply (find_lease_lookup p order Ho) in Ef. by rewrite (Hu _ _ Ef Hk).
  - by destruct (proj1 (find_lease_free p order Ho mac) Ef key).
Qed.

Lemma represents_unique p a mac : represents p a → mac_unique p mac.
Proof.
  intros [_ H2] k1 k2 Hk1 Hk2.
  destruct (H2 _ _ Hk1) as (ip1 & -> & E1), (H2 _ _ Hk2) as (ip2 & -> & E2).
  congruence.
Qed.

(** A lease is stable: once [GetOrAssign] answered a MAC, asking again with
    any range order gives the same IPv4 address and does not change the pool
    (the second answer is the 16-byte form, [ParseIP] of the stored text). *)
Theorem GetOrAssign_stable o1 o2 mac p p' ip k a :
  pool4 p k → represents p a → range_order (leases p) o1 →
  GetOrAssign o1 mac p = (p', Ok ip) → range_order (leases p') o2 →
  GetOrAssign o2 mac p' = (p', Ok (v4in6 (To4 ip))).
Proof.
  intros Hp HR Ho1 Hg Ho2. pose proof (GetOrAssign_branches o1 mac p k Hp Ho1) as Hs.
  rewrite Hg in Hs. cbn in Hs.
  destruct Hs as [(key & Hk & -> & ->)|(i & Hi & -> & Hfree & Hlow & Hmac & ->)].
  - destruct (proj2 HR _ _ Hk) as (ip & -> & Ha). destruct (proj1 HR _ _ Ha) as [Hip _].
    rewrite ParseIP_v4_string, To4_v4in6 by done.
    rewrite (GetOrAssign_known _ _ _ (v4_string ip)), ParseIP_v4_string;
      eauto using represents_unique.
  - assert (represents (set_leases p (<[host_key p i := mac]> (leases p)))
              (<[mac := host_addr (base p) i]> a)) as HR'.
    { apply represents_insert; [done| |done]. by eapply represents_free. }
    rewrite (GetOrAssign_known _ _ _ (host_key p i));
      [|done|by eapply represents_unique|apply lookup_insert_eq].
    unfold host_key. by rewrite ParseIP_v4_string, To4_ip4 by auto.
Qed.

(** *** Capacity *)

(** The texts of the first [m] usable addresses. *)
Definition host_keys (p : IPPool) (m : Z) : gset string :=
  list_to_set (host_key p <$> seqZ 1 m).

Lemma size_host_keys p k : pool4 p k → size (host_keys p (2 ^ k - 1)) = Z.to_nat (2 ^ k - 1).
Proof.
  intros [Hn _]. unfold host_keys. rewrite size_list_to_set, length_fmap, length_seqZ; [done|].
  apply NoDup_fmap_2_strong; [|apply NoDup_seqZ].
  intros x y Hx%elem_of_seqZ Hy%elem_of_seqZ He.
  apply v4_string_inj in He; [|auto..]. apply (host_addr_inj _ k Hn) in He; [done|lia..].
Qed.

(** Liveness up to capacity: as long as fewer than [2^k - 1] addresses are
    leased, every MAC gets an address. *)
Theorem GetOrAssign_available order mac p k :
  pool4 p k → range_order (leases p) order →
  Z.of_nat (size (leases p)) < 2 ^ k - 1 →
  ∃ ip, (GetOrAssign order mac p).2 = Ok ip.
Proof.
  intros Hp Ho Hsz. pose proof (GetOrAssign_branches order mac p k Hp Ho) as Hs.
  destruct (GetOrAssign order mac p) as [p' [ip|e|]]; cbn in *; [by eexists|..|done].
  destruct Hs as (_ & _ & Hall). exfalso.
  assert (host_keys p (2 ^ k - 1) ⊆ dom (leases p)) as Hsub.
  { intros key. unfold host_keys. rewrite elem_of_list_to_set, list_elem_of_fmap.
    intros (i & -> & Hi%elem_of_seqZ). apply elem_of_dom, Hall. lia. }
  apply subseteq_size in Hsub. rewrite (size_host_keys _ k), size_dom in Hsub by done. lia.
Qed.

(** [Leases] returns a copy of the table, whatever the iteration order. *)
Lemma Leases_copy order p : range_order (leases p) order → Leases order p = leases p.
Proof.
  intros Ho. unfold Leases. by rewrite (range_order_foldl _ _ _ Ho), map_union_empty.
Qed.

(** ** The pool of the default configuration: 192.168.127.0/24 *)

Definition net127 : IPNet := {| net_IP := [192; 168; 127; 0]; net_Mask := [255; 255; 255; 0] |}.

Lemma net127_ok : net4 net127 8.
Proof. split; [split; [done|byte_list]|done|lia|done]. Qed.

Definition pool127 : IPPool :=
  Reserve (ParseIP "192.168.127.2") "5a:94:ef:e4:0c:ee"
    (Reserve (ParseIP "192.168.127.1") "5a:94:ef:e4:0c:dd" (NewIPPool net127)).

Lemma pool127_ok : pool4 pool127 8.
Proof. unfold pool127, Reserve. auto using net127_ok. Qed.

Definition table127 : gmap string (list Z) :=
  {["5a:94:ef:e4:0c:ee" := [192; 168; 127; 2]; "5a:94:ef:e4:0c:dd" := [192; 168; 127; 1]]}.

Lemma pool127_represents : represents pool127 table127.
Proof.
  unfold table127. split.
  - intros mac ip [[<- <-]|[_ [<- <-]%lookup_singleton_Some]]%lookup_insert_Some;
      (split; [split; [done|byte_list]|by vm_compute]).
  - change (leases pool127) with
      ({["192.168.127.2" := "5a:94:ef:e4:0c:ee"; "192.168.127.1" := "5a:94:ef:e4:0c:dd"]}
        : gmap string string).
    intros key mac [[<- <-]|[_ [<- <-]%lookup_singleton_Some]]%lookup_insert_Some;
      [exists [192; 168; 127; 2]|exists [192; 168; 127; 1]]; split; done.
Qed.

Lemma GetOrAssign_spec_witness :
  assign_spec 8 "02:00:00:00:00:01" pool127
    (GetOrAssign (map_to_list (leases pool127)) "02:00:00:00:00:01" pool127).1
    (Ok [192; 168; 127; 3]).
Proof. exact (GetOrAssign_spec _ _ _ 8 pool127_ok (range_order_canonical _)). Defined.

Lemma pool_refines_witness :
  ∃ a', pool_spec net127 8 table127 (OpGet "5a:94:ef:e4:0c:ee") a'
          (Some [192; 168; 127; 2]) ∧
        represents (pool_run (map_to_list (leases pool127)) (OpGet "5a:94:ef:e4:0c:ee") pool127).1 a' ∧
        pool4 (pool_run (map_to_list (leases pool127)) (OpGet "5a:94:ef:e4:0c:ee") pool127).1 8.
Proof.
  exact (pool_refines _ (OpGet "5a:94:ef:e4:0c:ee") _ 8 _ pool127_ok pool127_represents
           (range_order_canonical _)).
Defined.

Lemma GetOrAssign_stable_witness :
  let p' := (GetOrAssign (map_to_list (leases pool127)) "m" pool127).1 in
  GetOrAssign (map_to_list (leases p')) "m" p' = (p', Ok (v4in6 [192; 168; 127; 3])).
Proof.
  exact (GetOrAssign_stable _ _ "m" pool127 _ [192; 168; 127; 3] 8 _ pool127_ok
           pool127_represents (range_order_canonical _) eq_refl (range_order_canonical _)).
Defined.

Lemma GetOrAssign_available_witness :
  ∃ ip, (GetOrAssign (map_to_list (leases pool127)) "m" pool127).2 = Ok ip.
Proof.
  apply (GetOrAssign_available _ _ _ 8 pool127_ok (range_order_canonical _)).
  vm_compute. done.
Defined.

(** The last host number, the broadcast address of the network, is handed out
    like any other: on a /30 with the gateway and one guest, the next guest gets
    10.0.0.3. *)
Definition net30 : IPNet := {| net_IP := [10; 0; 0; 0]; net_Mask := [255; 255; 255; 252] |}.
Definition pool30 : IPPool :=
  Reserve [10; 0; 0; 2] "b" (Reserve [10; 0; 0; 1] "a" (NewIPPool net30)).

Lemma pool_assigns_broadcast :
  (GetOrAssign (map_to_list (leases pool30)) "c" pool30).2 = Ok [10; 0; 0; 3].
Proof. by vm_compute. Qed.
