(* ===== verification/Tcpip.v ===== *)
(** The parts of gVisor's [tcpip] and [tcpip/header] packages (vendored) that
    the program calls: Go slices with their capacity, addresses, subnets, the
    Ethernet header and the ARP packet. *)
From Stdlib Require Import Ascii String.
From S2P Require Import Prelude GoStrings GoNet.

Local Open Scope string_scope.
Local Open Scope list_scope.
Local Open Scope Z_scope.

(** ** Slices

    A [[]byte] is its elements and the bytes of the backing array between its
    length and its capacity, which a re-slice [b[:n]] can expose. *)
Record slice := { s_data : list Z; s_spare : list Z }.

Definition slice_of (bs : list Z) : slice := {| s_data := bs; s_spare := [] |}.

(** [b[i:]] *)
Definition slice_from (b : slice) (i : nat) : res slice :=
  if decide (i ≤ length (s_data b))%nat
  then Ok {| s_data := drop i (s_data b); s_spare := s_spare b |}
  else Panic.

(** [b[:n]] *)
Definition slice_to (b : slice) (n : nat) : res slice :=
  let full := s_data b ++ s_spare b in
  if decide (n ≤ length full)%nat
  then Ok {| s_data := take n full; s_spare := drop n full |}
  else Panic.

(** ** Link addresses: a string of raw bytes *)

Definition EthernetBroadcastAddress : list Z := replicate 6 255.
Definition EthernetMinimumSize : Z := 14.

Definition LinkAddress_String (a : list Z) : string :=
  if decide (length a = 6%nat) then HardwareAddr_String a else hexString a.

(** ** The Ethernet header *)

Definition SourceAddress (b : slice) : res (list Z) :=
  s ← slice_from b 6; a ← slice_to s 6; mret (s_data a).

Definition DestinationAddress (b : slice) : res (list Z) :=
  s ← slice_from b 0; a ← slice_to s 6; mret (s_data a).

(** [binary.BigEndian.Uint16]: panics on a slice of less than two bytes. *)
Definition be_Uint16 (bs : list Z) : res Z :=
  match bs with a :: b :: _ => Ok (a * 256 + b) | _ => Panic end.

Definition EthernetType (b : slice) : res Z :=
  s ← slice_from b 12; be_Uint16 (s_data s).

(** [copy(b[off:][:n], src)]. *)
Definition copy_at (off n : nat) (src b : list Z) : list Z :=
  let k := (length src `min` n)%nat in
  take off b ++ take k src ++ drop (off + k) b.

Record EthernetFields := { eth_SrcAddr : list Z; eth_DstAddr : list Z; eth_Type : Z }.

(** [Encode] on the 14 bytes of a link header. *)
Definition Ethernet_Encode (b : list Z) (f : EthernetFields) : list Z :=
  let b := copy_at 12 2 (put_u16_be (eth_Type f)) b in
  let b := copy_at 6 6 (eth_SrcAddr f) b in
  copy_at 0 6 (eth_DstAddr f) b.

(** ** ARP *)

Definition ARPSize : nat := 28.
Definition ARPReply : Z := 2.
Definition arp_u16 (off : nat) (a : list Z) : Z := be_value (take 2 (drop off a)).
Definition arp_u8 (off : nat) (a : list Z) : Z := be_value (take 1 (drop off a)).

Definition ARP_IsValid (a : list Z) : bool :=
  if decide (length a < ARPSize)%nat then false
  else bool_decide (arp_u16 0 a = 1 ∧ arp_u16 2 a = 2048 ∧ arp_u8 4 a = 6 ∧ arp_u8 5 a = 4).

Definition ARP_Op (a : list Z) : Z := arp_u16 6 a.
Definition ProtocolAddressSender (a : list Z) : list Z := take 4 (drop 14 a).

(** ** Network addresses: the [length] significant bytes *)

Definition AddrFrom4Slice (addr : list Z) : res (list Z) :=
  if decide (length addr = 4%nat) then Ok addr else Panic.

Definition AddrFromSlice (addr : list Z) : list Z :=
  if decide (length addr = 4%nat ∨ length addr = 16%nat) then addr else [].

(** [Address.String] on 4-byte and 16-byte addresses. *)
Definition Address_String (a : list Z) : string :=
  if decide (length a = 4%nat) then v4_string a
  else if decide (length a = 16%nat) then v6_string a
  else hexString a.

(** ** Subnets *)

Record Subnet := { sn_address : list Z; sn_mask : list Z }.

Definition NewSubnet (a m : list Z) : res Subnet :=
  if decide (length a ≠ length m) then
    Err (ErrMsg "subnet length of address and mask differ")
  else if decide (Exists (λ am, Z.ldiff am.1 am.2 ≠ 0) (zip a m)) then
    Err (ErrMsg "subnet address has bits set outside the mask")
  else Ok {| sn_address := a; sn_mask := m |}.

Definition Subnet_Contains (s : Subnet) (a : list Z) : bool :=
  if decide (length a ≠ length (sn_address s)) then false
  else bool_decide (zip_with Z.land a (sn_mask s) = sn_address s).

(** ** Lemmas *)

(** A frame with a full Ethernet header. *)
Definition frame_ok (b : slice) : Prop := (14 ≤ length (s_data b))%nat.

Definition frame_dst (bs : list Z) : list Z := take 6 bs.
Definition frame_src (bs : list Z) : list Z := take 6 (drop 6 bs).
Definition frame_type (bs : list Z) : Z := be_value (take 2 (drop 12 bs)).

Lemma DestinationAddress_ok b :
  (6 ≤ length (s_data b))%nat → DestinationAddress b = Ok (frame_dst (s_data b)).
Proof.
  intros Hl. unfold DestinationAddress, slice_from, slice_to.
  rewrite decide_True by lia. cbn. rewrite drop_0, length_app, decide_True by lia. cbn.
  by rewrite take_app_le by lia.
Qed.

Lemma SourceAddress_ok b :
  (12 ≤ length (s_data b))%nat → SourceAddress b = Ok (frame_src (s_data b)).
Proof.
  intros Hl. unfold SourceAddress, slice_from, slice_to.
  rewrite decide_True by lia. cbn. rewrite length_app, length_drop, decide_True by lia. cbn.
  unfold frame_src. by rewrite take_app_le by (rewrite length_drop; lia).
Qed.

Lemma EthernetType_ok b : frame_ok b → EthernetType b = Ok (frame_type (s_data b)).
Proof.
  unfold frame_ok, EthernetType, slice_from, frame_type. intros Hl.
  rewrite decide_True by lia. cbn.
  destruct (drop 12 (s_data b)) as [|x [|y l]] eqn:E;
    apply (f_equal length) in E; rewrite length_drop in E; cbn in E; try lia.
  done.
Qed.

(** A slice with no spare capacity that is too short for the two addresses
    panics. *)
Lemma SourceAddress_short bs : (length bs < 12)%nat → SourceAddress (slice_of bs) = Panic.
Proof.
  intros Hl. unfold SourceAddress, slice_from, slice_to. cbn.
  case_decide; [|reflexivity]. cbn. rewrite app_nil_r, length_drop, decide_False by lia. done.
Qed.

Lemma length_copy_at off n src b :
  (off + n ≤ length b)%nat → length (copy_at off n src b) = length b.
Proof.
  intros. unfold copy_at. rewrite !length_app, !length_take, length_drop. lia.
Qed.

(** The header [Encode] writes for 6-byte addresses. *)
Lemma Ethernet_Encode_6 b f :
  length b = 14%nat → length (eth_SrcAddr f) = 6%nat → length (eth_DstAddr f) = 6%nat →
  Ethernet_Encode b f = eth_DstAddr f ++ eth_SrcAddr f ++ put_u16_be (eth_Type f).
Proof.
  destruct f as [src dst ty]; cbn. intros Hb Hs Hd.
  do 14 (destruct b as [|? b]; [done|]). destruct b; [|done].
  do 6 (destruct src as [|? src]; [done|]). destruct src; [|done].
  do 6 (destruct dst as [|? dst]; [done|]). by destruct dst.
Qed.

Lemma put_u16_be_value z : be_value (put_u16_be z) = u16 z.
Proof.
  unfold put_u16_be, be_value, u16. cbn.
  pose proof (Z.rem_mul_r z 256 256). change (2 ^ 16) with (256 * 256). lia.
Qed.

(** Encoding followed by the accessors. *)
Lemma Ethernet_roundtrip b f payload :
  length b = 14%nat → length (eth_SrcAddr f) = 6%nat → length (eth_DstAddr f) = 6%nat →
  let frame := Ethernet_Encode b f ++ payload in
  frame_dst frame = eth_DstAddr f ∧ frame_src frame = eth_SrcAddr f ∧
  frame_type frame = u16 (eth_Type f) ∧ drop 14 frame = payload.
Proof.
  intros Hb Hs Hd. cbn zeta. rewrite Ethernet_Encode_6 by done.
  unfold frame_dst, frame_src, frame_type. rewrite <- !app_assoc.
  split_and!.
  - by rewrite take_app_length' by done.
  - rewrite drop_app_length' by done. by rewrite take_app_length' by done.
  - rewrite <- put_u16_be_value. f_equal.
    rewrite (app_assoc (eth_DstAddr f)), drop_app_length' by (rewrite length_app; lia).
    done.
  - rewrite !app_assoc, drop_app_length'; [done|]. rewrite !length_app, Hs, Hd. done.
Qed.
