(* ===== verification/Protocols.v ===== *)
(** pkg/tap/protocols.go and the protocol names of pkg/types/configuration.go:
    how a frame is delimited on a connection.  [StreamProtocol] is the Go
    interface [streamProtocol]; [FramingLaws] states what the switch relies on,
    and its instances are proved for the two stream protocols. *)
From Stdlib Require Import Ascii String.
From S2P Require Import Prelude GoStrings.

Local Open Scope string_scope.
Local Open Scope list_scope.
Local Open Scope Z_scope.

(** ** Protocol names ([types.Protocol]) *)

Definition HyperKitProtocol : string := "hyperkit".
Definition QemuProtocol : string := "qemu".
Definition BessProtocol : string := "bess".
Definition StdioProtocol : string := "stdio".
Definition VfkitProtocol : string := "vfkit".

(** ** Implementations *)

Inductive protocol := hyperkitProtocol | qemuProtocol | bessProtocol | vfkitProtocol.

#[export] Instance protocol_eq_dec : EqDecision protocol.
Proof. solve_decision. Defined.

Definition protocolImplementation (name : string) : protocol :=
  if decide (name = QemuProtocol) then qemuProtocol
  else if decide (name = BessProtocol) then bessProtocol
  else if decide (name = VfkitProtocol) then vfkitProtocol
  else hyperkitProtocol.

Definition Stream (p : protocol) : bool :=
  match p with
  | hyperkitProtocol | qemuProtocol => true
  | bessProtocol | vfkitProtocol => false
  end.

(** The interface [streamProtocol]: [Write] updates the buffer in place and
    panics when it is too short; so does [Read]. *)
Record StreamProtocol := {
  Buf : list Z;
  Write : list Z → Z → res (list Z);
  Read : list Z → res Z;
}.

Definition hyperkit_Buf : list Z := replicate 2 0.
Definition hyperkit_Write (buf : list Z) (size : Z) : res (list Z) :=
  if decide (length buf < 2)%nat then Panic
  else Ok (put_u16_le (u16 size) ++ drop 2 buf).
Definition hyperkit_Read (buf : list Z) : res Z :=
  match buf with a :: b :: _ => Ok (a + b * 256) | _ => Panic end.

Definition qemu_Buf : list Z := replicate 4 0.
Definition qemu_Write (buf : list Z) (size : Z) : res (list Z) :=
  if decide (length buf < 4)%nat then Panic
  else Ok (put_u32_be (u32 size) ++ drop 4 buf).
Definition qemu_Read (buf : list Z) : res Z :=
  match buf with
  | a :: b :: c :: d :: _ => Ok (a * 16777216 + b * 65536 + c * 256 + d)
  | _ => Panic
  end.

Definition hyperkit_stream : StreamProtocol :=
  {| Buf := hyperkit_Buf; Write := hyperkit_Write; Read := hyperkit_Read |}.
Definition qemu_stream : StreamProtocol :=
  {| Buf := qemu_Buf; Write := qemu_Write; Read := qemu_Read |}.

Lemma hyperkit_Write_Buf size : hyperkit_Write hyperkit_Buf size = Ok (put_u16_le (u16 size)).
Proof. done. Qed.
Lemma qemu_Write_Buf size : qemu_Write qemu_Buf size = Ok (put_u32_be (u32 size)).
Proof. done. Qed.

(** The type assertion [p.(streamProtocol)]; it panics on the datagram protocols. *)
Definition as_stream (p : protocol) : res StreamProtocol :=
  match p with
  | hyperkitProtocol => Ok hyperkit_stream
  | qemuProtocol => Ok qemu_stream
  | _ => Panic
  end.

(** ** What a framing promises *)

(** A header of [w] bytes carries the size modulo [256 ^ w]. *)
Class FramingLaws (sp : StreamProtocol) (w : nat) := {
  framing_pos : (0 < w)%nat;
  framing_buf : length (Buf sp) = w;
  framing_write size : 0 ≤ size →
    ∃ hdr, Write sp (Buf sp) size = Ok hdr ∧ length hdr = w ∧
           Forall is_byte hdr ∧ Read sp hdr = Ok (size mod 256 ^ Z.of_nat w);
  framing_read hdr : length hdr = w → Forall is_byte hdr →
    ∃ size, Read sp hdr = Ok size ∧ 0 ≤ size < 256 ^ Z.of_nat w;
}.

#[export] Instance hyperkit_framing : FramingLaws hyperkit_stream 2.
Proof.
  split; [lia|done|..].
  - intros size Hs. cbn. eexists. split_and!; [done|done|..].
    + repeat constructor; unfold is_byte; try apply Z.mod_pos_bound; lia.
    + cbn. f_equal. change (size mod 256 ^ Z.of_nat 2) with (u16 size).
      pose proof (u16_bounds size). Z.div_mod_to_equations. lia.
  - intros hdr Hl Hb. destruct hdr as [|a [|b [|]]]; try done.
    rewrite !Forall_cons in Hb. unfold is_byte in Hb. cbn. eexists. split; [done|].
    change (256 ^ Z.of_nat 2) with 65536. lia.
Qed.

Lemma u32_bytes v : 0 ≤ v < 2 ^ 32 →
  v / 16777216 mod 256 * 16777216 + v / 65536 mod 256 * 65536 + v / 256 mod 256 * 256 + v mod 256 = v.
Proof.
  intros Hv. change (2 ^ 32) with 4294967296 in Hv. Z.div_mod_to_equations. lia.
Qed.

#[export] Instance qemu_framing : FramingLaws qemu_stream 4.
Proof.
  split; [lia|done|..].
  - intros size Hs. cbn. eexists. split_and!; [done|done|..].
    + repeat constructor; unfold is_byte; try apply Z.mod_pos_bound; lia.
    + cbn. f_equal. change (256 ^ Z.of_nat 4) with (2 ^ 32).
      apply u32_bytes, u32_bounds.
  - intros hdr Hl Hb. destruct hdr as [|a [|b [|c [|d [|]]]]]; try done.
    rewrite !Forall_cons in Hb. unfold is_byte in Hb. cbn. eexists. split; [done|].
    change (256 ^ Z.of_nat 4) with 4294967296. lia.
Qed.
