(* ===== verification/Switch.v ===== *)
(** pkg/tap/switch.go: the learning switch between the connections of the
    guests and the virtual gateway.  One definition per method, written in a
    monad that threads the [Switch] and records what is written to connections,
    delivered to the gateway, closed or logged. *)
From Stdlib Require Import Ascii String.
From S2P Require Import Prelude GoStrings GoNet Tcpip Protocols.

Local Open Scope string_scope.
Local Open Scope list_scope.
Local Open Scope Z_scope.

(** ** State *)

(** pkg/tap/connection.go; [Conn] is the identity of the [net.Conn]. *)
Record protocolConn := { Conn : nat; protocolImpl : protocol }.

#[export] Instance protocolConn_eq_dec : EqDecision protocolConn.
Proof. solve_decision. Defined.

(** The [VirtualDevice] plugged as the gateway. *)
Record VirtualDevice := { vd_LinkAddress : list Z; vd_IP : string }.

Record Switch := {
  Sent : Z;
  Received : Z;
  debug : bool;
  maxTransmissionUnit : Z;
  nextConnID : Z;
  conns : gmap Z protocolConn;
  cam : gmap (list Z) Z;
  gateway : option VirtualDevice;
}.

Definition set_Sent (v : Z) (e : Switch) : Switch :=
  {| Sent := v; Received := Received e; debug := debug e;
     maxTransmissionUnit := maxTransmissionUnit e; nextConnID := nextConnID e;
     conns := conns e; cam := cam e; gateway := gateway e |}.
Definition set_Received (v : Z) (e : Switch) : Switch :=
  {| Sent := Sent e; Received := v; debug := debug e;
     maxTransmissionUnit := maxTransmissionUnit e; nextConnID := nextConnID e;
     conns := conns e; cam := cam e; gateway := gateway e |}.
Definition set_conns (n : Z) (c : gmap Z protocolConn) (e : Switch) : Switch :=
  {| Sent := Sent e; Received := Received e; debug := debug e;
     maxTransmissionUnit := maxTransmissionUnit e; nextConnID := n;
     conns := c; cam := cam e; gateway := gateway e |}.
Definition set_cam (c : gmap (list Z) Z) (e : Switch) : Switch :=
  {| Sent := Sent e; Received := Received e; debug := debug e;
     maxTransmissionUnit := maxTransmissionUnit e; nextConnID := nextConnID e;
     conns := conns e; cam := c; gateway := gateway e |}.

Definition NewSwitch (dbg : bool) (mtu : Z) : Switch :=
  {| Sent := 0; Received := 0; debug := dbg; maxTransmissionUnit := mtu;
     nextConnID := 0; conns := ∅; cam := ∅; gateway := None |}.

Definition Switch_Connect (ep : VirtualDevice) (e : Switch) : Switch :=
  {| Sent := Sent e; Received := Received e; debug := debug e;
     maxTransmissionUnit := maxTransmissionUnit e; nextConnID := nextConnID e;
     conns := conns e; cam := cam e; gateway := Some ep |}.

(** The copy loop of [CAM], in the order the runtime ranges over [e.cam]. *)
Definition CAM (order : list (list Z * Z)) (e : Switch) : gmap string Z :=
  foldl (λ (ret : gmap string Z) ap, <[LinkAddress_String ap.1 := ap.2]> ret) ∅ order.

(** ** Effects *)

Inductive event :=
  | EvWrite (c : nat) (data : list Z)   (* conn.Write succeeded *)
  | EvWriteErr (c : nat)                (* conn.Write failed *)
  | EvClose (c : nat)                   (* conn.Close *)
  | EvDeliver (ty : Z) (payload : list Z) (* gateway.DeliverNetworkPacket *)
  | EvLog (e : error).                  (* log.Error *)

#[export] Instance event_eq_dec : EqDecision event.
Proof. solve_decision. Defined.

Definition M (A : Type) : Type := Switch → res A * Switch * list event.

Definition ret {A} (a : A) : M A := λ e, (Ok a, e, []).
Definition throw {A} (err : error) : M A := λ e, (Err err, e, []).
Definition lift {A} (r : res A) : M A := λ e, (r, e, []).
Definition emit (ev : event) : M unit := λ e, (Ok tt, e, [ev]).
Definition modify (f : Switch → Switch) : M unit := λ e, (Ok tt, f e, []).
Definition gets {A} (f : Switch → A) : M A := λ e, (Ok (f e), e, []).
Definition bind {A B} (m : M A) (f : A → M B) : M B := λ e,
  match m e with
  | (Ok a, e1, ev1) => let '(r, e2, ev2) := f a e1 in (r, e2, ev1 ++ ev2)
  | (Err err, e1, ev1) => (Err err, e1, ev1)
  | (Panic, e1, ev1) => (Panic, e1, ev1)
  end.
(** [if err := m; err != nil { h err }] *)
Definition catch (m : M unit) (h : error → M unit) : M unit := λ e,
  match m e with
  | (Err err, e1, ev1) => let '(r, e2, ev2) := h err e1 in (r, e2, ev1 ++ ev2)
  | r => r
  end.

Declare Scope switch_scope.
Delimit Scope switch_scope with switch.
Notation "x ⇐ m ;; k" := (bind m (λ x, k))
  (at level 100, m at next level, right associativity) : switch_scope.
Notation "m ;;; k" := (bind m (λ _, k))
  (at level 100, k at level 200, right associativity) : switch_scope.
Local Open Scope switch_scope.

Definition run_res {A} (x : res A * Switch * list event) : res A := x.1.1.
Definition run_state {A} (x : res A * Switch * list event) : Switch := x.1.2.
Definition run_events {A} (x : res A * Switch * list event) : list event := x.2.

(** ** Operations *)

Section operations.
(** The environment of one call: [wr c data] is the error of [conn.Write] on
    connection [c], if any; [ToView] is the contiguous view of a packet. *)
Context (wr : nat → list Z → option error).
Context (ToView : list Z → slice).

Definition disconnect (id : Z) (conn : protocolConn) : M unit :=
  modify (λ e, set_cam (filter (λ ai, ai.2 ≠ id) (cam e)) e) ;;;
  emit (EvClose (Conn conn)) ;;;
  modify (λ e, set_conns (nextConnID e) (delete id (conns e)) e).

Definition conn_Write (id : Z) (conn : protocolConn) (data : list Z) : M unit :=
  match wr (Conn conn) data with
  | None => emit (EvWrite (Conn conn) data)
  | Some err => emit (EvWriteErr (Conn conn)) ;;; disconnect id conn ;;; throw err
  end.

Definition txBuf (id : Z) (conn : protocolConn) (buf : list Z) : M unit :=
  if Stream (protocolImpl conn) then
    sp ⇐ lift (as_stream (protocolImpl conn)) ;;
    size ⇐ lift (Write sp (Buf sp) (Z.of_nat (length buf))) ;;
    conn_Write id conn (size ++ buf)
  else conn_Write id conn buf.

Definition add_Sent (n : Z) : M unit := modify (λ e, set_Sent (u64 (Sent e + n)) e).

(** The broadcast loop, over the connections in range order. *)
Fixpoint broadcast (order : list (Z * protocolConn)) (srcID : Z) (buf : list Z) : M unit :=
  match order with
  | [] => ret tt
  | (id, conn) :: order' =>
      if decide (id = srcID) then broadcast order' srcID buf
      else
        txBuf id conn buf ;;;
        add_Sent (Z.of_nat (length buf)) ;;;
        broadcast order' srcID buf
  end.

(** [pkt] is the contiguous view of the packet; reading the entry of a missing
    connection gives the zero [protocolConn], whose nil protocol panics. *)
Definition txPkt (order : list (Z * protocolConn)) (pkt : slice) : M unit :=
  let buf := s_data pkt in
  dst ⇐ lift (DestinationAddress pkt) ;;
  src ⇐ lift (SourceAddress pkt) ;;
  if decide (dst = EthernetBroadcastAddress) then
    srcID ⇐ gets (λ e, default (-1) (cam e !! src)) ;;
    broadcast order srcID buf
  else
    found ⇐ gets (λ e, cam e !! dst) ;;
    match found with
    | None => ret tt
    | Some id =>
        c ⇐ gets (λ e, conns e !! id) ;;
        match c with
        | None => lift Panic
        | Some conn =>
            txBuf id conn buf ;;;
            add_Sent (Z.of_nat (length buf))
        end
    end.

Definition tx (order : list (Z * protocolConn)) (pkt : slice) : M unit := txPkt order pkt.

Definition Switch_DeliverNetworkPacket (order : list (Z * protocolConn)) (pkt : slice) : M unit :=
  catch (tx order pkt) (λ err, emit (EvLog err)).

Definition connect (conn : protocolConn) : M (Z * bool) :=
  id ⇐ gets nextConnID ;;
  modify (λ e, set_conns (nextConnID e + 1) (<[id := conn]> (conns e)) e) ;;;
  ret (id, false).

Definition gateway_LinkAddress : M (list Z) :=
  g ⇐ gets gateway ;;
  match g with Some d => ret (vd_LinkAddress d) | None => lift Panic end.

(** [rxBuf]; the packet handed to [tx] is a copy of the frame, the one
    delivered to the gateway a copy without the 14 bytes of the header. *)
Definition rxBuf (order : list (Z * protocolConn)) (id : Z) (buf : slice) : M unit :=
  src ⇐ lift (SourceAddress buf) ;;
  modify (λ e, set_cam (<[src := id]> (cam e)) e) ;;;
  dst ⇐ lift (DestinationAddress buf) ;;
  gw ⇐ gateway_LinkAddress ;;
  (if decide (dst ≠ gw)
   then catch (tx order (ToView (s_data buf))) (λ err, emit (EvLog err))
   else ret tt) ;;;
  (if decide (dst = gw ∨ dst = EthernetBroadcastAddress) then
     ty ⇐ lift (EthernetType buf) ;;
     emit (EvDeliver ty (drop (Z.to_nat EthernetMinimumSize) (s_data buf)))
   else ret tt) ;;;
  modify (λ e, set_Received (u64 (Received e + Z.of_nat (length (s_data buf)))) e).

(** The bytes a connection still has to deliver, and the error after them. *)
Record conn_input := { in_bytes : list Z; in_err : error }.

Definition EOF : error := ErrStd "io.EOF" "".
Definition ErrUnexpectedEOF : error := ErrStd "io.ErrUnexpectedEOF" "".

(** [io.ReadFull(reader, make([]byte, n))]. *)
Definition ReadFull (inp : conn_input) (n : nat) : res (list Z * conn_input) :=
  if decide (n ≤ length (in_bytes inp))%nat
  then Ok (take n (in_bytes inp), {| in_bytes := drop n (in_bytes inp); in_err := in_err inp |})
  else if decide (in_err inp = EOF ∧ in_bytes inp ≠ []) then Err ErrUnexpectedEOF
  else Err (in_err inp).

(** The order in which the runtime ranges over [e.conns], at each call. *)
Context (rng : gmap Z protocolConn → list (Z * protocolConn)).

(** [rxStream]; [done i] says whether the context is cancelled at iteration [i]. *)
Fixpoint rxStream_loop (fuel : nat) (done : nat → bool) (i : nat) (id : Z)
    (sp : StreamProtocol) (inp : conn_input) (e : Switch) : option (res unit * Switch * list event) :=
  match fuel with
  | O => None
  | S fuel' =>
      if done i then Some (Ok tt, e, [])
      else
        match wrap "cannot read size from socket" (ReadFull inp (length (Buf sp))) with
        | Err err => Some (Err err, e, [])
        | Panic => Some (Panic, e, [])
        | Ok (sizeBuf, inp1) =>
            match Read sp sizeBuf with
            | Err err => Some (Err err, e, [])
            | Panic => Some (Panic, e, [])
            | Ok size =>
                match wrap "cannot read packet from socket" (ReadFull inp1 (Z.to_nat size)) with
                | Err err => Some (Err err, e, [])
                | Panic => Some (Panic, e, [])
                | Ok (buf, inp2) =>
                    match rxBuf (rng (conns e)) id (slice_of buf) e with
                    | (Ok _, e1, ev1) =>
                        match rxStream_loop fuel' done (S i) id sp inp2 e1 with
                        | Some (r, e2, ev2) => Some (r, e2, ev1 ++ ev2)
                        | None => None
                        end
                    | (r, e1, ev1) => Some (r, e1, ev1)
                    end
                end
            end
        end
  end.

Definition rxStream (done : nat → bool) (id : Z) (sp : StreamProtocol) (inp : conn_input)
  : M unit := λ e,
  default (Panic, e, []) (rxStream_loop (S (length (in_bytes inp))) done 0 id sp inp e).

(** [rxNonStream]: one [Read] per datagram into a buffer of 128 KiB that is
    reused; a datagram that does not fit is truncated by the socket. *)
Definition bufSize : nat := 1024 * 128.

Fixpoint rxNonStream_loop (done : nat → bool) (i : nat) (id : Z) (buf : list Z)
    (dgrams : list (list Z)) (err : error) : M unit :=
  if done i then ret tt
  else match dgrams with
       | [] => throw (ErrWrap "cannot read size from socket" err)
       | d :: dgrams' =>
           let data := take (length buf) d in
           let buf' := data ++ drop (length data) buf in
           order ⇐ gets (λ e, rng (conns e)) ;;
           rxBuf order id {| s_data := data; s_spare := drop (length data) buf' |} ;;;
           rxNonStream_loop done (S i) id buf' dgrams' err
       end.

Definition rxNonStream (done : nat → bool) (id : Z) (dgrams : list (list Z)) (err : error) : M unit :=
  rxNonStream_loop done 0 id (replicate bufSize 0) dgrams err.

(** What a connection delivers: a byte stream or datagrams. *)
Record conn_source := { src_stream : conn_input; src_dgrams : list (list Z) }.

Definition rx (done : nat → bool) (id : Z) (conn : protocolConn) (src : conn_source) : M unit :=
  if Stream (protocolImpl conn) then
    sp ⇐ lift (as_stream (protocolImpl conn)) ;;
    rxStream done id sp (src_stream src)
  else rxNonStream done id (src_dgrams src) (in_err (src_stream src)).

(** [Accept]; the deferred [disconnect] runs on both returns of [rx]. *)
Definition Accept (done : nat → bool) (rawConn : nat) (proto : string) (src : conn_source) : M unit :=
  let conn := {| Conn := rawConn; protocolImpl := protocolImplementation proto |} in
  idf ⇐ connect conn ;;
  let '(id, failed) := idf in
  if failed : bool then emit (EvClose rawConn)
  else λ e,
    match rx done id conn src e with
    | (Panic, e1, ev1) => (Panic, e1, ev1)
    | (Ok _, e1, ev1) =>
        let '(_, e2, ev2) := disconnect id conn e1 in (Ok tt, e2, ev1 ++ ev2)
    | (Err err, e1, ev1) =>
        let '(_, e2, ev2) := (emit (EvLog (ErrWrap "cannot receive packets, disconnecting" err)) ;;;
                              disconnect id conn) e1 in
        (Err err, e2, ev1 ++ ev2)
    end.
End operations.
Arguments tx : simpl never.
Arguments txPkt : simpl never.
Arguments rxBuf : simpl never.

(** ** Writing to one connection *)

(** The bytes put on the wire for a frame. *)
Definition wire (p : protocol) (buf : list Z) : list Z :=
  match p with
  | hyperkitProtocol => put_u16_le (u16 (Z.of_nat (length buf))) ++ buf
  | qemuProtocol => put_u32_be (u32 (Z.of_nat (length buf))) ++ buf
  | bessProtocol | vfkitProtocol => buf
  end.

(** The state after [disconnect id]. *)
Definition disconnected (id : Z) (e : Switch) : Switch :=
  set_conns (nextConnID e) (delete id (conns e))
    (set_cam (filter (λ ai, ai.2 ≠ id) (cam e)) e).

Lemma disconnect_run id conn e :
  disconnect id conn e = (Ok tt, disconnected id e, [EvClose (Conn conn)]).
Proof. done. Qed.

Lemma txBuf_run wr id conn buf e :
  txBuf wr id conn buf e =
    match wr (Conn conn) (wire (protocolImpl conn) buf) with
    | None => (Ok tt, e, [EvWrite (Conn conn) (wire (protocolImpl conn) buf)])
    | Some err => (Err err, disconnected id e, [EvWriteErr (Conn conn); EvClose (Conn conn)])
    end.
Proof.
  unfold txBuf, bind, lift. destruct (protocolImpl conn) eqn:Ep; cbn -[put_u16_le put_u32_be].
  1: rewrite hyperkit_Write_Buf. 2: rewrite qemu_Write_Buf.
  all: unfold conn_Write; by destruct (wr _ _).
Qed.

Lemma set_Sent_id e : set_Sent (Sent e) e = e.
Proof. by destruct e. Qed.

(** ** The broadcast loop *)

Section tx.
Context (wr : nat → list Z → option error).
Implicit Types (order : list (Z * protocolConn)) (e : Switch).

Definition write_ok (buf : list Z) (c : protocolConn) : Prop :=
  wr (Conn c) (wire (protocolImpl c) buf) = None.

(** The connections a broadcast frame is written to. *)
Definition targets (srcID : Z) (order : list (Z * protocolConn)) : list (Z * protocolConn) :=
  filter (λ ic, ic.1 ≠ srcID) order.

Definition write_event (buf : list Z) (ic : Z * protocolConn) : event :=
  EvWrite (Conn ic.2) (wire (protocolImpl ic.2) buf).

Definition bump_Sent (n : Z) e : Switch := set_Sent (u64 (Sent e + n)) e.

Lemma broadcast_skip srcID id c order buf e :
  id = srcID → broadcast wr ((id, c) :: order) srcID buf e = broadcast wr order srcID buf e.
Proof. intros ->. cbn. by rewrite decide_True. Qed.

Lemma broadcast_step_ok srcID id c order buf e :
  id ≠ srcID → write_ok buf c →
  broadcast wr ((id, c) :: order) srcID buf e =
    let '(r, e', ev) := broadcast wr order srcID buf (bump_Sent (Z.of_nat (length buf)) e) in
    (r, e', write_event buf (id, c) :: ev).
Proof.
  intros Hne Hw. cbn. rewrite decide_False by done.
  unfold bind. rewrite txBuf_run, Hw. cbn.
  unfold write_event. cbn. unfold bump_Sent.
  by destruct (broadcast wr order srcID buf _) as [[??]?].
Qed.

Lemma broadcast_step_err srcID id c order buf e err :
  id ≠ srcID → wr (Conn c) (wire (protocolImpl c) buf) = Some err →
  broadcast wr ((id, c) :: order) srcID buf e =
    (Err err, disconnected id e, [EvWriteErr (Conn c); EvClose (Conn c)]).
Proof.
  intros Hne Hw. cbn. rewrite decide_False by done.
  unfold bind. by rewrite txBuf_run, Hw.
Qed.

Lemma bump_Sent_twice a b e : bump_Sent a (bump_Sent b e) = bump_Sent (b + a) e.
Proof.
  unfold bump_Sent. cbn. rewrite u64_add_l. unfold set_Sent; cbn. f_equal. f_equal. lia.
Qed.

(** Connections that accept the frame are served in order. *)
Lemma broadcast_prefix srcID o1 o2 buf e :
  Forall (λ ic, write_ok buf ic.2) (targets srcID o1) →
  0 ≤ Sent e < 2 ^ 64 →
  broadcast wr (o1 ++ o2) srcID buf e =
    let '(r, e', ev) := broadcast wr o2 srcID buf
      (bump_Sent (Z.of_nat (length (targets srcID o1)) * Z.of_nat (length buf)) e) in
    (r, e', (write_event buf <$> targets srcID o1) ++ ev).
Proof.
  revert e; induction o1 as [|[id c] o1 IH]; intros e Hok Hs.
  { cbn. unfold bump_Sent. rewrite Z.add_0_r, u64_small, set_Sent_id by done.
    by destruct (broadcast _ _ _ _ _) as [[??]?]. }
  unfold targets in *. rewrite filter_cons in *. cbn [fst] in *. rewrite <- app_comm_cons.
  destruct (decide (id ≠ srcID)) as [Hne|Heq].
  - apply Forall_cons in Hok as [Hc Hok].
    rewrite broadcast_step_ok, IH by (done || apply Z.mod_pos_bound; lia).
    rewrite bump_Sent_twice. cbn [length fmap list_fmap].
    replace (Z.of_nat (length buf) + _) with
      (Z.of_nat (S (length (filter (λ ic : Z * protocolConn, ic.1 ≠ srcID) o1))) * Z.of_nat (length buf)) by lia.
    by destruct (broadcast _ _ _ _ _) as [[??]?].
  - apply dec_stable in Heq. rewrite broadcast_skip by done. by apply IH.
Qed.
End tx.

(** ** Transmission *)

(** A frame that holds both addresses. *)
Definition has_addresses (pkt : slice) : Prop := (12 ≤ length (s_data pkt))%nat.

Section txPkt.
Context (wr : nat → list Z → option error).
Implicit Types (e : Switch) (pkt : slice) (order : list (Z * protocolConn)).

Lemma txPkt_run order pkt e :
  has_addresses pkt →
  txPkt wr order pkt e =
    let buf := s_data pkt in
    if decide (frame_dst buf = EthernetBroadcastAddress) then
      broadcast wr order (default (-1) (cam e !! frame_src buf)) buf e
    else
      match cam e !! frame_dst buf with
      | None => (Ok tt, e, [])
      | Some id =>
          match conns e !! id with
          | None => (Panic, e, [])
          | Some c =>
              match wr (Conn c) (wire (protocolImpl c) buf) with
              | None => (Ok tt, bump_Sent (Z.of_nat (length buf)) e, [write_event buf (id, c)])
              | Some err =>
                  (Err err, disconnected id e, [EvWriteErr (Conn c); EvClose (Conn c)])
              end
          end
      end.
Proof.
  intros Ha. unfold txPkt, bind, lift.
  rewrite DestinationAddress_ok, SourceAddress_ok by (unfold has_addresses in *; lia).
  cbn. case_decide.
  - by destruct (broadcast _ _ _ _ _) as [[??]?].
  - destruct (cam e !! frame_dst (s_data pkt)) as [id|]; [|done]. cbn.
    destruct (conns e !! id) as [c|]; [|done]. cbn. unfold bind. rewrite txBuf_run.
    by destruct (wr _ _).
Qed.

(** The connections that accept the frame, up to the first one that does not. *)
Lemma first_failure buf (ts : list (Z * protocolConn)) : ∃ served rest,
  ts = served ++ rest ∧ Forall (λ ic, write_ok wr buf ic.2) served ∧
  match rest with [] => True | ic :: _ => is_Some (wr (Conn ic.2) (wire (protocolImpl ic.2) buf)) end.
Proof.
  induction ts as [|[id c] ts (served & rest & -> & Hs & Hr)]; [by exists [], []|].
  destruct (wr (Conn c) (wire (protocolImpl c) buf)) as [err|] eqn:Ew.
  - exists [], ((id, c) :: served ++ rest). split_and!; [done|by apply Forall_nil|]. cbn. by rewrite Ew.
  - exists ((id, c) :: served), rest. split_and!; [done| |done]. by apply Forall_cons.
Qed.

Lemma targets_all srcID (ts : list (Z * protocolConn)) : Forall (λ ic, ic.1 ≠ srcID) ts → targets srcID ts = ts.
Proof.
  unfold targets. induction 1 as [|ic ts Hic Hts IH]; [done|]. rewrite filter_cons, decide_True by done. by rewrite IH.
Qed.

(** The loop runs over the targets only. *)
Lemma broadcast_targets srcID order buf e :
  broadcast wr order srcID buf e = broadcast wr (targets srcID order) srcID buf e.
Proof.
  revert e. induction order as [|[id c] order IH]; intros e; [done|]. unfold targets in *. rewrite filter_cons. cbn [fst].
  case_decide as Hd.
  - cbn [broadcast]. rewrite !decide_False by done. unfold bind. by destruct (txBuf wr id c buf e) as [[[u|err|] e1] ev1]; cbn; rewrite ?IH.
  - by rewrite broadcast_skip, IH.
Qed.

(** C12: broadcast.  Whatever the order in which the connections are visited and
    whichever writes fail: the connections to visit are all but the one the source of
    the frame was learned on, each once.  They get the frame, once each and framed
    for their protocol, up to the first one whose write fails; that one is closed
    and forgotten with its addresses, the ones after it get nothing, and its error
    is returned.  [Sent] grows by one frame per copy (modulo 2^64), and nothing else
    changes.  When no write fails every one of them gets the frame. *)
Theorem broadcast_delivery order pkt e :
  has_addresses pkt → frame_dst (s_data pkt) = EthernetBroadcastAddress →
  range_order (conns e) order → 0 ≤ Sent e < 2 ^ 64 →
  let buf := s_data pkt in
  let ts := targets (default (-1) (cam e !! frame_src buf)) (map_to_list (conns e)) in
  ∃ served rest,
    served ++ rest ≡ₚ ts ∧ Forall (λ ic, write_ok wr buf ic.2) served ∧
    let e' := set_Sent (u64 (Sent e + Z.of_nat (length served) * Z.of_nat (length buf))) e in
    match rest with
    | [] => tx wr order pkt e = (Ok tt, e', write_event buf <$> served)
    | (id, c) :: _ => ∃ err, wr (Conn c) (wire (protocolImpl c) buf) = Some err ∧
        tx wr order pkt e = (Err err, disconnected id e',
                             (write_event buf <$> served) ++ [EvWriteErr (Conn c); EvClose (Conn c)])
    end.
Proof.
  intros Ha Hd Ho Hs buf ts. unfold tx. rewrite txPkt_run by done.
  cbn zeta. rewrite decide_True by done. fold buf. rewrite broadcast_targets.
  set (srcID := default (-1) (cam e !! frame_src buf)) in *.
  assert (targets srcID order ≡ₚ ts) as Hts by (unfold ts, targets; by rewrite Ho).
  destruct (first_failure buf (targets srcID order)) as (served & rest & Heq & Hok & Hr).
  exists served, rest. rewrite <- Heq. split; [done|]. split; [done|]. cbn zeta.
  assert (Forall (λ ic, ic.1 ≠ srcID) (served ++ rest)) as [Hf1 Hf2]%Forall_app.
  { rewrite <- Heq. apply Forall_forall. by intros ic [? _]%list_elem_of_filter. }
  pose proof (targets_all srcID served Hf1) as Hts1.
  rewrite Heq, broadcast_prefix, Hts1 by (rewrite ?Hts1; done).
  destruct rest as [|[id c] rest].
  - cbn [broadcast]. unfold ret. by rewrite app_nil_r.
  - destruct Hr as [err Herr]. exists err. split; [done|].
    rewrite (broadcast_step_err _ _ _ _ _ _ _ err); [done| |done].
    by apply Forall_cons in Hf2 as [? _].
Qed.

(** A broadcast stops at the first connection that fails: the connections
    visited before it got the frame, the failing one is disconnected and its
    addresses are forgotten, the ones after it are not served, and the error is
    returned. *)
Theorem broadcast_abort o1 id c o2 pkt e err :
  has_addresses pkt → frame_dst (s_data pkt) = EthernetBroadcastAddress →
  0 ≤ Sent e < 2 ^ 64 →
  let buf := s_data pkt in
  let srcID := default (-1) (cam e !! frame_src buf) in
  id ≠ srcID →
  Forall (λ ic, write_ok wr buf ic.2) (targets srcID o1) →
  wr (Conn c) (wire (protocolImpl c) buf) = Some err →
  tx wr (o1 ++ (id, c) :: o2) pkt e =
    (Err err,
     disconnected id
       (bump_Sent (Z.of_nat (length (targets srcID o1)) * Z.of_nat (length buf)) e),
     (write_event buf <$> targets srcID o1) ++ [EvWriteErr (Conn c); EvClose (Conn c)]).
Proof.
  intros Ha Hd Hs buf srcID Hne Hok Hw. unfold tx. rewrite txPkt_run by done.
  cbn zeta. rewrite decide_True by done. fold buf. fold srcID.
  rewrite broadcast_prefix by done. by rewrite (broadcast_step_err _ _ _ _ _ _ _ err).
Qed.

(** C13: unicast.  A frame for a learned address is written once, to the
    connection it was learned on; a frame for an unknown address is dropped; a
    failing connection is disconnected and forgotten.  (The last case of the
    match, an address learned on a connection that is gone, panics.) *)
Theorem unicast_delivery order pkt e :
  has_addresses pkt → frame_dst (s_data pkt) ≠ EthernetBroadcastAddress →
  let buf := s_data pkt in
  tx wr order pkt e =
    match cam e !! frame_dst buf with
    | None => (Ok tt, e, [])
    | Some id =>
        match conns e !! id with
        | Some c =>
            match wr (Conn c) (wire (protocolImpl c) buf) with
            | None => (Ok tt, bump_Sent (Z.of_nat (length buf)) e,
                       [EvWrite (Conn c) (wire (protocolImpl c) buf)])
            | Some err =>
                (Err err, disconnected id e, [EvWriteErr (Conn c); EvClose (Conn c)])
            end
        | None => (Panic, e, [])
        end
    end.
Proof.
  intros Ha Hd buf. unfold tx. rewrite txPkt_run by done. cbn zeta.
  rewrite decide_False by done. fold buf.
  destruct (cam e !! frame_dst buf) as [id|]; [|done]. by destruct (conns e !! id).
Qed.
End txPkt.

(** ** Reception *)

Section rx.
Context (wr : nat → list Z → option error).
Context (ToView : list Z → slice).
Context (rng : gmap Z protocolConn → list (Z * protocolConn)).
Implicit Types (e : Switch).

(** The state after the source address of a frame is learned. *)
Definition learned (id : Z) (bs : list Z) e : Switch :=
  set_cam (<[frame_src bs := id]> (cam e)) e.

(** Forwarding of a received frame towards the guests. *)
Definition forwarded (order : list (Z * protocolConn)) (gw bs : list Z) e
    : res unit * Switch * list event :=
  if decide (frame_dst bs = gw) then (Ok tt, e, [])
  else Switch_DeliverNetworkPacket wr order (ToView bs) e.

Lemma rxBuf_run order id buf gw e :
  frame_ok buf → gateway e = Some gw →
  let bs := s_data buf in
  let f := forwarded order (vd_LinkAddress gw) bs (learned id bs e) in
  run_res f = Ok tt →
  rxBuf wr ToView order id buf e =
    (Ok tt,
     set_Received (u64 (Received (run_state f) + Z.of_nat (length bs))) (run_state f),
     run_events f ++
       if decide (frame_dst bs = vd_LinkAddress gw ∨ frame_dst bs = EthernetBroadcastAddress)
       then [EvDeliver (frame_type bs) (drop 14 bs)] else []).
Proof.
  intros Hf Hg bs f Hr. unfold frame_ok in Hf. unfold rxBuf, bind, lift, modify.
  rewrite SourceAddress_ok, DestinationAddress_ok, EthernetType_ok
    by (unfold frame_ok; lia).
  unfold gateway_LinkAddress, gets, bind, ret. cbn [gateway set_cam]. rewrite Hg.
  unfold f, forwarded, Switch_DeliverNetworkPacket, learned in *. fold bs.
  destruct (decide (frame_dst bs = vd_LinkAddress gw)) as [Hd|Hd]; cbn -[Z.to_nat] in *.
  - rewrite decide_False, decide_True by tauto. by rewrite decide_True by tauto.
  - rewrite decide_True by done. destruct (catch _ _ _) as [[r e2] ev2]; cbn in *. subst r.
    case_decide; cbn; by rewrite ?app_nil_r.
Qed.

(** C17: routing of a received frame (at least a full Ethernet header, gateway
    plugged in, connections accepting the writes it causes): the source address is
    learned on the receiving connection; a frame for the gateway goes to the
    gateway only; a broadcast goes both to the other guests and to the gateway;
    any other frame is forwarded to the guests only; the gateway gets the
    EtherType and the bytes after the header; [Received] counts the frame. *)
Theorem rxBuf_routing order id buf gw e :
  frame_ok buf → gateway e = Some gw →
  let bs := s_data buf in
  let to_gw := frame_dst bs = vd_LinkAddress gw in
  let f := forwarded order (vd_LinkAddress gw) bs (learned id bs e) in
  run_res f = Ok tt →
  let x := rxBuf wr ToView order id buf e in
  run_res x = Ok tt ∧
  cam (run_state x) = cam (run_state f) ∧ conns (run_state x) = conns (run_state f) ∧
  Received (run_state x) = u64 (Received (run_state f) + Z.of_nat (length bs)) ∧
  (to_gw → run_events x = [EvDeliver (frame_type bs) (drop 14 bs)] ∧
           cam (run_state x) = <[frame_src bs := id]> (cam e)) ∧
  (¬ to_gw → frame_dst bs = EthernetBroadcastAddress →
     run_events x = run_events (Switch_DeliverNetworkPacket wr order (ToView bs) (learned id bs e))
                      ++ [EvDeliver (frame_type bs) (drop 14 bs)]) ∧
  (¬ to_gw → frame_dst bs ≠ EthernetBroadcastAddress →
     run_events x = run_events (Switch_DeliverNetworkPacket wr order (ToView bs) (learned id bs e))).
Proof.
  intros Hf Hg bs to_gw f Hr x. unfold x. rewrite (rxBuf_run order id buf gw e Hf Hg Hr).
  fold bs. fold f. unfold run_res, run_state, run_events. cbn [fst snd].
  split_and!; try done.
  - intros Hd. unfold f, forwarded. rewrite !decide_True by (done || by left). done.
  - intros Hd Hb. unfold f, forwarded. rewrite decide_False by done.
    by rewrite decide_True by by right.
  - intros Hd Hb. unfold f, forwarded. rewrite decide_False by done.
    rewrite decide_False by (by intros [?|?]). by rewrite app_nil_r.
Qed.

(** *** The stream of frames *)

Implicit Types (inp : conn_input) (sp : StreamProtocol).

(** The bytes of one frame on a stream connection. *)
Definition frame_enc sp (f : list Z) : list Z :=
  match Write sp (Buf sp) (Z.of_nat (length f)) with Ok h => h ++ f | _ => [] end.

(** Receiving a list of frames, one after the other. *)
Fixpoint rx_frames (id : Z) (frames : list (list Z)) : M unit :=
  match frames with
  | [] => ret tt
  | f :: frames' =>
      (order ⇐ gets (λ e, rng (conns e)) ;; rxBuf wr ToView order id (slice_of f)) ;;;
      rx_frames id frames'
  end.

Lemma ReadFull_app xs rest err :
  ReadFull {| in_bytes := xs ++ rest; in_err := err |} (length xs) =
    Ok (xs, {| in_bytes := rest; in_err := err |}).
Proof.
  unfold ReadFull. cbn. rewrite length_app, decide_True by lia.
  by rewrite take_app_length, drop_app_length.
Qed.

Lemma ReadFull_shorter inp n bs inp' :
  ReadFull inp n = Ok (bs, inp') →
  length (in_bytes inp) = (n + length (in_bytes inp'))%nat ∧ length bs = n.
Proof.
  unfold ReadFull. repeat case_decide; try done. intros [= <- <-]. cbn.
  rewrite length_drop, length_take. lia.
Qed.

(** The loop does not depend on its fuel once there is more fuel than input. *)
Lemma rxStream_loop_fuel sp w `{!FramingLaws sp w} done id f1 : ∀ f2 i inp e,
  (length (in_bytes inp) < f1)%nat → (length (in_bytes inp) < f2)%nat →
  rxStream_loop wr ToView rng f1 done i id sp inp e =
    rxStream_loop wr ToView rng f2 done i id sp inp e ∧
  is_Some (rxStream_loop wr ToView rng f1 done i id sp inp e).
Proof.
  induction f1 as [|f1 IH]; intros f2 i inp e H1 H2; [lia|].
  destruct f2 as [|f2]; [lia|]. cbn [rxStream_loop].
  destruct (done i); [eauto|].
  destruct (ReadFull inp (length (Buf sp))) as [[sb inp1]|err|] eqn:E1; cbn [wrap]; [|eauto..].
  destruct (Read sp sb) as [size|err|]; [|eauto..].
  destruct (ReadFull inp1 (Z.to_nat size)) as [[buf inp2]|err|] eqn:E2; cbn [wrap]; [|eauto..].
  apply ReadFull_shorter in E1 as [E1 _], E2 as [E2 _].
  rewrite framing_buf in E1. pose proof (framing_pos (sp:=sp) (w:=w)).
  destruct (rxBuf wr ToView (rng (conns e)) id (slice_of buf) e) as [[[u|err|] e1] ev1]; [|eauto..].
  destruct (IH f2 (S i) inp2 e1) as [<- [[[r e2] ev2] ->]]; [lia..|]. eauto.
Qed.

(** Termination of [rxStream].  Whatever the bytes, the framing and the
    cancellation, the receive loop returns: more fuel than input bytes always
    suffices, and the result does not depend on it. *)
Theorem rxStream_terminates sp w `{!FramingLaws sp w} done id inp e fuel :
  (length (in_bytes inp) < fuel)%nat →
  rxStream_loop wr ToView rng fuel done 0 id sp inp e =
    Some (rxStream wr ToView rng done id sp inp e).
Proof.
  intros Hl. unfold rxStream.
  destruct (rxStream_loop_fuel sp w done id fuel (S (length (in_bytes inp))) 0 inp e)
    as [<- [r ->]]; [lia..|]. done.
Qed.

Lemma frame_enc_spec sp w `{!FramingLaws sp w} f :
  Z.of_nat (length f) < 256 ^ Z.of_nat w →
  ∃ hdr, frame_enc sp f = hdr ++ f ∧ length hdr = w ∧ Read sp hdr = Ok (Z.of_nat (length f)).
Proof.
  intros Hl. destruct (framing_write (sp:=sp) (w:=w) (Z.of_nat (length f)))
    as (hdr & Hw & Hlen & _ & Hr); [lia|].
  exists hdr. unfold frame_enc. rewrite Hw. rewrite Z.mod_small in Hr by lia. done.
Qed.

Lemma rxStream_loop_frame sp w `{!FramingLaws sp w} done i id f rest err e fuel :
  Z.of_nat (length f) < 256 ^ Z.of_nat w → done i = false →
  rxStream_loop wr ToView rng (S fuel) done i id sp
      {| in_bytes := frame_enc sp f ++ rest; in_err := err |} e =
    match rxBuf wr ToView (rng (conns e)) id (slice_of f) e with
    | (Ok _, e1, ev1) =>
        match rxStream_loop wr ToView rng fuel done (S i) id sp
                {| in_bytes := rest; in_err := err |} e1 with
        | Some (r, e2, ev2) => Some (r, e2, ev1 ++ ev2)
        | None => None
        end
    | (r, e1, ev1) => Some (r, e1, ev1)
    end.
Proof.
  intros Hl Hd. destruct (frame_enc_spec sp w f Hl) as (hdr & -> & Hlen & Hr).
  cbn [rxStream_loop]. rewrite Hd, <- app_assoc, framing_buf, <- Hlen, ReadFull_app.
  cbn [wrap]. rewrite Hr, Nat2Z.id, ReadFull_app. done.
Qed.

Lemma rxStream_loop_end sp w `{!FramingLaws sp w} done i id tail e fuel :
  (length tail < w)%nat → done i = false →
  rxStream_loop wr ToView rng (S fuel) done i id sp {| in_bytes := tail; in_err := EOF |} e =
    Some (Err (ErrWrap "cannot read size from socket"
            (if decide (tail = []) then EOF else ErrUnexpectedEOF)), e, []).
Proof.
  intros Hl Hd. cbn [rxStream_loop]. rewrite Hd, framing_buf. unfold ReadFull. cbn.
  rewrite decide_False by lia. destruct tail; cbn; by repeat case_decide; try naive_solver.
Qed.

(** Reading the concatenation of framed frames. *)
Lemma rxStream_frames sp w `{!FramingLaws sp w} done id frames tail e :
  Forall (λ f, Z.of_nat (length f) < 256 ^ Z.of_nat w) frames →
  (length tail < w)%nat → (∀ i, done i = false) →
  rxStream wr ToView rng done id sp
      {| in_bytes := concat (frame_enc sp <$> frames) ++ tail; in_err := EOF |} e =
    (rx_frames id frames ;;;
     throw (ErrWrap "cannot read size from socket"
              (if decide (tail = []) then EOF else ErrUnexpectedEOF))) e.
Proof.
  intros Hf Ht Hd. unfold rxStream. set (inp := Build_conn_input _ _).
  assert (∀ i fuel, (length (in_bytes inp) < fuel)%nat →
    rxStream_loop wr ToView rng fuel done i id sp inp e =
      Some ((rx_frames id frames ;;; throw (ErrWrap "cannot read size from socket"
              (if decide (tail = []) then EOF else ErrUnexpectedEOF))) e)) as Hgen;
    [|by rewrite Hgen by (cbn; lia)].
  unfold inp. clear inp. revert e. induction Hf as [|f frames Hl Hf IH]; intros e i fuel Hfu;
    (destruct fuel as [|fuel]; [lia|]); cbn [fmap list_fmap concat] in *.
  - by rewrite app_nil_l, (rxStream_loop_end sp w) by done.
  - rewrite <- app_assoc in *. rewrite (rxStream_loop_frame sp w) by done.
    cbn [rx_frames]. unfold bind, gets. cbn [app].
    destruct (rxBuf wr ToView (rng (conns e)) id (slice_of f) e) as [[[u|err|] e1] ev1]; try done.
    rewrite IH.
    + unfold bind. destruct (rx_frames id frames e1) as [[[u'|err|] e2] ev2]; cbn; try done.
      by rewrite !app_nil_r.
    + destruct (frame_enc_spec sp w f Hl) as (hdr & He & Hw & _). cbn in Hfu |- *.
      rewrite He, !length_app in Hfu. rewrite length_app.
      pose proof (framing_pos (sp:=sp) (w:=w)). lia.
Qed.

(** C14: framing round trip.  A receiver reading the concatenation of any framed
    frames (each shorter than the width of the header allows), then at most a
    partial header, hands exactly these frames to [rxBuf] in order, and ends
    with the end-of-file error; for both stream protocols. *)
Theorem rxStream_deframes sp w `{!FramingLaws sp w} done id frames tail e :
  Forall (λ f, Z.of_nat (length f) < 256 ^ Z.of_nat w) frames →
  (length tail < w)%nat → (∀ i, done i = false) →
  rxStream wr ToView rng done id sp
      {| in_bytes := concat (frame_enc sp <$> frames) ++ tail; in_err := EOF |} e =
    (rx_frames id frames ;;;
     throw (ErrWrap "cannot read size from socket"
              (if decide (tail = []) then EOF else ErrUnexpectedEOF))) e.
Proof. intros Hf Ht Hd. by apply (rxStream_frames sp w). Qed.
End rx.

(** The two stream framings are the bytes [txBuf] writes. *)
Lemma frame_enc_wire_hyperkit f : frame_enc hyperkit_stream f = wire hyperkitProtocol f.
Proof. done. Qed.
Lemma frame_enc_wire_qemu f : frame_enc qemu_stream f = wire qemuProtocol f.
Proof. done. Qed.

(** ** Interleavings

    Every connection is served by its own goroutine; the critical sections of
    [connect], of the learning of a source address, of [txPkt] and of the deferred
    [disconnect] are the atomic steps.  [running] holds the connections whose
    receive loop has not returned.  [faulty] says whether writes may fail. *)
Record net := { sw : Switch; running : gset Z }.

Definition initial_net (dbg : bool) (mtu : Z) (gw : VirtualDevice) : net :=
  {| sw := Switch_Connect gw (NewSwitch dbg mtu); running := ∅ |}.

Inductive net_step (faulty : bool) : net → net → Prop :=
  | step_connect s conn :
      net_step faulty s
        {| sw := run_state (connect conn (sw s));
           running := {[nextConnID (sw s)]} ∪ running s |}
  | step_learn s id src :
      id ∈ running s →
      net_step faulty s {| sw := set_cam (<[src := id]> (cam (sw s))) (sw s); running := running s |}
  | step_tx s wr order pkt :
      range_order (conns (sw s)) order → has_addresses pkt →
      faulty = true ∨ (∀ c data, wr c data = None) →
      run_res (tx wr order pkt (sw s)) ≠ Panic →
      net_step faulty s {| sw := run_state (tx wr order pkt (sw s)); running := running s |}
  | step_received s n :
      net_step faulty s
        {| sw := set_Received (u64 (Received (sw s) + n)) (sw s); running := running s |}
  | step_exit s id conn :
      id ∈ running s →
      net_step faulty s
        {| sw := run_state (disconnect id conn (sw s)); running := running s ∖ {[id]} |}.

(** What a transmission may change: it counts bytes and may drop a connection
    together with its addresses. *)
Definition shrinks (e e' : Switch) : Prop :=
  nextConnID e' = nextConnID e ∧ conns e' ⊆ conns e ∧ cam e' ⊆ cam e ∧ gateway e' = gateway e.

Lemma shrinks_refl e : shrinks e e.
Proof. done. Qed.

Lemma shrinks_disconnected id e : shrinks e (disconnected id e).
Proof.
  split_and!; cbn; [done|apply delete_subseteq|apply map_filter_subseteq|done].
Qed.

Lemma broadcast_shrinks wr order srcID buf : ∀ e,
  run_res (broadcast wr order srcID buf e) ≠ Panic ∧
  shrinks e (run_state (broadcast wr order srcID buf e)) ∧
  ((∀ c data, wr c data = None) →
    conns (run_state (broadcast wr order srcID buf e)) = conns e ∧
    cam (run_state (broadcast wr order srcID buf e)) = cam e).
Proof.
  induction order as [|[id c] order IH]; intros e; [done|].
  destruct (decide (id = srcID)) as [->|Hne]; [by rewrite broadcast_skip|].
  destruct (wr (Conn c) (wire (protocolImpl c) buf)) as [err|] eqn:Ew.
  - rewrite (broadcast_step_err _ _ _ _ _ _ _ err) by done.
    split; [done|]. split; [apply shrinks_disconnected|].
    intros H. by rewrite H in Ew.
  - rewrite broadcast_step_ok by done.
    destruct (IH (bump_Sent (Z.of_nat (length buf)) e)) as (Hp & Hs & Hw).
    by destruct (broadcast _ _ _ _ _) as [[r e'] ev].
Qed.

(** A transmission panics only for an address learned on a missing connection. *)
Lemma tx_effect wr order pkt e :
  has_addresses pkt →
  shrinks e (run_state (tx wr order pkt e)) ∧
  ((∀ c data, wr c data = None) →
     conns (run_state (tx wr order pkt e)) = conns e ∧ cam (run_state (tx wr order pkt e)) = cam e) ∧
  (run_res (tx wr order pkt e) = Panic →
     ∃ id, cam e !! frame_dst (s_data pkt) = Some id ∧ conns e !! id = None).
Proof.
  intros Ha. unfold tx. rewrite txPkt_run by done. cbn zeta. case_decide.
  { destruct (broadcast_shrinks wr order (default (-1) (cam e !! frame_src (s_data pkt))) (s_data pkt) e)
      as (? & ? & ?). done. }
  destruct (cam e !! frame_dst (s_data pkt)) as [id|] eqn:Ec; [|done].
  destruct (conns e !! id) as [c|] eqn:El; [|by split; [done|]; split; [done|]; eauto].
  destruct (wr _ _) as [err|] eqn:Ew; [|done].
  split; [apply shrinks_disconnected|]. split; [|done]. intros Hall. by rewrite Hall in Ew.
Qed.

(** *** Invariants *)

Record net_inv (s : net) : Prop := {
  inv_ids : ∀ id, id ∈ running s → 0 ≤ id < nextConnID (sw s);
  inv_conns : ∀ id, is_Some (conns (sw s) !! id) → id ∈ running s;
  inv_cam : ∀ a id, cam (sw s) !! a = Some id → id ∈ running s;
}.

Lemma net_inv_initial dbg mtu gw : net_inv (initial_net dbg mtu gw).
Proof.
  split; cbn; [set_solver|..].
  - intros id [c Hc]. by apply lookup_empty_Some in Hc.
  - intros a id Hc. by apply lookup_empty_Some in Hc.
Qed.

Lemma nextConnID_step faulty s s' :
  0 ≤ nextConnID (sw s) → net_step faulty s s' → nextConnID (sw s) ≤ nextConnID (sw s').
Proof.
  intros Hn Hs.
  destruct Hs as [s conn|s id src Hid|s wr order pkt Ho Ha Hw Hp|s n|s id conn Hid]; cbn in *; try lia.
  destruct (tx_effect wr order pkt (sw s) Ha) as [(-> & _) _]. lia.
Qed.

Lemma net_inv_step faulty s s' :
  0 ≤ nextConnID (sw s) → net_inv s → net_step faulty s s' → net_inv s'.
Proof.
  intros Hn [Hids Hc Hm] Hs.
  destruct Hs as [s conn|s id src Hid|s wr order pkt Ho Ha Hw Hp|s n|s id conn Hid]; cbn in *.
  - split; cbn.
    + intros id [->%elem_of_singleton|H%Hids]%elem_of_union; lia.
    + intros id [c Hl]. apply lookup_insert_Some in Hl as [[<- _]|[_ Hl]]; [set_solver|].
      apply elem_of_union_r, Hc. eauto.
    + intros a id Hl. apply elem_of_union_r. eauto.
  - split; cbn; [done..|]. intros a i [[_ <-]|[_ Hl]]%lookup_insert_Some; eauto.
  - destruct (tx_effect wr order pkt (sw s) Ha) as [(Heq & Hsc & Hsm & _) _].
    split; cbn.
    + intros id H%Hids. by rewrite Heq.
    + intros id [c Hl]. apply Hc. exists c. by eapply lookup_weaken.
    + intros a id Hl. eapply Hm. by eapply lookup_weaken.
  - done.
  - split; cbn.
    + intros i [H%Hids _]%elem_of_difference. done.
    + intros i [c [Hne Hl]%lookup_delete_Some]. apply elem_of_difference.
      split; [apply Hc; eauto|set_solver].
    + intros a i [Hl Hne]%map_lookup_filter_Some. apply elem_of_difference.
      split; [eauto|set_solver].
Qed.

Definition reachable (faulty : bool) (s : net) : Prop :=
  ∃ dbg mtu gw, star (net_step faulty) (initial_net dbg mtu gw) s.

Lemma reachable_inv faulty s : reachable faulty s → 0 ≤ nextConnID (sw s) ∧ net_inv s.
Proof.
  intros (dbg & mtu & gw & Hs).
  refine (star_invariant _ (λ s, 0 ≤ nextConnID (sw s) ∧ net_inv s) _ _ _ _ Hs).
  - intros a b [Hn Hi] Hab. split; [|by eapply net_inv_step].
    pose proof (nextConnID_step faulty a b Hn Hab). lia.
  - split; [done|]. apply net_inv_initial.
Qed.

(** C11: in every reachable state of the switch, under every interleaving and even
    when writes fail, every open connection and every learned address belongs to a
    connection whose receive loop is still running, so once a connection's loop has
    returned no address leads to it; connection numbers are fresh.  (The converse
    fails: after a failed write the connection is closed while its loop still runs.) *)
Theorem switch_invariant faulty s :
  reachable faulty s →
  (∀ id, is_Some (conns (sw s) !! id) → id ∈ running s ∧ 0 ≤ id < nextConnID (sw s)) ∧
  (∀ a id, cam (sw s) !! a = Some id → id ∈ running s) ∧
  (conns (sw s) !! nextConnID (sw s) = None).
Proof.
  intros [Hn [Hids Hc Hm]]%reachable_inv. split_and!; [eauto..|].
  apply eq_None_not_Some. intros H%Hc%Hids. lia.
Qed.

(** Without write failures, exactly the running connections are open. *)
Definition all_open (s : net) : Prop :=
  net_inv s ∧ 0 ≤ nextConnID (sw s) ∧ ∀ id, id ∈ running s → is_Some (conns (sw s) !! id).

Lemma all_open_step s s' : all_open s → net_step false s s' → all_open s'.
Proof.
  intros (Hi & Hn & Ho) Hs. pose proof (nextConnID_step _ _ _ Hn Hs) as Hn'.
  split_and!; [by eapply net_inv_step|lia|].
  destruct Hs as [s conn|s id src Hid|s wr order pkt Hr Ha Hw Hp|s n|s id conn Hid]; cbn in *.
  - intros id [->%elem_of_singleton|H]%elem_of_union.
    + rewrite lookup_insert_eq. eauto.
    + rewrite lookup_insert_is_Some. destruct (decide (nextConnID (sw s) = id)); eauto.
  - done.
  - destruct Hw as [|Hw]; [done|].
    destruct (tx_effect wr order pkt (sw s) Ha) as (_ & He & _).
    destruct (He Hw) as [-> _]. done.
  - done.
  - intros i [H Hne]%elem_of_difference. rewrite lookup_delete_ne by set_solver. eauto.
Qed.

(** C16: as long as no write to a connection fails, no interleaving lets a
    transmission panic: every learned address leads to an open connection. *)
Theorem tx_never_panics s wr order pkt :
  reachable false s → has_addresses pkt →
  (∀ a id, cam (sw s) !! a = Some id → is_Some (conns (sw s) !! id)) ∧
  run_res (tx wr order pkt (sw s)) ≠ Panic.
Proof.
  intros (dbg & mtu & gw & Hs) Ha.
  assert (all_open s) as (Hi & _ & Ho).
  { refine (star_invariant _ all_open _ _ _ _ Hs); [apply all_open_step|].
    split_and!; [apply net_inv_initial|done|set_solver]. }
  assert (∀ a id, cam (sw s) !! a = Some id → is_Some (conns (sw s) !! id)) as Hcam.
  { intros a id H. by eapply Ho, inv_cam. }
  split; [done|]. intros Hp.
  destruct (tx_effect wr order pkt (sw s) Ha) as (_ & _ & He).
  destruct (He Hp) as (id & Hl & Hc). apply Hcam in Hl as [c Hl]. congruence.
Qed.

(** ** What goes wrong *)

Section crash.
Context (wr : nat → list Z → option error) (ToView : list Z → slice).
Context (rng : gmap Z protocolConn → list (Z * protocolConn)).

(** A guest on a stream protocol that announces a frame too short for an
    Ethernet header (less than 12 bytes, 0 included) makes the receive loop
    panic: the accessors index the frame without checking its length. *)
Theorem rxStream_short_frame_panics sp w `{!FramingLaws sp w} done id hdr body rest e :
  done 0%nat = false → length hdr = w → Read sp hdr = Ok (Z.of_nat (length body)) →
  (length body < 12)%nat →
  rxStream wr ToView rng done id sp
    {| in_bytes := hdr ++ body ++ rest; in_err := EOF |} e = (Panic, e, []).
Proof.
  intros Hd Hl Hr Hb. unfold rxStream. cbn [rxStream_loop in_bytes].
  rewrite Hd, framing_buf, <- Hl, ReadFull_app. cbn [wrap].
  rewrite Hr, Nat2Z.id, ReadFull_app. cbn [wrap].
  unfold rxBuf, bind, lift. by rewrite SourceAddress_short.
Qed.
End crash.

(** *** A concrete network: the gateway, two guests *)

Definition mac_gw : list Z := [90; 148; 239; 228; 12; 221].
Definition mac_a : list Z := [2; 0; 0; 0; 0; 1].
Definition mac_b : list Z := [2; 0; 0; 0; 0; 2].
Definition gw0 : VirtualDevice := {| vd_LinkAddress := mac_gw; vd_IP := "192.168.127.1" |}.
Definition mk_frame (dst src payload : list Z) : slice :=
  slice_of (dst ++ src ++ [8; 0] ++ payload).

Definition guest_a : protocolConn := {| Conn := 0; protocolImpl := hyperkitProtocol |}.
Definition guest_b : protocolConn := {| Conn := 1; protocolImpl := qemuProtocol |}.
Definition all_ok : nat → list Z → option error := λ _ _, None.
Definition fail_a : nat → list Z → option error :=
  λ c _, if decide (c = 0%nat) then Some (ErrExt "broken pipe") else None.

Definition net0 : net := initial_net false 1500 gw0.
Definition net1 : net :=
  {| sw := run_state (connect guest_a (sw net0)); running := {[nextConnID (sw net0)]} ∪ running net0 |}.
Definition net2 : net :=
  {| sw := run_state (connect guest_b (sw net1)); running := {[nextConnID (sw net1)]} ∪ running net1 |}.
Definition net3 : net :=
  {| sw := set_cam (<[mac_a := 0]> (cam (sw net2))) (sw net2); running := running net2 |}.
Definition net4_ : net :=
  {| sw := set_cam (<[mac_b := 1]> (cam (sw net3))) (sw net3); running := running net3 |}.
Definition bcast_from_b : slice := mk_frame EthernetBroadcastAddress mac_b [1; 2; 3].
Definition order4 : list (Z * protocolConn) := map_to_list (conns (sw net4_)).
Definition net5 : net :=
  {| sw := run_state (tx fail_a order4 bcast_from_b (sw net4_)); running := running net4_ |}.
Definition net6 : net :=
  {| sw := set_cam (<[mac_a := 0]> (cam (sw net5))) (sw net5); running := running net5 |}.

Lemma net4_reachable faulty : reachable faulty net4_.
Proof.
  exists false, 1500, gw0.
  eapply star_step; [apply (step_connect faulty net0 guest_a)|].
  eapply star_step; [apply (step_connect faulty net1 guest_b)|].
  eapply star_step; [apply (step_learn faulty net2 0 mac_a); set_solver|].
  eapply star_step; [apply (step_learn faulty net3 1 mac_b); set_solver|].
  apply star_refl.
Qed.

Lemma reachable_step faulty s s' : reachable faulty s → net_step faulty s s' → reachable faulty s'.
Proof. intros (dbg & mtu & gw & Hs) Hst. exists dbg, mtu, gw. by eapply star_snoc. Qed.

Lemma net6_reachable : reachable true net6.
Proof.
  eapply reachable_step; [eapply reachable_step; [apply net4_reachable|]|].
  - apply (step_tx true net4_ fail_a order4 bcast_from_b); [done|..].
    + unfold has_addresses. cbn. lia.
    + by left.
    + by vm_compute.
  - apply (step_learn true net5 0 mac_a). by vm_compute.
Qed.

(** When a write fails, a transmission disconnects the guest while its
    receive loop may still hold frames it has read; learning the source of such a
    frame makes the address lead to a connection that is gone, and the next frame
    for that address panics.  Such a state is reachable. *)
Theorem stale_port_panics :
  ∃ s wr order pkt, reachable true s ∧ range_order (conns (sw s)) order ∧
    has_addresses pkt ∧ run_res (tx wr order pkt (sw s)) = Panic.
Proof.
  exists net6, all_ok, (map_to_list (conns (sw net6))), (mk_frame mac_a mac_b []).
  split; [apply net6_reachable|]. split; [apply range_order_canonical|].
  split; [unfold has_addresses; cbn; lia|by vm_compute].
Qed.

(** ** Witnesses *)

(** A broadcast of the second guest with a write to the first one that fails. *)
Lemma broadcast_delivery_witness :
  ∃ served rest, served ++ rest ≡ₚ [(0, guest_a)] ∧
    match rest with
    | [] => run_res (tx fail_a order4 bcast_from_b (sw net4_)) = Ok tt
    | (id, c) :: _ => ∃ err, fail_a (Conn c) (wire (protocolImpl c) (s_data bcast_from_b)) = Some err ∧
        run_res (tx fail_a order4 bcast_from_b (sw net4_)) = Err err
    end.
Proof.
  destruct (broadcast_delivery fail_a order4 bcast_from_b (sw net4_)) as (served & rest & Hp & _ & Hr).
  - unfold has_addresses. cbn. lia.
  - done.
  - done.
  - cbn. lia.
  - exists served, rest. split; [exact Hp|]. destruct rest as [|[id c] rest]; [by rewrite Hr|].
    destruct Hr as (err & He & ->). by exists err.
Defined.

Lemma broadcast_abort_witness :
  tx fail_a ([] ++ (0, guest_a) :: [(1, guest_b)])
      (mk_frame EthernetBroadcastAddress mac_gw []) (sw net4_) =
    (Err (ErrExt "broken pipe"), disconnected 0 (bump_Sent 0 (sw net4_)),
     [] ++ [EvWriteErr 0; EvClose 0]).
Proof.
  apply (broadcast_abort fail_a [] 0 guest_a [(1, guest_b)]);
    [unfold has_addresses; cbn; lia|done|cbn; lia|by vm_compute|constructor|done].
Defined.

Lemma unicast_delivery_witness :
  tx all_ok order4 (mk_frame mac_a mac_b [7]) (sw net4_) =
    (Ok tt, bump_Sent 15 (sw net4_), [EvWrite 0 ([15; 0] ++ s_data (mk_frame mac_a mac_b [7]))]).
Proof.
  exact (unicast_delivery all_ok order4 (mk_frame mac_a mac_b [7]) (sw net4_)
           ltac:(unfold has_addresses; cbn; lia) ltac:(by vm_compute)).
Defined.

Lemma rxBuf_routing_witness :
  run_events (rxBuf all_ok slice_of order4 0 (mk_frame mac_gw mac_a [9; 9]) (sw net4_)) =
    [EvDeliver 2048 [9; 9]].
Proof.
  refine (proj1 (proj1 (proj2 (proj2 (proj2 (proj2
    (rxBuf_routing all_ok slice_of order4 0 (mk_frame mac_gw mac_a [9; 9]) gw0 (sw net4_)
       _ _ _))))) _)).
  - unfold frame_ok. cbn. lia.
  - done.
  - done.
  - done.
Defined.

Definition canonical_range : gmap Z protocolConn → list (Z * protocolConn) := map_to_list.

Lemma rxStream_terminates_witness :
  rxStream_loop all_ok slice_of canonical_range 9 (λ _, false) 0 0 hyperkit_stream
      {| in_bytes := [14; 0; 1]; in_err := EOF |} (sw net4_) =
    Some (rxStream all_ok slice_of canonical_range (λ _, false) 0 hyperkit_stream
      {| in_bytes := [14; 0; 1]; in_err := EOF |} (sw net4_)).
Proof. apply (rxStream_terminates all_ok slice_of canonical_range hyperkit_stream 2). cbn. lia. Defined.

Lemma rxStream_deframes_witness :
  let frames := [s_data (mk_frame mac_gw mac_a [1]); s_data (mk_frame mac_b mac_a [2; 3])] in
  rxStream all_ok slice_of canonical_range (λ _, false) 0 qemu_stream
      {| in_bytes := concat (frame_enc qemu_stream <$> frames) ++ [0; 0]; in_err := EOF |} (sw net4_) =
    (rx_frames all_ok slice_of canonical_range 0 frames ;;;
     throw (ErrWrap "cannot read size from socket" ErrUnexpectedEOF)) (sw net4_).
Proof.
  intros frames.
  apply (rxStream_deframes all_ok slice_of canonical_range qemu_stream 4 (λ _, false) 0 frames [0; 0]).
  - repeat constructor.
  - cbn. lia.
  - done.
Defined.

Lemma switch_invariant_witness : conns (sw net6) !! nextConnID (sw net6) = None.
Proof. exact (proj2 (proj2 (switch_invariant true net6 net6_reachable))). Defined.

Lemma tx_never_panics_witness :
  run_res (tx fail_a order4 bcast_from_b (sw net4_)) ≠ Panic.
Proof.
  refine (proj2 (tx_never_panics net4_ fail_a order4 bcast_from_b (net4_reachable false) _)).
  unfold has_addresses. cbn. lia.
Defined.

Lemma rxStream_short_frame_panics_witness :
  rxStream all_ok slice_of canonical_range (λ _, false) 0 hyperkit_stream
    {| in_bytes := [0; 0] ++ [] ++ []; in_err := EOF |} (sw net4_) = (Panic, sw net4_, []).
Proof.
  apply (rxStream_short_frame_panics all_ok slice_of canonical_range hyperkit_stream 2);
    [done|done|done|cbn; lia].
Defined.
