(* ===== verification/Link.v ===== *)
(** pkg/tap/link.go: the link endpoint of the gateway's network stack.  It adds
    the Ethernet header to the packets of the stack, drops the ARP replies that
    claim an address the gateway does not own, and hands the frames to the
    switch. *)
From Stdlib Require Import Ascii String.
From S2P Require Import Prelude GoStrings GoNet Tcpip Protocols Switch.

Local Open Scope string_scope.
Local Open Scope list_scope.
Local Open Scope Z_scope.
Local Open Scope switch_scope.

(** ** State *)

(** [networkSwitch] and [dispatcher] are the interfaces the endpoint is wired to:
    present or nil. *)
Record LinkEndpoint := {
  le_debug : bool;
  le_mtu : Z;
  le_mac : list Z;
  le_ip : string;
  virtualIPs : gset string;
  dispatcher : bool;
  networkSwitch : bool;
}.

Definition NewLinkEndpoint (dbg : bool) (mtu : Z) (macAddress ip : string) (vips : list string)
    : res LinkEndpoint :=
  linkAddr ← ParseMAC macAddress;
  mret {| le_debug := dbg; le_mtu := mtu; le_mac := linkAddr; le_ip := ip;
          virtualIPs := foldl (λ set v, {[v]} ∪ set) ∅ vips;
          dispatcher := false; networkSwitch := false |}.

Definition LinkEndpoint_Connect (e : LinkEndpoint) : LinkEndpoint :=
  {| le_debug := le_debug e; le_mtu := le_mtu e; le_mac := le_mac e; le_ip := le_ip e;
     virtualIPs := virtualIPs e; dispatcher := dispatcher e; networkSwitch := true |}.

Definition Attach (d : bool) (e : LinkEndpoint) : LinkEndpoint :=
  {| le_debug := le_debug e; le_mtu := le_mtu e; le_mac := le_mac e; le_ip := le_ip e;
     virtualIPs := virtualIPs e; dispatcher := d; networkSwitch := networkSwitch e |}.

Definition IsAttached (e : LinkEndpoint) : bool := dispatcher e.
Definition LinkAddress (e : LinkEndpoint) : list Z := le_mac e.
Definition LinkEndpoint_IP (e : LinkEndpoint) : string := le_ip e.
Definition MaxHeaderLength : Z := u16 EthernetMinimumSize.
Definition MTU (e : LinkEndpoint) : Z := u32 (le_mtu e).
Definition ARPHardwareType : Z := 1.

(** [DeliverNetworkPacket]: what the endpoint passes up to the stack. *)
Definition LinkEndpoint_Deliver (e : LinkEndpoint) (ty : Z) (payload : list Z)
    : res (Z * list Z) :=
  if dispatcher e then Ok (ty, payload) else Panic.

(** The device the switch sees when the endpoint is plugged in. *)
Definition as_device (e : LinkEndpoint) : VirtualDevice :=
  {| vd_LinkAddress := LinkAddress e; vd_IP := LinkEndpoint_IP e |}.

(** ** Packets of the stack

    The bytes reserved in front for the link header, the network header, the
    rest, and the route the stack chose. *)
Record PacketBuffer := {
  pk_reserved : list Z;
  pk_net : list Z;
  pk_data : list Z;
  LocalLinkAddress : list Z;
  RemoteLinkAddress : list Z;
  NetworkProtocolNumber : Z;
}.

(** [LinkHeader().Push(14)] panics when less room was reserved. *)
Definition Push_link (p : PacketBuffer) : res (list Z) :=
  if decide (length (pk_reserved p) < 14)%nat then Panic
  else Ok (drop (length (pk_reserved p) - 14) (pk_reserved p)).

Section link.
Context (wr : nat → list Z → option error) (ToView : list Z → slice).
Context (order : list (Z * protocolConn)).
Implicit Types (e : LinkEndpoint) (pkt : PacketBuffer).

Definition src_addr e pkt : list Z :=
  if decide (LocalLinkAddress pkt ≠ []) then LocalLinkAddress pkt else LinkAddress e.

(** The guard on ARP replies: true when the packet is dropped. *)
Definition spoofing e pkt : bool :=
  let h := pk_net pkt in
  if ARP_IsValid h && bool_decide (ARP_Op h = ARPReply) then
    let ip := Address_String (AddrFromSlice (ProtocolAddressSender h)) in
    bool_decide (ip ≠ LinkEndpoint_IP e ∧ ip ∉ virtualIPs e)
  else false.

Definition writePacket e pkt : M unit :=
  hdr ⇐ lift (Push_link pkt) ;;
  let eth := Ethernet_Encode hdr
               {| eth_Type := NetworkProtocolNumber pkt; eth_SrcAddr := src_addr e pkt;
                  eth_DstAddr := RemoteLinkAddress pkt |} in
  if spoofing e pkt then ret tt
  else if networkSwitch e
       then Switch_DeliverNetworkPacket wr order (ToView (eth ++ pk_net pkt ++ pk_data pkt))
       else lift Panic.

Fixpoint WritePackets_loop e (pkts : list PacketBuffer) (n : Z) : M (Z * option error) :=
  match pkts with
  | [] => ret (n, None)
  | p :: pkts' => λ s,
      match writePacket e p s with
      | (Ok _, s1, ev1) =>
          let '(r, s2, ev2) := WritePackets_loop e pkts' (n + 1) s1 in (r, s2, ev1 ++ ev2)
      | (Err err, s1, ev1) => (Ok (n, Some err), s1, ev1)
      | (Panic, s1, ev1) => (Panic, s1, ev1)
      end
  end.
Definition WritePackets e (pkts : list PacketBuffer) : M (Z * option error) :=
  WritePackets_loop e pkts 0.

Definition WriteRawPacket : M unit := throw (ErrExt "operation not supported").

(** ** Properties *)

(** The frame an endpoint builds for a packet. *)
Definition link_frame e pkt : list Z :=
  RemoteLinkAddress pkt ++ src_addr e pkt ++ put_u16_be (NetworkProtocolNumber pkt) ++
  pk_net pkt ++ pk_data pkt.

(** A packet the stack hands over: room for the header, 6-byte addresses. *)
Definition packet_ok e pkt : Prop :=
  (14 ≤ length (pk_reserved pkt))%nat ∧ length (src_addr e pkt) = 6%nat ∧
  length (RemoteLinkAddress pkt) = 6%nat.

(** An ARP packet is its network header: gVisor's ARP endpoint builds the 28 bytes of
    its packets there and gives them no payload (network/arp/arp.go). *)
Definition arp_whole pkt : Prop := u16 (NetworkProtocolNumber pkt) = 2054 → pk_data pkt = [].

Lemma writePacket_run e pkt s :
  packet_ok e pkt → networkSwitch e = true →
  writePacket e pkt s =
    if spoofing e pkt then (Ok tt, s, [])
    else Switch_DeliverNetworkPacket wr order (ToView (link_frame e pkt)) s.
Proof.
  intros (Hr & Hs & Hd) Hn. unfold writePacket, bind, lift, Push_link.
  rewrite decide_False by lia. cbv beta iota zeta.
  rewrite Ethernet_Encode_6 by (cbn; rewrite ?length_drop; lia || done).
  destruct (spoofing e pkt); [done|]. rewrite Hn. unfold link_frame.
  cbn [eth_DstAddr eth_SrcAddr eth_Type]. rewrite <- !app_assoc.
  by destruct (Switch_DeliverNetworkPacket _ _ _ _) as [[??]?].
Qed.

Lemma spoofing_false e pkt :
  spoofing e pkt = false → ARP_IsValid (pk_net pkt) = true → ARP_Op (pk_net pkt) = ARPReply →
  let ip := v4_string (ProtocolAddressSender (pk_net pkt)) in
  ip = le_ip e ∨ ip ∈ virtualIPs e.
Proof.
  intros Es Hv Ho ip. unfold spoofing in Es.
  rewrite Hv, Ho, bool_decide_true in Es by done. cbn [andb] in Es.
  apply bool_decide_eq_false in Es.
  assert (length (ProtocolAddressSender (pk_net pkt)) = 4%nat) as Hl.
  { unfold ARP_IsValid, ARPSize in Hv. case_decide; [done|].
    unfold ProtocolAddressSender. rewrite length_take, length_drop. lia. }
  unfold AddrFromSlice, Address_String, LinkEndpoint_IP in Es.
  rewrite (decide_True _ _ (or_introl Hl)) in Es. rewrite decide_True in Es by done. fold ip in Es.
  destruct (decide (ip = le_ip e)); [by left|]. right.
  destruct (decide (ip ∈ virtualIPs e)); [done|]. by destruct Es.
Qed.

(** The fields of the frame of a packet. *)
Lemma link_frame_fields e pkt : packet_ok e pkt →
  frame_dst (link_frame e pkt) = RemoteLinkAddress pkt ∧ frame_src (link_frame e pkt) = src_addr e pkt ∧
  frame_type (link_frame e pkt) = u16 (NetworkProtocolNumber pkt) ∧
  drop 14 (link_frame e pkt) = pk_net pkt ++ pk_data pkt.
Proof.
  intros (_ & Hs & Hd).
  pose proof (Ethernet_roundtrip (replicate 14 0)
    {| eth_SrcAddr := src_addr e pkt; eth_DstAddr := RemoteLinkAddress pkt;
       eth_Type := NetworkProtocolNumber pkt |} (pk_net pkt ++ pk_data pkt) eq_refl Hs Hd) as H.
  cbn zeta in H. rewrite Ethernet_Encode_6 in H by done. cbn [eth_DstAddr eth_SrcAddr eth_Type] in H.
  rewrite <- !app_assoc in H. exact H.
Qed.

(** A frame that carries an ARP reply for somebody else is not sent. *)
Lemma link_frame_honest e pkt : packet_ok e pkt → arp_whole pkt → spoofing e pkt = false →
  let f := link_frame e pkt in
  frame_type f = 2054 → ARP_IsValid (drop 14 f) = true → ARP_Op (drop 14 f) = ARPReply →
  let ip := v4_string (ProtocolAddressSender (drop 14 f)) in ip = le_ip e ∨ ip ∈ virtualIPs e.
Proof.
  intros Hp Ha Hs f. unfold f. destruct (link_frame_fields e pkt Hp) as (_ & _ & -> & ->). intros Ht.
  rewrite (Ha Ht), app_nil_r. by apply spoofing_false.
Qed.

(** No ARP spoofing by the gateway.  If sending a packet has any effect on
    the switch or any guest and the packet is a valid ARP reply, its sender
    address is the gateway's IP or one of its virtual IPs. *)
Theorem arp_reply_not_spoofed e pkt s :
  packet_ok e pkt → networkSwitch e = true →
  writePacket e pkt s ≠ (Ok tt, s, []) →
  ARP_IsValid (pk_net pkt) = true → ARP_Op (pk_net pkt) = ARPReply →
  let ip := v4_string (ProtocolAddressSender (pk_net pkt)) in
  ip = le_ip e ∨ ip ∈ virtualIPs e.
Proof.
  intros Hp Hn Hw Hv Ho ip. rewrite writePacket_run in Hw by done.
  destruct (spoofing e pkt) eqn:Es; [done|]. by apply spoofing_false.
Qed.

(** Every other packet reaches the switch as an Ethernet frame whose
    destination is the route's remote address, whose source is the route's
    local address if set and the gateway's MAC otherwise, whose type is the
    packet's protocol and whose payload is the packet, and is transmitted like
    any frame; [WritePackets] reports one packet sent. *)
Theorem writePacket_frame e pkt s :
  packet_ok e pkt → networkSwitch e = true → spoofing e pkt = false →
  let frame := link_frame e pkt in
  writePacket e pkt s = Switch_DeliverNetworkPacket wr order (ToView frame) s ∧
  frame_dst frame = RemoteLinkAddress pkt ∧
  frame_src frame =
    (if decide (LocalLinkAddress pkt = []) then le_mac e else LocalLinkAddress pkt) ∧
  frame_type frame = u16 (NetworkProtocolNumber pkt) ∧
  drop 14 frame = pk_net pkt ++ pk_data pkt.
Proof.
  intros Hp Hn Hsp frame. rewrite writePacket_run, Hsp by done. split; [done|].
  unfold frame. destruct (link_frame_fields e pkt Hp) as (-> & -> & -> & ->). split_and!; try done.
  unfold src_addr, LinkAddress. by destruct (LocalLinkAddress pkt).
Qed.

(** [WritePackets] never returns an error: it counts every packet, the
    dropped ones included, unless the switch panics. *)
Theorem WritePackets_count e pkts s :
  run_res (WritePackets e pkts s) = Ok (Z.of_nat (length pkts), None) ∨
  run_res (WritePackets e pkts s) = Panic.
Proof.
  unfold WritePackets. cut (∀ n s,
    run_res (WritePackets_loop e pkts n s) = Ok (n + Z.of_nat (length pkts), None) ∨
    run_res (WritePackets_loop e pkts n s) = Panic); [intros H; apply (H 0 s)|].
  clear s. induction pkts as [|p pkts IH]; intros n s; cbn [WritePackets_loop length].
  { left. unfold ret, run_res. cbn. by rewrite Z.add_0_r. }
  assert (∀ err, run_res (writePacket e p s) ≠ Err err) as Hne.
  { intros err. unfold writePacket, bind, lift. destruct (Push_link p) as [h|e0|] eqn:Eh; cbn.
    - destruct (spoofing e p); [done|]. destruct (networkSwitch e); [|done].
      unfold Switch_DeliverNetworkPacket, catch.
      destruct (tx _ _ _ s) as [[[u|er|] s1] ev1]; done.
    - unfold Push_link in Eh. by case_decide.
    - done. }
  destruct (writePacket e p s) as [[[u|er|] s1] ev1] eqn:Ew.
  - specialize (IH (n + 1) s1). destruct (WritePackets_loop e pkts (n + 1) s1) as [[r s2] ev2].
    unfold run_res in *. cbn in *. destruct IH as [->| ->]; [left|by right]. do 2 f_equal. lia.
  - by destruct (Hne er).
  - by right.
Qed.
End link.

(** ** Witnesses *)

Definition ep0 : LinkEndpoint :=
  {| le_debug := false; le_mtu := 1500; le_mac := mac_gw; le_ip := "192.168.127.1";
     virtualIPs := {["192.168.127.254"]}; dispatcher := true; networkSwitch := true |}.

(** An ARP reply of the gateway for 192.168.127.254. *)
Definition arp_reply_254 : PacketBuffer :=
  {| pk_reserved := replicate 14 0;
     pk_net := [0; 1; 8; 0; 6; 4; 0; 2] ++ mac_gw ++ [192; 168; 127; 254] ++ mac_a ++ [192; 168; 127; 2];
     pk_data := []; LocalLinkAddress := []; RemoteLinkAddress := mac_a;
     NetworkProtocolNumber := 2054 |}.

Lemma arp_reply_not_spoofed_witness :
  let ip := v4_string (ProtocolAddressSender (pk_net arp_reply_254)) in
  ip = "192.168.127.1" ∨ ip ∈ virtualIPs ep0.
Proof.
  apply (arp_reply_not_spoofed all_ok slice_of order4 ep0 arp_reply_254 (sw net4_)).
  - split_and!; cbn; lia || done.
  - done.
  - by vm_compute.
  - by vm_compute.
  - by vm_compute.
Defined.

Lemma writePacket_frame_witness :
  frame_src (link_frame ep0 arp_reply_254) = mac_gw.
Proof.
  refine (proj1 (proj2 (proj2 (writePacket_frame all_ok slice_of order4 ep0 arp_reply_254 (sw net4_) _ _ _)))).
  - split_and!; cbn; lia || done.
  - done.
  - by vm_compute.
Defined.
