(* ===== verification/Types.v ===== *)
(** pkg/types: the configuration shared by the components, the requests of the
    HTTP API and the version string; and the part of net/http that every
    handler of the API uses. *)
From Stdlib Require Import Ascii String.
From S2P Require Import Prelude GoStrings GoNet.

Local Open Scope string_scope.
Local Open Scope list_scope.
Local Open Scope Z_scope.

(** ** configuration.go *)

(** [types.Record]; a compiled regular expression is its source text. *)
Record DnsRecord := { rec_Name : string; rec_IP : list Z; rec_Regexp : option string }.

Record Zone := { zone_Name : string; zone_Records : list DnsRecord; DefaultIP : list Z }.

#[export] Instance DnsRecord_eq_dec : EqDecision DnsRecord.
Proof. solve_decision. Defined.
#[export] Instance Zone_eq_dec : EqDecision Zone.
Proof. solve_decision. Defined.

Record Configuration := {
  cfg_Debug : bool;
  cfg_CaptureFile : string;
  cfg_MTU : Z;
  cfg_Subnet : string;
  GatewayIP : string;
  GatewayMacAddress : string;
  cfg_DNS : list Zone;
  DNSSearchDomains : list string;
  cfg_Forwards : gmap string string;
  cfg_NAT : gmap string string;
  GatewayVirtualIPs : list string;
  DHCPStaticLeases : gmap string string;
  VpnKitUUIDMacAddresses : gmap string string;
  cfg_Protocol : string;
}.

(** ** handshake.go, paths.go *)

Definition UDP : string := "udp".
Definition TCP : string := "tcp".
Definition UNIX : string := "unix".
Definition NPIPE : string := "npipe".

Record ExposeRequest := { exp_Local : string; exp_Remote : string; exp_Protocol : string }.
Record UnexposeRequest := { unexp_Local : string; unexp_Protocol : string }.

#[export] Instance ExposeRequest_eq_dec : EqDecision ExposeRequest.
Proof. solve_decision. Defined.

Definition ConnectPath : string := "/connect".

(** ** version.go

    [build] is [debug.ReadBuildInfo]: the version of the main module, if known. *)
Section version.
Context (gitVersion gitArchiveVersion : string) (build : option string).

Definition moduleVersionFromBuildInfo : string :=
  match build with
  | None => ""
  | Some v => if decide (v = "(devel)") then "" else v
  end.

Definition moduleVersion : string :=
  if negb (HasPrefix gitArchiveVersion "$Format:") then gitArchiveVersion
  else if decide (gitVersion ≠ "") then gitVersion
  else moduleVersionFromBuildInfo.

Definition version_String (binaryName : string) : string :=
  binaryName +:+ " version " +:+ moduleVersion.
End version.

(** The version of a program, and its flag -version. *)
Record version := { binaryName : string; showVersion : bool }.
Definition NewVersion (binaryName : string) : version := {| binaryName := binaryName; showVersion := false |}.
Definition AddFlag : string * bool := ("version", false).      (* the name and the default of the flag *)
Definition ShowVersion (v : version) : bool := showVersion v.

(** ** net/http *)

Record http_request := { req_Method : string; req_Path : string; req_RemoteAddr : string; req_Body : string }.
(** [resp_Location]: the path of a redirect, else empty; the link in the body of a
    redirect is left out. *)
Record http_response := { resp_Status : Z; resp_Body : string; resp_Location : string }.

#[export] Instance http_response_eq_dec : EqDecision http_response.
Proof. solve_decision. Defined.

Definition MethodPost : string := "POST".
Definition StatusOK : Z := 200.
Definition StatusBadRequest : Z := 400.
Definition StatusNotFound : Z := 404.
Definition StatusInternalServerError : Z := 500.

Definition newline : string := String (char 10) EmptyString.

(** [http.Error]. *)
Definition http_Error (text : string) (code : Z) : http_response :=
  {| resp_Status := code; resp_Body := text +:+ newline; resp_Location := "" |}.
Definition http_OK (body : string) : http_response :=
  {| resp_Status := StatusOK; resp_Body := body; resp_Location := "" |}.
(** A [ServeMux] without a pattern for the path. *)
Definition http_NotFound : http_response := http_Error "404 page not found" StatusNotFound.

(** The text of an error ([err.Error()]); the texts of errors that are not
    built by this repository are opaque. *)
Fixpoint error_text (e : error) : string :=
  match e with
  | ErrMsg m => m
  | ErrWrap m c => m +:+ ": " +:+ error_text c
  | ErrStd f a => f +:+ ": " +:+ a
  | ErrExt w => w
  end.
