(* ===== verification/GoHTTP.v ===== *)
(** The part of Go's net/http that dispatches requests: the [ServeMux] of Go 1.20,
    the version of go.mod, on patterns without a host. *)
From Stdlib Require Import Ascii String.
From S2P Require Import Prelude GoStrings GoURL Types.

Local Open Scope string_scope.
Local Open Scope list_scope.
Local Open Scope Z_scope.

(** The canonical path: rooted, without "." and "..", with its final slash. *)
Definition cleanPath (p : string) : string :=
  if decide (p = "") then "/"
  else
    let p := if HasPrefix p "/" then p else "/" +:+ p in
    let np := path_Clean p in
    if HasSuffix p "/" && bool_decide (np ≠ "/") then np +:+ "/" else np.

(** The longest registered subtree (a pattern that ends with a slash) of a path. *)
Definition subtree (patterns : list string) (path : string) : option string :=
  foldl (λ best p,
    if HasSuffix p "/" && HasPrefix path p &&
       bool_decide (String.length (default "" best) < String.length p)%nat then Some p else best) None patterns.

(** [mux.match]. *)
Definition mux_match (patterns : list string) (path : string) : option string :=
  if decide (path ∈ patterns) then Some path else subtree patterns path.

(** [mux.shouldRedirectRLocked]: the subtree of the path is registered, the path is not. *)
Definition should_redirect (patterns : list string) (path : string) : bool :=
  bool_decide (path ∉ patterns ∧ path ≠ "" ∧ (path +:+ "/") ∈ patterns ∧ HasSuffix path "/" = false).

(** [mux.Handler]: the pattern whose handler is called, or the path of a redirect. *)
Inductive route := RPattern (pattern : string) | RMoved (location : string) | RNone.

Definition mux_route (patterns : list string) (method path : string) : route :=
  let dispatch := match mux_match patterns path with Some p => RPattern p | None => RNone end in
  if decide (method = "CONNECT") then
    if should_redirect patterns path then RMoved (path +:+ "/") else dispatch
  else
    let clean := cleanPath path in
    if should_redirect patterns clean then RMoved (clean +:+ "/")
    else if decide (clean ≠ path) then RMoved clean
    else dispatch.

Example mux_examples :
  let api := ["/services/"; "/stats"; "/tunnel"] in
  mux_route api "GET" "/stats" = RPattern "/stats" ∧ mux_route api "POST" "/services/dns/all" = RPattern "/services/" ∧
  mux_route api "GET" "/services" = RMoved "/services/" ∧ mux_route api "GET" "/services//dns/../x/" = RMoved "/services/x/" ∧
  mux_route api "GET" "/stats/" = RNone.
Proof. by vm_compute. Qed.

(** ** Lemmas *)

(** A clean path is dispatched to its pattern, whatever the method. *)
Lemma mux_route_plain patterns method path p :
  cleanPath path = path → should_redirect patterns path = false → mux_match patterns path = Some p →
  mux_route patterns method path = RPattern p.
Proof. intros Hc Hr Hm. unfold mux_route. rewrite Hc, Hr, Hm. case_decide; [done|]. by rewrite decide_False by auto. Qed.

Lemma subtree_elem patterns path p : subtree patterns path = Some p → p ∈ patterns.
Proof.
  unfold subtree. assert (∀ best, (∀ b, best = Some b → b ∈ patterns) → ∀ l, (∀ x, x ∈ l → x ∈ patterns) →
    foldl (λ best p, if HasSuffix p "/" && HasPrefix path p &&
       bool_decide (String.length (default "" best) < String.length p)%nat then Some p else best) best l = Some p →
    p ∈ patterns) as H; [|intros Hf; by eapply (H None)].
  intros best Hb l. revert best Hb. induction l as [|x l IH]; cbn; intros best Hb Hl; [apply Hb|].
  apply IH; [|intros; apply Hl; by right]. intros b. case_match; [|apply Hb]. intros [= <-]. apply Hl. by left.
Qed.

(** Only registered patterns are dispatched to. *)
Lemma mux_route_elem patterns method path p : mux_route patterns method path = RPattern p → p ∈ patterns.
Proof.
  unfold mux_route. assert (∀ q, mux_match patterns path = Some q → q ∈ patterns) as Hm.
  { unfold mux_match. case_decide; [by intros q [= <-]|]. intros q. apply subtree_elem. }
  destruct (mux_match patterns path) as [q|]; repeat case_match; try done; intros [= <-]; by apply Hm.
Qed.

(** A path that is dispatched to a pattern that is no subtree is that pattern. *)
Lemma mux_route_exact patterns method path p :
  mux_route patterns method path = RPattern p → Forall (λ p, HasSuffix p "/" = false) patterns → path = p.
Proof.
  intros Hr Hs. assert (∀ l, Forall (λ p, HasSuffix p "/" = false) l → subtree l path = None) as Hn.
  { unfold subtree. induction 1 as [|x l Hx _ IH]; [done|]. cbn. by rewrite Hx. }
  revert Hr. unfold mux_route, mux_match. rewrite Hn by done. repeat case_match; congruence.
Qed.

(** Redirects and missing patterns. *)
Definition http_Moved (location : string) : http_response :=
  {| resp_Status := 301; resp_Body := ""; resp_Location := location |}.
