(* ===== verification/DNS.v ===== *)
(** pkg/services/dns/dns.go: the DNS server of the gateway.  The messages are
    those of github.com/miekg/dns; its [Truncate] and the resolver of the host
    are parameters. *)
From Stdlib Require Import Ascii String.
From S2P Require Import Prelude GoStrings GoNet Types GoHTTP.

Local Open Scope string_scope.
Local Open Scope list_scope.
Local Open Scope Z_scope.

(** ** Messages *)

Definition TypeA : Z := 1.
Definition TypeNS : Z := 2.
Definition TypeCNAME : Z := 5.
Definition TypeMX : Z := 15.
Definition TypeTXT : Z := 16.
Definition TypeSRV : Z := 33.
Definition TypeOPT : Z := 41.
Definition ClassINET : Z := 1.
Definition OpcodeQuery : Z := 0.
Definition RcodeSuccess : Z := 0.
Definition RcodeNameError : Z := 3.
Definition MinMsgSize : Z := 512.
Definition MaxMsgSize : Z := 65535.

Record Question := { q_Name : string; Qtype : Z; Qclass : Z }.

Record RR_Header := { hdr_Name : string; Rrtype : Z; Class_ : Z; Ttl : Z }.

Inductive rdata :=
  | RD_A (ip : list Z)
  | RD_CNAME (target : string)
  | RD_MX (mx : string) (preference : Z)
  | RD_NS (ns : string)
  | RD_SRV (port priority : Z) (target : string) (weight : Z)
  | RD_TXT (txt : list string)
  | RD_OPT
  | RD_other.

Record RR := { rr_Hdr : RR_Header; rr_Data : rdata }.

Record Msg := {
  msg_Id : Z; Response : bool; Opcode : Z; RecursionDesired : bool;
  RecursionAvailable : bool; CheckingDisabled : bool; Rcode : Z;
  msg_Question : list Question; msg_Answer : list RR; msg_Extra : list RR;
}.

Definition set_answer (answers : list RR) (rcode : Z) (m : Msg) : Msg :=
  {| msg_Id := msg_Id m; Response := Response m; Opcode := Opcode m;
     RecursionDesired := RecursionDesired m; RecursionAvailable := RecursionAvailable m;
     CheckingDisabled := CheckingDisabled m; Rcode := rcode;
     msg_Question := msg_Question m; msg_Answer := answers; msg_Extra := msg_Extra m |}.
Definition add_answer (rr : RR) (m : Msg) : Msg := set_answer (msg_Answer m ++ [rr]) (Rcode m) m.
Definition set_Rcode (rcode : Z) (m : Msg) : Msg := set_answer (msg_Answer m) rcode m.

(** [new(dns.Msg).SetReply(r)]. *)
Definition SetReply (r : Msg) : Msg :=
  let query := bool_decide (Opcode r = OpcodeQuery) in
  {| msg_Id := msg_Id r; Response := true; Opcode := Opcode r;
     RecursionDesired := query && RecursionDesired r; RecursionAvailable := false;
     CheckingDisabled := query && CheckingDisabled r; Rcode := RcodeSuccess;
     msg_Question := take 1 (msg_Question r); msg_Answer := []; msg_Extra := [] |}.

(** [IsEdns0]: the size announced by the last OPT record; the type assertion
    panics when a record of that type holds other data. *)
Fixpoint last_opt (rextra : list RR) : res (option Z) :=
  match rextra with
  | [] => Ok None
  | rr :: rextra' =>
      if decide (Rrtype (rr_Hdr rr) = TypeOPT) then
        match rr_Data rr with RD_OPT => Ok (Some (Class_ (rr_Hdr rr))) | _ => Panic end
      else last_opt rextra'
  end.
Definition IsEdns0 (r : Msg) : res (option Z) := last_opt (reverse (msg_Extra r)).

(** What the host resolver answers. *)
Record Resolver := {
  LookupIPAddr : string → error + list (list Z);
  LookupCNAME : string → error + string;
  LookupMX : string → error + list (string * Z);
  LookupNS : string → error + list string;
  LookupSRV : string → error + list (Z * Z * string * Z);
  LookupTXT : string → error + list string;
}.

(** ** The handler *)

Section handler.
Context (MatchString : string → string → bool) (resolver : Resolver) (Truncate : Z → Msg → Msg).

Definition answer (q : Question) (ty : Z) (d : rdata) : RR :=
  {| rr_Hdr := {| hdr_Name := q_Name q; Rrtype := ty; Class_ := ClassINET; Ttl := 0 |}; rr_Data := d |}.

(** The condition on a record of a zone. *)
Definition record_matches (record : DnsRecord) (withoutZone : string) : bool :=
  (bool_decide (rec_Name record ≠ "") && bool_decide (rec_Name record = withoutZone)) ||
  match rec_Regexp record with Some re => MatchString re withoutZone | None => false end.

(** The loop over the records: the address of the first one that matches. *)
Fixpoint record_loop (records : list DnsRecord) (q : Question) (zoneSuffix : string) : option (list Z) :=
  match records with
  | [] => None
  | record :: records' =>
      let withoutZone := TrimSuffix (q_Name q) zoneSuffix in
      if record_matches record withoutZone then Some (rec_IP record)
      else record_loop records' q zoneSuffix
  end.

(** The loop over the zones: [Some m'] when [addAnswers] returns from it. *)
Fixpoint zone_loop (zones : list Zone) (q : Question) (m : Msg) : option Msg :=
  match zones with
  | [] => None
  | zone :: zones' =>
      let zoneSuffix := "." +:+ zone_Name zone in
      if HasSuffix (q_Name q) zoneSuffix then
        if decide (Qtype q ≠ TypeA) then Some m
        else match record_loop (zone_Records zone) q zoneSuffix with
             | Some ip => Some (add_answer (answer q TypeA (RD_A ip)) m)
             | None =>
                 if negb (IP_Equal (DefaultIP zone) [])
                 then Some (add_answer (answer q TypeA (RD_A (DefaultIP zone))) m)
                 else Some (set_Rcode RcodeNameError m)
             end
      else zone_loop zones' q m
  end.

(** The loop over the addresses of a name. *)
Fixpoint ip_loop (q : Question) (ips : list (list Z)) (m : Msg) : Msg :=
  match ips with
  | [] => m
  | ip :: ips' =>
      if decide (length (To4 ip) ≠ 4%nat) then ip_loop q ips' m
      else ip_loop q ips' (add_answer (answer q TypeA (RD_A (To4 ip))) m)
  end.

Definition add_all (q : Question) (ty : Z) (ds : list rdata) (m : Msg) : Msg :=
  foldl (λ m d, add_answer (answer q ty d) m) m ds.

(** The [switch] on the type of a question outside every zone; [inl m] returns. *)
Definition external (q : Question) (m : Msg) : Msg + Msg :=
  let nx := inl (set_Rcode RcodeNameError m) in
  if decide (Qtype q = TypeA) then
    match LookupIPAddr resolver (q_Name q) with
    | inl _ => nx
    | inr ips => inr (ip_loop q ips m)
    end
  else if decide (Qtype q = TypeCNAME) then
    match LookupCNAME resolver (q_Name q) with
    | inl _ => nx
    | inr cname => inr (add_answer (answer q TypeCNAME (RD_CNAME cname)) m)
    end
  else if decide (Qtype q = TypeMX) then
    match LookupMX resolver (q_Name q) with
    | inl _ => nx
    | inr records => inr (add_all q TypeMX ((λ mx, RD_MX mx.1 mx.2) <$> records) m)
    end
  else if decide (Qtype q = TypeNS) then
    match LookupNS resolver (q_Name q) with
    | inl _ => nx
    | inr records => inr (add_all q TypeNS (RD_NS <$> records) m)
    end
  else if decide (Qtype q = TypeSRV) then
    match LookupSRV resolver (q_Name q) with
    | inl _ => nx
    | inr records =>
        inr (add_all q TypeSRV ((λ '(port, prio, target, weight), RD_SRV port prio target weight) <$> records) m)
    end
  else if decide (Qtype q = TypeTXT) then
    match LookupTXT resolver (q_Name q) with
    | inl _ => nx
    | inr records => inr (add_answer (answer q TypeTXT (RD_TXT records)) m)
    end
  else inr m.

(** The loop over the questions. *)
Fixpoint question_loop (zones : list Zone) (qs : list Question) (m : Msg) : Msg :=
  match qs with
  | [] => m
  | q :: qs' =>
      match zone_loop zones q m with
      | Some m' => m'
      | None =>
          match external q m with
          | inl m' => m'
          | inr m' => question_loop zones qs' m'
          end
      end
  end.

Definition addAnswers (zones : list Zone) (m : Msg) : Msg := question_loop zones (msg_Question m) m.

Definition set_RecursionAvailable (m : Msg) : Msg :=
  {| msg_Id := msg_Id m; Response := Response m; Opcode := Opcode m;
     RecursionDesired := RecursionDesired m; RecursionAvailable := true;
     CheckingDisabled := CheckingDisabled m; Rcode := Rcode m;
     msg_Question := msg_Question m; msg_Answer := msg_Answer m; msg_Extra := msg_Extra m |}.

(** [handle]: the message given to [WriteMsg] (whose error is only logged). *)
Definition handle (zones : list Zone) (r : Msg) (responseMessageSize : Z) : res Msg :=
  let m := addAnswers zones (set_RecursionAvailable (SetReply r)) in
  edns0 ← IsEdns0 r;
  mret (Truncate (default responseMessageSize edns0) m).

Definition handleTCP (zones : list Zone) (r : Msg) : res Msg := handle zones r MaxMsgSize.
Definition handleUDP (zones : list Zone) (r : Msg) : res Msg := handle zones r MinMsgSize.

(** [Serve] and [ServeTCP]: the handler of every name, on each socket. *)
Inductive dns_socket := PacketConn | TCPListener.
Definition Serve (s : dns_socket) (zones : list Zone) (r : Msg) : res Msg :=
  match s with PacketConn => handleUDP zones r | TCPListener => handleTCP zones r end.
End handler.

(** ** The server: its state is the list of zones *)

Definition DNS_New (zones : list Zone) : list Zone := zones.

(** [addZone]: the loop replaces the first zone of that name. *)
Fixpoint addZone (req : Zone) (zones : list Zone) : list Zone :=
  match zones with
  | [] => [req]
  | zone :: zones' =>
      if decide (zone_Name zone = zone_Name req)
      then {| zone_Name := zone_Name req; zone_Records := zone_Records req ++ zone_Records zone;
              DefaultIP := DefaultIP req |} :: zones'
      else zone :: addZone req zones'
  end.

(** [Mux]: encoding/json is a parameter. *)
Definition DNS_Mux (encode : list Zone → string) (decode : string → error + Zone)
    (r : http_request) (zones : list Zone) : list Zone * http_response :=
  match mux_route ["/all"; "/add"] (req_Method r) (req_Path r) with
  | RNone => (zones, http_NotFound)
  | RMoved location => (zones, http_Moved location)
  | RPattern p =>
      if decide (p = "/all") then (zones, http_OK (encode zones))
      else if decide (req_Method r ≠ MethodPost) then (zones, http_Error "post only" StatusBadRequest)
      else match decode (req_Body r) with
           | inl err => (zones, http_Error (error_text err) StatusBadRequest)
           | inr req => (addZone req zones, http_OK "")
           end
  end.

(** A request changes nothing or adds one zone. *)
Lemma DNS_Mux_cases encode decode r zones :
  (DNS_Mux encode decode r zones).1 = zones ∨ ∃ req, (DNS_Mux encode decode r zones).1 = addZone req zones.
Proof.
  unfold DNS_Mux. destruct (mux_route _ _ _); [|by left..]. case_decide; [by left|]. case_decide; [by left|].
  destruct (decode (req_Body r)) as [|req]; [by left|]. right. by exists req.
Qed.

(** ** Properties of the zones *)

Definition in_zone (z : Zone) (name : string) : Prop := HasSuffix name ("." +:+ zone_Name z) = true.
#[export] Instance in_zone_dec z name : Decision (in_zone z name).
Proof. unfold in_zone. apply _. Defined.

Lemma in_zone_spec z name : in_zone z name ↔ ∃ label, name = label +:+ "." +:+ zone_Name z.
Proof. apply HasSuffix_spec. Qed.

Definition find_zone (name : string) (zones : list Zone) : option Zone :=
  snd <$> list_find (λ z, zone_Name z = name) zones.

Definition merged (req old : Zone) : Zone :=
  {| zone_Name := zone_Name req; zone_Records := zone_Records req ++ zone_Records old;
     DefaultIP := DefaultIP req |}.

Lemma snd_prod_map {A} (f : nat → nat) (x : option (nat * A)) : snd <$> (prod_map f id <$> x) = snd <$> x.
Proof. by destruct x as [[??]|]. Qed.

Lemma addZone_names req zones :
  zone_Name <$> addZone req zones =
    (zone_Name <$> zones) ++
      (if decide (zone_Name req ∈ zone_Name <$> zones) then [] else [zone_Name req]) ∧
  (∀ name, find_zone name (addZone req zones) =
    if decide (name = zone_Name req)
    then Some (default req (merged req <$> find_zone name zones))
    else find_zone name zones).
Proof.
  unfold find_zone. induction zones as [|z zones [IHn IHf]]; cbn [addZone fmap list_fmap].
  { rewrite decide_False by (by intros ?%elem_of_nil). split; [done|]. intros name. cbn.
    repeat case_decide; by subst. }
  destruct (decide (zone_Name z = zone_Name req)) as [E|E].
  - rewrite decide_True by (rewrite E; left). rewrite app_nil_r. cbn. split; [by rewrite E|].
    intros name. rewrite E. destruct (decide (name = zone_Name req)) as [->|Hne].
    + by rewrite !decide_True by done.
    + by rewrite !decide_False by done.
  - cbn. rewrite IHn. split.
    + f_equal. f_equal. apply decide_ext. rewrite elem_of_cons. naive_solver.
    + intros name. specialize (IHf name). destruct (decide (zone_Name z = name)) as [E'|Hne]; cbn.
      * by rewrite decide_False by congruence.
      * by rewrite !snd_prod_map.
Qed.

(** [addZone] implements a table from zone name to zone: the order of the
    zones is kept and a new name is added at the end; the entry of the request's
    name gets its default address and its records in front of the old ones; every
    other entry is untouched. *)
Theorem addZone_spec req zones :
  zone_Name <$> addZone req zones =
    (zone_Name <$> zones) ++
      (if decide (zone_Name req ∈ zone_Name <$> zones) then [] else [zone_Name req]) ∧
  (∀ name, find_zone name (addZone req zones) =
    if decide (name = zone_Name req)
    then Some (default req (merged req <$> find_zone name zones))
    else find_zone name zones).
Proof. apply addZone_names. Qed.

(** ** Properties of the answers *)

Section answers.
Context (MatchString : string → string → bool) (resolver : Resolver) (Truncate : Z → Msg → Msg).
#[local] Abbreviation zloop := (zone_loop MatchString).
Implicit Types (m : Msg) (q : Question).

Lemma zone_loop_skip zs1 zs2 q m :
  Forall (λ z, ¬ in_zone z (q_Name q)) zs1 → zloop (zs1 ++ zs2) q m = zloop zs2 q m.
Proof.
  induction 1 as [|z zs1 Hz _ IH]; [done|]. cbn. unfold in_zone in Hz.
  by destruct (HasSuffix _ _).
Qed.

Lemma record_loop_find records q label suffix :
  q_Name q = label +:+ suffix →
  record_loop MatchString records q suffix =
    rec_IP ∘ snd <$> list_find (λ r, record_matches MatchString r label) records.
Proof.
  intros Hq. induction records as [|r records IH]; [done|]. cbn.
  rewrite Hq, TrimSuffix_app. destruct (record_matches MatchString r label); cbn; [done|].
  rewrite IH. by destruct (list_find _ records) as [[??]|].
Qed.

Lemma IP_Equal_nil ip : IP_Equal ip [] = bool_decide (ip = []).
Proof.
  unfold IP_Equal. destruct ip; cbn [length]; [done|]. rewrite decide_False by done.
  rewrite !decide_False by (intros [??]; done). done.
Qed.

(** The answer of a zone to a question about [label] in it. *)
Definition zone_answer (z : Zone) (label : string) q m : Msg :=
  if decide (Qtype q ≠ TypeA) then m
  else match list_find (λ r, record_matches MatchString r label) (zone_Records z) with
       | Some (_, r) => add_answer (answer q TypeA (RD_A (rec_IP r))) m
       | None =>
           if decide (DefaultIP z = []) then set_Rcode RcodeNameError m
           else add_answer (answer q TypeA (RD_A (DefaultIP z))) m
       end.

Lemma zone_loop_first z1 z z2 q label m :
  Forall (λ z', ¬ in_zone z' (q_Name q)) z1 → q_Name q = label +:+ "." +:+ zone_Name z →
  zloop (z1 ++ z :: z2) q m = Some (zone_answer z label q m).
Proof.
  intros Hz1 Hq. rewrite zone_loop_skip by done. cbn. unfold zone_answer.
  rewrite Hq, HasSuffix_app. case_decide; [done|].
  rewrite (record_loop_find _ _ label) by done.
  destruct (list_find _ (zone_Records z)) as [[??]|]; [done|]. cbn.
  rewrite IP_Equal_nil. by repeat case_decide; repeat case_bool_decide.
Qed.

(** C29: a question in a zone is answered by the first zone whose name is a suffix
    of it and by nothing else: the later zones and the resolver of the host are
    not consulted.  A question for another type than A has no answer and no
    error; an A question gets the address of the first record that matches the
    label, else the default address of the zone, else the name-error code. *)
Theorem addAnswers_in_zone z1 z z2 q label m :
  msg_Question m = [q] →
  Forall (λ z', ¬ in_zone z' (q_Name q)) z1 → q_Name q = label +:+ "." +:+ zone_Name z →
  addAnswers MatchString resolver (z1 ++ z :: z2) m = zone_answer z label q m.
Proof.
  intros Hm Hz1 Hq. unfold addAnswers. rewrite Hm. cbn [question_loop].
  by rewrite (zone_loop_first z1 z z2 q label) by done.
Qed.

(** C30: a record added through the API is served, as long as no other zone takes
    the question: after a successful POST of a zone, an A question for a name of
    that zone which is in no other configured zone, and whose label a record of
    the request matches, is answered with the first such record of the request,
    whatever records the zone of that name already had. *)
Theorem added_record_served encode decode body addr req zones q label i r :
  decode body = inr req →
  q_Name q = label +:+ "." +:+ zone_Name req → Qtype q = TypeA →
  (∀ z, z ∈ zones → zone_Name z ≠ zone_Name req → ¬ in_zone z (q_Name q)) →
  list_find (λ r, record_matches MatchString r label) (zone_Records req) = Some (i, r) →
  let '(zones', resp) := DNS_Mux encode decode
    {| req_Method := MethodPost; req_Path := "/add"; req_RemoteAddr := addr; req_Body := body |} zones in
  resp_Status resp = StatusOK ∧
  ∀ m, msg_Question m = [q] →
    addAnswers MatchString resolver zones' m = add_answer (answer q TypeA (RD_A (rec_IP r))) m.
Proof.
  intros Hdec Hq Ht Hother Hr. unfold DNS_Mux. cbn [req_Method req_Path req_Body].
  rewrite (mux_route_plain _ _ "/add" "/add") by by vm_compute. cbn. rewrite Hdec. split; [done|]. intros m Hm.
  assert (∃ z1 z z2, addZone req zones = z1 ++ z :: z2 ∧
    Forall (λ z', ¬ in_zone z' (q_Name q)) z1 ∧ zone_Name z = zone_Name req ∧
    list_find (λ r, record_matches MatchString r label) (zone_Records z) = Some (i, r))
    as (z1 & z & z2 & -> & Hz1 & Hz & Hf).
  { clear Hdec. induction zones as [|z zones IH]; cbn.
    { exists [], req, []. by repeat split. }
    case_decide as E.
    - eexists [], _, zones. repeat split; [constructor|]. cbn. by apply list_find_app_l.
    - destruct IH as (z1 & z' & z2 & -> & Hz1 & Hz & Hf); [set_solver|].
      exists (z :: z1), z', z2. repeat split; [|done..]. constructor; [|done]. apply Hother; set_solver. }
  unfold addAnswers. rewrite Hm. cbn [question_loop].
  rewrite (zone_loop_first z1 z z2 q label) by (done || by rewrite Hz).
  unfold zone_answer. rewrite decide_False by auto. by rewrite Hf.
Qed.

Lemma zone_loop_shadowed z z' b c p q m :
  zone_Name z' = p +:+ "." +:+ zone_Name z →
  zloop (z :: b ++ z' :: c) q m = zloop (z :: b ++ c) q m.
Proof.
  intros Hp. cbn. destruct (HasSuffix (q_Name q) ("." +:+ zone_Name z)) eqn:E; [done|].
  induction b as [|y b IH]; cbn; [|by rewrite IH].
  destruct (HasSuffix (q_Name q) ("." +:+ zone_Name z')) eqn:E'; [|done].
  apply HasSuffix_spec in E' as [t Ht]. exfalso. apply eq_true_false_abs in E; [done|].
  apply HasSuffix_spec. exists (t +:+ "." +:+ p). by rewrite Ht, Hp, !string_app_assoc.
Qed.

(** A zone below another zone that was configured before it is never used:
    for every message the answers are the same as without it.  (The code looks
    for the first zone that matches, not for the most specific one.) *)
Theorem shadowed_zone_unused a z b z' c p m :
  zone_Name z' = p +:+ "." +:+ zone_Name z →
  addAnswers MatchString resolver (a ++ z :: b ++ z' :: c) m = addAnswers MatchString resolver (a ++ z :: b ++ c) m.
Proof.
  intros Hp. unfold addAnswers. generalize (msg_Question m) as qs. intros qs.
  revert m. induction qs as [|q qs IH]; intros m; [done|]. cbn [question_loop].
  assert (zloop (a ++ z :: b ++ z' :: c) q m = zloop (a ++ z :: b ++ c) q m) as ->.
  { clear IH. induction a as [|y a IHa]; [by apply (zone_loop_shadowed z z' b c p)|].
    cbn [app zone_loop]. by rewrite IHa. }
  destruct (zloop _ q m); [done|]. destruct (external resolver q m); [done|]. apply IH.
Qed.

(** *** The reply as a whole *)

(** Every answer is about [q], of its type, class INET, time to live 0; a name
    error comes without answers. *)
Definition reply_ok q m : Prop :=
  Forall (λ rr, rr_Hdr rr = {| hdr_Name := q_Name q; Rrtype := Qtype q; Class_ := ClassINET; Ttl := 0 |})
    (msg_Answer m) ∧
  (Rcode m = RcodeSuccess ∨ Rcode m = RcodeNameError ∧ msg_Answer m = []).

(** A reply under construction: nothing failed yet. *)
Definition reply_open q m : Prop := reply_ok q m ∧ Rcode m = RcodeSuccess.

Lemma add_answer_open q d m : reply_open q m → reply_open q (add_answer (answer q (Qtype q) d) m).
Proof.
  intros [[Hf _] Hr]. repeat split; cbn; auto. apply Forall_app. split; [done|].
  by repeat constructor.
Qed.
Lemma add_all_open q ds m : reply_open q m → reply_open q (add_all q (Qtype q) ds m).
Proof. revert m. induction ds; cbn; intros m Hm; [done|]. by apply IHds, add_answer_open. Qed.
Lemma ip_loop_open q ips m : Qtype q = TypeA → reply_open q m → reply_open q (ip_loop q ips m).
Proof.
  intros Ht. revert m. induction ips as [|ip ips IH]; intros m Hm; cbn; [done|].
  case_decide; apply IH; [done|]. rewrite <- Ht. by apply add_answer_open.
Qed.
Lemma nx_ok q m : msg_Answer m = [] → reply_ok q (set_Rcode RcodeNameError m).
Proof. intros Hm. split; cbn; [by rewrite Hm; constructor|by right]. Qed.

Lemma zone_loop_ok zones q m m' :
  msg_Answer m = [] → Rcode m = RcodeSuccess → zloop zones q m = Some m' → reply_ok q m'.
Proof.
  intros Ha Hr. assert (reply_open q m) as Ho by (repeat split; rewrite ?Ha; auto; constructor).
  induction zones as [|z zones IH]; cbn; [done|].
  destruct (HasSuffix _ _); [|auto]. case_decide as Ht; [intros [= <-]; apply Ho|].
  assert (TypeA = Qtype q) as -> by (destruct (decide (Qtype q = TypeA)); congruence).
  destruct (record_loop _ _ _ _); [intros [= <-]; by apply add_answer_open|].
  destruct (negb _); intros [= <-]; [by apply add_answer_open|by apply nx_ok].
Qed.

(** Case analysis on what the resolver answers. *)
Ltac lookup_cases :=
  match goal with |- context [match ?f resolver ?n with _ => _ end] => destruct (f resolver n) end.

Lemma external_ok q m :
  msg_Answer m = [] → Rcode m = RcodeSuccess →
  reply_ok q (match external resolver q m with inl m' => m' | inr m' => m' end).
Proof.
  intros Ha Hr. assert (reply_open q m) as Ho by (repeat split; rewrite ?Ha; auto; constructor).
  unfold external.
  repeat (case_decide as Ht;
    [lookup_cases; cbn; [by apply nx_ok|]; rewrite <- ?Ht;
     (apply (ip_loop_open q _ m Ht) || apply add_all_open || apply add_answer_open); exact Ho|clear Ht]).
  apply Ho.
Qed.

(** A message for the same request. *)
Definition keeps m m' : Prop := msg_Question m' = msg_Question m ∧ msg_Id m' = msg_Id m.

Lemma add_all_keeps q ty ds m : keeps m (add_all q ty ds m).
Proof. revert m; induction ds as [|d ds IH]; intros m; [done|]. exact (IH (add_answer _ m)). Qed.
Lemma ip_loop_keeps q ips m : keeps m (ip_loop q ips m).
Proof.
  revert m; induction ips as [|ip ips IH]; intros m; cbn; [done|].
  case_decide; [apply IH|exact (IH (add_answer _ m))].
Qed.

Lemma external_keeps q m :
  keeps m (match external resolver q m with inl m' => m' | inr m' => m' end).
Proof.
  unfold external.
  repeat (case_decide; [lookup_cases; (apply add_all_keeps || apply ip_loop_keeps || done)|]). done.
Qed.

Lemma zone_loop_keeps zones q m m' : zloop zones q m = Some m' → keeps m m'.
Proof.
  induction zones as [|z zones IH]; cbn; [done|]. destruct (HasSuffix _ _); [|auto].
  repeat (case_match; try done); by intros [= <-].
Qed.

(** C31: the reply of the server to a request with one question, before it is
    truncated: it has the identifier and the question of the request, every
    answer is about the name and the type asked, and it is either a success or a
    name error without answers.  The size limit is the one the client announced,
    else 512 bytes over UDP and 65535 over TCP. *)
Theorem handle_reply zones r q edns0 :
  msg_Question r = [q] → IsEdns0 r = Ok edns0 →
  ∃ m, handleUDP MatchString resolver Truncate zones r = Ok (Truncate (default 512 edns0) m) ∧
       handleTCP MatchString resolver Truncate zones r = Ok (Truncate (default 65535 edns0) m) ∧
       msg_Id m = msg_Id r ∧ msg_Question m = [q] ∧ reply_ok q m.
Proof.
  intros Hq He. unfold handleUDP, handleTCP, handle. rewrite He.
  set (m0 := set_RecursionAvailable (SetReply r)).
  assert (msg_Question m0 = [q]) as Hq0 by (cbn; by rewrite Hq).
  assert (msg_Answer m0 = [] ∧ Rcode m0 = RcodeSuccess ∧ msg_Id m0 = msg_Id r) as (Ha & Hr & Hi) by done.
  exists (addAnswers MatchString resolver zones m0). split_and!; [done|done|..];
    unfold addAnswers; rewrite Hq0; cbn [question_loop];
    destruct (zloop zones q m0) as [m'|] eqn:Ez.
  1,3,5: pose proof (zone_loop_keeps _ _ _ _ Ez) as [Ez1 Ez2];
    first [by rewrite ?Ez1, ?Ez2|by eapply zone_loop_ok].
  1,2: destruct (external_keeps q m0) as [E1 E2];
    destruct (external resolver q m0); by rewrite ?E1, ?E2.
  - pose proof (external_ok q m0 Ha Hr). by destruct (external resolver q m0).
Qed.
End answers.

(** ** Witnesses *)

(** A matcher that only knows literal expressions, and a resolver without names. *)
Definition literal_match (re s : string) : bool := bool_decide (re = s).
Definition no_names : Resolver :=
  let nx := ErrExt "no such host" in
  {| LookupIPAddr := λ _, inl nx; LookupCNAME := λ _, inl nx; LookupMX := λ _, inl nx;
     LookupNS := λ _, inl nx; LookupSRV := λ _, inl nx; LookupTXT := λ _, inl nx |}.
Definition keep_all (_ : Z) (m : Msg) : Msg := m.

Definition rec_gateway : DnsRecord := {| rec_Name := "gateway"; rec_IP := [192; 168; 127; 1]; rec_Regexp := None |}.
Definition rec_crc : DnsRecord := {| rec_Name := ""; rec_IP := [192; 168; 127; 2]; rec_Regexp := Some "crc" |}.
Definition zone_containers : Zone :=
  {| zone_Name := "containers.internal."; zone_Records := [rec_gateway]; DefaultIP := [] |}.
Definition zone_crc : Zone :=
  {| zone_Name := "crc.testing."; zone_Records := [rec_crc]; DefaultIP := [192; 168; 127; 3] |}.
Definition query (name : string) : Question := {| q_Name := name; Qtype := TypeA; Qclass := ClassINET |}.
Definition request (q : Question) (edns : list RR) : Msg :=
  {| msg_Id := 7; Response := false; Opcode := OpcodeQuery; RecursionDesired := true;
     RecursionAvailable := false; CheckingDisabled := false; Rcode := 0;
     msg_Question := [q]; msg_Answer := []; msg_Extra := edns |}.
Definition opt_1232 : RR :=
  {| rr_Hdr := {| hdr_Name := "."; Rrtype := TypeOPT; Class_ := 1232; Ttl := 0 |}; rr_Data := RD_OPT |}.

Lemma addAnswers_in_zone_witness :
  addAnswers literal_match no_names [zone_containers; zone_crc] (request (query "crc.crc.testing.") []) =
  add_answer (answer (query "crc.crc.testing.") TypeA (RD_A [192; 168; 127; 2]))
    (request (query "crc.crc.testing.") []).
Proof.
  rewrite (addAnswers_in_zone literal_match no_names [zone_containers] zone_crc [] (query "crc.crc.testing.") "crc").
  - done.
  - done.
  - by repeat constructor.
  - done.
Defined.

Lemma added_record_served_witness :
  resp_Status (DNS_Mux (λ _, "") (λ _, inr zone_crc)
    {| req_Method := MethodPost; req_Path := "/add"; req_RemoteAddr := ""; req_Body := "{}" |}
    [zone_containers]).2 = StatusOK.
Proof.
  pose proof (added_record_served literal_match no_names (λ _, "") (λ _, inr zone_crc) "{}" ""
    zone_crc [zone_containers] (query "crc.crc.testing.") "crc" 0 rec_crc eq_refl eq_refl eq_refl) as H.
  apply H; [|done]. intros z ->%list_elem_of_singleton _. by vm_compute.
Defined.

Lemma shadowed_zone_unused_witness :
  addAnswers literal_match no_names
    [{| zone_Name := "testing."; zone_Records := []; DefaultIP := [] |}; zone_crc]
    (request (query "crc.crc.testing.") []) =
  addAnswers literal_match no_names [{| zone_Name := "testing."; zone_Records := []; DefaultIP := [] |}]
    (request (query "crc.crc.testing.") []).
Proof.
  exact (shadowed_zone_unused literal_match no_names []
    {| zone_Name := "testing."; zone_Records := []; DefaultIP := [] |} [] zone_crc [] "crc"
    (request (query "crc.crc.testing.") []) eq_refl).
Defined.

Lemma handle_reply_witness :
  ∃ m, handleUDP literal_match no_names keep_all [zone_containers]
         (request (query "gateway.containers.internal.") [opt_1232]) = Ok m ∧ msg_Id m = 7.
Proof.
  destruct (handle_reply literal_match no_names keep_all [zone_containers]
    (request (query "gateway.containers.internal.") [opt_1232])
    (query "gateway.containers.internal.") (Some 1232) eq_refl eq_refl) as (m & Hu & _ & Hi & _).
  exists m. split; [exact Hu|exact Hi].
Defined.
