(* ===== verification/Ports.v ===== *)
(** pkg/services/forwarder/ports.go: exposing ports of the virtual network on
    the host.  The state is the table of the code and the set of listening
    sockets it has opened; the operating system, net/url and the resolver are
    parameters. *)
From Stdlib Require Import Ascii String.
From stdpp Require Import sorting.
From S2P Require Import Prelude GoStrings GoNet Tcpip Types GoHTTP.

Local Open Scope string_scope.
Local Open Scope list_scope.
Local Open Scope Z_scope.

(** ** net/url: a parsed URL *)

Record URL := { url_Scheme : string; url_Host : string; url_Path : string;
                url_Query : gmap string (list string) }.

Fixpoint all_digits (s : string) : bool :=
  match s with
  | EmptyString => true
  | String c s' => match digit_val c with Some _ => all_digits s' | None => false end
  end.

(** [validOptionalPort]. *)
Definition validOptionalPort (port : string) : bool :=
  match port with
  | EmptyString => true
  | String ":" ds => all_digits ds
  | _ => false
  end.

(** url's [splitHostPort]. *)
Definition url_splitHostPort (hostPort : string) : string * string :=
  let '(host, port) :=
    match LastIndexByte hostPort ":" with
    | Some colon =>
        if validOptionalPort (str_drop colon hostPort)
        then (str_take colon hostPort, str_drop (S colon) hostPort)
        else (hostPort, "")
    | None => (hostPort, "")
    end in
  if HasPrefix host "[" && HasSuffix host "]"
  then (str_take (String.length host - 2) (str_drop 1 host), port)
  else (host, port).

Definition Hostname (u : URL) : string := (url_splitHostPort (url_Host u)).1.
Definition URL_Port (u : URL) : string := (url_splitHostPort (url_Host u)).2.

Definition set_Host (h : string) (u : URL) : URL :=
  {| url_Scheme := url_Scheme u; url_Host := h; url_Path := url_Path u; url_Query := url_Query u |}.

(** ** Addresses *)

Record FullAddress := { fa_NIC : Z; fa_Addr : list Z; fa_Port : Z }.

Definition tcpipAddress (nicID : Z) (remote : string) : res FullAddress :=
  match Split ":" remote with
  | [host; port] =>
      port ← Atoi port;
      addr ← AddrFrom4Slice (To4 (ParseIP host));
      mret {| fa_NIC := nicID; fa_Addr := addr; fa_Port := u16 port |}
  | _ => Err (ErrMsg "invalid remote addr")
  end.

(** [gonetDialer]: the dialer of the SSH tunnels, inside the network. *)
Definition gonet_DialContextTCP {conn : Type} (DialContextTCP : FullAddress → res conn) (addr : string) : res conn :=
  address ← tcpipAddress 1 addr; DialContextTCP address.

Definition remote (req : ExposeRequest) (ip : string) : res string :=
  '(remoteIP, _) ← SplitHostPort (exp_Remote req);
  if decide (remoteIP = "") then
    '(host, _) ← SplitHostPort ip;
    mret (host +:+ exp_Remote req)
  else mret (exp_Remote req).

Definition firstValueOrEmpty (x : list string) : string := default "" (head x).

Definition key (protocol local : string) : string := protocol +:+ "/" +:+ local.

(** ** State *)

(** What the connections of a proxy are forwarded to: the variables captured by
    its dial function. *)
Inductive dial_target :=
  | DialTCP (a : FullAddress)
  | DialUDP (a : FullAddress)
  | DialSSH (sshkeypath passphrase : string) (uri : URL).

(** An open listening socket. *)
Record listener := { l_network : string; l_address : string; l_dial : dial_target }.

(** [underlying] is the handle of the socket the proxy closes. *)
Record proxy := { Local_ : string; Remote_ : string; Protocol_ : string; underlying : nat }.

Record PortsForwarder := {
  proxies : gmap string proxy;
  listeners : gmap nat listener;
  next_handle : nat;
}.

Definition NewPortsForwarder : PortsForwarder :=
  {| proxies := ∅; listeners := ∅; next_handle := 0 |}.

(** Start serving on a new socket and record the proxy. *)
Definition add_proxy (protocol local remote : string) (l : listener) (f : PortsForwarder) : PortsForwarder :=
  {| proxies := <[key protocol local := {| Local_ := local; Remote_ := remote; Protocol_ := protocol;
                                           underlying := next_handle f |}]> (proxies f);
     listeners := <[next_handle f := l]> (listeners f);
     next_handle := S (next_handle f) |}.

(** ** Operations *)

Record OS := {
  url_Parse : string → error + URL;
  (* os.Remove, but for the errors that say the file does not exist *)
  os_Remove : string → option error;
  (* net.Listen(network, address) and net.ListenUDP, given what is already open *)
  os_Listen : string → string → gmap nat listener → option error;
  ListenNpipe : URL → gmap nat listener → option error;
  ResolveUDPAddr : string → error + string;
}.

Section operations.
Context (os : OS).

Definition of_sum {A} (r : error + A) : res A := match r with inl e => Err e | inr a => Ok a end.
Definition of_err (e : option error) : res unit := match e with Some e => Err e | None => Ok tt end.

(** The dial function of a UNIX or NPIPE proxy, from the scheme of the remote. *)
Definition unix_dial (remoteURI : URL) : res dial_target :=
  let remoteAddr := Hostname remoteURI +:+ ":" +:+ URL_Port remoteURI in
  if decide (url_Scheme remoteURI = "ssh-tunnel") then
    let sshkeypath := firstValueOrEmpty (default [] (url_Query remoteURI !! "key")) in
    if decide (sshkeypath = "") then Err (ErrMsg "key not provided for unix-ssh connection")
    else
      let passphrase := firstValueOrEmpty (default [] (url_Query remoteURI !! "passphrase")) in
      let remoteURI :=
        if decide (URL_Port remoteURI = "")
        then set_Host (Hostname remoteURI +:+ ":" +:+ "22") remoteURI else remoteURI in
      if decide (url_Path remoteURI = "" ∨ url_Path remoteURI = "/")
      then Err (ErrMsg "remote uri must contain a path to a socket file")
      else Ok (DialSSH sshkeypath passphrase remoteURI)
  else if decide (url_Scheme remoteURI = "tcp") then
    address ← tcpipAddress 1 remoteAddr; mret (DialTCP address)
  else Err (ErrMsg ("remote protocol for unix forwarder is not implemented: " +:+ url_Scheme remoteURI)).

(** The [ListenFunc] of a UNIX or NPIPE proxy. *)
Definition unix_listen (protocol local : string) (f : PortsForwarder) : res unit :=
  if decide (protocol = UNIX) then
    _ ← of_err (os_Remove os local);
    of_err (os_Listen os "unix" local (listeners f))
  else
    npipeURI ← of_sum (url_Parse os local);
    of_err (ListenNpipe os npipeURI (listeners f)).

(** The case of a UNIX socket or a named pipe. *)
Definition open_unix (protocol local remote : string) (f : PortsForwarder) : res listener :=
  remoteURI ← match url_Parse os remote with
              | inl err => Err (ErrWrap ("failed to parse remote uri :" +:+ remote +:+ " ") err)
              | inr u => Ok u
              end;
  dial ← unix_dial remoteURI;
  _ ← unix_listen protocol local f;
  mret {| l_network := protocol; l_address := local; l_dial := dial |}.

(** The case of a UDP port. *)
Definition open_udp (local remote : string) (f : PortsForwarder) : res listener :=
  address ← tcpipAddress 1 remote;
  addr ← of_sum (ResolveUDPAddr os local);
  _ ← of_err (os_Listen os "udp" addr (listeners f));
  mret {| l_network := "udp"; l_address := addr; l_dial := DialUDP address |}.

(** The case of a TCP port. *)
Definition open_tcp (local remote : string) (f : PortsForwarder) : res listener :=
  address ← tcpipAddress 1 remote;
  _ ← of_err (os_Listen os "tcp" local (listeners f));
  mret {| l_network := "tcp"; l_address := local; l_dial := DialTCP address |}.

(** The socket [Expose] opens and what it forwards to, or why it does not. *)
Definition open_socket (protocol local remote : string) (f : PortsForwarder) : res listener :=
  if decide (protocol = UNIX ∨ protocol = NPIPE) then open_unix protocol local remote f
  else if decide (protocol = UDP) then open_udp local remote f
  else if decide (protocol = TCP) then open_tcp local remote f
  else Err (ErrMsg ("unknown protocol " +:+ protocol)).

Definition Expose (protocol local remote : string) (f : PortsForwarder) : PortsForwarder * res unit :=
  match proxies f !! local with
  | Some _ => (f, Err (ErrMsg "proxy already running"))
  | None =>
      match open_socket protocol local remote f with
      | Ok l => (add_proxy protocol local remote l f, Ok tt)
      | Err e => (f, Err e)
      | Panic => (f, Panic)
      end
  end.

(** [Close] of every kind of proxy closes its socket and returns nil. *)
Definition Unexpose (protocol local : string) (f : PortsForwarder) : PortsForwarder * res unit :=
  match proxies f !! key protocol local with
  | None => (f, Err (ErrMsg "proxy not found"))
  | Some p =>
      ({| proxies := delete (key protocol local) (proxies f);
          listeners := delete (underlying p) (listeners f);
          next_handle := next_handle f |}, Ok tt)
  end.

(** *** The HTTP API: encoding/json is a parameter *)

Definition proxy_less (p q : proxy) : bool :=
  if decide (Local_ p = Local_ q) then String.ltb (Protocol_ p) (Protocol_ q)
  else String.ltb (Local_ p) (Local_ q).

(** [sort.Slice] leaves no element less than one before it. *)
Definition proxy_le (p q : proxy) : Prop := proxy_less q p = false.
#[export] Instance proxy_le_dec : RelDecision proxy_le := λ p q, decide (proxy_less q p = false).

Definition Ports_all (order : list (string * proxy)) : list proxy := merge_sort proxy_le order.*2.

Record JSON := {
  encode_proxies : list proxy → string;
  decode_expose : string → error + ExposeRequest;
  decode_unexpose : string → error + UnexposeRequest;
}.

(** The answer of a handler that ends with [WriteHeader(StatusOK)]. *)
Definition status_of (x : PortsForwarder * res unit) : PortsForwarder * res http_response :=
  match x with
  | (f, Ok _) => (f, Ok (http_OK ""))
  | (f, Err err) => (f, Ok (http_Error (error_text err) StatusInternalServerError))
  | (f, Panic) => (f, Panic)
  end.

Definition Ports_expose (json : JSON) (r : http_request) (f : PortsForwarder) : PortsForwarder * res http_response :=
  if decide (req_Method r ≠ MethodPost) then (f, Ok (http_Error "post only" StatusBadRequest))
  else match decode_expose json (req_Body r) with
       | inl err => (f, Ok (http_Error (error_text err) StatusBadRequest))
       | inr req =>
           let protocol := if decide (exp_Protocol req = "") then TCP else exp_Protocol req in
           let remoteAddr := if decide (protocol ≠ UNIX ∧ protocol ≠ NPIPE)
                             then remote req (req_RemoteAddr r) else Ok (exp_Remote req) in
           match remoteAddr with
           | Ok remoteAddr => status_of (Expose protocol (exp_Local req) remoteAddr f)
           | Err err => (f, Ok (http_Error (error_text err) StatusBadRequest))
           | Panic => (f, Panic)
           end
       end.

Definition Ports_unexpose (json : JSON) (r : http_request) (f : PortsForwarder) : PortsForwarder * res http_response :=
  if decide (req_Method r ≠ MethodPost) then (f, Ok (http_Error "post only" StatusBadRequest))
  else match decode_unexpose json (req_Body r) with
       | inl err => (f, Ok (http_Error (error_text err) StatusBadRequest))
       | inr req =>
           let protocol := if decide (unexp_Protocol req = "") then TCP else unexp_Protocol req in
           status_of (Unexpose protocol (unexp_Local req) f)
       end.

Definition Ports_Mux (json : JSON) (order : list (string * proxy)) (r : http_request) (f : PortsForwarder)
    : PortsForwarder * res http_response :=
  match mux_route ["/all"; "/expose"; "/unexpose"] (req_Method r) (req_Path r) with
  | RNone => (f, Ok http_NotFound)
  | RMoved location => (f, Ok (http_Moved location))
  | RPattern p =>
      if decide (p = "/all") then (f, Ok (http_OK (encode_proxies json (Ports_all order))))
      else if decide (p = "/expose") then Ports_expose json r f
      else Ports_unexpose json r f
  end.
End operations.

(** ** Lemmas *)

Lemma Split_pair host port :
  char_free ":" host = true → char_free ":" port = true →
  Split ":" (host +:+ ":" +:+ port) = [host; port].
Proof.
  intros Hh Hp. change (":" +:+ port) with (String ":" port).
  by rewrite Split_cons, Split_free by done.
Qed.

Lemma tcpipAddress_v4 nic ip p : is_ip4 ip → 0 ≤ p < 65536 →
  tcpipAddress nic (v4_string ip +:+ ":" +:+ Itoa p) =
    Ok {| fa_NIC := nic; fa_Addr := ip; fa_Port := p |}.
Proof.
  intros Hip Hp. unfold tcpipAddress.
  destruct (plain_v4_string ip Hip) as [Hf _], (plain_Itoa p) as [Hf' _]; [lia|].
  rewrite Split_pair, Atoi_Itoa by (done || lia). cbn.
  rewrite ParseIP_v4_string, To4_v4in6 by done. unfold AddrFrom4Slice.
  destruct Hip as [Hl _]. rewrite decide_True by done. cbn. by rewrite u16_small by lia.
Qed.

Lemma string_app_inj_sep c (a b x y : string) :
  char_free c a = true → char_free c b = true →
  a +:+ String c x = b +:+ String c y → a = b ∧ x = y.
Proof.
  revert b. induction a as [|d a IH]; intros [|e b]; rewrite ?string_app_nil_l, ?string_app_cons; cbn.
  - intros _ _ [= ->]. done.
  - intros _ Hb [= <- _]. by rewrite decide_True in Hb.
  - intros Ha _ [= -> _]. by rewrite decide_True in Ha.
  - destruct (decide (d = c)), (decide (e = c)); try done. intros Ha Hb [= -> H].
    destruct (IH b Ha Hb H) as [-> ->]. done.
Qed.

(** The protocols of the proxies: none contains the separator of the keys. *)
Definition known_protocols : list string := [UNIX; NPIPE; UDP; TCP].

Lemma known_protocols_plain s : s ∈ known_protocols → char_free "/" s = true.
Proof.
  intros Hs. repeat (apply elem_of_cons in Hs as [->|Hs]; [done|]). by apply elem_of_nil in Hs.
Qed.

Lemma key_inj protocol protocol' local local' :
  protocol ∈ known_protocols → protocol' ∈ known_protocols →
  key protocol local = key protocol' local' → protocol = protocol' ∧ local = local'.
Proof. intros ?%known_protocols_plain ?%known_protocols_plain. by apply string_app_inj_sep. Qed.

Lemma key_not_local protocol local : protocol ∈ known_protocols → key protocol local ≠ local.
Proof.
  intros _ He. apply (f_equal String.length) in He. unfold key in He.
  rewrite !string_app_length in He. cbn in He. lia.
Qed.

(** *** The order of [/all] *)

Lemma ltb_false_le s t : String.ltb s t = false ↔ String.le t s.
Proof.
  unfold String.ltb, String.le, String.leb. rewrite String.compare_antisym.
  by destruct (t ?= s)%string.
Qed.

Lemma proxy_le_spec p q :
  proxy_le p q ↔ if decide (Local_ q = Local_ p) then String.le (Protocol_ p) (Protocol_ q)
                 else String.le (Local_ p) (Local_ q).
Proof. unfold proxy_le, proxy_less. case_decide; apply ltb_false_le. Qed.

#[export] Instance proxy_le_total : Total proxy_le.
Proof.
  intros p q. rewrite !proxy_le_spec. repeat case_decide; try congruence; apply (total String.le).
Qed.
#[export] Instance proxy_le_trans : Transitive proxy_le.
Proof.
  intros p q r. rewrite !proxy_le_spec.
  destruct (decide (Local_ q = Local_ p)) as [E1|E1], (decide (Local_ r = Local_ q)) as [E2|E2];
    try rewrite E1 in *; try rewrite E2 in *; repeat case_decide; try congruence;
    try (by etrans); try (by intros; etrans).
  intros H1 H2. exfalso. apply E1. apply (anti_symm String.le); congruence.
Qed.

(** ** Invariant *)

Section invariant.
Context (os : OS).
Implicit Types (f : PortsForwarder) (p : proxy) (l : listener).

(** The socket a proxy was given. *)
Definition serves p l : Prop :=
  (Protocol_ p = TCP → l_network l = "tcp" ∧ l_address l = Local_ p) ∧
  (Protocol_ p = UDP → l_network l = "udp" ∧ ResolveUDPAddr os (Local_ p) = inr (l_address l)).

Record wf f : Prop := {
  wf_next h : is_Some (listeners f !! h) → (h < next_handle f)%nat;
  wf_entry k p : proxies f !! k = Some p →
    Protocol_ p ∈ known_protocols ∧ k = key (Protocol_ p) (Local_ p) ∧
    ∃ l, listeners f !! underlying p = Some l ∧ serves p l;
  wf_inj k k' p p' : proxies f !! k = Some p → proxies f !! k' = Some p' →
    underlying p = underlying p' → k = k';
}.

Lemma open_socket_serves protocol local remote f l :
  open_socket os protocol local remote f = Ok l →
  protocol ∈ known_protocols ∧
  ∀ h, serves {| Local_ := local; Remote_ := remote; Protocol_ := protocol; underlying := h |} l.
Proof.
  unfold open_socket, open_unix, open_udp, open_tcp, known_protocols, serves. rewrite !elem_of_cons. cbn.
  case_decide as Hu; [|case_decide as Hd; [|case_decide as Ht; [|done]]].
  - intros _. split; [naive_solver|]. intros _. by destruct Hu as [-> | ->].
  - subst. intros (a & _ & (x & Hr & (u & _ & [= <-])%res_bind_ok)%res_bind_ok)%res_bind_ok.
    split; [naive_solver|]. intros _. split; [done|]. intros _. cbn. split; [done|].
    destruct (ResolveUDPAddr os local); cbn in Hr; congruence.
  - subst. intros (a & _ & (u & _ & [= <-])%res_bind_ok)%res_bind_ok. split; [naive_solver|]. done.
Qed.

(** [Expose] either opens one socket and records it, or changes nothing. *)
Lemma Expose_cases protocol local remote f :
  (∃ l, open_socket os protocol local remote f = Ok l ∧ proxies f !! local = None ∧
        Expose os protocol local remote f = (add_proxy protocol local remote l f, Ok tt)) ∨
  ((Expose os protocol local remote f).1 = f ∧ (Expose os protocol local remote f).2 ≠ Ok tt).
Proof.
  unfold Expose. destruct (proxies f !! local) eqn:E; [by right|].
  destruct (open_socket os protocol local remote f) as [l|e|]; [|by right..]. left. eauto.
Qed.

Lemma Expose_fail protocol local remote f :
  (Expose os protocol local remote f).2 ≠ Ok tt → (Expose os protocol local remote f).1 = f.
Proof. destruct (Expose_cases protocol local remote f) as [(l & _ & _ & ->)|[-> _]]; done. Qed.

Lemma Unexpose_fail protocol local f :
  (Unexpose protocol local f).2 ≠ Ok tt → (Unexpose protocol local f).1 = f.
Proof. unfold Unexpose. by destruct (proxies f !! _). Qed.

Lemma wf_fresh f : wf f → listeners f !! next_handle f = None.
Proof.
  intros [Hn _ _]. destruct (listeners f !! next_handle f) eqn:E; [|done].
  specialize (Hn (next_handle f)). rewrite E in Hn. specialize (Hn ltac:(eauto)). lia.
Qed.

Lemma Expose_wf protocol local remote f : wf f → wf (Expose os protocol local remote f).1.
Proof.
  intros Hf. destruct (Expose_cases protocol local remote f) as [(l & Hl & _ & ->)|[-> _]]; [|done].
  cbn. pose proof (wf_fresh _ Hf). destruct Hf as [Hn He Hi].
  apply open_socket_serves in Hl as [Hk Hs]. split; cbn.
  - intros h [?[[<- _]|[_ Hh]]%lookup_insert_Some]; [lia|]. specialize (Hn h ltac:(eauto)). lia.
  - intros k p [[<- <-]|[_ Hp]]%lookup_insert_Some; cbn.
    { split_and!; [done|done|]. exists l. by rewrite lookup_insert_eq. }
    destruct (He k p Hp) as (? & ? & l' & Hl' & ?). split_and!; [done|done|]. exists l'.
    by rewrite lookup_insert_ne by congruence.
  - assert (∀ k p, proxies f !! k = Some p → underlying p ≠ next_handle f) as Hne.
    { intros k p (_ & _ & l' & Hl' & _)%He. congruence. }
    intros k k' p p' [[<- <-]|[_ Hp]]%lookup_insert_Some [[<- <-]|[_ Hp']]%lookup_insert_Some Hu;
      cbn in Hu; [done| | |by eapply Hi]; exfalso; by eapply Hne.
Qed.

Lemma Unexpose_wf protocol local f : wf f → wf (Unexpose protocol local f).1.
Proof.
  intros Hf. unfold Unexpose. destruct (proxies f !! key protocol local) as [p|] eqn:E; [|done].
  destruct Hf as [Hn He Hi]. split; cbn.
  - intros h [? [_ Hh]%lookup_delete_Some]. apply Hn. eauto.
  - intros k p' [Hk Hp']%lookup_delete_Some. destruct (He k p' Hp') as (? & ? & l & Hl & ?).
    split_and!; [done|done|]. exists l. split; [|done]. rewrite lookup_delete_ne; [done|].
    intros Hu. by apply Hk, (Hi _ _ p p').
  - intros k k' p1 p2 [_ H1]%lookup_delete_Some [_ H2]%lookup_delete_Some. by apply Hi.
Qed.

(** *** Sequences of requests *)

Inductive fw_op := OpExpose (protocol local remote : string) | OpUnexpose (protocol local : string).

Definition fw_step (o : fw_op) f : PortsForwarder :=
  match o with
  | OpExpose protocol local remote => (Expose os protocol local remote f).1
  | OpUnexpose protocol local => (Unexpose protocol local f).1
  end.

Definition fw_run (ops : list fw_op) f : PortsForwarder := foldl (λ f o, fw_step o f) f ops.

Lemma fw_run_wf ops f : wf f → wf (fw_run ops f).
Proof.
  revert f. induction ops as [|o ops IH]; intros f Hf; [done|]. apply IH.
  destruct o; [by apply Expose_wf|by apply Unexpose_wf].
Qed.

(** A request changes nothing or is one operation. *)
Lemma Ports_Mux_cases json order r f :
  (Ports_Mux os json order r f).1 = f ∨ ∃ o, (Ports_Mux os json order r f).1 = fw_step o f.
Proof.
  unfold Ports_Mux, Ports_expose, Ports_unexpose.
  assert (∀ o, (status_of (match o with OpExpose p l r => Expose os p l r f | OpUnexpose p l => Unexpose p l f end)).1 =
    fw_step o f) as Hs.
  { intros [p l r'|p l]; cbn; [destruct (Expose os p l r' f) as [? [| |]]|destruct (Unexpose p l f) as [? [| |]]]; done. }
  destruct (mux_route _ _ _); [|by left..]. case_decide; [by left|]. case_decide; (case_decide; [by left|]).
  - destruct (decode_expose json (req_Body r)) as [|req]; [by left|].
    match goal with |- context [match ?x with Ok _ => _ | Err _ => _ | Panic => _ end] => destruct x; [|by left..] end.
    right. eexists (OpExpose _ _ _). apply (Hs (OpExpose _ _ _)).
  - destruct (decode_unexpose json (req_Body r)) as [|req]; [by left|].
    right. eexists (OpUnexpose _ _). apply (Hs (OpUnexpose _ _)).
Qed.

Lemma fw_step_wf o f : wf f → wf (fw_step o f).
Proof. destruct o; [apply Expose_wf|apply Unexpose_wf]. Qed.

Lemma NewPortsForwarder_wf : wf NewPortsForwarder.
Proof. split; cbn; [intros h [??]|..]; set_solver. Qed.

(** An open socket that no proxy of the table closes. *)
Definition orphan (h : nat) (l : listener) f : Prop :=
  listeners f !! h = Some l ∧ ∀ k p, proxies f !! k = Some p → underlying p ≠ h.

Lemma orphan_step o h l f : wf f → orphan h l f → orphan h l (fw_step o f).
Proof.
  intros Hf [Hl Ho]. destruct o as [protocol local remote|protocol local]; cbn.
  - destruct (Expose_cases protocol local remote f) as [(l' & _ & _ & ->)|[-> _]]; [|done].
    assert (h ≠ next_handle f) as Hne by (pose proof (wf_next _ Hf h ltac:(eauto)); lia).
    split; cbn; [by rewrite lookup_insert_ne|].
    intros k p [[_ <-]|[_ Hp]]%lookup_insert_Some; cbn; [done|by eapply Ho].
  - unfold Unexpose. destruct (proxies f !! key protocol local) as [p|] eqn:E; [|done].
    split; cbn; [rewrite lookup_delete_ne; [done|by eapply Ho]|].
    intros k p' [_ Hp]%lookup_delete_Some. by eapply Ho.
Qed.

Lemma orphan_run ops h l f : wf f → orphan h l f → orphan h l (fw_run ops f).
Proof.
  revert f. induction ops as [|o ops IH]; intros f Hf Ho; [done|]. apply IH; [|by apply orphan_step].
  destruct o; [by apply Expose_wf|by apply Unexpose_wf].
Qed.

(** *** No leak for TCP and UDP *)

(** The system refuses to bind an address of [fixed] twice. *)
Context (fixed : string → Prop).
Definition os_exclusive : Prop := ∀ net addr ls h l,
  net ∈ ["tcp"; "udp"] → fixed addr → ls !! h = Some l →
  l_network l = net → l_address l = addr → os_Listen os net addr ls ≠ None.

(** A request about a fixed TCP or UDP address. *)
Definition net_op (o : fw_op) : Prop :=
  match o with
  | OpExpose protocol local _ =>
      (protocol = TCP ∧ fixed local) ∨
      (protocol = UDP ∧ ∀ addr, ResolveUDPAddr os local = inr addr → fixed addr)
  | OpUnexpose _ _ => True
  end.

(** Every open socket belongs to a proxy of the table. *)
Definition owned f : Prop :=
  ∀ h, is_Some (listeners f !! h) → ∃ k p, proxies f !! k = Some p ∧ underlying p = h.

Lemma open_socket_fresh protocol local remote f l :
  os_exclusive → wf f → net_op (OpExpose protocol local remote) →
  open_socket os protocol local remote f = Ok l → proxies f !! key protocol local = None.
Proof.
  intros Hex Hf Hop Hl. destruct (proxies f !! key protocol local) as [p|] eqn:E; [exfalso|done].
  destruct (wf_entry _ Hf _ _ E) as (Hk & He & l' & Hl' & [Ht Hu]).
  apply key_inj in He as [-> ->]; [|by eapply open_socket_serves|done].
  destruct Hop as [[Hp Hfix]|[Hp Hfix]]; rewrite Hp in *;
    unfold open_socket, open_unix, open_udp, open_tcp in Hl; cbn in Hl; apply res_bind_ok in Hl as (a & _ & Hl).
  - apply res_bind_ok in Hl as (u & Hl & _). destruct (Ht eq_refl) as [Hn Ha].
    destruct (os_Listen _ _ _ _) eqn:Ho; [done|]. by eapply (Hex "tcp"); [set_solver|..].
  - destruct (Hu eq_refl) as [Hn Ha]. rewrite Ha in Hl. cbn in Hl.
    apply res_bind_ok in Hl as (u & Hl & _).
    destruct (os_Listen _ _ _ _) eqn:Ho; [done|].
    eapply (Hex "udp"); [set_solver|by apply Hfix|done..].
Qed.

Lemma owned_step o f : os_exclusive → wf f → net_op o → owned f → owned (fw_step o f).
Proof.
  intros Hex Hf Hop Ho. destruct o as [protocol local remote|protocol local]; cbn.
  - destruct (Expose_cases protocol local remote f) as [(l & Hl & _ & ->)|[-> _]]; [|done].
    apply open_socket_fresh in Hl; [|done..].
    intros h. cbn. intros [? [[<- _]|[_ Hh]]%lookup_insert_Some].
    + eexists _, _. rewrite lookup_insert_eq. done.
    + destruct (Ho h) as (k & p & Hp & <-); [eauto|]. exists k, p. split; [|done].
      rewrite lookup_insert_ne; [done|]. congruence.
  - unfold Unexpose. destruct (proxies f !! key protocol local) as [p|] eqn:E; [|done].
    intros h. cbn. intros [? [Hne Hh]%lookup_delete_Some]. destruct (Ho h) as (k & p' & Hp & <-); [eauto|].
    exists k, p'. split; [|done]. rewrite lookup_delete_ne; [done|]. congruence.
Qed.
End invariant.

(** ** Properties *)

Section properties.
Context (os : OS).

(** C18: no leak.  Starting from an empty table, after any sequence of requests
    about TCP and UDP addresses that the system does not bind twice, the sockets
    that are open are exactly those of the proxies in the table, one each, and
    each serves the protocol and local address its proxy is listed under. *)
Theorem sockets_match_table fixed ops :
  os_exclusive os fixed → Forall (net_op os fixed) ops →
  let f := fw_run os ops NewPortsForwarder in
  (∀ k p, proxies f !! k = Some p →
     k = key (Protocol_ p) (Local_ p) ∧ ∃ l, listeners f !! underlying p = Some l ∧ serves os p l) ∧
  (∀ h, is_Some (listeners f !! h) → ∃ k p, proxies f !! k = Some p ∧ underlying p = h) ∧
  (∀ k k' p p', proxies f !! k = Some p → proxies f !! k' = Some p' →
     underlying p = underlying p' → k = k').
Proof.
  intros Hex Hops f.
  assert (wf os f ∧ owned f) as [[_ He Hi] Ho].
  { unfold f. assert (owned NewPortsForwarder) as Ho by (intros h [??]; set_solver).
    pose proof (NewPortsForwarder_wf os) as Hf. revert Ho Hf.
    generalize NewPortsForwarder as g. induction Hops as [|o ops Hop _ IH]; intros g Ho Hg; [done|].
    apply IH; [by apply (owned_step os fixed)|by apply (fw_run_wf os [o])]. }
  split_and!; [|done|done]. intros k p Hp. by destruct (He k p Hp).
Qed.

(** C36: a request that is not answered with 200 changes nothing: no socket is
    opened or closed and the table is the same, whatever the protocol, the
    addresses and the errors of the system, and also when the handler panics. *)
Theorem failed_request_unchanged json order r f :
  (∀ body, (Ports_Mux os json order r f).2 ≠ Ok (http_OK body)) →
  (Ports_Mux os json order r f).1 = f.
Proof.
  assert (∀ x : PortsForwarder * res unit, (x.2 ≠ Ok tt → x.1 = f) →
    (∀ body, (status_of x).2 ≠ Ok (http_OK body)) → (status_of x).1 = f) as Hs.
  { intros [f' [[]|e|]]; cbn; intros Hx Hne; [by destruct (Hne "")|by apply Hx..]. }
  unfold Ports_Mux, Ports_expose, Ports_unexpose.
  destruct (mux_route _ _ _) as [p| |]; [|done..].
  destruct (decide (p = "/all")); [done|]. destruct (decide (p = "/expose")).
  - case_decide; [done|]. destruct (decode_expose _ _) as [|req]; [done|]. cbv zeta.
    match goal with |- context [match ?x with Ok _ => _ | _ => _ end] => destruct x end; try done.
    apply Hs, Expose_fail.
  - case_decide; [done|]. destruct (decode_unexpose _ _) as [|req]; [done|].
    apply Hs, Unexpose_fail.
Qed.

(** C37: [Unexpose] undoes [Expose]: after a successful [Expose] under a key that
    was free, [Unexpose] of the same protocol and address succeeds, closes the
    socket and restores the table; doing it once more fails with "proxy not
    found". *)
Theorem Unexpose_Expose protocol local remote f :
  wf os f → proxies f !! key protocol local = None →
  (Expose os protocol local remote f).2 = Ok tt →
  let '(f', r) := Unexpose protocol local (Expose os protocol local remote f).1 in
  r = Ok tt ∧ proxies f' = proxies f ∧ listeners f' = listeners f ∧
  Unexpose protocol local f' = (f', Err (ErrMsg "proxy not found")).
Proof.
  intros Hf Hk Hr. pose proof (wf_fresh os _ Hf).
  destruct (Expose_cases os protocol local remote f) as [(l & _ & _ & ->)|[_ ?]]; [|done].
  unfold Unexpose, add_proxy. cbn. rewrite lookup_insert_eq. cbn.
  rewrite !delete_insert_id by done. by rewrite Hk.
Qed.

(** A port exposed through the API without a remote host is forwarded to the
    machine that asks: when the request names the remote ":p", its address is
    that of the requester, over TCP when no protocol is given. *)
Theorem expose_own_port json body local ip rport p f :
  decode_expose json body = inr {| exp_Local := local; exp_Remote := ":" +:+ Itoa p; exp_Protocol := "" |} →
  is_ip4 ip → 0 ≤ p < 65536 → 0 ≤ rport →
  proxies f !! local = None → os_Listen os "tcp" local (listeners f) = None →
  Ports_expose os json {| req_Method := MethodPost; req_Path := "/expose";
      req_RemoteAddr := v4_string ip +:+ ":" +:+ Itoa rport; req_Body := body |} f =
  (add_proxy TCP local (v4_string ip +:+ ":" +:+ Itoa p)
     {| l_network := "tcp"; l_address := local;
        l_dial := DialTCP {| fa_NIC := 1; fa_Addr := ip; fa_Port := p |} |} f, Ok (http_OK "")).
Proof.
  intros Hdec Hip Hp Hrp Hl Hos. unfold Ports_expose. cbn [req_Method req_Body req_RemoteAddr].
  rewrite decide_False, Hdec by tauto. cbn [exp_Protocol exp_Local].
  rewrite (decide_True (P:="" = "")), decide_True by done. unfold remote. cbn [exp_Remote].
  assert (SplitHostPort (":" +:+ Itoa p) = Ok ("", Itoa p)) as ->
    by (apply (SplitHostPort_plain ""); [done|apply plain_Itoa; lia]).
  cbn [mbind res_bind]. rewrite (decide_True (P:="" = "")) by done.
  rewrite SplitHostPort_plain by auto. cbn [mbind res_bind mret res_ret].
  unfold Expose. rewrite Hl. unfold open_socket, open_unix, open_udp, open_tcp. rewrite decide_False by (by intros [?|?]).
  rewrite decide_False, decide_True, tcpipAddress_v4 by done. cbn. by rewrite Hos.
Qed.

(** C38: [/all] lists every proxy once, by local address then protocol, in an
    order that does not depend on how the runtime ranges over the table. *)
Theorem all_sorted f o1 o2 :
  wf os f → range_order (proxies f) o1 → range_order (proxies f) o2 →
  Ports_all o1 = Ports_all o2 ∧ StronglySorted proxy_le (Ports_all o1) ∧
  ∀ p, p ∈ Ports_all o1 ↔ ∃ k, proxies f !! k = Some p.
Proof.
  intros Hf H1 H2.
  assert (∀ o p, range_order (proxies f) o → p ∈ Ports_all o ↔ ∃ k, proxies f !! k = Some p) as Hin.
  { intros o p Ho. unfold Ports_all. rewrite merge_sort_Permutation, list_elem_of_fmap. split.
    - intros ([k q] & -> & Hq). exists k. by apply (range_order_elem _ _ _ _ Ho).
    - intros [k Hk]. exists (k, p). split; [done|]. by apply (range_order_elem _ _ _ _ Ho). }
  split_and!; [|apply (StronglySorted_merge_sort _)|by intros; apply Hin].
  apply (StronglySorted_unique_strong proxy_le); [|apply (StronglySorted_merge_sort _)..|].
  - intros p q [k Hp]%(Hin o1) [k' Hq]%(Hin o2) Hle Hle'; [|done..].
    destruct (wf_entry _ _ Hf k p Hp) as (_ & Hk & _), (wf_entry _ _ Hf k' q Hq) as (_ & Hk' & _).
    assert (k = k') as ->; [|congruence]. rewrite Hk, Hk'.
    rewrite !proxy_le_spec in *. repeat case_decide; try congruence.
    + replace (Local_ q) with (Local_ p) by done. f_equal. by apply (anti_symm String.le).
    + exfalso. apply H0. symmetry. by apply (anti_symm String.le).
  - unfold Ports_all. rewrite !merge_sort_Permutation. by rewrite (range_order_perm _ _ _ H1 H2).
Qed.

(** The test for an existing proxy looks up the bare address although the
    table is indexed by protocol and address, so it does not see the proxy: a
    UNIX socket that is exposed twice succeeds twice and replaces the entry; the
    first socket stays open and no sequence of requests ever closes it. *)
Theorem duplicate_unix_leaks local r1 r2 u1 u2 d1 d2 f ops :
  wf os f → proxies f !! local = None → os_Remove os local = None →
  (∀ ls, os_Listen os "unix" local ls = None) →
  url_Parse os r1 = inr u1 → unix_dial u1 = Ok d1 →
  url_Parse os r2 = inr u2 → unix_dial u2 = Ok d2 →
  let f1 := (Expose os UNIX local r1 f).1 in
  let f2 := (Expose os UNIX local r2 f1).1 in
  (Expose os UNIX local r1 f).2 = Ok tt ∧ (Expose os UNIX local r2 f1).2 = Ok tt ∧
  listeners (fw_run os ops f2) !! next_handle f =
    Some {| l_network := UNIX; l_address := local; l_dial := d1 |}.
Proof.
  intros Hf Hl Hrm Hos Hu1 Hd1 Hu2 Hd2 f1 f2.
  assert (∀ r u d g, url_Parse os r = inr u → unix_dial u = Ok d → proxies g !! local = None →
    Expose os UNIX local r g =
      (add_proxy UNIX local r {| l_network := UNIX; l_address := local; l_dial := d |} g, Ok tt)) as Hex.
  { intros r u d g Hu Hd Hg. unfold Expose, open_socket, open_unix, open_udp, open_tcp, unix_listen. rewrite Hg.
    rewrite decide_True by (by left). rewrite Hu. cbn. rewrite Hd. cbn. rewrite Hrm. cbn. by rewrite Hos. }
  pose proof (wf_fresh os _ Hf) as Hfresh.
  pose proof (key_not_local UNIX local ltac:(set_solver)) as Hkey.
  assert (wf os f2) as Hf2 by (by apply (fw_run_wf os [OpExpose UNIX local r1; OpExpose UNIX local r2])).
  assert (orphan (next_handle f) {| l_network := UNIX; l_address := local; l_dial := d1 |} f2) as Ho.
  { unfold f2, f1. rewrite (Hex r1 u1 d1), (Hex r2 u2 d2); try done;
      [|cbn; by rewrite lookup_insert_ne]. cbn. split; cbn.
    - rewrite lookup_insert_ne by lia. apply lookup_insert_eq.
    - intros k p [[<- <-]|[Hk [[<- _]|[_ Hp]]%lookup_insert_Some]]%lookup_insert_Some; cbn; [lia|done|].
      destruct (wf_entry _ _ Hf k p Hp) as (_ & _ & l' & Hl' & _). congruence. }
  split_and!; [by rewrite (Hex r1 u1 d1)| |by apply (orphan_run os ops)].
  unfold f1. rewrite (Hex r1 u1 d1) by done. cbn [fst].
  rewrite (Hex r2 u2 d2); [done..|]. cbn. by rewrite lookup_insert_ne.
Qed.
End properties.

(** ** Witnesses *)

(** A system that refuses to bind a TCP or UDP address twice, lets a UNIX socket
    replace another one, and resolves an address to itself. *)
Definition bound (net addr : string) (ls : gmap nat listener) : bool :=
  existsb (λ hl, bool_decide (l_network hl.2 = net ∧ l_address hl.2 = addr)) (map_to_list ls).
Definition uri_vm : URL :=
  {| url_Scheme := "tcp"; url_Host := "192.168.127.2:80"; url_Path := ""; url_Query := ∅ |}.
Definition os0 : OS := {|
  url_Parse := λ s, if decide (s = "tcp://192.168.127.2:80") then inr uri_vm else inl (ErrExt "parse");
  os_Remove := λ _, None;
  os_Listen := λ net addr ls,
    if decide (net = "unix") then None
    else if bound net addr ls then Some (ErrExt "address already in use") else None;
  ListenNpipe := λ _ _, Some (ErrMsg "named pipes are not supported by this platform");
  ResolveUDPAddr := λ s, inr s;
|}.

Lemma os0_exclusive : os_exclusive os0 (λ _, True).
Proof.
  intros net addr ls h l Hnet _ Hl Hn Ha. cbn. rewrite decide_False.
  - assert (bound net addr ls = true) as ->; [|done]. unfold bound. apply existsb_exists.
    exists (h, l). split; [apply list_elem_of_In; by apply elem_of_map_to_list|].
    by apply bool_decide_eq_true.
  - intros ->. apply elem_of_cons in Hnet as [?|Hnet]; [done|].
    apply elem_of_cons in Hnet as [?|Hnet]; [done|]. by apply elem_of_nil in Hnet.
Qed.

Definition ops0 : list fw_op :=
  [OpExpose TCP ":2222" "192.168.127.2:22"; OpExpose UDP ":53" "192.168.127.2:53";
   OpExpose TCP ":2222" "192.168.127.3:22"; OpUnexpose UDP ":53"].

Lemma sockets_match_table_witness :
  let f := fw_run os0 ops0 NewPortsForwarder in
  proxies f !! "tcp/:2222" = Some {| Local_ := ":2222"; Remote_ := "192.168.127.2:22";
                                     Protocol_ := TCP; underlying := 0 |} ∧
  ∀ h, is_Some (listeners f !! h) → ∃ k p, proxies f !! k = Some p ∧ underlying p = h.
Proof.
  intros f. split; [by vm_compute|].
  refine (proj1 (proj2 (sockets_match_table os0 (λ _, True) ops0 os0_exclusive _))).
  repeat constructor; cbn; by auto.
Defined.

Definition json0 : JSON := {|
  encode_proxies := λ _, "";
  decode_expose := λ _, inr {| exp_Local := ":8080"; exp_Remote := ":80"; exp_Protocol := "" |};
  decode_unexpose := λ _, inr {| unexp_Local := ":8080"; unexp_Protocol := "" |};
|}.

Lemma failed_request_unchanged_witness :
  (Ports_Mux os0 json0 [] {| req_Method := MethodPost; req_Path := "/unexpose";
      req_RemoteAddr := ""; req_Body := "{}" |} NewPortsForwarder).1 = NewPortsForwarder.
Proof. apply (failed_request_unchanged os0). intros body. vm_compute. congruence. Defined.

Lemma Unexpose_Expose_witness :
  let '(f', r) := Unexpose TCP ":2222" (Expose os0 TCP ":2222" "192.168.127.2:22" NewPortsForwarder).1 in
  r = Ok tt ∧ proxies f' = ∅ ∧ listeners f' = ∅ ∧
  Unexpose TCP ":2222" f' = (f', Err (ErrMsg "proxy not found")).
Proof.
  exact (Unexpose_Expose os0 TCP ":2222" "192.168.127.2:22" NewPortsForwarder
           (NewPortsForwarder_wf os0) eq_refl ltac:(by vm_compute)).
Defined.

Lemma expose_own_port_witness :
  (Ports_expose os0 json0 {| req_Method := MethodPost; req_Path := "/expose";
      req_RemoteAddr := v4_string [192; 168; 127; 2] +:+ ":" +:+ Itoa 40000; req_Body := "{}" |}
      NewPortsForwarder).2 = Ok (http_OK "").
Proof.
  rewrite (expose_own_port os0 json0 "{}" ":8080" [192; 168; 127; 2] 40000 80 NewPortsForwarder);
    [done|by vm_compute|split; [done|byte_list]|lia|lia|done|done].
Defined.

Definition ports2 : PortsForwarder :=
  fw_run os0 [OpExpose UDP ":53" "192.168.127.2:53"; OpExpose TCP ":53" "192.168.127.2:53"] NewPortsForwarder.

Lemma all_sorted_witness :
  Ports_all (map_to_list (proxies ports2)) = Ports_all (reverse (map_to_list (proxies ports2))).
Proof.
  refine (proj1 (all_sorted os0 ports2 _ _ (fw_run_wf os0 _ _ (NewPortsForwarder_wf os0)) _ _)).
  - apply range_order_canonical.
  - unfold range_order. apply reverse_Permutation.
Defined.

Lemma duplicate_unix_leaks_witness :
  is_Some (listeners (fw_run os0 [OpUnexpose UNIX "/tmp/s"; OpUnexpose UNIX "/tmp/s"]
    (Expose os0 UNIX "/tmp/s" "tcp://192.168.127.2:80"
      (Expose os0 UNIX "/tmp/s" "tcp://192.168.127.2:80" NewPortsForwarder).1).1) !! 0%nat).
Proof.
  eexists. refine (proj2 (proj2 (duplicate_unix_leaks os0 "/tmp/s" "tcp://192.168.127.2:80"
    "tcp://192.168.127.2:80" uri_vm uri_vm
    (DialTCP {| fa_NIC := 1; fa_Addr := [192; 168; 127; 2]; fa_Port := 80 |})
    (DialTCP {| fa_NIC := 1; fa_Addr := [192; 168; 127; 2]; fa_Port := 80 |})
    NewPortsForwarder [OpUnexpose UNIX "/tmp/s"; OpUnexpose UNIX "/tmp/s"]
    (NewPortsForwarder_wf os0) eq_refl eq_refl _ eq_refl _ eq_refl _))).
  - done.
  - by vm_compute.
  - by vm_compute.
Defined.
