(* ===== verification/UDPProxy.v ===== *)
(** pkg/services/forwarder/udp_proxy.go: the UDP proxy behind an exposed UDP port
    and behind the UDP flows of the guests.  One connection per client is tracked
    in a table, by address and port (the zone of an IPv6 address is not part of the key); [Run] forwards the datagrams of the clients, one [replyLoop] per
    connection sends the answers back, [Close] ends the proxy.  The three run
    concurrently; their critical sections are the steps of a relation. *)
From Stdlib Require Import Ascii String.
From S2P Require Import Prelude GoStrings GoNet Types.

Local Open Scope string_scope.
Local Open Scope list_scope.
Local Open Scope Z_scope.

Definition UDPBufSize : Z := 65507.

(** ** The key of a client *)

Record UDPAddr := { ua_IP : list Z; ua_Port : Z; ua_Zone : string }.

Record connTrackKey := { IPHigh : Z; IPLow : Z; key_Port : Z }.

#[export] Instance connTrackKey_eq_dec : EqDecision connTrackKey.
Proof. solve_decision. Defined.
#[export] Instance connTrackKey_countable : Countable connTrackKey.
Proof.
  refine (inj_countable' (λ k, (IPHigh k, IPLow k, key_Port k))
            (λ '(h, l, p), {| IPHigh := h; IPLow := l; key_Port := p |}) _).
  by intros [].
Defined.

(** [binary.BigEndian.Uint64]: panics on less than eight bytes. *)
Definition be_Uint64 (bs : list Z) : res Z :=
  if decide (length bs < 8)%nat then Panic else Ok (be_value (take 8 bs)).

Definition newConnTrackKey (addr : UDPAddr) : res connTrackKey :=
  if decide (length (ua_IP addr) = 4%nat) then
    Ok {| IPHigh := 0; IPLow := be_value (ua_IP addr); key_Port := ua_Port addr |}
  else if decide (length (ua_IP addr) < 8)%nat then Panic
  else
    high ← be_Uint64 (take 8 (ua_IP addr));
    low ← be_Uint64 (drop 8 (ua_IP addr));
    mret {| IPHigh := high; IPLow := low; key_Port := ua_Port addr |}.

(** ** State *)

(** A connection is its number.  [replies] holds the running reply loops with the
    client each answers and the key it was started for; [closing] the connections
    whose loop has left the table and still has to close them; [phase] is where
    [Run] is. *)
Inductive run_phase :=
  | Reading                                     (* about to call ReadFrom *)
  | Received (from : UDPAddr) (data : list Z)   (* about to take the lock *)
  | Writing (c : nat) (data : list Z)           (* about to write *)
  | Stopped.

Record UDPProxy := {
  connTrackTable : gmap connTrackKey nat;
  replies : gmap nat (UDPAddr * connTrackKey);
  closing : gset nat;
  open_conns : gset nat;
  next_conn : nat;
  listener_open : bool;
  phase : run_phase;
}.

Definition NewUDPProxy : UDPProxy :=
  {| connTrackTable := ∅; replies := ∅; closing := ∅; open_conns := ∅; next_conn := 0;
     listener_open := true; phase := Reading |}.

(** What the proxy sends: a datagram on a connection, or to a client. *)
Inductive udp_event :=
  | EvForward (c : nat) (data : list Z)
  | EvReply (client : UDPAddr) (data : list Z).

(** ** Operations *)

(** The write loops: [write] is the number of bytes taken or the error of one
    call; the result is what was given to the calls, and whether all went out.
    [None]: the loop has not ended. *)
Fixpoint write_loop (write : list Z → error + nat) (fuel : nat) (buf : list Z)
    : option (list (list Z) * bool) :=
  match buf with
  | [] => Some ([], true)
  | _ =>
      match fuel with
      | O => None
      | S fuel' =>
          match write buf with
          | inl _ => Some ([], false)
          | inr n =>
              match write_loop write fuel' (drop n buf) with
              | Some (sent, ok) => Some (take n buf :: sent, ok)
              | None => None
              end
          end
      end
  end.

Definition set_phase (ph : run_phase) (p : UDPProxy) : UDPProxy :=
  {| connTrackTable := connTrackTable p; replies := replies p; closing := closing p;
     open_conns := open_conns p; next_conn := next_conn p; listener_open := listener_open p;
     phase := ph |}.

(** The critical section of [Run]: [dial] is the error of the dialer, if any. *)
Definition run_lookup (from : UDPAddr) (dial : option error) (data : list Z) (p : UDPProxy) : res UDPProxy :=
  fromKey ← newConnTrackKey from;
  match connTrackTable p !! fromKey with
  | Some c => mret (set_phase (Writing c data) p)
  | None =>
      match dial with
      | Some _ => mret (set_phase Reading p)
      | None =>
          let c := next_conn p in
          mret {| connTrackTable := <[fromKey := c]> (connTrackTable p);
                  replies := <[c := (from, fromKey)]> (replies p); closing := closing p;
                  open_conns := {[c]} ∪ open_conns p; next_conn := S c;
                  listener_open := listener_open p; phase := Writing c data |}
      end
  end.

(** The deferred function of a [replyLoop], its critical section and its end. *)
Definition reply_exit (c : nat) (clientKey : connTrackKey) (p : UDPProxy) : UDPProxy :=
  {| connTrackTable := delete clientKey (connTrackTable p); replies := delete c (replies p);
     closing := {[c]} ∪ closing p; open_conns := open_conns p; next_conn := next_conn p;
     listener_open := listener_open p; phase := phase p |}.

Definition reply_closed (c : nat) (p : UDPProxy) : UDPProxy :=
  {| connTrackTable := connTrackTable p; replies := replies p; closing := closing p ∖ {[c]};
     open_conns := open_conns p ∖ {[c]}; next_conn := next_conn p;
     listener_open := listener_open p; phase := phase p |}.

(** The connections of the table. *)
Definition tracked (p : UDPProxy) : gset nat := list_to_set (map_to_list (connTrackTable p)).*2.

Definition close_listener (p : UDPProxy) : UDPProxy :=
  {| connTrackTable := connTrackTable p; replies := replies p; closing := closing p;
     open_conns := open_conns p; next_conn := next_conn p; listener_open := false;
     phase := phase p |}.

(** The loop of [Close] over the table, under its lock. *)
Definition close_conns (p : UDPProxy) : UDPProxy :=
  {| connTrackTable := connTrackTable p; replies := replies p; closing := closing p;
     open_conns := open_conns p ∖ tracked p; next_conn := next_conn p;
     listener_open := listener_open p; phase := phase p |}.

Definition UDPProxy_Close (p : UDPProxy) : UDPProxy := close_conns (close_listener p).

Definition isClosedError (err : error) : bool :=
  HasSuffix (error_text err) "use of closed network connection".

(** [autoStoppingListener]: a read or a write first moves the read deadline to
    [UDPConnTrackTimeout] (90 s) from now. *)
Definition UDPConnTrackTimeout : Z := 90 * 1000000000.
Record autoStoppingListener := { asl_deadline : option Z; asl_open : bool }.
Definition asl_touch (now : Z) (l : autoStoppingListener) : autoStoppingListener :=
  {| asl_deadline := Some (now + UDPConnTrackTimeout); asl_open := asl_open l |}.
Definition asl_SetReadDeadline (t : Z) (l : autoStoppingListener) : autoStoppingListener :=
  {| asl_deadline := Some t; asl_open := asl_open l |}.
Definition asl_Close (l : autoStoppingListener) : autoStoppingListener :=
  {| asl_deadline := asl_deadline l; asl_open := false |}.

(** ** Interleavings *)

(** A datagram read from a socket: at most the size of the buffer. *)
Definition datagram (data : list Z) : Prop := Z.of_nat (length data) ≤ UDPBufSize.

Section step.
Context (write : nat → list Z → error + nat) (write_to : UDPAddr → list Z → error + nat).

Inductive udp_step : UDPProxy → list udp_event → UDPProxy → Prop :=
  | step_read p from data :
      phase p = Reading → listener_open p = true → datagram data →
      udp_step p [] (set_phase (Received from data) p)
  | step_read_error p : phase p = Reading → udp_step p [] (set_phase Stopped p)
  | step_lookup p from data dial p' :
      phase p = Received from data → run_lookup from dial data p = Ok p' → udp_step p [] p'
  | step_forward p c data sent ok :
      phase p = Writing c data → c ∈ open_conns p →
      write_loop (write c) (length data) data = Some (sent, ok) →
      udp_step p (EvForward c <$> sent) (set_phase Reading p)
  | step_forward_closed p c data :
      phase p = Writing c data → c ∉ open_conns p → udp_step p [] (set_phase Reading p)
  | step_reply p c client k data sent ok :
      replies p !! c = Some (client, k) → c ∈ open_conns p → datagram data →
      write_loop (write_to client) (length data) data = Some (sent, ok) →
      udp_step p (EvReply client <$> sent) (if ok then p else reply_exit c k p)
  | step_reply_exit p c client k :
      replies p !! c = Some (client, k) → udp_step p [] (reply_exit c k p)
  | step_reply_closed p c :
      c ∈ closing p → udp_step p [] (reply_closed c p)
  | step_close_listener p : udp_step p [] (close_listener p)
  | step_close_conns p : udp_step p [] (close_conns p).

Definition udp_reachable (p : UDPProxy) : Prop :=
  star (λ p p', ∃ evs, udp_step p evs p') NewUDPProxy p.
End step.

(** ** The write loops *)

(** The write loop of both directions ends when every successful call takes
    at least one byte, and then what went out is a prefix of the datagram, all of
    it if no call failed; when a call takes the whole buffer, as UDP sockets do, a
    datagram leaves as one datagram, and an empty datagram is not sent at all. *)
Theorem write_loop_total write data :
  (∀ buf n, buf ≠ [] → write buf = inr n → 0 < n ≤ length buf)%nat →
  ∃ sent ok, write_loop write (length data) data = Some (sent, ok) ∧
    concat sent `prefix_of` data ∧ (ok = true → concat sent = data) ∧
    ((∀ buf, write buf = inr (length buf)) → sent = if decide (data = []) then [] else [data]).
Proof.
  intros Hw.
  assert (∀ fuel buf, (length buf ≤ fuel)%nat → ∃ sent ok, write_loop write fuel buf = Some (sent, ok) ∧
    concat sent `prefix_of` buf ∧ (ok = true → concat sent = buf) ∧
    ((∀ b, write b = inr (length b)) → sent = if decide (buf = []) then [] else [buf])) as Hgen;
    [|by apply Hgen].
  induction fuel as [|fuel IH]; intros [|b buf] Hl; try (by exists [], true); [cbn in Hl; lia|].
  cbn [write_loop]. destruct (write (b :: buf)) as [err|n] eqn:E.
  { exists [], false. split_and!; [done|apply prefix_nil|done|]. intros H. congruence. }
  pose proof (Hw (b :: buf) n ltac:(done) E) as Hn. destruct (IH (drop n (b :: buf))) as (sent & ok & -> & Hp & Ho & Hs).
  { rewrite length_drop. lia. }
  exists (take n (b :: buf) :: sent), ok. cbn [concat]. split_and!; [done|..].
  - destruct Hp as [t Ht]. exists t. by rewrite <- app_assoc, <- Ht, take_drop.
  - intros Hok. rewrite Ho by done. apply take_drop.
  - intros Hall. rewrite Hall in E. injection E as <-. rewrite Hs, drop_ge, take_ge by done. done.
Qed.

(** ** Invariant *)

Record udp_inv (p : UDPProxy) : Prop := {
  inv_table k c : connTrackTable p !! k = Some c ↔ ∃ client, replies p !! c = Some (client, k);
  inv_key c client k : replies p !! c = Some (client, k) → newConnTrackKey client = Ok k;
  inv_next c : c ∈ open_conns p ∨ is_Some (replies p !! c) ∨ c ∈ closing p → (c < next_conn p)%nat;
  inv_closing c : c ∈ closing p → replies p !! c = None;
}.

Lemma NewUDPProxy_inv : udp_inv NewUDPProxy.
Proof.
  split; cbn.
  - intros k c. rewrite lookup_empty. split; [done|]. intros [? ?]. set_solver.
  - intros c client k ?. set_solver.
  - intros c [?|[[??]|?]]; set_solver.
  - set_solver.
Qed.

Lemma set_phase_inv ph p : udp_inv p → udp_inv (set_phase ph p).
Proof. by intros [????]. Qed.

Lemma run_lookup_inv from dial data p p' :
  udp_inv p → run_lookup from dial data p = Ok p' → udp_inv p'.
Proof.
  intros Hp (k & Hk & Hr)%res_bind_ok.
  destruct (connTrackTable p !! k) as [c|] eqn:E; [injection Hr as <-; by apply set_phase_inv|].
  destruct dial; injection Hr as <-; [by apply set_phase_inv|]. destruct Hp as [Ht Hky Hn Hc].
  assert (replies p !! next_conn p = None) as Hfresh.
  { destruct (replies p !! next_conn p) eqn:Er; [|done].
    pose proof (Hn (next_conn p) ltac:(right; left; eauto)). lia. }
  split; cbn.
  - intros k' c'. rewrite lookup_insert_Some, Ht. split.
    + intros [[<- <-]|[Hne [client Hcl]]]; [by exists from; rewrite lookup_insert_eq|].
      exists client. rewrite lookup_insert_ne; [done|congruence].
    + intros [client [[<- [= <- <-]]|[Hne Hcl]]%lookup_insert_Some]; [by left|]. right.
      split; [|eauto]. intros <-. assert (connTrackTable p !! k = Some c') by (apply Ht; eauto). congruence.
  - intros c client k' [[<- [= <- <-]]|[_ Hcl]]%lookup_insert_Some; [done|by eapply Hky].
  - intros c [Hc'|[[? [[<- _]|[_ Hc']]%lookup_insert_Some]|Hc']]; [|lia|..].
    + apply elem_of_union in Hc' as [->%elem_of_singleton|Hc']; [lia|].
      specialize (Hn c (or_introl Hc')). lia.
    + specialize (Hn c (or_intror (or_introl (mk_is_Some _ _ Hc')))). lia.
    + specialize (Hn c (or_intror (or_intror Hc'))). lia.
  - intros c Hc'. rewrite lookup_insert_ne; [by apply Hc|]. intros <-.
    specialize (Hn (next_conn p) ltac:(auto)). lia.
Qed.

Lemma reply_exit_inv p c client k :
  udp_inv p → replies p !! c = Some (client, k) → udp_inv (reply_exit c k p).
Proof.
  intros [Ht Hky Hn Hc] Hr.
  assert (connTrackTable p !! k = Some c) as Hk by (apply Ht; eauto). split; cbn.
  - intros k' c'. rewrite lookup_delete_Some, Ht. split.
    + intros [Hne [cl Hcl]]. exists cl. rewrite lookup_delete_ne; [done|]. intros <-. congruence.
    + intros [cl [Hne Hcl]%lookup_delete_Some]. split; [|eauto]. intros <-.
      assert (connTrackTable p !! k = Some c') by (apply Ht; eauto). congruence.
  - intros c' cl k' [_ Hcl]%lookup_delete_Some. by eapply Hky.
  - intros c' [Hc'|[[? [_ Hc']%lookup_delete_Some]|Hc']]; apply Hn; [by left|right; left; eauto|].
    apply elem_of_union in Hc' as [->%elem_of_singleton|Hc']; [right; left; eauto|by right; right].
  - intros c' [->%elem_of_singleton|Hc']%elem_of_union; [apply lookup_delete_eq|].
    apply lookup_delete_None. right. by apply Hc.
Qed.

Lemma udp_step_inv write write_to p evs p' :
  udp_inv p → udp_step write write_to p evs p' → udp_inv p'.
Proof.
  intros Hp Hs. destruct Hs; try by apply set_phase_inv.
  - by eapply run_lookup_inv.
  - destruct ok; [done|by eapply reply_exit_inv].
  - by eapply reply_exit_inv.
  - destruct Hp as [Ht Hky Hn Hc]. split; cbn; [done|done|..]; set_solver.
  - by destruct Hp.
  - destruct Hp as [Ht Hky Hn Hc]. split; cbn; [done|done| |done]. set_solver.
Qed.

Lemma udp_reachable_inv write write_to p : udp_reachable write write_to p → udp_inv p.
Proof.
  apply star_invariant; [|apply NewUDPProxy_inv]. intros a b Ha [evs Hs]. by eapply udp_step_inv.
Qed.

(** ** Properties *)

(** C27: isolation of the clients.  Whatever the interleaving of [Run], the reply
    loops and [Close], every connection of the table is served by one reply loop,
    which was started for the key it is tracked under; so two clients with
    different keys never share a connection, and a datagram is only ever sent
    back to a client with the key under which its connection is tracked. *)
Theorem clients_isolated write write_to p evs p' :
  udp_reachable write write_to p → udp_step write write_to p evs p' →
  (∀ k1 k2 c, connTrackTable p !! k1 = Some c → connTrackTable p !! k2 = Some c → k1 = k2) ∧
  (∀ client data, EvReply client data ∈ evs →
     ∃ c k, newConnTrackKey client = Ok k ∧ connTrackTable p !! k = Some c ∧
            replies p !! c = Some (client, k)).
Proof.
  intros [Ht Hky Hn Hc]%udp_reachable_inv Hs. split.
  - intros k1 k2 c [? H1]%Ht [? H2]%Ht. congruence.
  - intros client data Hin. destruct Hs; try by apply elem_of_nil in Hin.
    + by apply list_elem_of_fmap in Hin as (? & ? & _).
    + apply list_elem_of_fmap in Hin as (? & [= -> ->] & _).
      exists c, k. split_and!; [by eapply Hky|apply Ht; eauto|done].
Qed.

(** One iteration of [Run].  For a datagram of a client with key [k], when the
    connection exists it is used and nothing else changes; otherwise one
    connection is dialed, never used before, and tracked under [k]; if dialing
    fails the datagram is dropped and the proxy goes back to reading; the other
    clients keep their connections in every case. *)
Theorem run_iteration write write_to p from data dial k :
  udp_reachable write write_to p → newConnTrackKey from = Ok k →
  ∃ p', run_lookup from dial data p = Ok p' ∧
    (∀ k', k' ≠ k → connTrackTable p' !! k' = connTrackTable p !! k') ∧
    match connTrackTable p !! k, dial with
    | Some c, _ => p' = set_phase (Writing c data) p
    | None, None => ∃ c, phase p' = Writing c data ∧ connTrackTable p' !! k = Some c ∧
                         c ∉ open_conns p ∧ c ∈ open_conns p' ∧ replies p !! c = None ∧
                         replies p' !! c = Some (from, k)
    | None, Some _ => p' = set_phase Reading p
    end.
Proof.
  intros Hi%udp_reachable_inv Hk. unfold run_lookup. rewrite Hk. cbn.
  destruct (connTrackTable p !! k) as [c|] eqn:E; [by eexists|].
  destruct dial; [by eexists|]. eexists. split; [done|]. cbn. split.
  { intros k' Hne. by rewrite lookup_insert_ne. }
  exists (next_conn p). rewrite !lookup_insert_eq. split_and!; try done.
  - intros Hin. pose proof (inv_next _ Hi _ (or_introl Hin)). lia.
  - set_solver.
  - destruct (replies p !! next_conn p) eqn:Er; [|done].
    pose proof (inv_next _ Hi (next_conn p) ltac:(right; left; eauto)). lia.
Qed.

(** ** Witnesses *)

Definition client_a : UDPAddr := {| ua_IP := [192; 168; 127; 2]; ua_Port := 5000; ua_Zone := "" |}.
Definition key_a : connTrackKey := {| IPHigh := 0; IPLow := 3232268034; key_Port := 5000 |}.
Definition write_all (buf : list Z) : error + nat := inr (length buf).

(** The proxy after it read and tracked the first datagram of [client_a]. *)
Definition udp_p1 : UDPProxy := set_phase (Received client_a [1; 2]) NewUDPProxy.
Definition udp_p2 : UDPProxy :=
  {| connTrackTable := {[key_a := 0%nat]}; replies := {[0%nat := (client_a, key_a)]};
     closing := ∅; open_conns := {[0%nat]} ∪ ∅; next_conn := 1; listener_open := true;
     phase := Writing 0 [1; 2] |}.

Lemma udp_p2_reachable : udp_reachable (λ _, write_all) (λ _, write_all) udp_p2.
Proof.
  eapply (star_step _ _ udp_p1).
  { exists []. apply step_read; [done|done|]. unfold datagram, UDPBufSize. cbn. lia. }
  eapply (star_step _ _ udp_p2); [|constructor].
  exists []. by apply (step_lookup _ _ _ client_a [1; 2] None).
Qed.

Lemma write_loop_total_witness :
  ∃ sent ok, write_loop write_all 2 [1; 2] = Some (sent, ok) ∧ concat sent `prefix_of` [1; 2].
Proof.
  destruct (write_loop_total write_all [1; 2]) as (sent & ok & Hw & Hp & _).
  - intros buf n Hne [= <-]. destruct buf; [done|]. cbn. lia.
  - exists sent, ok. exact (conj Hw Hp).
Defined.

Lemma clients_isolated_witness :
  ∃ c k, newConnTrackKey client_a = Ok k ∧ connTrackTable udp_p2 !! k = Some c ∧
         replies udp_p2 !! c = Some (client_a, k).
Proof.
  refine (proj2 (clients_isolated (λ _, write_all) (λ _, write_all) udp_p2
    (EvReply client_a <$> [[7]]) udp_p2 udp_p2_reachable _) client_a [7] _).
  - refine (step_reply _ _ udp_p2 0 client_a key_a [7] [[7]] true _ _ _ _); [done|set_solver| |done].
    unfold datagram, UDPBufSize. cbn. lia.
  - by left.
Defined.

Lemma run_iteration_witness :
  ∃ p', run_lookup client_a None [3] udp_p2 = Ok p' ∧ phase p' = Writing 0 [3].
Proof.
  destruct (run_iteration (λ _, write_all) (λ _, write_all) udp_p2 client_a [3] None key_a
    udp_p2_reachable eq_refl) as (p' & Hr & _ & Hp).
  exists p'. split; [exact Hr|].
  assert (connTrackTable udp_p2 !! key_a = Some 0%nat) as E by by vm_compute.
  rewrite E in Hp. by rewrite Hp.
Defined.
