(* ===== verification/Nat.v ===== *)
(** pkg/services/forwarder/tcp.go and udp.go: the flows the guests open to the
    outside, and the NAT table of pkg/virtualnetwork/services.go that rewrites
    their destination.  A handler is the list of its effects on the flow, the
    host network and the log. *)
From Stdlib Require Import Ascii String.
From S2P Require Import Prelude GoStrings GoNet Tcpip Types.

Local Open Scope string_scope.
Local Open Scope list_scope.
Local Open Scope Z_scope.

(** ** Addresses *)

Definition linkLocalSubnet : string := "169.254.0.0/16".

(** [linkLocal]; the errors of the two calls are ignored by the code, and a nil
    subnet of [ParseCIDR] would panic. *)
Definition linkLocal : res Subnet :=
  match ParseCIDR linkLocalSubnet with
  | Ok (_, parsedSubnet) =>
      match NewSubnet (AddrFromSlice (net_IP parsedSubnet)) (net_Mask parsedSubnet) with
      | Ok s => Ok s
      | Err _ => Ok {| sn_address := []; sn_mask := [] |}
      | Panic => Panic
      end
  | _ => Panic
  end.

Definition IPv4Broadcast : list Z := [255; 255; 255; 255].

(** The flow of a request: [r.ID()]. *)
Record endpoint_id := { LocalAddress : list Z; LocalPort : Z }.

Definition dial_text (address : list Z) (port : Z) : string := Address_String address +:+ ":" +:+ Itoa port.

(** ** Handlers *)

Inductive flow_event :=
  | FComplete (sendReset : bool)           (* r.Complete *)
  | FDial (network address : string)       (* net.Dial succeeded *)
  | FDialError (network address : string)
  | FEndpoint                              (* r.CreateEndpoint succeeded *)
  | FEndpointError
  | FProxy                                 (* the two sides are copied to each other *)
  | FUDPProxy (network address : string).  (* a UDP proxy that dials this address *)

#[export] Instance flow_event_eq_dec : EqDecision flow_event.
Proof. solve_decision. Defined.

(** The translation under the lock. *)
Definition translate (nat_ : gmap (list Z) (list Z)) (localAddress : list Z) : list Z :=
  default localAddress (nat_ !! localAddress).

Section handlers.
(** [dial]: the error of [net.Dial]; [create]: the error of [CreateEndpoint]. *)
Context (dial : string → string → option error) (create : option error).
Context (nat_ : gmap (list Z) (list Z)).

Definition TCP_handler (id : endpoint_id) : res (list flow_event) :=
  ll ← linkLocal;
  if Subnet_Contains ll (LocalAddress id) then mret [FComplete true]
  else
    let localAddress := translate nat_ (LocalAddress id) in
    let address := dial_text localAddress (LocalPort id) in
    match dial "tcp" address with
    | Some _ => mret [FDialError "tcp" address; FComplete true]
    | None =>
        match create with
        | Some _ => mret [FDial "tcp" address; FEndpointError; FComplete false]
        | None => mret [FDial "tcp" address; FEndpoint; FComplete false; FProxy]
        end
    end.

Definition UDP_handler (id : endpoint_id) : res (list flow_event) :=
  ll ← linkLocal;
  if Subnet_Contains ll (LocalAddress id) || bool_decide (LocalAddress id = IPv4Broadcast) then mret []
  else
    let localAddress := translate nat_ (LocalAddress id) in
    match create with
    | Some _ => mret [FEndpointError]
    | None => mret [FEndpoint; FUDPProxy "udp" (dial_text localAddress (LocalPort id))]
    end.
End handlers.

(** ** The NAT table *)

Definition nat_address (s : string) : res (list Z) := AddrFrom4Slice (To4 (ParseIP s)).

(** The loop of [parseNATTable] over the configured pairs in range order. *)
Fixpoint parseNATTable (order : list (string * string)) (translation : gmap (list Z) (list Z))
    : res (gmap (list Z) (list Z)) :=
  match order with
  | [] => Ok translation
  | (source, destination) :: order' =>
      d ← nat_address destination;
      s ← nat_address source;
      parseNATTable order' (<[s := d]> translation)
  end.

(** ** Lemmas *)

Definition link_local (a : list Z) : bool := bool_decide (take 2 a = [169; 254]).

Lemma linkLocal_eq : linkLocal = Ok {| sn_address := [169; 254; 0; 0]; sn_mask := [255; 255; 0; 0] |}.
Proof. by vm_compute. Qed.

Lemma land_255 b : is_byte b → Z.land b 255 = b.
Proof. intros Hb. change 255 with (Z.ones 8). rewrite Z.land_ones by lia. apply Z.mod_small. done. Qed.

Lemma linkLocal_Contains a : is_ip4 a →
  Subnet_Contains {| sn_address := [169; 254; 0; 0]; sn_mask := [255; 255; 0; 0] |} a = link_local a.
Proof.
  intros (x & y & z & w & -> & Hx & Hy & _ & _)%is_ip4_inv.
  unfold Subnet_Contains, link_local. cbn [length sn_address sn_mask zip_with take].
  rewrite decide_False by (intros H; by apply H). rewrite !land_255, !Z.land_0_r by done.
  apply bool_decide_ext. split; [by intros [= -> ->]|by intros [= -> ->]].
Qed.

(** ** Properties *)

(** The address a flow event is about. *)
Definition event_address (ev : flow_event) : option string :=
  match ev with
  | FDial _ a | FDialError _ a | FUDPProxy _ a => Some a
  | _ => None
  end.
Definition is_complete (ev : flow_event) : bool := match ev with FComplete _ => true | _ => false end.

(** The only host address a handler dials is the NAT image of the destination. *)
Lemma dial_event_cases (P : string → Prop) (evs : list flow_event) :
  (∀ addr, omap event_address evs = [addr] → P addr) → (length (omap event_address evs) <= 1)%nat →
  ∀ ev addr, ev ∈ evs → event_address ev = Some addr → P addr.
Proof.
  intros HP Hl ev addr Hin Ha. assert (addr ∈ omap event_address evs) as Hd by (apply list_elem_of_omap; eauto).
  destruct (omap event_address evs) as [|a [|]]; [by apply elem_of_nil in Hd| |cbn in Hl; lia].
  apply list_elem_of_singleton in Hd as ->. by apply HP.
Qed.

Lemma TCP_handler_addresses dial create nat_ id evs ev addr :
  TCP_handler dial create nat_ id = Ok evs → ev ∈ evs → event_address ev = Some addr →
  addr = dial_text (translate nat_ (LocalAddress id)) (LocalPort id) ∧
  (is_ip4 (LocalAddress id) → link_local (LocalAddress id) = false).
Proof.
  unfold TCP_handler. rewrite linkLocal_eq. cbn [mbind res_bind]. intros H.
  destruct (Subnet_Contains _ _) eqn:Ec.
  { injection H as <-. by intros ->%list_elem_of_singleton. }
  revert ev addr. apply dial_event_cases.
  - intros addr Ha. split; [|intros Hip; by rewrite <- linkLocal_Contains].
    destruct (dial _ _); [|destruct create]; injection H as <-; cbn in Ha; congruence.
  - destruct (dial _ _); [|destruct create]; injection H as <-; cbn; lia.
Qed.

Lemma UDP_handler_addresses create nat_ id evs ev addr :
  UDP_handler create nat_ id = Ok evs → ev ∈ evs → event_address ev = Some addr →
  addr = dial_text (translate nat_ (LocalAddress id)) (LocalPort id) ∧
  (is_ip4 (LocalAddress id) → link_local (LocalAddress id) = false).
Proof.
  unfold UDP_handler. rewrite linkLocal_eq. cbn [mbind res_bind]. intros H.
  destruct (Subnet_Contains _ _) eqn:Ec; [injection H as <-; by intros ?%elem_of_nil|].
  destruct (bool_decide _); [injection H as <-; by intros ?%elem_of_nil|]. cbn [orb] in H.
  revert ev addr. apply dial_event_cases.
  - intros addr Ha. split; [|intros Hip; by rewrite <- linkLocal_Contains].
    destruct create; injection H as <-; cbn in Ha; congruence.
  - destruct create; injection H as <-; cbn; lia.
Qed.

(** C28: where the flows of the guests go.  The handlers never panic on an IPv4
    destination; a flow to a link-local address (169.254.0.0/16) is reset over
    TCP and ignored over UDP; for any other destination the only host address
    ever dialed is the NAT image of the destination (translated once), with the
    same port; a TCP request is completed exactly once, with a reset unless the
    host accepted the connection. *)
Theorem flow_destination dial create nat_ id :
  is_ip4 (LocalAddress id) → (∀ a b, nat_ !! a = Some b → is_ip4 b) →
  let target := v4_string (default (LocalAddress id) (nat_ !! LocalAddress id)) +:+ ":" +:+ Itoa (LocalPort id) in
  ∃ tcp udp, TCP_handler dial create nat_ id = Ok tcp ∧ UDP_handler create nat_ id = Ok udp ∧
    (link_local (LocalAddress id) = true → tcp = [FComplete true] ∧ udp = []) ∧
    (∀ ev addr, ev ∈ tcp ++ udp → event_address ev = Some addr →
       link_local (LocalAddress id) = false ∧ addr = target) ∧
    length (filter is_complete tcp) = 1%nat ∧
    (FComplete true ∈ tcp ↔ link_local (LocalAddress id) = true ∨ is_Some (dial "tcp" target)).
Proof.
  intros Ha Hnat target.
  assert (dial_text (translate nat_ (LocalAddress id)) (LocalPort id) = target) as Ht.
  { unfold dial_text, Address_String, translate, target.
    assert (is_ip4 (default (LocalAddress id) (nat_ !! LocalAddress id))) as [Hl _].
    { destruct (nat_ !! LocalAddress id) eqn:E; [by eapply Hnat|done]. }
    by rewrite decide_True by done. }
  assert (∃ tcp, TCP_handler dial create nat_ id = Ok tcp ∧ (link_local (LocalAddress id) = true → tcp = [FComplete true]) ∧
    length (filter is_complete tcp) = 1%nat ∧
    (FComplete true ∈ tcp ↔ link_local (LocalAddress id) = true ∨ is_Some (dial "tcp" target))) as (tcp & Et & Hl & Hc & Hr).
  { unfold TCP_handler. rewrite linkLocal_eq. cbn [mbind res_bind]. rewrite linkLocal_Contains, Ht by done.
    destruct (link_local (LocalAddress id)); [eexists; split_and!; [done..|set_solver]|].
    destruct (dial "tcp" target); [|destruct create]; (eexists; split_and!; [done..|set_solver]). }
  assert (∃ udp, UDP_handler create nat_ id = Ok udp ∧ (link_local (LocalAddress id) = true → udp = [])) as (udp & Eu & Hlu).
  { unfold UDP_handler. rewrite linkLocal_eq. cbn [mbind res_bind]. rewrite linkLocal_Contains by done.
    destruct (link_local (LocalAddress id)); [by eexists|]. destruct (bool_decide _); [|destruct create]; by eexists. }
  exists tcp, udp. split_and!; auto. intros ev addr [Hin|Hin]%elem_of_app He; rewrite <- Ht.
  - destruct (TCP_handler_addresses _ _ _ _ _ _ _ Et Hin He). auto.
  - destruct (UDP_handler_addresses _ _ _ _ _ _ Eu Hin He). auto.
Qed.

Lemma nat_address_cases s : nat_address s = Panic ∨ ∃ a, nat_address s = Ok a.
Proof. unfold nat_address, AddrFrom4Slice. case_decide; eauto. Qed.

(** The pairs of addresses of a list of configured pairs. *)
Definition nat_pairs (order : list (string * string)) : list (list Z * list Z) :=
  omap (λ sd, match nat_address sd.1, nat_address sd.2 with Ok s, Ok d => Some (s, d) | _, _ => None end) order.

Lemma parseNATTable_foldl order t :
  (∀ s d, (s, d) ∈ order → nat_address s ≠ Panic ∧ nat_address d ≠ Panic) →
  parseNATTable order t = Ok (foldl (λ t sd, <[sd.1 := sd.2]> t) t (nat_pairs order)).
Proof.
  revert t. induction order as [|[s d] order IH]; intros t Hok; [done|]. cbn.
  destruct (Hok s d) as [Hs Hd]; [by left|].
  destruct (nat_address_cases s) as [?|[s' ->]], (nat_address_cases d) as [?|[d' ->]]; try done.
  cbn. apply IH. intros ?? ?. apply Hok. by right.
Qed.

Lemma parseNATTable_panic order t s d :
  (s, d) ∈ order → nat_address s = Panic ∨ nat_address d = Panic → parseNATTable order t = Panic.
Proof.
  revert t. induction order as [|[s' d'] order IH]; intros t Hin Hp; [by apply elem_of_nil in Hin|].
  cbn. apply elem_of_cons in Hin as [[= <- <-]|Hin].
  - destruct (nat_address_cases d) as [->|[? Hd]]; [done|]. rewrite Hd. cbn.
    destruct Hp as [->|Hp]; [done|congruence].
  - destruct (nat_address_cases d') as [->|[? ->]]; [done|]. cbn.
    destruct (nat_address_cases s') as [->|[? ->]]; [done|]. cbn. by apply IH.
Qed.

Lemma foldl_insert_NoDup (l : list (list Z * list Z)) (t : gmap (list Z) (list Z)) a b :
  NoDup l.*1 → (∀ k, k ∈ l.*1 → t !! k = None) →
  foldl (λ t sd, <[sd.1 := sd.2]> t) t l !! a = Some b ↔ (a, b) ∈ l ∨ t !! a = Some b.
Proof.
  revert t. induction l as [|[s d] l IH]; intros t Hnd Ht; cbn; [set_solver|].
  apply NoDup_cons in Hnd as [Hs Hnd]. rewrite IH; [|done|].
  - rewrite lookup_insert_Some, elem_of_cons. split.
    + intros [?|[[<- <-]|[_ ?]]]; auto.
    + intros [[[= -> ->]|?]|?]; [auto..|]. right. right. split; [|done].
      intros <-. rewrite Ht in H; [done|]. by left.
  - intros k Hk. rewrite lookup_insert_ne by (intros ->; by apply Hs). apply Ht. by right.
Qed.

(** The NAT table is the one that is configured, whatever the order in which
    the runtime ranges over the configuration: when every text is an IPv4 address
    and no two sources are the same address, it maps exactly the addresses of the
    configured sources to those of their destinations; one text that is not an
    IPv4 address makes the start of the network panic. *)
Theorem parseNATTable_spec m order :
  range_order m order →
  (∀ s d, m !! s = Some d → nat_address s = Panic ∨ nat_address d = Panic → parseNATTable order ∅ = Panic) ∧
  ((∀ s d, m !! s = Some d → nat_address s ≠ Panic ∧ nat_address d ≠ Panic) →
   (∀ s1 s2, is_Some (m !! s1) → is_Some (m !! s2) → nat_address s1 = nat_address s2 → s1 = s2) →
   ∃ t, parseNATTable order ∅ = Ok t ∧
     ∀ a b, t !! a = Some b ↔ ∃ s d, m !! s = Some d ∧ nat_address s = Ok a ∧ nat_address d = Ok b).
Proof.
  intros Ho. split.
  { intros s d Hm. apply parseNATTable_panic. by apply (range_order_elem _ _ _ _ Ho). }
  intros Hok Hinj. eexists. split.
  { apply parseNATTable_foldl. intros s d Hin. apply Hok. by apply (range_order_elem _ _ _ _ Ho). }
  assert (∀ a b, (a, b) ∈ nat_pairs order ↔
    ∃ s d, m !! s = Some d ∧ nat_address s = Ok a ∧ nat_address d = Ok b) as Hpairs.
  { intros a b. unfold nat_pairs. rewrite list_elem_of_omap. split.
    - intros ([s d] & Hin & He). cbn in He. exists s, d.
      apply (range_order_elem _ _ _ _ Ho) in Hin. by repeat case_match; simplify_eq.
    - intros (s & d & Hm & Hs & Hd). exists (s, d). cbn. rewrite Hs, Hd. split; [|done].
      by apply (range_order_elem _ _ _ _ Ho). }
  intros a b. rewrite foldl_insert_NoDup; [rewrite Hpairs, lookup_empty; naive_solver| |by intros; rewrite lookup_empty].
  assert (∀ s d, (s, d) ∈ order → m !! s = Some d) as Hel by (intros; by apply (range_order_elem _ _ _ _ Ho)).
  pose proof (range_order_NoDup _ _ Ho) as Hnd. clear Hpairs Ho Hok.
  unfold nat_pairs. induction order as [|[s d] order IH]; cbn; [constructor|].
  cbn in Hnd. apply NoDup_cons in Hnd as [Hs Hnd].
  specialize (IH ltac:(intros; apply Hel; by right) Hnd).
  destruct (nat_address s) as [a'| |] eqn:Es; [|done..]. destruct (nat_address d) as [b'| |]; [|done..].
  cbn. apply NoDup_cons. split; [|done]. intros ([a'' b''] & Ha & Hin)%list_elem_of_fmap. cbn in Ha. subst a''.
  apply list_elem_of_omap in Hin as ([s2 d2] & Hin & He). cbn in He.
  assert (s = s2) as ->; [|apply Hs, list_elem_of_fmap; by exists (s2, d2)].
  apply Hinj; [rewrite (Hel s d); [done|by left]|rewrite (Hel s2 d2); [done|by right]|].
  rewrite Es. by repeat case_match; simplify_eq.
Qed.

(** ** Witnesses *)

(** The address of the host as seen by the guests. *)
Definition nat_host : gmap (list Z) (list Z) := {[ [192; 168; 127; 254] := [127; 0; 0; 1] ]}.
Definition flow_host : endpoint_id := {| LocalAddress := [192; 168; 127; 254]; LocalPort := 8080 |}.

Lemma flow_destination_witness :
  ∃ tcp, TCP_handler (λ _ _, None) None nat_host flow_host = Ok tcp ∧
    length (filter is_complete tcp) = 1%nat.
Proof.
  destruct (flow_destination (λ _ _, None) None nat_host flow_host)
    as (tcp & udp & Ht & _ & _ & _ & Hc & _).
  - split; [done|byte_list].
  - unfold nat_host. intros a b Hab. apply lookup_singleton_Some in Hab as [_ <-]. split; [done|byte_list].
  - exists tcp. exact (conj Ht Hc).
Defined.

Definition nat_config : gmap string string := {["192.168.127.254" := "127.0.0.1"]}.

Lemma parseNATTable_spec_witness :
  ∃ t, parseNATTable (map_to_list nat_config) ∅ = Ok t ∧ t !! [192; 168; 127; 254] = Some [127; 0; 0; 1].
Proof.
  destruct (proj2 (parseNATTable_spec nat_config _ (range_order_canonical _))) as (t & Ht & Hl).
  - unfold nat_config. intros s d [<- <-]%lookup_singleton_Some. split; by vm_compute.
  - unfold nat_config. intros s1 s2 [? [<- _]%lookup_singleton_Some] [? [<- _]%lookup_singleton_Some] _. done.
  - exists t. split; [exact Ht|]. apply Hl. exists "192.168.127.254", "127.0.0.1". split_and!; by vm_compute.
Defined.
