(* ===== verification/DHCP.v ===== *)
(** pkg/services/dhcp/dhcp.go: the DHCP server of the gateway, on the pool of
    leases.  Messages are those of github.com/insomniacslk/dhcp (vendored): the
    functions the handler calls on them are modelled, their wire format is not. *)
From Stdlib Require Import Ascii String.
From S2P Require Import Prelude GoStrings GoNet IPPool Types GoHTTP.

Local Open Scope string_scope.
Local Open Scope list_scope.
Local Open Scope Z_scope.

(** ** Messages *)

(** An absent option and a nil value are both the empty list. *)
Record DHCPv4 := {
  OpCode : Z; HWType : Z; ClientHWAddr : list Z; HopCount : Z; TransactionID : list Z;
  NumSeconds : Z; Flags : Z; ClientIPAddr : list Z; YourIPAddr : list Z; ServerIPAddr : list Z;
  GatewayIPAddr : list Z; Options : gmap Z (list Z);
}.

Definition OpcodeBootRequest : Z := 1.
Definition OpcodeBootReply : Z := 2.
Definition MessageTypeNone : Z := 0.
Definition MessageTypeDiscover : Z := 1.
Definition MessageTypeOffer : Z := 2.
Definition MessageTypeRequest : Z := 3.
Definition MessageTypeAck : Z := 5.
Definition OptionSubnetMask : Z := 1.
Definition OptionRouter : Z := 3.
Definition OptionDomainNameServer : Z := 6.
Definition OptionInterfaceMTU : Z := 26.
Definition OptionIPAddressLeaseTime : Z := 51.
Definition OptionDHCPMessageType : Z := 53.
Definition OptionServerIdentifier : Z := 54.
Definition OptionClientIdentifier : Z := 61.
Definition OptionRelayAgentInformation : Z := 82.
Definition OptionDNSDomainSearchList : Z := 119.

Definition UpdateOption (code : Z) (value : list Z) (d : DHCPv4) : DHCPv4 :=
  {| OpCode := OpCode d; HWType := HWType d; ClientHWAddr := ClientHWAddr d; HopCount := HopCount d;
     TransactionID := TransactionID d; NumSeconds := NumSeconds d; Flags := Flags d;
     ClientIPAddr := ClientIPAddr d; YourIPAddr := YourIPAddr d; ServerIPAddr := ServerIPAddr d;
     GatewayIPAddr := GatewayIPAddr d; Options := <[code := value]> (Options d) |}.

Definition Options_Get (code : Z) (d : DHCPv4) : list Z := default [] (Options d !! code).

(** One byte exactly, else none. *)
Definition MessageType (d : DHCPv4) : Z :=
  match Options_Get OptionDHCPMessageType d with [t] => t | _ => MessageTypeNone end.

Definition WithReply (request d : DHCPv4) : DHCPv4 :=
  {| OpCode := if decide (OpCode request = OpcodeBootRequest) then OpcodeBootReply else OpcodeBootRequest;
     HWType := HWType request; ClientHWAddr := ClientHWAddr request; HopCount := HopCount d;
     TransactionID := TransactionID request; NumSeconds := NumSeconds d; Flags := Flags request;
     ClientIPAddr := ClientIPAddr d; YourIPAddr := YourIPAddr d; ServerIPAddr := ServerIPAddr d;
     GatewayIPAddr := GatewayIPAddr d; Options := Options d |}.

Definition WithGatewayIP (ip : list Z) (d : DHCPv4) : DHCPv4 :=
  {| OpCode := OpCode d; HWType := HWType d; ClientHWAddr := ClientHWAddr d; HopCount := HopCount d;
     TransactionID := TransactionID d; NumSeconds := NumSeconds d; Flags := Flags d;
     ClientIPAddr := ClientIPAddr d; YourIPAddr := YourIPAddr d; ServerIPAddr := ServerIPAddr d;
     GatewayIPAddr := ip; Options := Options d |}.

Definition WithOptionCopied (request : DHCPv4) (opt : Z) (d : DHCPv4) : DHCPv4 :=
  let val := Options_Get opt request in
  if decide (val ≠ []) then UpdateOption opt val d else d.

Definition IPv4zero : list Z := v4in6 [0; 0; 0; 0].

(** [New]: [xid] is the random transaction identifier, or why there is none. *)
Definition DHCP_New_message (xid : error + list Z) (modifiers : list (DHCPv4 → DHCPv4)) : res DHCPv4 :=
  match xid with
  | inl err => Err err
  | inr xid =>
      Ok (foldl (λ d mod_, mod_ d)
        {| OpCode := OpcodeBootRequest; HWType := 1; ClientHWAddr := replicate 6 0; HopCount := 0;
           TransactionID := xid; NumSeconds := 0; Flags := 0; ClientIPAddr := IPv4zero;
           YourIPAddr := IPv4zero; ServerIPAddr := IPv4zero; GatewayIPAddr := IPv4zero; Options := ∅ |}
        modifiers)
  end.

Definition NewReplyFromRequest (xid : error + list Z) (request : DHCPv4) : res DHCPv4 :=
  DHCP_New_message xid [WithReply request; WithGatewayIP (GatewayIPAddr request);
    WithOptionCopied request OptionRelayAgentInformation;
    WithOptionCopied request OptionClientIdentifier].

(** The values of the options. *)
Definition opt_IP (ip : list Z) : list Z := To4 ip.
Definition opt_IPs (ips : list (list Z)) : list Z := concat (To4 <$> ips).
Definition opt_Duration (ns : Z) : list Z := put_u32_be (u32 (ns / 1000000000)).
Definition opt_Uint16 (v : Z) : list Z := put_u16_be (u16 v).

(** rfc1035label: one length byte and the bytes of each part, then a zero. *)
Definition labelToBytes (label : string) : list Z :=
  if decide (label = "") then [0]
  else concat ((λ part, u8 (Z.of_nat (String.length part)) :: bytes_of_string part) <$> Split "." label) ++ [0].
Definition labelsToBytes (labels : list string) : list Z := concat (labelToBytes <$> labels).

Definition set_YourIPAddr (ip : list Z) (d : DHCPv4) : DHCPv4 :=
  {| OpCode := OpCode d; HWType := HWType d; ClientHWAddr := ClientHWAddr d; HopCount := HopCount d;
     TransactionID := TransactionID d; NumSeconds := NumSeconds d; Flags := Flags d;
     ClientIPAddr := ClientIPAddr d; YourIPAddr := ip; ServerIPAddr := ServerIPAddr d;
     GatewayIPAddr := GatewayIPAddr d; Options := Options d |}.

(** ** The handler *)

Inductive dhcp_event :=
  | DhcpReply (reply : DHCPv4)   (* conn.WriteTo(reply.ToBytes(), peer) *)
  | DhcpLog (what : string).     (* log.Errorf *)

Definition Hour : Z := 3600 * 1000000000.

Section handler.
Context (cfg : Configuration).

(** The options set before the message type is looked at. *)
Definition reply_options (parsedSubnet : IPNet) (reply : DHCPv4) : DHCPv4 :=
  let gw := ParseIP (GatewayIP cfg) in
  let reply := UpdateOption OptionServerIdentifier (opt_IP gw) reply in
  let reply := UpdateOption OptionIPAddressLeaseTime (opt_Duration Hour) reply in
  let reply := UpdateOption OptionSubnetMask (opt_IP (net_Mask parsedSubnet)) reply in
  let reply := UpdateOption OptionRouter (opt_IP gw) reply in
  let reply := UpdateOption OptionDomainNameServer (opt_IPs [gw]) reply in
  let reply := UpdateOption OptionInterfaceMTU (opt_Uint16 (cfg_MTU cfg)) reply in
  UpdateOption OptionDNSDomainSearchList (labelsToBytes (DNSSearchDomains cfg)) reply.

(** [order]: the order in which the pool ranges over its leases; [wr]: the error
    of [WriteTo]. *)
Definition handler (order : list (string * string)) (xid : error + list Z) (wr : option error)
    (m : DHCPv4) (p : IPPool) : IPPool * res (list dhcp_event) :=
  match NewReplyFromRequest xid m with
  | Err _ => (p, Ok [DhcpLog "dhcp: cannot build reply from request"])
  | Panic => (p, Panic)
  | Ok reply =>
      match GetOrAssign order (HardwareAddr_String (ClientHWAddr m)) p with
      | (p', Err _) => (p', Ok [DhcpLog "dhcp: cannot assign ip"])
      | (p', Panic) => (p', Panic)
      | (p', Ok ip) =>
          match ParseCIDR (cfg_Subnet cfg) with
          | Err _ => (p', Ok [DhcpLog "dhcp: invalid subnet"])
          | Panic => (p', Panic)
          | Ok (_, parsedSubnet) =>
              let reply := reply_options parsedSubnet (set_YourIPAddr ip reply) in
              let answer mt :=
                DhcpReply (UpdateOption OptionDHCPMessageType [mt] reply) ::
                match wr with Some _ => [DhcpLog "dhcp: cannot reply to client"] | None => [] end in
              (p', Ok (if decide (MessageType m = MessageTypeDiscover) then answer MessageTypeOffer
                       else if decide (MessageType m = MessageTypeRequest) then answer MessageTypeAck
                       else [DhcpLog "dhcp: unhandled message type"]))
          end
      end
  end.
End handler.

Definition DHCP_serverPort : Z := 67.

(** ** The socket and the server *)

(** What [dial] and [New] do to the stack, and its answers. *)
Inductive endpoint_event := EpNew | EpBroadcast | EpBind (nic port : Z) | EpClose.
Record dhcp_stack := {
  NewEndpoint : option error;
  Bind : Z → Z → option error;
  NewServer : option error;          (* server4.NewServer *)
}.

(** An endpoint that cannot be bound is closed. *)
Definition dial (s : dhcp_stack) (nic : Z) : list endpoint_event * res unit :=
  match NewEndpoint s with
  | Some err => ([], Err err)
  | None =>
      match Bind s nic DHCP_serverPort with
      | Some err => ([EpNew; EpBroadcast; EpClose], Err err)
      | None => ([EpNew; EpBroadcast; EpBind nic (u16 DHCP_serverPort)], Ok tt)
      end
  end.

(** [New]: the server answers with the handler on the pool it is given. *)
Definition DHCP_New (s : dhcp_stack) : list endpoint_event * res unit :=
  match dial s 1 with
  | (l, Ok _) => (l, match NewServer s with Some err => Err err | None => Ok tt end)
  | (l, r) => (l, r)
  end.

(** No endpoint stays open when [dial] fails. *)
Lemma dial_closes s nic l r : dial s nic = (l, r) → r ≠ Ok tt → EpNew ∈ l → last l = Some EpClose.
Proof. unfold dial. destruct (NewEndpoint s), (Bind s nic DHCP_serverPort); intros [= <- <-]; set_solver. Qed.

(** [Mux]: the leases, encoded by encoding/json (a parameter). *)
Definition DHCP_Mux (encode : gmap string string → string) (order : list (string * string))
    (r : http_request) (p : IPPool) : http_response :=
  match mux_route ["/leases"] (req_Method r) (req_Path r) with
  | RNone => http_NotFound
  | RMoved location => http_Moved location
  | RPattern _ => http_OK (encode (Leases order p))
  end.

(** ** Lemmas *)

(** The replies of a run of the handler. *)
Fixpoint replies_of (evs : list dhcp_event) : list DHCPv4 :=
  match evs with
  | [] => []
  | DhcpReply r :: evs' => r :: replies_of evs'
  | DhcpLog _ :: evs' => replies_of evs'
  end.

(** The client a reply is for. *)
Definition reply_mac (r : DHCPv4) : string := HardwareAddr_String (ClientHWAddr r).

Definition set_Options (o : gmap Z (list Z)) (d : DHCPv4) : DHCPv4 :=
  {| OpCode := OpCode d; HWType := HWType d; ClientHWAddr := ClientHWAddr d; HopCount := HopCount d;
     TransactionID := TransactionID d; NumSeconds := NumSeconds d; Flags := Flags d;
     ClientIPAddr := ClientIPAddr d; YourIPAddr := YourIPAddr d; ServerIPAddr := ServerIPAddr d;
     GatewayIPAddr := GatewayIPAddr d; Options := o |}.

(** The options after one is copied from a request. *)
Definition copied (request : DHCPv4) (opt : Z) (o : gmap Z (list Z)) : gmap Z (list Z) :=
  if decide (Options_Get opt request = []) then o else <[opt := Options_Get opt request]> o.

Lemma WithOptionCopied_eq request opt d :
  WithOptionCopied request opt d = set_Options (copied request opt (Options d)) d.
Proof. unfold WithOptionCopied, copied. destruct d. by repeat case_decide. Qed.

Lemma copied_lookup request opt o code :
  copied request opt o !! code =
    if decide (code = opt ∧ Options_Get opt request ≠ []) then Some (Options_Get opt request) else o !! code.
Proof.
  unfold copied. destruct (decide (Options_Get opt request = [])) as [->|Hne].
  { by rewrite decide_False by naive_solver. }
  destruct (decide (code = opt)) as [->|Hc]; [by rewrite decide_True, lookup_insert_eq|].
  by rewrite decide_False, lookup_insert_ne by naive_solver.
Qed.

Lemma NewReplyFromRequest_spec xid m reply : NewReplyFromRequest xid m = Ok reply →
  ClientHWAddr reply = ClientHWAddr m ∧ TransactionID reply = TransactionID m ∧
  Flags reply = Flags m ∧ GatewayIPAddr reply = GatewayIPAddr m ∧
  OpCode reply = (if decide (OpCode m = OpcodeBootRequest) then OpcodeBootReply else OpcodeBootRequest) ∧
  ∀ code, Options reply !! code =
    if decide (code = OptionRelayAgentInformation ∨ code = OptionClientIdentifier)
    then (if decide (Options_Get code m = []) then None else Some (Options_Get code m)) else None.
Proof.
  unfold NewReplyFromRequest, DHCP_New_message. destruct xid; [done|]. intros [= <-]. cbn [foldl].
  rewrite !WithOptionCopied_eq. split_and!; try done. intros code.
  cbn [Options set_Options]. rewrite !copied_lookup. cbn [Options WithGatewayIP WithReply].
  rewrite lookup_empty. unfold OptionClientIdentifier, OptionRelayAgentInformation.
  repeat case_decide; subst; try done; naive_solver.
Qed.

(** A successful run of the handler: the lease and the reply. *)
Lemma handler_reply_inv cfg order xid wr m p p' evs r :
  handler cfg order xid wr m p = (p', Ok evs) → r ∈ replies_of evs →
  ∃ ip, GetOrAssign order (HardwareAddr_String (ClientHWAddr m)) p = (p', Ok ip) ∧
        YourIPAddr r = ip ∧ ClientHWAddr r = ClientHWAddr m.
Proof.
  unfold handler. destruct (NewReplyFromRequest xid m) as [reply|e|] eqn:Er; [|by intros [= <- <-] ?%elem_of_nil|done].
  apply NewReplyFromRequest_spec in Er as (Hhw & _).
  destruct (GetOrAssign _ _ p) as [p1 [ip|e|]]; [|by intros [= <- <-] ?%elem_of_nil|done].
  destruct (ParseCIDR (cfg_Subnet cfg)) as [[? net]|e|]; [|by intros [= <- <-] ?%elem_of_nil|done].
  intros [= <- <-] Hin. exists ip. split; [done|].
  repeat case_decide; cbn in Hin; [..|by apply elem_of_nil in Hin];
    apply elem_of_cons in Hin as [->|Hin]; try (split; [done|exact Hhw]);
    destruct wr; by apply elem_of_nil in Hin.
Qed.

Lemma handler_pool cfg order xid wr m p :
  (handler cfg order xid wr m p).1 = p ∨
  (handler cfg order xid wr m p).1 = (GetOrAssign order (HardwareAddr_String (ClientHWAddr m)) p).1.
Proof.
  unfold handler. destruct (NewReplyFromRequest xid m) as [reply|e|]; [|by left..]. right.
  destruct (GetOrAssign _ _ p) as [p1 [ip|e|]]; [|done..].
  by destruct (ParseCIDR (cfg_Subnet cfg)) as [[? net]|e|].
Qed.

Lemma pool_spec_get n k a mac a' r :
  pool_spec n k a (OpGet mac) a' r → a ⊆ a' ∧ ∀ ip, r = Some ip → a' !! mac = Some ip.
Proof.
  inversion 1; subst; split; try done; [by intros ? [= <-]|by apply insert_subseteq|].
  intros ip [= <-]. apply lookup_insert_eq.
Qed.

(** A new entry is the client's. *)
Lemma pool_spec_new n k a mac a' r : pool_spec n k a (OpGet mac) a' r →
  ∀ m ip, a' !! m = Some ip → a !! m = Some ip ∨ m = mac.
Proof. intros H m v. inversion H; subst; auto. intros [[<- _]|[_ ?]]%lookup_insert_Some; auto. Qed.

Lemma Options_Get_Update code c v d :
  Options_Get code (UpdateOption c v d) = if decide (code = c) then v else Options_Get code d.
Proof.
  unfold Options_Get, UpdateOption. cbn. case_decide as E; [subst; by rewrite lookup_insert_eq|].
  by rewrite lookup_insert_ne.
Qed.

(** ** Properties *)

Section runs.
Context (cfg : Configuration).

(** Any sequence of messages handled by the server, with the replies it sends. *)
Inductive dhcp_runs : IPPool → list DHCPv4 → IPPool → Prop :=
  | runs_nil p : dhcp_runs p [] p
  | runs_step p order xid wr m p1 evs rs p2 :
      range_order (leases p) order → handler cfg order xid wr m p = (p1, Ok evs) →
      dhcp_runs p1 rs p2 → dhcp_runs p (replies_of evs ++ rs) p2.

(** A message is at most one step of the table of leases. *)
Lemma handler_spec order xid wr m p p' evs k a :
  pool4 p k → represents p a → range_order (leases p) order →
  handler cfg order xid wr m p = (p', Ok evs) →
  ∃ a', pool4 p' k ∧ represents p' a' ∧ base p' = base p ∧ a ⊆ a' ∧
        (a' = a ∨ ∃ r, pool_spec (base p) k a (OpGet (HardwareAddr_String (ClientHWAddr m))) a' r) ∧
        ∀ r, r ∈ replies_of evs → a' !! reply_mac r = Some (To4 (YourIPAddr r)).
Proof.
  intros Hp HR Ho Hh.
  destruct (handler_pool cfg order xid wr m p) as [E|E]; rewrite Hh in E; cbn in E; subst p'.
  - exists a. split_and!; try done; [by left|]. intros r Hr.
    destruct (handler_reply_inv _ _ _ _ _ _ _ _ _ Hh Hr) as (ip & Hg & <- & Hhw).
    destruct (GetOrAssign_refines order (HardwareAddr_String (ClientHWAddr m)) p k a Hp HR Ho)
      as (a' & Hs & HR' & _). cbn in Hs. rewrite Hg in *. cbn in *.
    apply pool_spec_get in Hs as [_ Hs]. specialize (Hs _ eq_refl).
    unfold reply_mac. rewrite Hhw. destruct (proj1 HR' _ _ Hs) as [Hip Hl].
    destruct (proj2 HR _ _ Hl) as (ip' & He & Ha). apply v4_string_inj in He; [by subst|done|].
    by destruct (proj1 HR _ _ Ha).
  - destruct (GetOrAssign_refines order (HardwareAddr_String (ClientHWAddr m)) p k a Hp HR Ho)
      as (a' & Hstep & HR' & Hp' & Hb'). pose proof (pool_spec_get _ _ _ _ _ _ Hstep) as [Hsub Hs].
    exists a'. split_and!; try done; [right; by eexists|]. intros r Hr.
    destruct (handler_reply_inv _ _ _ _ _ _ _ _ _ Hh Hr) as (ip & Hg & <- & Hhw).
    cbn in Hs. rewrite Hg in Hs. unfold reply_mac. rewrite Hhw. by apply Hs.
Qed.

Lemma handler_table order xid wr m p p' evs k a :
  pool4 p k → represents p a → range_order (leases p) order →
  handler cfg order xid wr m p = (p', Ok evs) →
  ∃ a', pool4 p' k ∧ represents p' a' ∧ a ⊆ a' ∧
        ∀ r, r ∈ replies_of evs → a' !! reply_mac r = Some (To4 (YourIPAddr r)).
Proof.
  intros Hp HR Ho Hh. destruct (handler_spec _ _ _ _ _ _ _ _ _ Hp HR Ho Hh) as (a' & ? & ? & _ & ? & _ & ?).
  by exists a'.
Qed.

Lemma dhcp_runs_table p rs p' k : dhcp_runs p rs p' → ∀ a, pool4 p k → represents p a →
  ∃ a', pool4 p' k ∧ represents p' a' ∧ a ⊆ a' ∧
        ∀ r, r ∈ rs → a' !! reply_mac r = Some (To4 (YourIPAddr r)).
Proof.
  induction 1 as [p|p order xid wr m p1 evs rs p2 Ho Hh Hr IH]; intros a Hp HR.
  { exists a. split_and!; try done. by intros ? ?%elem_of_nil. }
  destruct (handler_table _ _ _ _ _ _ _ _ _ Hp HR Ho Hh) as (a1 & Hp1 & HR1 & Hsub1 & H1).
  destruct (IH a1 Hp1 HR1) as (a2 & Hp2 & HR2 & Hsub2 & H2).
  exists a2. split_and!; [done|done|by etrans|]. intros r [Hin|Hin]%elem_of_app; [|by apply H2].
  eapply lookup_weaken; [by apply H1|done].
Qed.

(** C10: over any sequence of messages, from any clients, in any order and with
    any failures, two replies of the server carry the same IPv4 address exactly
    when they are for the same hardware address: what is offered is what is
    acknowledged, and no address is given to two clients. *)
Theorem replies_consistent p rs p' k a r1 r2 :
  pool4 p k → represents p a → dhcp_runs p rs p' → r1 ∈ rs → r2 ∈ rs →
  To4 (YourIPAddr r1) = To4 (YourIPAddr r2) ↔ reply_mac r1 = reply_mac r2.
Proof.
  intros Hp HR Hr Hr1 Hr2. destruct (dhcp_runs_table _ _ _ _ Hr a Hp HR) as (a' & _ & HR' & _ & Ha).
  apply Ha in Hr1, Hr2. split; [|congruence]. intros He. rewrite He in Hr1.
  apply (proj1 HR') in Hr1 as [_ Hr1], Hr2 as [_ Hr2]. congruence.
Qed.

(** The reply to a discover or a request, on an IPv4 network with an address
    left for the client: one reply is sent, with the lease of the pool as the
    client's address, the identifiers, flags and relay of the request, the
    matching message type, the gateway as server, router and DNS server, the mask
    of the network, a lease of one hour, the MTU on 16 bits and the search
    domains. *)
Theorem handler_reply order xid m p ip p' gw subnet ip0 :
  GatewayIP cfg = v4_string gw → is_ip4 gw →
  ParseCIDR (cfg_Subnet cfg) = Ok (ip0, subnet) →
  MessageType m ∈ [MessageTypeDiscover; MessageTypeRequest] →
  GetOrAssign order (HardwareAddr_String (ClientHWAddr m)) p = (p', Ok ip) →
  ∃ r, handler cfg order (inr xid) None m p = (p', Ok [DhcpReply r]) ∧
    YourIPAddr r = ip ∧ ClientHWAddr r = ClientHWAddr m ∧ TransactionID r = TransactionID m ∧
    Flags r = Flags m ∧ GatewayIPAddr r = GatewayIPAddr m ∧
    MessageType r = (if decide (MessageType m = MessageTypeDiscover) then MessageTypeOffer else MessageTypeAck) ∧
    Options_Get OptionServerIdentifier r = gw ∧ Options_Get OptionRouter r = gw ∧
    Options_Get OptionDomainNameServer r = gw ∧ Options_Get OptionSubnetMask r = To4 (net_Mask subnet) ∧
    be_value (Options_Get OptionIPAddressLeaseTime r) = 3600 ∧
    be_value (Options_Get OptionInterfaceMTU r) = u16 (cfg_MTU cfg) ∧
    Options_Get OptionDNSDomainSearchList r = labelsToBytes (DNSSearchDomains cfg) ∧
    Options_Get OptionRelayAgentInformation r = Options_Get OptionRelayAgentInformation m ∧
    Options_Get OptionClientIdentifier r = Options_Get OptionClientIdentifier m.
Proof.
  intros Hgw Hip Hcidr Hmt Hg. unfold handler.
  destruct (NewReplyFromRequest (inr xid) m) as [reply|e|] eqn:Er; [|done..].
  apply NewReplyFromRequest_spec in Er as (Hhw & Hx & Hf & Hgi & _ & Ho). rewrite Hg, Hcidr.
  assert (opt_IP (ParseIP (GatewayIP cfg)) = gw) as Hgw'.
  { unfold opt_IP. by rewrite Hgw, ParseIP_v4_string, To4_v4in6. }
  set (mt := if decide (MessageType m = MessageTypeDiscover) then MessageTypeOffer else MessageTypeAck).
  exists (UpdateOption OptionDHCPMessageType [mt] (reply_options cfg subnet (set_YourIPAddr ip reply))).
  split.
  { f_equal. f_equal. unfold mt. case_decide as E; [done|]. rewrite decide_True; [done|].
    apply elem_of_cons in Hmt as [?|Hmt]; [done|]. by apply list_elem_of_singleton in Hmt. }
  assert (∀ code, code = OptionRelayAgentInformation ∨ code = OptionClientIdentifier →
    Options_Get code reply = Options_Get code m) as Hcopied.
  { intros code Hc. unfold Options_Get at 1. rewrite Ho, decide_True by done. by case_decide. }
  clearbody mt. unfold reply_options. cbv zeta. rewrite !Hgw'. unfold MessageType at 1.
  rewrite !Options_Get_Update. split_and!; try done; [..|by apply Hcopied; left|by apply Hcopied; right].
  - cbn. unfold opt_IP in Hgw'. by rewrite app_nil_r, Hgw'.
  - change (be_value (opt_Uint16 (cfg_MTU cfg)) = u16 (cfg_MTU cfg)).
    unfold opt_Uint16, put_u16_be, be_value. cbn [foldl].
    pose proof (u16_bounds (cfg_MTU cfg)). Z.div_mod_to_equations. lia.
Qed.
End runs.

(** ** Witnesses *)

Definition cfg127 : Configuration := {|
  cfg_Debug := false; cfg_CaptureFile := ""; cfg_MTU := 1500; cfg_Subnet := "192.168.127.0/24";
  GatewayIP := "192.168.127.1"; GatewayMacAddress := "5a:94:ef:e4:0c:dd"; cfg_DNS := [];
  DNSSearchDomains := ["crc.testing"]; cfg_Forwards := ∅; cfg_NAT := ∅;
  GatewayVirtualIPs := ["192.168.127.254"]; DHCPStaticLeases := ∅; VpnKitUUIDMacAddresses := ∅;
  cfg_Protocol := "" |}.

Definition dhcp_message (mt : Z) (hw : list Z) : DHCPv4 :=
  {| OpCode := OpcodeBootRequest; HWType := 1; ClientHWAddr := hw; HopCount := 0;
     TransactionID := [1; 2; 3; 4]; NumSeconds := 0; Flags := 0; ClientIPAddr := IPv4zero;
     YourIPAddr := IPv4zero; ServerIPAddr := IPv4zero; GatewayIPAddr := IPv4zero;
     Options := {[OptionDHCPMessageType := [mt]]} |}.
Definition hw_new : list Z := [90; 148; 239; 228; 12; 238].

Lemma handler_reply_witness :
  ∃ r, handler cfg127 (map_to_list (leases pool127)) (inr [0; 0; 0; 0]) None (dhcp_message 1 hw_new) pool127 =
    (pool127, Ok [DhcpReply r]) ∧ MessageType r = MessageTypeOffer.
Proof.
  destruct (handler_reply cfg127 (map_to_list (leases pool127)) [0; 0; 0; 0] (dhcp_message 1 hw_new)
    pool127 (ParseIP "192.168.127.2") pool127 [192; 168; 127; 1] net127 (ParseIP "192.168.127.0"))
    as (r & Hr & _ & _ & _ & _ & _ & Hmt & _).
  - by vm_compute.
  - split; [done|byte_list].
  - by vm_compute.
  - by left.
  - by vm_compute.
  - exists r. split; [exact Hr|exact Hmt].
Defined.

(** What the server sends to the new client for a message of type [mt]. *)
Definition run127 (mt : Z) : IPPool * res (list dhcp_event) :=
  handler cfg127 (map_to_list (leases pool127)) (inr [0; 0; 0; 0]) None (dhcp_message mt hw_new) pool127.
Definition sent127 (mt : Z) : list dhcp_event := match (run127 mt).2 with Ok evs => evs | _ => [] end.
Definition reply127 (mt : Z) : DHCPv4 := match sent127 mt with DhcpReply r :: _ => r | _ => dhcp_message 0 [] end.

Lemma runs127 : dhcp_runs cfg127 pool127 [reply127 1; reply127 3] pool127.
Proof.
  assert ([reply127 1; reply127 3] = replies_of (sent127 1) ++ (replies_of (sent127 3) ++ [])) as ->
    by by vm_compute.
  apply (runs_step _ pool127 (map_to_list (leases pool127)) (inr [0; 0; 0; 0]) None
    (dhcp_message 1 hw_new) pool127); [apply range_order_canonical|by vm_compute|].
  apply (runs_step _ pool127 (map_to_list (leases pool127)) (inr [0; 0; 0; 0]) None
    (dhcp_message 3 hw_new) pool127); [apply range_order_canonical|by vm_compute|constructor].
Qed.

Lemma replies_consistent_witness :
  To4 (YourIPAddr (reply127 1)) = To4 (YourIPAddr (reply127 3)).
Proof.
  apply (replies_consistent cfg127 pool127 [reply127 1; reply127 3] pool127 8 table127
    (reply127 1) (reply127 3) pool127_ok pool127_represents runs127).
  - by left.
  - by right; left.
  - by vm_compute.
Defined.
