(* ===== verification/VirtualNetwork.v ===== *)
(** pkg/virtualnetwork: the virtual network as a whole.  [New] builds the pool,
    the link endpoint, the switch and the services from the configuration; the
    accept functions attach the connections of the guests, the one of VPNKit
    after a handshake; [Dial] and [Listen] reach the network; [Mux] is the HTTP
    API.  The network stack is represented by what it is configured with. *)
From Stdlib Require Import Ascii String.
From S2P Require Import Prelude GoStrings GoNet IPPool Tcpip Protocols Switch Link Types GoHTTP DNS Ports Nat DHCP.

Local Open Scope string_scope.
Local Open Scope list_scope.
Local Open Scope Z_scope.
Local Open Scope switch_scope.

(** ** conn.go *)

Definition splitIPPort (network addr : string) : res (list Z * Z) :=
  if decide (network ≠ "tcp") then Err (ErrMsg "only tcp is supported")
  else
    '(host, portString) ← SplitHostPort addr;
    port ← ParseUint portString 16;
    let ip := ParseIP host in
    if decide (ip = []) then Err (ErrMsg "invalid address, must be an IP") else mret (ip, port).

(** The address [Dial], [DialContextTCP] and [Listen] give to the stack. *)
Definition conn_address (network addr : string) : res FullAddress :=
  '(ip, port) ← splitIPPort network addr;
  a ← AddrFrom4Slice (To4 ip);
  mret {| fa_NIC := 1; fa_Addr := a; fa_Port := u16 port |}.

Section conn.
Context {Conn_ : Type} (DialTCP ListenTCP : FullAddress → res Conn_).
Definition VN_Dial (network addr : string) : res Conn_ := conn_address network addr ≫= DialTCP.
Definition VN_DialContextTCP (addr : string) : res Conn_ := conn_address "tcp" addr ≫= DialTCP.
Definition VN_Listen (network addr : string) : res Conn_ := conn_address network addr ≫= ListenTCP.
End conn.

(** ** vpnkit.go *)

(** [randomMac] on the six bytes that were read. *)
Definition randomMac (rnd : error + list Z) : res (list Z) :=
  match rnd with
  | inl err => Err err
  | inr (b :: buf) => Ok (Z.land (Z.lor b 2) 254 :: buf)
  | inr [] => Panic
  end.

Definition macAddr (cfg : Configuration) (rnd : error + list Z) (vpnkitUUID : string) : res (list Z) :=
  match VpnKitUUIDMacAddresses cfg !! vpnkitUUID with
  | None => randomMac rnd
  | Some macStr => ParseMAC macStr
  end.

(** The answer to the command: version, MTU, maximum frame size, MAC address. *)
Definition vpnkit_resp (mtu : Z) (mac : list Z) : list Z :=
  copy_at 5 6 mac ([1] ++ put_u16_le mtu ++ put_u16_le (u16 (mtu + EthernetMinimumSize)) ++ replicate 253 0).

Section accept.
(** As in the switch: the error of a write, the view of a packet, the order of
    the connections; [rnd] is what [rand.Read] gives. *)
Context (wr : nat → list Z → option error) (ToView : list Z → slice).
Context (rng : gmap Z protocolConn → list (Z * protocolConn)) (done_ : nat → bool).

Definition raw_Write (c : nat) (data : list Z) : M unit :=
  match wr c data with
  | None => emit (EvWrite c data)
  | Some err => emit (EvWriteErr c) ;;; throw err
  end.

(** [vpnkitHandshake]: the answer is what is left to read on success and on
    failure alike; a failed [ReadFull] has read everything. *)
Definition vpnkitHandshake (cfg : Configuration) (rnd : error + list Z) (c : nat) (inp : conn_input)
    : M (conn_input * option error) := λ e,
  let drained := {| in_bytes := []; in_err := in_err inp |} in
  match ReadFull inp 49 with
  | Err err => (Ok (drained, Some err), e, [])
  | Panic => (Panic, e, [])
  | Ok (msgInit, inp1) =>
      match raw_Write c msgInit e with
      | (Err err, e1, ev1) => (Ok (inp1, Some err), e1, ev1)
      | (Panic, e1, ev1) => (Panic, e1, ev1)
      | (Ok _, e1, ev1) =>
          match ReadFull inp1 41 with
          | Err err => (Ok (drained, Some err), e1, ev1)
          | Panic => (Panic, e1, ev1)
          | Ok (msgCommand, inp2) =>
              let vpnkitUUID := string_of_bytes (take 36 (drop 1 msgCommand)) in
              match macAddr cfg rnd vpnkitUUID with
              | Err err => (Ok (inp2, Some err), e1, ev1)
              | Panic => (Panic, e1, ev1)
              | Ok mac =>
                  match raw_Write c (vpnkit_resp (u16 (cfg_MTU cfg)) mac) e1 with
                  | (Err err, e2, ev2) => (Ok (inp2, Some err), e2, ev1 ++ ev2)
                  | (Panic, e2, ev2) => (Panic, e2, ev1 ++ ev2)
                  | (Ok _, e2, ev2) => (Ok (inp2, None), e2, ev1 ++ ev2)
                  end
              end
          end
      end
  end.

(** [AcceptVpnKit]: an error of the handshake is only logged; the result of
    [Accept] is ignored. *)
Definition AcceptVpnKit (cfg : Configuration) (rnd : error + list Z) (c : nat) (inp : conn_input) : M unit :=
  r ⇐ vpnkitHandshake cfg rnd c inp ;;
  let '(rest, failed) := r in
  (match failed with Some err => emit (EvLog err) | None => ret tt end) ;;;
  catch (Accept wr ToView rng done_ c HyperKitProtocol {| src_stream := rest; src_dgrams := [] |}) (λ _, ret tt).

(** qemu.go, bess.go, stdio.go, vfkit.go *)
Definition AcceptQemu (c : nat) (src : conn_source) : M unit := Accept wr ToView rng done_ c QemuProtocol src.
Definition AcceptBess (c : nat) (src : conn_source) : M unit := Accept wr ToView rng done_ c BessProtocol src.
Definition AcceptStdio (c : nat) (src : conn_source) : M unit := Accept wr ToView rng done_ c StdioProtocol src.
Definition AcceptVfkit (c : nat) (src : conn_source) : M unit := Accept wr ToView rng done_ c VfkitProtocol src.
End accept.

(** ** services.go *)

(** The loop of [forwardHostVM] over the configured forwards. *)
Fixpoint forwardHostVM (os : OS) (order : list (string * string)) (f : PortsForwarder)
    : PortsForwarder * res unit :=
  match order with
  | [] => (f, Ok tt)
  | (local, remote_) :: order' =>
      let '(f', r) :=
        if HasPrefix local "udp:" then Expose os UDP (TrimPrefix local "udp:") remote_ f
        else Expose os TCP local remote_ f in
      match r with Ok _ => forwardHostVM os order' f' | _ => (f', r) end
  end.

(** What the outside of the repository answers during [New]. *)
Record environment := {
  env_os : OS;
  CreateFile : option error;          (* os.Create of the capture file *)
  NewSniffer : option error;          (* sniffer.NewWithWriter *)
  CreateNIC : option error;
  AddProtocolAddress : option error;
  dns_DialUDP : option error;         (* gonet.DialUDP of the DNS server *)
  dns_ListenTCP : option error;
  dhcp_New : option error;            (* binding the DHCP port *)
}.

Definition check (e : option error) : res unit := match e with Some err => Err err | None => Ok tt end.

(** The services: their state and the NAT table given to the forwarders. *)
Record services := { sv_zones : list Zone; sv_ports : PortsForwarder; sv_nat : gmap (list Z) (list Z) }.

Definition dnsServer (env : environment) (cfg : Configuration) : res (list Zone) :=
  _ ← AddrFrom4Slice (To4 (ParseIP (GatewayIP cfg)));
  _ ← check (dns_DialUDP env);
  _ ← check (dns_ListenTCP env);
  mret (DNS_New (cfg_DNS cfg)).

Definition dhcpServer (env : environment) : res unit := check (dhcp_New env).

Definition addServices (env : environment) (cfg : Configuration) (nat_order fwd_order : list (string * string))
    : res services :=
  translation ← parseNATTable nat_order ∅;
  zones ← dnsServer env cfg;
  _ ← dhcpServer env;
  let '(f, r) := forwardHostVM (env_os env) fwd_order NewPortsForwarder in
  _ ← r;
  mret {| sv_zones := zones; sv_ports := f; sv_nat := translation |}.

(** ** virtualnetwork.go *)

(** What the stack is configured with. *)
Record stack := { st_address : list Z; st_route : Subnet; st_spoofing : bool; st_promiscuous : bool }.

Definition createStack (env : environment) (cfg : Configuration) : res stack :=
  _ ← check (CreateNIC env);
  address ← AddrFrom4Slice (To4 (ParseIP (GatewayIP cfg)));
  _ ← check (AddProtocolAddress env);
  '(_, parsedSubnet) ← wrap "cannot parse cidr" (ParseCIDR (cfg_Subnet cfg));
  subnet ← wrap "cannot parse subnet" (NewSubnet (AddrFromSlice (net_IP parsedSubnet)) (net_Mask parsedSubnet));
  mret {| st_address := address; st_route := subnet; st_spoofing := true; st_promiscuous := true |}.

Record VirtualNetwork := {
  vn_configuration : Configuration;
  vn_stack : stack;
  vn_endpoint : LinkEndpoint;
  vn_switch : Switch;
  vn_services : services;
  vn_ipPool : IPPool;
}.

(** The loop that reserves the static leases. *)
Definition reserve_static (order : list (string * string)) (p : IPPool) : IPPool :=
  foldl (λ p im, Reserve (ParseIP im.1) im.2 p) p order.

Definition capture (env : environment) (cfg : Configuration) : res unit :=
  if decide (cfg_CaptureFile cfg ≠ "") then
    _ ← wrap "cannot create capture file" (check (CreateFile env));
    wrap "cannot create sniffer" (check (NewSniffer env))
  else Ok tt.

(** The three orders are those of the loops over the static leases, the NAT
    table and the forwards of the configuration. *)
Definition New (env : environment) (cfg : Configuration) (lease_order nat_order fwd_order : list (string * string))
    : res VirtualNetwork :=
  '(_, subnet) ← wrap "cannot parse subnet cidr" (ParseCIDR (cfg_Subnet cfg));
  let ipPool := NewIPPool subnet in
  let ipPool := Reserve (ParseIP (GatewayIP cfg)) (GatewayMacAddress cfg) ipPool in
  let ipPool := reserve_static lease_order ipPool in
  tapEndpoint ← wrap "cannot create tap endpoint"
    (NewLinkEndpoint (cfg_Debug cfg) (cfg_MTU cfg) (GatewayMacAddress cfg) (GatewayIP cfg) (GatewayVirtualIPs cfg));
  let networkSwitch := NewSwitch (cfg_Debug cfg) (cfg_MTU cfg) in
  let tapEndpoint := LinkEndpoint_Connect tapEndpoint in
  let networkSwitch := Switch_Connect (as_device tapEndpoint) networkSwitch in
  _ ← capture env cfg;
  stack_ ← wrap "cannot create network stack" (createStack env cfg);
  mux ← wrap "cannot add network services" (addServices env cfg nat_order fwd_order);
  mret {| vn_configuration := cfg; vn_stack := stack_; vn_endpoint := Attach true tapEndpoint;
          vn_switch := networkSwitch; vn_services := mux; vn_ipPool := ipPool |}.

Definition BytesSent (n : VirtualNetwork) : Z := Sent (vn_switch n).
Definition BytesReceived (n : VirtualNetwork) : Z := Received (vn_switch n).

(** ** stats.go: the counters of the stack, found by reflection *)

Inductive stat :=
  | SStruct (fields : list (string * stat))
  | SCounter (value : Z)
  | SOther.
Inductive jstat := JObject (members : list (string * jstat)) | JCounter (value : Z).

Fixpoint iterateFields (s : stat) : list (string * jstat) :=
  match s with
  | SStruct fields =>
      (fix go (fs : list (string * stat)) : list (string * jstat) :=
         match fs with
         | [] => []
         | (name, field) :: fs' =>
             match field with
             | SStruct _ => (name, JObject (iterateFields field)) :: go fs'
             | SCounter v => (name, JCounter v) :: go fs'
             | SOther => go fs'
             end
         end) fields
  | _ => []
  end.

Definition statsAsJSON (sent received : Z) (stats : stat) : list (string * jstat) :=
  iterateFields stats ++ [("BytesSent", JCounter sent); ("BytesReceived", JCounter received)].

(** ** mux.go *)

(** What a request does: an answer, or a hijacked connection given to the switch
    or piped to an address of the network. *)
Inductive mux_action :=
  | MuxReply (r : http_response)
  | MuxConnect (protocol : string)
  | MuxTunnel (address : FullAddress)
  | MuxClosed                                (* hijacked, then closed without an answer *)
  | MuxAborted                               (* hijacked and answered OK, then the handler panics: closed *)
  | MuxPanic.

Record mux_json := {
  json_ports : JSON;
  json_zones : list Zone → string;
  decode_zone : string → error + Zone;
  json_leases : gmap string string → string;
  json_cam : gmap string Z → string;
  json_stats : list (string * jstat) → string;
}.

(** The hijacking of a connection: not supported, failing, or working. *)
Inductive hijack := NoHijacker | HijackError (e : error) | FlushError (e : error) | WriteError (e : error) | Hijacked.

Definition set_services (sv : services) (n : VirtualNetwork) : VirtualNetwork :=
  {| vn_configuration := vn_configuration n; vn_stack := vn_stack n; vn_endpoint := vn_endpoint n;
     vn_switch := vn_switch n; vn_services := sv; vn_ipPool := vn_ipPool n |}.

Definition with_ports (f : PortsForwarder) (n : VirtualNetwork) : VirtualNetwork :=
  set_services {| sv_zones := sv_zones (vn_services n); sv_ports := f; sv_nat := sv_nat (vn_services n) |} n.
Definition with_zones (z : list Zone) (n : VirtualNetwork) : VirtualNetwork :=
  set_services {| sv_zones := z; sv_ports := sv_ports (vn_services n); sv_nat := sv_nat (vn_services n) |} n.

Definition of_response (r : res http_response) : mux_action :=
  match r with Ok resp => MuxReply resp | _ => MuxPanic end.

Section mux.
Context (os : OS) (json : mux_json) (stats : stat).
(** The orders of the maps that are listed, and the query of the request. *)
Context (o_ports : list (string * proxy)) (o_leases : list (string * string)) (o_cam : list (list Z * Z)).
Context (query : string → string) (hj : hijack).

(** The mux of [addServices], on a path without "/services". *)
Definition services_Mux (r : http_request) (n : VirtualNetwork) : VirtualNetwork * mux_action :=
  let at_path p := {| req_Method := req_Method r; req_Path := p; req_RemoteAddr := req_RemoteAddr r;
                      req_Body := req_Body r |} in
  let sv := vn_services n in
  let path := req_Path r in
  match mux_route ["/forwarder/"; "/dhcp/"; "/dns/"] (req_Method r) path with
  | RNone => (n, MuxReply http_NotFound)
  | RMoved location => (n, MuxReply (http_Moved location))
  | RPattern p =>
  if decide (p = "/forwarder/") then
    let '(f, resp) := Ports_Mux os (json_ports json) o_ports (at_path (TrimPrefix path "/forwarder")) (sv_ports sv) in
    (set_services {| sv_zones := sv_zones sv; sv_ports := f; sv_nat := sv_nat sv |} n, of_response resp)
  else if decide (p = "/dhcp/") then
    (n, MuxReply (DHCP_Mux (json_leases json) o_leases (at_path (TrimPrefix path "/dhcp")) (vn_ipPool n)))
  else
    let '(z, resp) := DNS_Mux (json_zones json) (decode_zone json) (at_path (TrimPrefix path "/dns")) (sv_zones sv) in
    (set_services {| sv_zones := z; sv_ports := sv_ports sv; sv_nat := sv_nat sv |} n, MuxReply resp)
  end.

Definition internal (text : string) : mux_action := MuxReply (http_Error text StatusInternalServerError).

(** The checks around [Hijack] shared by the two handlers; once the connection is
    hijacked [http.Error] writes nothing, and the connection is closed. *)
Definition hijacked (writes : bool) (k : mux_action) : mux_action :=
  match hj with
  | NoHijacker => internal "webserver doesn't support hijacking"
  | HijackError err => internal (error_text err)
  | FlushError _ => MuxClosed
  | WriteError _ => if writes then MuxClosed else k
  | Hijacked => k
  end.

Definition tunnel : mux_action :=
  let ip := query "ip" in
  if decide (ip = "") then internal "ip is mandatory"
  else match Atoi (query "port") with
       | Err err => internal (error_text err)
       | Panic => MuxPanic
       | Ok port =>
           hijacked true
             (match AddrFrom4Slice (To4 (ParseIP ip)) with
              | Ok a => MuxTunnel {| fa_NIC := 1; fa_Addr := a; fa_Port := u16 port |}
              | _ => MuxAborted                (* after the OK, in DialContext *)
              end)
       end.

Definition VN_Mux (r : http_request) (n : VirtualNetwork) : VirtualNetwork * mux_action :=
  let path := req_Path r in
  match mux_route ["/services/"; "/stats"; "/cam"; "/leases"; ConnectPath; "/tunnel"] (req_Method r) path with
  | RNone => (n, MuxReply http_NotFound)
  | RMoved location => (n, MuxReply (http_Moved location))
  | RPattern p =>
  if decide (p = "/services/") then
    services_Mux {| req_Method := req_Method r; req_Path := TrimPrefix path "/services";
                    req_RemoteAddr := req_RemoteAddr r; req_Body := req_Body r |} n
  else if decide (p = "/stats") then
    (n, MuxReply (http_OK (json_stats json (statsAsJSON (Sent (vn_switch n)) (Received (vn_switch n)) stats))))
  else if decide (p = "/cam") then (n, MuxReply (http_OK (json_cam json (CAM o_cam (vn_switch n)))))
  else if decide (p = "/leases") then (n, MuxReply (http_OK (json_leases json (Leases o_leases (vn_ipPool n)))))
  else if decide (p = ConnectPath) then (n, hijacked false (MuxConnect (cfg_Protocol (vn_configuration n))))
  else (n, tunnel)
  end.
End mux.

(** ** Lemmas *)

(** A random MAC address is local and unicast. *)
Lemma mac_bits :
  Forall (λ b, is_byte (Z.land (Z.lor b 2) 254) ∧ Z.testbit (Z.land (Z.lor b 2) 254) 0 = false ∧
               Z.testbit (Z.land (Z.lor b 2) 254) 1 = true) (seqZ 0 256).
Proof. apply (bool_decide_unpack _). by vm_compute. Qed.

Lemma randomMac_spec b buf : is_byte b →
  ∃ m, randomMac (inr (b :: buf)) = Ok (m :: buf) ∧ is_byte m ∧
       Z.testbit m 0 = false ∧ Z.testbit m 1 = true.
Proof.
  intros Hb%octets_elem. pose proof mac_bits as H. rewrite Forall_forall in H. apply H in Hb.
  eexists. split; [done|exact Hb].
Qed.

Lemma hyperkit_Read_put v rest : 0 ≤ v < 65536 → hyperkit_Read (put_u16_le v ++ rest) = Ok v.
Proof. intros Hv. unfold hyperkit_Read, put_u16_le. cbn [app]. f_equal. Z.div_mod_to_equations. lia. Qed.

Lemma vpnkit_resp_spec mtu mac : 0 ≤ mtu < 65536 → length mac = 6%nat →
  length (vpnkit_resp mtu mac) = 258%nat ∧
  take 1 (vpnkit_resp mtu mac) = [1] ∧
  hyperkit_Read (drop 1 (vpnkit_resp mtu mac)) = Ok mtu ∧
  hyperkit_Read (drop 3 (vpnkit_resp mtu mac)) = Ok (u16 (mtu + 14)) ∧
  take 6 (drop 5 (vpnkit_resp mtu mac)) = mac.
Proof.
  intros Hm Hl. destruct mac as [|a [|b [|c [|d [|e [|f [|]]]]]]]; try done.
  unfold vpnkit_resp, copy_at. cbn [length Nat.min]. split_and!; try done.
  - by apply (hyperkit_Read_put mtu).
  - apply (hyperkit_Read_put (u16 (mtu + 14))), u16_bounds.
Qed.

(** ** Properties *)

(** The VPNKit handshake.  When the peer sends 49 bytes and then a command of
    41 bytes, and its MAC address is known, the gateway echoes the 49 bytes, then
    answers 258 bytes with version 1, the MTU and the MTU plus the Ethernet
    header on 16 bits little-endian, and the six bytes of the MAC address; what
    follows the command is received as hyperkit frames. *)
Theorem AcceptVpnKit_handshake wr ToView rng done_ cfg rnd c init command rest err mac e :
  length init = 49%nat → length command = 41%nat → length mac = 6%nat →
  macAddr cfg rnd (string_of_bytes (take 36 (drop 1 command))) = Ok mac →
  (∀ data, wr c data = None) →
  let resp := vpnkit_resp (u16 (cfg_MTU cfg)) mac in
  AcceptVpnKit wr ToView rng done_ cfg rnd c {| in_bytes := init ++ command ++ rest; in_err := err |} e =
    (emit (EvWrite c init) ;;; emit (EvWrite c resp) ;;;
     catch (Accept wr ToView rng done_ c HyperKitProtocol
              {| src_stream := {| in_bytes := rest; in_err := err |}; src_dgrams := [] |}) (λ _, ret tt)) e ∧
  length resp = 258%nat ∧ take 1 resp = [1] ∧
  hyperkit_Read (drop 1 resp) = Ok (u16 (cfg_MTU cfg)) ∧
  hyperkit_Read (drop 3 resp) = Ok (u16 (u16 (cfg_MTU cfg) + 14)) ∧
  take 6 (drop 5 resp) = mac.
Proof.
  intros Hi Hc Hm Hmac Hw resp. split; [|apply vpnkit_resp_spec; [apply u16_bounds|done]].
  unfold AcceptVpnKit, vpnkitHandshake, bind.
  pose proof (ReadFull_app init (command ++ rest) err) as R1. rewrite Hi in R1.
  pose proof (ReadFull_app command rest err) as R2. rewrite Hc in R2.
  rewrite R1. unfold raw_Write. rewrite Hw. cbn. rewrite R2, Hmac, Hw. cbn. unfold bind, ret.
  by destruct (catch _ _ _) as [[??]?].
Qed.

(** C39: the addresses [Dial], [DialContextTCP] and [Listen] understand: only tcp;
    an IPv4 address and a port below 65536 reach exactly that address and port of
    the network; a port that is not a number below 65536, or a host that is not
    an address, is an error. *)
Theorem conn_address_spec network ip port :
  is_ip4 ip → 0 ≤ port →
  let addr := v4_string ip +:+ ":" +:+ Itoa port in
  (network = "tcp" → port < 65536 →
     conn_address network addr = Ok {| fa_NIC := 1; fa_Addr := ip; fa_Port := port |}) ∧
  (network = "tcp" → 65536 ≤ port → ∃ err, conn_address network addr = Err err) ∧
  (network ≠ "tcp" → conn_address network addr = Err (ErrMsg "only tcp is supported")).
Proof.
  intros Hip Hp addr. unfold conn_address, splitIPPort, addr.
  rewrite SplitHostPort_plain by auto. cbn [mbind res_bind]. split_and!.
  - intros -> Hlt. rewrite decide_False by tauto. rewrite ParseUint_Itoa by (change (2 ^ 16) with 65536; lia).
    cbn [mbind res_bind]. rewrite ParseIP_v4_string by done. rewrite decide_False by done.
    cbn [mbind res_bind mret res_ret]. rewrite To4_v4in6 by done. unfold AddrFrom4Slice.
    destruct Hip as [Hl _]. rewrite decide_True by done. cbn. by rewrite u16_small by lia.
  - intros -> Hge. rewrite decide_False by tauto.
    destruct (Itoa_head port Hp) as (ch & t & He & _). pose proof (digits_val_Itoa port Hp) as Hd.
    unfold ParseUint. rewrite He in *. rewrite Hd. rewrite decide_False by (change (2 ^ 16) with 65536; lia).
    by eexists.
  - intros Hn. by rewrite decide_True by done.
Qed.

Lemma reserve_static_pool order p :
  base (reserve_static order p) = base p ∧ count (reserve_static order p) = count p ∧
  ((∀ s mac, (s, mac) ∈ order → ∃ ip, is_ip4 ip ∧ s = v4_string ip) →
   leases (reserve_static order p) =
     foldl (λ (acc : gmap string string) kv, <[kv.1 := kv.2]> acc) (leases p) order).
Proof.
  unfold reserve_static. revert p. induction order as [|[s mac] order IH]; intros p; [done|]. cbn [foldl fst snd].
  destruct (IH (Reserve (ParseIP s) mac p)) as (-> & -> & Hl). split_and!; [done|done|].
  intros Hv. rewrite Hl by (intros; eapply Hv; by right). cbn [leases Reserve set_leases fst snd].
  destruct (Hv s mac) as (ip & Hip & ->); [by left|].
  by rewrite ParseIP_v4_string, IP_String_v4in6 by done.
Qed.

(** Dispatch along the muxes, for paths that are given. *)
Ltac mux_paths :=
  repeat match goal with
  | |- context [mux_route ?ps ?m ?path] =>
      let p := eval vm_compute in (mux_match ps path) in
      match p with Some ?q => rewrite (mux_route_plain ps m path q) by by vm_compute end; cbn [req_Path req_Method]
  end.

(** The routes of the services. *)
Lemma VN_Mux_forwarder os json stats o_ports o_leases o_cam query hj method path addr body n :
  path ∈ ["/all"; "/expose"; "/unexpose"] →
  VN_Mux os json stats o_ports o_leases o_cam query hj
    {| req_Method := method; req_Path := "/services/forwarder" +:+ path; req_RemoteAddr := addr; req_Body := body |} n =
    let '(f, r) := Ports_Mux os (json_ports json) o_ports
      {| req_Method := method; req_Path := path; req_RemoteAddr := addr; req_Body := body |} (sv_ports (vn_services n)) in
    (with_ports f n, of_response r).
Proof.
  intros Hp. unfold VN_Mux, services_Mux. cbn [req_Path req_Method].
  repeat (apply elem_of_cons in Hp as [->|Hp]; [cbn [String.append]; mux_paths; done|]). by apply elem_of_nil in Hp.
Qed.

Lemma VN_Mux_dns os json stats o_ports o_leases o_cam query hj method path addr body n : path ∈ ["/all"; "/add"] →
  VN_Mux os json stats o_ports o_leases o_cam query hj
    {| req_Method := method; req_Path := "/services/dns" +:+ path; req_RemoteAddr := addr; req_Body := body |} n =
    let '(z, r) := DNS_Mux (json_zones json) (decode_zone json)
      {| req_Method := method; req_Path := path; req_RemoteAddr := addr; req_Body := body |} (sv_zones (vn_services n)) in
    (with_zones z n, MuxReply r).
Proof.
  intros Hp. unfold VN_Mux, services_Mux. cbn [req_Path req_Method].
  repeat (apply elem_of_cons in Hp as [->|Hp]; [cbn [String.append]; mux_paths; done|]). by apply elem_of_nil in Hp.
Qed.

(** The redirect of a service without its slash loses the prefix that [New] has
    stripped: it leads to a path nobody serves. *)
Lemma redirect_loses_prefix os json stats o_ports o_leases o_cam query hj addr body n :
  let get path := VN_Mux os json stats o_ports o_leases o_cam query hj
    {| req_Method := "GET"; req_Path := path; req_RemoteAddr := addr; req_Body := body |} n in
  get "/services/forwarder" = (n, MuxReply (http_Moved "/forwarder/")) ∧
  get "/forwarder/" = (n, MuxReply http_NotFound).
Proof. by split. Qed.

(** What a request does to the network: nothing, one operation on the ports, or
    one new zone. *)
Lemma VN_Mux_cases os json stats o_ports o_leases o_cam query hj r n :
  let n' := (VN_Mux os json stats o_ports o_leases o_cam query hj r n).1 in
  n' = n ∨ (∃ o, n' = with_ports (fw_step os o (sv_ports (vn_services n))) n) ∨
  ∃ z, n' = with_zones (addZone z (sv_zones (vn_services n))) n.
Proof.
  assert (with_ports (sv_ports (vn_services n)) n = n ∧ with_zones (sv_zones (vn_services n)) n = n) as [Hp Hz]
    by by destruct n as [? ? ? ? [] ?].
  unfold VN_Mux, services_Mux. cbn [req_Path]. repeat case_match; subst; try by left.
  - match goal with H : Ports_Mux ?o ?j ?l ?q ?f = (?p, _) |- _ =>
      destruct (Ports_Mux_cases o j l q f) as [E|[op E]]; rewrite H in E end; cbn in *; subst.
    + left. exact Hp.
    + right; left. by exists op.
  - match goal with H : DNS_Mux ?e ?d ?q ?z = (?p, _) |- _ =>
      destruct (DNS_Mux_cases e d q z) as [E|[req E]]; rewrite H in E end; cbn in *; subst.
    + left. exact Hz.
    + right; right. by exists req.
Qed.

Lemma forwardHostVM_wf os order f : wf os f → wf os (forwardHostVM os order f).1.
Proof.
  revert f. induction order as [|[local rem] order IH]; intros f Hf; [done|]. cbn.
  assert (wf os (if HasPrefix local "udp:" then Expose os UDP (TrimPrefix local "udp:") rem f
                 else Expose os TCP local rem f).1) as H by (case_match; by apply Expose_wf).
  destruct (if HasPrefix local "udp:" then _ else _) as [f' [[]| |]]; [by apply IH|done..].
Qed.

Lemma addServices_ok env cfg no fo sv : addServices env cfg no fo = Ok sv →
  wf (env_os env) (sv_ports sv) ∧ sv_zones sv = cfg_DNS cfg ∧ parseNATTable no ∅ = Ok (sv_nat sv).
Proof.
  unfold addServices. intros (tr & Htr & H)%res_bind_ok. apply res_bind_ok in H as (z & Hz & H).
  apply res_bind_ok in H as (? & _ & H).
  pose proof (forwardHostVM_wf (env_os env) fo NewPortsForwarder (NewPortsForwarder_wf _)) as Hf.
  destruct (forwardHostVM _ _ _) as [f r]. apply res_bind_ok in H as (? & _ & [= <-]). cbn in *. split_and!; try done.
  unfold dnsServer in Hz. apply res_bind_ok in Hz as (? & _ & Hz). apply res_bind_ok in Hz as (? & _ & Hz).
  by apply res_bind_ok in Hz as (? & _ & [= <-]).
Qed.

(** What a successful [New] has done. *)
Record built (env : environment) (cfg : Configuration) (lease_order nat_order fwd_order : list (string * string))
    (n : VirtualNetwork) : Prop := {
  built_configuration : vn_configuration n = cfg;
  built_endpoint : ∃ ep, NewLinkEndpoint (cfg_Debug cfg) (cfg_MTU cfg) (GatewayMacAddress cfg) (GatewayIP cfg)
                           (GatewayVirtualIPs cfg) = Ok ep ∧
    vn_endpoint n = Attach true (LinkEndpoint_Connect ep) ∧
    vn_switch n = Switch_Connect (as_device (LinkEndpoint_Connect ep)) (NewSwitch (cfg_Debug cfg) (cfg_MTU cfg));
  built_stack : createStack env cfg = Ok (vn_stack n);
  built_services : addServices env cfg nat_order fwd_order = Ok (vn_services n);
  built_pool : ∃ ip subnet, ParseCIDR (cfg_Subnet cfg) = Ok (ip, subnet) ∧
    vn_ipPool n = reserve_static lease_order
                    (Reserve (ParseIP (GatewayIP cfg)) (GatewayMacAddress cfg) (NewIPPool subnet));
}.

Lemma New_built env cfg lease_order nat_order fwd_order n :
  New env cfg lease_order nat_order fwd_order = Ok n → built env cfg lease_order nat_order fwd_order n.
Proof.
  intros Hnew. unfold New in Hnew.
  apply res_bind_ok in Hnew as ([ip0 subnet] & Hcidr%wrap_ok & Hnew).
  apply res_bind_ok in Hnew as (ep & Hep%wrap_ok & Hnew).
  apply res_bind_ok in Hnew as (u & _ & Hnew).
  apply res_bind_ok in Hnew as (st & Hstk%wrap_ok & Hnew).
  apply res_bind_ok in Hnew as (sv & Hsv%wrap_ok & Hnew). injection Hnew as <-.
  split; cbn; eauto.
Qed.

Lemma createStack_address env cfg st gw : createStack env cfg = Ok st →
  GatewayIP cfg = v4_string gw → is_ip4 gw → st_address st = gw.
Proof.
  intros Hstk Hgw Hip. unfold createStack in Hstk.
  apply res_bind_ok in Hstk as (u1 & _ & Hstk). apply res_bind_ok in Hstk as (a & Ha & Hstk).
  apply res_bind_ok in Hstk as (u2 & _ & Hstk). apply res_bind_ok in Hstk as ([? ?] & _ & Hstk).
  apply res_bind_ok in Hstk as (sn & _ & Hstk). injection Hstk as <-.
  rewrite Hgw, ParseIP_v4_string, To4_v4in6 in Ha by done.
  unfold AddrFrom4Slice in Ha. case_decide; [|done]. by injection Ha as <-.
Qed.

(** The first leases: the static ones, and the gateway's address. *)
Lemma New_leases env cfg lease_order nat_order fwd_order n gw :
  New env cfg lease_order nat_order fwd_order = Ok n →
  range_order (DHCPStaticLeases cfg) lease_order →
  GatewayIP cfg = v4_string gw → is_ip4 gw →
  (∀ s mac, DHCPStaticLeases cfg !! s = Some mac → ∃ ip, is_ip4 ip ∧ s = v4_string ip) →
  leases (vn_ipPool n) = DHCPStaticLeases cfg ∪ {[GatewayIP cfg := GatewayMacAddress cfg]}.
Proof.
  intros [_ _ _ _ (ip0 & subnet & _ & ->)]%New_built Ho Hgw Hip Hst.
  destruct (reserve_static_pool lease_order (Reserve (ParseIP (GatewayIP cfg)) (GatewayMacAddress cfg) (NewIPPool subnet)))
    as (_ & _ & Hl).
  rewrite Hl by (intros s m ?%(range_order_elem _ _ _ _ Ho); by eapply Hst).
  rewrite (range_order_foldl _ _ _ Ho). cbn [leases Reserve set_leases NewIPPool].
  by rewrite Hgw, ParseIP_v4_string, IP_String_v4in6, insert_empty by done.
Qed.

(** C34: what [New] builds, when it succeeds on a configuration whose static leases
    are IPv4 addresses: the switch and the gateway's endpoint are plugged into
    each other, with the MAC and IP address of the configuration; nobody is
    connected and the switch has learned nothing; the pool covers the configured
    subnet and holds exactly the static leases and the gateway's address (unless
    a static lease names it), whatever the order of the loops. *)
Theorem New_network env cfg lease_order nat_order fwd_order n gw :
  New env cfg lease_order nat_order fwd_order = Ok n →
  range_order (DHCPStaticLeases cfg) lease_order →
  GatewayIP cfg = v4_string gw → is_ip4 gw →
  (∀ s mac, DHCPStaticLeases cfg !! s = Some mac → ∃ ip, is_ip4 ip ∧ s = v4_string ip) →
  gateway (vn_switch n) = Some (as_device (vn_endpoint n)) ∧ networkSwitch (vn_endpoint n) = true ∧
  ParseMAC (GatewayMacAddress cfg) = Ok (le_mac (vn_endpoint n)) ∧ le_ip (vn_endpoint n) = GatewayIP cfg ∧
  st_address (vn_stack n) = gw ∧ conns (vn_switch n) = ∅ ∧ cam (vn_switch n) = ∅ ∧
  (∃ ip, ParseCIDR (cfg_Subnet cfg) = Ok (ip, base (vn_ipPool n))) ∧
  leases (vn_ipPool n) = DHCPStaticLeases cfg ∪ {[GatewayIP cfg := GatewayMacAddress cfg]}.
Proof.
  intros Hnew Ho Hgw Hip Hst. rewrite (New_leases _ _ _ _ _ _ _ Hnew Ho Hgw Hip Hst).
  apply New_built in Hnew as [_ (ep & Hep & He & Hsw) Hstk _ (ip0 & subnet & Hcidr & Hpool)].
  apply res_bind_ok in Hep as (mac & Hmac & Hep). injection Hep as <-.
  destruct (reserve_static_pool lease_order (Reserve (ParseIP (GatewayIP cfg)) (GatewayMacAddress cfg) (NewIPPool subnet)))
    as (Hb & _ & _).
  rewrite He, Hsw, Hpool, Hb. split_and!; try done; [by eapply createStack_address|by exists ip0].
Qed.

(** ** Witnesses *)

Definition command0 : list Z := [0] ++ bytes_of_string "0123456789abcdef0123456789abcdef0123" ++ [0; 0; 0; 0].

Lemma AcceptVpnKit_handshake_witness :
  hyperkit_Read (drop 1 (vpnkit_resp (u16 1500) [10; 0; 0; 0; 0; 1])) = Ok 1500.
Proof.
  refine (proj1 (proj2 (proj2 (proj2 (AcceptVpnKit_handshake all_ok slice_of canonical_range (λ _, false)
    cfg127 (inr [9; 0; 0; 0; 0; 1]) 0 (replicate 49 0) command0 [] EOF [10; 0; 0; 0; 0; 1]
    (NewSwitch false 1500) eq_refl _ eq_refl _ _))))).
  - by vm_compute.
  - by vm_compute.
  - done.
Defined.

Lemma conn_address_spec_witness :
  conn_address "tcp" (v4_string [192; 168; 127; 2] +:+ ":" +:+ Itoa 22) =
    Ok {| fa_NIC := 1; fa_Addr := [192; 168; 127; 2]; fa_Port := 22 |}.
Proof.
  refine (proj1 (conn_address_spec "tcp" [192; 168; 127; 2] 22 _ _) eq_refl _); [|lia|lia].
  split; [done|byte_list].
Defined.

Definition env0 : environment := {|
  env_os := os0; CreateFile := None; NewSniffer := None; CreateNIC := None;
  AddProtocolAddress := None; dns_DialUDP := None; dns_ListenTCP := None; dhcp_New := None |}.

Lemma New_network_witness :
  match New env0 cfg127 [] [] [] with
  | Ok n => leases (vn_ipPool n) = {["192.168.127.1" := "5a:94:ef:e4:0c:dd"]}
  | _ => False
  end.
Proof.
  destruct (New env0 cfg127 [] [] []) as [n|err|] eqn:E.
  - destruct (New_network env0 cfg127 [] [] [] n [192; 168; 127; 1] E) as (_&_&_&_&_&_&_&_&Hl).
    + change (range_order (∅ : gmap string string) []). unfold range_order. by rewrite map_to_list_empty.
    + by vm_compute.
    + split; [done|byte_list].
    + intros s mac Hs. exfalso. assert (DHCPStaticLeases cfg127 = ∅) as Hd by done.
      by rewrite Hd, lookup_empty in Hs.
    + rewrite Hl. apply map_empty_union.
  - assert (match New env0 cfg127 [] [] [] with Ok _ => true | _ => false end = true) as Hok by by vm_compute.
    by rewrite E in Hok.
  - assert (match New env0 cfg127 [] [] [] with Ok _ => true | _ => false end = true) as Hok by by vm_compute.
    by rewrite E in Hok.
Defined.
