(* ===== verification/Network.v ===== *)
(** The whole network as one system: the virtual network that [New] built, the
    receive loops of the guests, and the replies of the DHCP server.  A step is
    one request of the HTTP API, one DHCP message or one step of the switch, in
    any order and with any failures; the invariant says what stays true whatever
    the guests and the clients of the API do. *)
From Stdlib Require Import Ascii String.
From S2P Require Import Prelude GoStrings GoNet IPPool Tcpip Switch Link Types DNS Ports Nat DHCP VirtualNetwork.

Local Open Scope string_scope.
Local Open Scope list_scope.
Local Open Scope Z_scope.

(** ** The system *)

(** The network, the connections whose receive loop is running, the DHCP replies
    sent so far. *)
Record system := { s_vn : VirtualNetwork; s_running : gset Z; s_sent : list DHCPv4 }.

Definition start (n : VirtualNetwork) : system := {| s_vn := n; s_running := ∅; s_sent := [] |}.

(** The switch of the network and its receive loops, as in Switch.v. *)
Definition s_net (s : system) : net := {| sw := vn_switch (s_vn s); running := s_running s |}.

Definition set_pool (p : IPPool) (n : VirtualNetwork) : VirtualNetwork :=
  {| vn_configuration := vn_configuration n; vn_stack := vn_stack n; vn_endpoint := vn_endpoint n;
     vn_switch := vn_switch n; vn_services := vn_services n; vn_ipPool := p |}.
Definition set_switch (e : Switch) (n : VirtualNetwork) : VirtualNetwork :=
  {| vn_configuration := vn_configuration n; vn_stack := vn_stack n; vn_endpoint := vn_endpoint n;
     vn_switch := e; vn_services := vn_services n; vn_ipPool := vn_ipPool n |}.

Section system.
(** The operating system, the encodings of the API, the counters of the stack. *)
Context (os : OS) (json : mux_json) (stats : stat).

Inductive vn_step (faulty : bool) : system → system → Prop :=
  | step_request s r query hj o_ports o_leases o_cam :
      range_order (proxies (sv_ports (vn_services (s_vn s)))) o_ports →
      range_order (leases (vn_ipPool (s_vn s))) o_leases →
      range_order (cam (vn_switch (s_vn s))) o_cam →
      vn_step faulty s
        {| s_vn := (VN_Mux os json stats o_ports o_leases o_cam query hj r (s_vn s)).1;
           s_running := s_running s; s_sent := s_sent s |}
  | step_message s order xid wr m p' evs :
      range_order (leases (vn_ipPool (s_vn s))) order →
      handler (vn_configuration (s_vn s)) order xid wr m (vn_ipPool (s_vn s)) = (p', Ok evs) →
      vn_step faulty s
        {| s_vn := set_pool p' (s_vn s); s_running := s_running s; s_sent := s_sent s ++ replies_of evs |}
  | step_switch s t :
      net_step faulty (s_net s) t →
      vn_step faulty s
        {| s_vn := set_switch (sw t) (s_vn s); s_running := running t; s_sent := s_sent s |}.

(** ** Configurations *)

(** A gateway inside an IPv4 subnet of [2^k] addresses; the static leases are
    addresses, each for one MAC, none of them the gateway's. *)
Record config_ok (cfg : Configuration) (gw : list Z) (subnet : IPNet) (k : Z) : Prop := {
  ok_subnet : ∃ ip, ParseCIDR (cfg_Subnet cfg) = Ok (ip, subnet);
  ok_net : net4 subnet k;
  ok_gateway : GatewayIP cfg = v4_string gw ∧ is_ip4 gw;
  ok_static s mac : DHCPStaticLeases cfg !! s = Some mac →
    mac ≠ GatewayMacAddress cfg ∧ ∃ ip, is_ip4 ip ∧ s = v4_string ip ∧ ip ≠ gw;
  ok_unique s s' mac : DHCPStaticLeases cfg !! s = Some mac → DHCPStaticLeases cfg !! s' = Some mac → s = s';
}.

(** Where the address of a hardware address comes from. *)
Definition entitled (cfg : Configuration) (gw : list Z) (subnet : IPNet) (k : Z) (mac : string) (ip : list Z) : Prop :=
  (mac = GatewayMacAddress cfg ∧ ip = gw) ∨ DHCPStaticLeases cfg !! v4_string ip = Some mac ∨
  ∃ i, 1 ≤ i < 2 ^ k ∧ ip = host_addr subnet i.

(** The table of leases of the configuration. *)
Definition table_ok (cfg : Configuration) (gw : list Z) (subnet : IPNet) (k : Z) (a : gmap string (list Z)) : Prop :=
  a !! GatewayMacAddress cfg = Some gw ∧
  (∀ ip mac, is_ip4 ip → DHCPStaticLeases cfg !! v4_string ip = Some mac → a !! mac = Some ip) ∧
  ∀ mac ip, a !! mac = Some ip → entitled cfg gw subnet k mac ip.

(** ** The invariant *)

Record network_ok (cfg : Configuration) (gw : list Z) (subnet : IPNet) (k : Z) (n0 : VirtualNetwork) (s : system)
    : Prop := {
  (* nothing changes the configuration, the stack, the endpoint and the NAT table *)
  ok_configuration : vn_configuration (s_vn s) = cfg;
  ok_stack : vn_stack (s_vn s) = vn_stack n0;
  ok_endpoint : vn_endpoint (s_vn s) = vn_endpoint n0;
  ok_nat : sv_nat (vn_services (s_vn s)) = sv_nat (vn_services n0);
  (* the leases are a table from hardware addresses to addresses of the network,
     with the reserved ones, and every reply announces an entry of the table *)
  ok_pool : pool4 (vn_ipPool (s_vn s)) k;
  ok_base : base (vn_ipPool (s_vn s)) = subnet;
  ok_table : ∃ a, represents (vn_ipPool (s_vn s)) a ∧ table_ok cfg gw subnet k a ∧
    ∀ r, r ∈ s_sent s → a !! reply_mac r = Some (To4 (YourIPAddr r));
  (* every forwarded port has an open socket of its own *)
  ok_ports : wf os (sv_ports (vn_services (s_vn s)));
  (* the open connections and the learned addresses belong to running loops *)
  ok_switch : net_inv (s_net s) ∧ 0 ≤ nextConnID (vn_switch (s_vn s));
  (* the zones of the configuration stay, in their order, before the added ones *)
  ok_zones : (zone_Name <$> cfg_DNS cfg) `prefix_of` (zone_Name <$> sv_zones (vn_services (s_vn s)));
}.

(** *** The table of leases *)

Lemma table_ok_get cfg gw subnet k a mac a' r :
  table_ok cfg gw subnet k a → pool_spec subnet k a (OpGet mac) a' r → table_ok cfg gw subnet k a'.
Proof.
  intros (Hg & Hs & He) Hp. pose proof (pool_spec_get _ _ _ _ _ _ Hp) as [Hsub _]. split_and!.
  - by eapply lookup_weaken.
  - intros ip m Hip Hm. eapply lookup_weaken; [by apply Hs|done].
  - intros m ip Hm. inversion Hp; subst; [by apply He| |by apply He].
    apply lookup_insert_Some in Hm as [[<- <-]|[_ Hm]]; [|by apply He]. right; right. by eexists.
Qed.

(** The static leases, reserved one after the other. *)
Lemma reserve_static_table order p a gwmac :
  represents p a → NoDup order.*1 → NoDup order.*2 →
  (∀ s mac, (s, mac) ∈ order → mac ≠ gwmac ∧ a !! mac = None ∧ leases p !! s = None ∧ ∃ ip, is_ip4 ip ∧ s = v4_string ip) →
  ∃ a', represents (reserve_static order p) a' ∧ a ⊆ a' ∧
    (∀ ip mac, is_ip4 ip → (v4_string ip, mac) ∈ order → a' !! mac = Some ip) ∧
    ∀ mac ip, a' !! mac = Some ip → a !! mac = Some ip ∨ (v4_string ip, mac) ∈ order.
Proof.
  revert p a. induction order as [|[s mac] order IH]; intros p a HR H1 H2 Hall.
  { exists a. split_and!; [done|done| |by left]. intros ip m _ []%elem_of_nil. }
  apply NoDup_cons in H1 as [Hs1 H1], H2 as [Hs2 H2]. cbn [fst snd] in *.
  destruct (Hall s mac) as (Hgw & Ha & Hl & ip & Hip & ->); [by left|].
  pose proof (represents_Reserve p a mac ip HR Hip Ha Hl) as HR'.
  destruct (IH _ _ HR' H1 H2) as (a' & HRa & Hsub & Hin & Hout).
  { intros s' mac' Hin. destruct (Hall s' mac') as (Hgw' & Ha' & Hl' & ip' & Hip' & ->); [by right|].
    assert (mac' ≠ mac ∧ v4_string ip' ≠ v4_string ip) as [Hm Hs].
    { split; intros Heq; [apply Hs2|apply Hs1]; rewrite <- Heq; apply list_elem_of_fmap; by exists (v4_string ip', mac'). }
    split_and!; [done|by rewrite lookup_insert_ne| |by exists ip'].
    cbn. rewrite ParseIP_v4_string, IP_String_v4in6 by done. by rewrite lookup_insert_ne. }
  exists a'. split_and!.
  - exact HRa.
  - etrans; [by apply insert_subseteq|exact Hsub].
  - intros ip' m Hip' [[= He ->]|Hm]%elem_of_cons; [|by apply Hin].
    apply v4_string_inj in He as ->; [|done..]. eapply lookup_weaken; [apply lookup_insert_eq|done].
  - intros m ip' Hm. destruct (Hout _ _ Hm) as [[[<- <-]|[_ Hl']]%lookup_insert_Some|Hin'].
    + right. by left.
    + by left.
    + right. by right.
Qed.

Lemma initial_table cfg gw subnet k order : config_ok cfg gw subnet k → range_order (DHCPStaticLeases cfg) order →
  ∃ a, represents (reserve_static order (Reserve (ParseIP (GatewayIP cfg)) (GatewayMacAddress cfg) (NewIPPool subnet))) a ∧
       table_ok cfg gw subnet k a.
Proof.
  intros [_ _ [Hgw Hip] Hst Hun] Ho. rewrite Hgw.
  pose proof (represents_Reserve (NewIPPool subnet) ∅ (GatewayMacAddress cfg) gw (NewIPPool_represents subnet) Hip
    (lookup_empty _) (lookup_empty _)) as HR.
  destruct (reserve_static_table order _ _ (GatewayMacAddress cfg) HR) as (a & HRa & Hsub & Hin & Hout).
  - by eapply range_order_NoDup.
  - apply NoDup_fmap_2_strong; [|by rewrite Ho; apply NoDup_map_to_list].
    intros [s1 m1] [s2 m2] H1 H2 Heq. cbn in Heq. subst.
    apply (range_order_elem _ _ _ _ Ho) in H1, H2. by rewrite (Hun _ _ _ H1 H2).
  - intros s mac Hs%(range_order_elem _ _ _ _ Ho). destruct (Hst _ _ Hs) as (Hm & ip & Hip' & -> & Hne).
    split_and!; [done|by rewrite lookup_insert_ne by done| |by exists ip]. cbn.
    rewrite ParseIP_v4_string, IP_String_v4in6, lookup_insert_ne, lookup_empty; try done.
    intros Heq. apply Hne. symmetry. by apply v4_string_inj.
  - exists a. split; [done|]. split_and!.
    + eapply lookup_weaken; [apply lookup_insert_eq|done].
    + intros ip mac Hip' Hs. apply Hin; [done|]. by apply (range_order_elem _ _ _ _ Ho).
    + intros mac ip Ha. destruct (Hout _ _ Ha) as [[[<- <-]|[_ He]]%lookup_insert_Some|Hs].
      * by left.
      * by apply lookup_empty_Some in He.
      * right; left. by apply (range_order_elem _ _ _ _ Ho).
Qed.

(** *** Preservation *)

Section preservation.
Context (cfg : Configuration) (gw : list Z) (subnet : IPNet) (k : Z) (n0 : VirtualNetwork).
#[local] Abbreviation ok := (network_ok cfg gw subnet k n0).

Lemma request_ok s n' :
  ok s →
  (n' = s_vn s ∨ (∃ o, n' = with_ports (fw_step os o (sv_ports (vn_services (s_vn s)))) (s_vn s)) ∨
   ∃ z, n' = with_zones (addZone z (sv_zones (vn_services (s_vn s)))) (s_vn s)) →
  ok {| s_vn := n'; s_running := s_running s; s_sent := s_sent s |}.
Proof.
  intros Hok [->|[[o ->]|[z ->]]]; destruct Hok; split; try done; cbn.
  - by apply fw_step_wf.
  - rewrite (proj1 (addZone_names z _)). by apply prefix_app_r.
Qed.

Lemma message_ok s order xid wr m p' evs :
  ok s → range_order (leases (vn_ipPool (s_vn s))) order →
  handler (vn_configuration (s_vn s)) order xid wr m (vn_ipPool (s_vn s)) = (p', Ok evs) →
  ok {| s_vn := set_pool p' (s_vn s); s_running := s_running s; s_sent := s_sent s ++ replies_of evs |}.
Proof.
  intros [Hc Hst He Hn Hp Hb (a & HR & Ht & Hs) Hpo Hsw Hz] Ho Hh.
  destruct (handler_spec _ _ _ _ _ _ _ _ _ _ Hp HR Ho Hh) as (a' & Hp' & HR' & Hb' & Hsub & Hstep & Hr).
  split; try done; cbn; [congruence|]. exists a'. split_and!; [done| |].
  - destruct Hstep as [->|(r & Hstep)]; [done|]. eapply table_ok_get; [done|]. by rewrite <- Hb.
  - intros r [Hin|Hin]%elem_of_app; [|by apply Hr]. eapply lookup_weaken; [by apply Hs|done].
Qed.

Lemma switch_ok faulty s t :
  ok s → net_step faulty (s_net s) t →
  ok {| s_vn := set_switch (sw t) (s_vn s); s_running := running t; s_sent := s_sent s |}.
Proof.
  intros [Hc Hst He Hn Hp Hb Ht Hpo [Hi Hnx] Hz] Hstep. split; try done. split.
  - pose proof (net_inv_step faulty (s_net s) t Hnx Hi Hstep) as H. by destruct t.
  - pose proof (nextConnID_step faulty (s_net s) t Hnx Hstep). cbn in *. lia.
Qed.

Lemma step_ok faulty s s' : ok s → vn_step faulty s s' → ok s'.
Proof.
  intros Hok Hs. destruct Hs as [s r query hj o1 o2 o3 H1 H2 H3|s order xid wr m p' evs Ho Hh|s t Ht].
  - apply request_ok; [done|]. apply VN_Mux_cases.
  - by eapply message_ok.
  - by eapply switch_ok.
Qed.

Lemma start_ok env lease_order nat_order fwd_order :
  config_ok cfg gw subnet k → env_os env = os → range_order (DHCPStaticLeases cfg) lease_order →
  New env cfg lease_order nat_order fwd_order = Ok n0 → ok (start n0).
Proof.
  intros Hcfg Hos Ho Hnew%New_built.
  destruct Hnew as [Hc (ep & _ & _ & Hsw) _ Hsv (ip & sub & Hcidr & Hpool)].
  destruct (addServices_ok _ _ _ _ _ Hsv) as (Hwf & Hz & _). rewrite Hos in Hwf.
  assert (sub = subnet) as -> by (destruct (ok_subnet _ _ _ _ Hcfg) as [? ?]; congruence).
  destruct (reserve_static_pool lease_order (Reserve (ParseIP (GatewayIP cfg)) (GatewayMacAddress cfg) (NewIPPool subnet)))
    as (Hb & Hcount & _).
  split; cbn; try done.
  - rewrite Hpool. pose proof (NewIPPool_pool4 _ _ (ok_net _ _ _ _ Hcfg)) as [Hn4 Hn4'].
    split; [by rewrite Hb|by rewrite Hcount].
  - by rewrite Hpool, Hb.
  - destruct (initial_table _ _ _ _ _ Hcfg Ho) as (a & HR & Ht). exists a. rewrite Hpool. split_and!; [done..|].
    by intros r ?%elem_of_nil.
  - split; [|by rewrite Hsw]. unfold s_net. cbn. rewrite Hsw.
    exact (net_inv_initial (cfg_Debug cfg) (cfg_MTU cfg) (as_device (LinkEndpoint_Connect ep))).
  - by rewrite Hz.
Qed.
End preservation.

(** ** Properties *)

(** C2: the invariant of the whole network.  From the network that [New] builds
    for a well-formed configuration, under every interleaving of requests of the
    API, DHCP messages and steps of the switch, and with any failures: the
    configuration (its zones aside, which the DNS server keeps), the stack, the
    endpoint and the NAT table never change; the
    leases stay a table from hardware addresses to addresses of the subnet that
    keeps the gateway's and the static ones; two DHCP replies carry the same
    address exactly when they are for the same hardware address, the reply to a
    client with a static lease carries that address, and nobody but the gateway
    is given the gateway's address; every forwarded port has an open socket of
    its own; the open connections of the switch and the addresses it has learned
    belong to guests whose receive loop is running; the configured zones stay. *)
Theorem network_invariant faulty env cfg gw subnet k lease_order nat_order fwd_order n0 s :
  config_ok cfg gw subnet k → env_os env = os → range_order (DHCPStaticLeases cfg) lease_order →
  New env cfg lease_order nat_order fwd_order = Ok n0 →
  star (vn_step faulty) (start n0) s →
  network_ok cfg gw subnet k n0 s ∧
  (∀ r1 r2, r1 ∈ s_sent s → r2 ∈ s_sent s →
     To4 (YourIPAddr r1) = To4 (YourIPAddr r2) ↔ reply_mac r1 = reply_mac r2) ∧
  (∀ r, r ∈ s_sent s → reply_mac r ≠ GatewayMacAddress cfg → To4 (YourIPAddr r) ≠ gw) ∧
  (∀ r ip, r ∈ s_sent s → is_ip4 ip → DHCPStaticLeases cfg !! v4_string ip = Some (reply_mac r) →
     To4 (YourIPAddr r) = ip).
Proof.
  intros Hcfg Hos Ho Hnew Hstar.
  assert (network_ok cfg gw subnet k n0 s) as Hok.
  { refine (star_invariant _ (network_ok cfg gw subnet k n0) _ _ _ _ Hstar); [intros; by eapply step_ok|by eapply start_ok]. }
  split; [done|]. destruct (ok_table _ _ _ _ _ _ Hok) as (a & HR & (Hg & Hst & _) & Hs). split_and!.
  - intros r1 r2 H1%Hs H2%Hs. split; [|congruence]. intros He. rewrite He in H1.
    apply (proj1 HR) in H1 as [_ H1], H2 as [_ H2]. congruence.
  - intros r Hr%Hs Hne He. rewrite He in Hr. apply (proj1 HR) in Hr as [_ Hr], Hg as [_ Hg]. congruence.
  - intros r ip Hr%Hs Hip Hl%Hst; [congruence|done].
Qed.
End system.

(** ** Witness

    A network with a static lease, whose owner asks for an address. *)
Definition mj1 : mux_json := {|
  json_ports := json0; json_zones := λ _, ""; decode_zone := λ _, inl (ErrExt "json");
  json_leases := λ _, ""; json_cam := λ _, ""; json_stats := λ _, "" |}.
Definition lease1 : list (string * string) := [("192.168.127.2", "5a:94:ef:e4:0c:ee")].
Definition cfg1 : Configuration := {|
  cfg_Debug := false; cfg_CaptureFile := ""; cfg_MTU := 1500; cfg_Subnet := "192.168.127.0/24";
  GatewayIP := "192.168.127.1"; GatewayMacAddress := "5a:94:ef:e4:0c:dd"; cfg_DNS := [];
  DNSSearchDomains := []; cfg_Forwards := ∅; cfg_NAT := ∅; GatewayVirtualIPs := [];
  DHCPStaticLeases := {["192.168.127.2" := "5a:94:ef:e4:0c:ee"]}; VpnKitUUIDMacAddresses := ∅;
  cfg_Protocol := "" |}.

(** The addresses of gvproxy's configuration. *)
Lemma default_config_ok cfg :
  cfg_Subnet cfg = "192.168.127.0/24" → GatewayIP cfg = "192.168.127.1" → GatewayMacAddress cfg = "5a:94:ef:e4:0c:dd" →
  DHCPStaticLeases cfg = {["192.168.127.2" := "5a:94:ef:e4:0c:ee"]} → config_ok cfg [192; 168; 127; 1] net127 8.
Proof.
  intros Hsub Hgw Hmac Hl. assert (∀ s mac, DHCPStaticLeases cfg !! s = Some mac →
    s = "192.168.127.2" ∧ mac = "5a:94:ef:e4:0c:ee") as Hst.
  { intros s mac. rewrite Hl. by intros [<- <-]%lookup_singleton_Some. }
  split.
  - rewrite Hsub. eexists. by vm_compute.
  - apply net127_ok.
  - rewrite Hgw. split; [by vm_compute|]. split; [done|byte_list].
  - intros s mac [-> ->]%Hst. rewrite Hmac. split; [done|]. exists [192; 168; 127; 2].
    split_and!; [split; [done|byte_list]|by vm_compute|done].
  - by intros s s' mac [-> _]%Hst [-> _]%Hst.
Qed.

Lemma cfg1_ok : config_ok cfg1 [192; 168; 127; 1] net127 8.
Proof. by apply default_config_ok. Qed.

Lemma lease1_order : range_order (DHCPStaticLeases cfg1) lease1.
Proof. unfold range_order. cbn [DHCPStaticLeases cfg1]. by rewrite map_to_list_singleton. Qed.

Definition pool1 : IPPool :=
  reserve_static lease1 (Reserve (ParseIP (GatewayIP cfg1)) (GatewayMacAddress cfg1) (NewIPPool net127)).
Definition discover1 : IPPool * res (list dhcp_event) :=
  handler cfg1 (map_to_list (leases pool1)) (inr [1; 2; 3; 4]) None (dhcp_message MessageTypeDiscover hw_new) pool1.
Definition replies1 : list DHCPv4 := match discover1.2 with Ok evs => replies_of evs | _ => [] end.
Definition offer1 : DHCPv4 := default (dhcp_message 0 []) (head replies1).

Lemma head_elem {A} (l : list A) d : length l = 1%nat → default d (head l) ∈ l.
Proof. destruct l as [|a l]; cbn; [done|]. by left. Qed.

Lemma discover1_reply : offer1 ∈ replies1 ∧ reply_mac offer1 = "5a:94:ef:e4:0c:ee".
Proof.
  assert (length replies1 = 1%nat ∧ reply_mac offer1 = "5a:94:ef:e4:0c:ee") as [Hl Hm] by by vm_compute.
  split; [by apply head_elem|exact Hm].
Qed.

Lemma New1 : ∃ n0, New env0 cfg1 lease1 [] [] = Ok n0 ∧ vn_ipPool n0 = pool1 ∧ vn_configuration n0 = cfg1.
Proof.
  assert (match New env0 cfg1 lease1 [] [] with Ok _ => true | _ => false end = true) as Hok by by vm_compute.
  destruct (New env0 cfg1 lease1 [] []) as [n0|err|] eqn:E; [|discriminate Hok..]. exists n0. split; [done|].
  apply New_built in E as [Hc _ _ _ (ip & subnet & Hs & Hp)]. split; [|done]. rewrite Hp. unfold pool1. do 2 f_equal.
  assert (match ParseCIDR (cfg_Subnet cfg1) with Ok (_, n) => n | _ => subnet end = net127) as Hn by by vm_compute.
  rewrite Hs in Hn. by rewrite Hn.
Qed.

Lemma discover1_step n0 : vn_ipPool n0 = pool1 → vn_configuration n0 = cfg1 →
  ∃ s, star (vn_step os0 mj1 (SStruct []) false) (start n0) s ∧ offer1 ∈ s_sent s.
Proof.
  intros Hp Hc. assert (match discover1.2 with Ok _ => true | _ => false end = true) as Hok by by vm_compute.
  pose proof (proj1 discover1_reply) as Hin. unfold replies1 in Hin.
  remember discover1 as x eqn:E. symmetry in E. destruct x as [p1 [evs|err|]]; [|discriminate Hok..].
  eexists. split; [eapply star_step; [|apply star_refl]|].
  - eapply (step_message _ _ _ _ (start n0)); cbn; rewrite ?Hp, ?Hc; [apply range_order_canonical|exact E].
  - exact Hin.
Qed.

Lemma network_invariant_witness : To4 (YourIPAddr offer1) = [192; 168; 127; 2].
Proof.
  destruct New1 as (n0 & Hnew & Hp & Hc). destruct (discover1_step n0 Hp Hc) as (s & Hs & Hin).
  destruct discover1_reply as [_ Hmac].
  destruct (network_invariant os0 mj1 (SStruct []) false env0 cfg1 [192; 168; 127; 1] net127 8 lease1 [] [] n0 s
    cfg1_ok eq_refl lease1_order Hnew Hs) as (_ & _ & _ & H).
  apply (H offer1 [192; 168; 127; 2] Hin); [split; [done|byte_list]|]. rewrite Hmac. by vm_compute.
Defined.
