(* ===== verification/Cmdline.v ===== *)
(** pkg/types/gvproxy_command.go and the flags of cmd/gvproxy/main.go: the builder
    of command lines used by the programs that start gvproxy, and the parser on
    the other side (the [flag] package of Go on the flags main declares). *)
From Stdlib Require Import Ascii String.
From S2P Require Import Prelude GoStrings.

Local Open Scope string_scope.
Local Open Scope list_scope.
Local Open Scope Z_scope.

(** ** The builder *)

Record GvproxyCommand := {
  gc_Debug : bool;
  gc_MTU : Z;
  forwardInfo : gmap string (list string);
  gc_endpoints : list string;
  sockets : gmap string string;
  PidFile : string;
  SSHPort : Z;
}.

Definition NewGvproxyCommand : GvproxyCommand :=
  {| gc_Debug := false; gc_MTU := 1500; forwardInfo := ∅; gc_endpoints := []; sockets := ∅;
     PidFile := ""; SSHPort := 2222 |}.

Definition set_sockets (m : gmap string string) (c : GvproxyCommand) : GvproxyCommand :=
  {| gc_Debug := gc_Debug c; gc_MTU := gc_MTU c; forwardInfo := forwardInfo c;
     gc_endpoints := gc_endpoints c; sockets := m; PidFile := PidFile c; SSHPort := SSHPort c |}.
Definition set_forwardInfo (m : gmap string (list string)) (c : GvproxyCommand) : GvproxyCommand :=
  {| gc_Debug := gc_Debug c; gc_MTU := gc_MTU c; forwardInfo := m;
     gc_endpoints := gc_endpoints c; sockets := sockets c; PidFile := PidFile c; SSHPort := SSHPort c |}.
Definition set_endpoints (l : list string) (c : GvproxyCommand) : GvproxyCommand :=
  {| gc_Debug := gc_Debug c; gc_MTU := gc_MTU c; forwardInfo := forwardInfo c;
     gc_endpoints := l; sockets := sockets c; PidFile := PidFile c; SSHPort := SSHPort c |}.

(** The maps may be nil in a zero value; an empty map is made first. *)
Definition checkSocketsInitialized (c : GvproxyCommand) : GvproxyCommand :=
  if decide (sockets c = ∅) then set_sockets ∅ c else c.
Definition checkForwardInfoInitialized (c : GvproxyCommand) : GvproxyCommand :=
  if decide (forwardInfo c = ∅) then set_forwardInfo ∅ c else c.

Definition AddEndpoint (endpoint : string) (c : GvproxyCommand) : GvproxyCommand :=
  set_endpoints (gc_endpoints c ++ [endpoint]) c.

Definition add_socket (flag socket : string) (c : GvproxyCommand) : GvproxyCommand :=
  let c := checkSocketsInitialized c in set_sockets (<[flag := socket]> (sockets c)) c.
Definition AddVpnkitSocket := add_socket "listen-vpnkit".
Definition AddQemuSocket := add_socket "listen-qemu".
Definition AddBessSocket := add_socket "listen-bess".
Definition AddStdioSocket := add_socket "listen-stdio".
Definition AddVfkitSocket := add_socket "listen-vfkit".

Definition addForwardInfo (flag value : string) (c : GvproxyCommand) : GvproxyCommand :=
  set_forwardInfo (<[flag := default [] (forwardInfo c !! flag) ++ [value]]> (forwardInfo c)) c.
Definition AddForwardSock (socket : string) (c : GvproxyCommand) : GvproxyCommand :=
  addForwardInfo "forward-sock" socket (checkForwardInfoInitialized c).
Definition AddForwardDest (dest : string) (c : GvproxyCommand) : GvproxyCommand :=
  addForwardInfo "forward-dest" dest (checkForwardInfoInitialized c).
Definition AddForwardUser (user : string) (c : GvproxyCommand) : GvproxyCommand :=
  addForwardInfo "forward-user" user (checkForwardInfoInitialized c).
Definition AddForwardIdentity (identity : string) (c : GvproxyCommand) : GvproxyCommand :=
  addForwardInfo "forward-identity" identity (checkForwardInfoInitialized c).

(** The loop bodies: a flag and its value, when the value is not empty. *)
Definition flag_args (flag value : string) : list string :=
  if decide (value ≠ "") then ["-" +:+ flag; value] else [].

Definition socketsToCmdline (order : list (string * string)) : list string :=
  concat ((λ fs, flag_args fs.1 fs.2) <$> order).
Definition forwardInfoToCmdline (order : list (string * list string)) : list string :=
  concat ((λ fs, concat (flag_args fs.1 <$> fs.2)) <$> order).
Definition endpointsToCmdline (endpoints : list string) : list string :=
  concat (flag_args "listen" <$> endpoints).

(** [ToCmdline], for the orders in which the runtime ranges over the two maps. *)
Definition ToCmdline (so : list (string * string)) (fo : list (string * list string)) (c : GvproxyCommand)
    : list string :=
  let args := endpointsToCmdline (gc_endpoints c) in
  let args := args ++ (if gc_Debug c then ["-debug"] else []) in
  let args := args ++ ["-mtu"; Itoa (gc_MTU c)] in
  let args := args ++ ["-ssh-port"; Itoa (SSHPort c)] in
  let args := args ++ socketsToCmdline so in
  let args := args ++ forwardInfoToCmdline fo in
  args ++ (if decide (PidFile c ≠ "") then ["-pid-file"; PidFile c] else []).

(** The program and its arguments. *)
Definition Cmd (gvproxyPath : string) so fo (c : GvproxyCommand) : list string := gvproxyPath :: ToCmdline so fo c.

(** ** The flags of gvproxy

    The variables of main, by the name of their flag: the strings, the
    [arrayFlags], and the others. *)
Record flags := {
  fl_strings : gmap string string;
  fl_arrays : gmap string (list string);
  fl_debug : bool;
  fl_version : bool;
  fl_mtu : Z;
  fl_sshPort : Z;
}.

Definition flags0 : flags :=
  {| fl_strings := ∅; fl_arrays := ∅; fl_debug := false; fl_version := false; fl_mtu := 1500;
     fl_sshPort := 2222 |}.

Definition string_flag (name : string) (fl : flags) : string := default "" (fl_strings fl !! name).
Definition array_flag (name : string) (fl : flags) : list string := default [] (fl_arrays fl !! name).

Definition string_flags : list string :=
  ["listen-vpnkit"; "listen-qemu"; "listen-bess"; "listen-stdio"; "listen-vfkit"; "pid-file"].
Definition array_flags : list string :=
  ["listen"; "forward-sock"; "forward-dest"; "forward-user"; "forward-identity"].

(** [arrayFlags.Set]. *)
Definition arrayFlags_Set (value : string) (i : list string) : list string := i ++ [value].

(** ** Numbers of the command line

    [strconv.ParseInt(s, 0, 64)], which reads the values of the integer flags: a
    sign, a base prefix, digits that underscores may separate. *)
Definition lower (c : ascii) : ascii :=
  if decide (65 ≤ code c ∧ code c ≤ 90) then char (code c + 32) else c.

Definition base_prefix (s : string) : Z * string :=
  match s with
  | String "0" (String c (String d t)) =>
      if decide (lower c = "b"%char) then (2, String d t)
      else if decide (lower c = "o"%char) then (8, String d t)
      else if decide (lower c = "x"%char) then (16, String d t)
      else (8, String c (String d t))
  | String "0" t => (8, t)
  | _ => (10, s)
  end.

(** The value of the digits, and whether an underscore was seen. *)
Fixpoint base_digits (base : Z) (s : string) (n : Z) (underscores : bool) : option (Z * bool) :=
  match s with
  | EmptyString => Some (n, underscores)
  | String c t =>
      if decide (c = "_"%char) then base_digits base t n true
      else match hex_val c with
           | Some d => if decide (base ≤ d) then None else base_digits base t (n * base + d) underscores
           | None => None
           end
  end.

(** [underscoreOK] after the prefix, [last] being the class of the byte before:
    ["0"] a digit, ["_"] an underscore, ["!"] anything else, ["^"] the beginning. *)
Fixpoint underscore_loop (hex : bool) (last : ascii) (s : string) : bool :=
  match s with
  | EmptyString => negb (bool_decide (last = "_"%char))
  | String c t =>
      if decide (is_Some (digit_val c) ∨ (hex = true ∧ is_Some (hex_val c))) then underscore_loop hex "0" t
      else if decide (c = "_"%char) then
        if decide (last = "0"%char) then underscore_loop hex "_" t else false
      else if decide (last = "_"%char) then false
      else underscore_loop hex "!" t
  end.

Definition underscoreOK (s : string) : bool :=
  match s with
  | String "0" (String c t) =>
      if decide (lower c = "b"%char ∨ lower c = "o"%char ∨ lower c = "x"%char)
      then underscore_loop (bool_decide (lower c = "x"%char)) "0" t
      else underscore_loop false "^" s
  | _ => underscore_loop false "^" s
  end.

Definition parse_magnitude (s : string) : option Z :=
  match s with
  | EmptyString => None
  | _ =>
      let '(base, t) := base_prefix s in
      match base_digits base t 0 false with
      | Some (n, underscores) => if underscores && negb (underscoreOK s) then None else Some n
      | None => None
      end
  end.

Definition ParseInt (s : string) : res Z :=
  let fail := Err (ErrStd "strconv.ParseInt" s) in
  let '(neg, t) := match s with
                   | String "-" t => (true, t)
                   | String "+" t => (false, t)
                   | _ => (false, s)
                   end in
  match parse_magnitude t with
  | None => fail
  | Some n =>
      if neg : bool then (if decide (n ≤ 2 ^ 63) then Ok (- n) else fail)
      else (if decide (n < 2 ^ 63) then Ok n else fail)
  end.

(** [strconv.ParseBool]. *)
Definition ParseBool (s : string) : option bool :=
  if decide (s ∈ ["1"; "t"; "T"; "TRUE"; "true"; "True"]) then Some true
  else if decide (s ∈ ["0"; "f"; "F"; "FALSE"; "false"; "False"]) then Some false
  else None.

(** ** [flag.Parse] *)

Definition set_bool (name : string) (b : bool) (fl : flags) : flags :=
  {| fl_strings := fl_strings fl; fl_arrays := fl_arrays fl;
     fl_debug := if decide (name = "debug") then b else fl_debug fl;
     fl_version := if decide (name = "version") then b else fl_version fl;
     fl_mtu := fl_mtu fl; fl_sshPort := fl_sshPort fl |}.

(** [Set] of the flag; [None] when the flag is not defined. *)
Definition set_flag (name value : string) (fl : flags) : option (res flags) :=
  if decide (name ∈ string_flags) then
    Some (Ok {| fl_strings := <[name := value]> (fl_strings fl); fl_arrays := fl_arrays fl;
                fl_debug := fl_debug fl; fl_version := fl_version fl; fl_mtu := fl_mtu fl;
                fl_sshPort := fl_sshPort fl |})
  else if decide (name ∈ array_flags) then
    Some (Ok {| fl_strings := fl_strings fl;
                fl_arrays := <[name := arrayFlags_Set value (array_flag name fl)]> (fl_arrays fl);
                fl_debug := fl_debug fl; fl_version := fl_version fl; fl_mtu := fl_mtu fl;
                fl_sshPort := fl_sshPort fl |})
  else if decide (name = "mtu" ∨ name = "ssh-port") then
    Some (match ParseInt value with
          | Err err => Err err
          | Panic => Panic
          | Ok n => Ok {| fl_strings := fl_strings fl; fl_arrays := fl_arrays fl;
                           fl_debug := fl_debug fl; fl_version := fl_version fl;
                           fl_mtu := if decide (name = "mtu") then n else fl_mtu fl;
                           fl_sshPort := if decide (name = "mtu") then fl_sshPort fl else n |}
          end)
  else None.

(** The name and the value after "=" of an argument without its dashes. *)
Definition split_eq (name : string) : string * option string :=
  match IndexByte name "=" with
  | Some i => (str_take i name, Some (str_drop (S i) name))
  | None => (name, None)
  end.

(** The dashes of an argument: [None] when it is not a flag or is "--". *)
Definition strip_dashes (s : string) : option string :=
  match s with
  | String "-" EmptyString => None
  | String "-" (String "-" EmptyString) => None
  | String "-" (String "-" name) => Some name
  | String "-" name => Some name
  | _ => None
  end.

(** "-h" and "-help" ask for the usage. *)
Definition ErrHelp : error := ErrMsg "flag: help requested".
Definition undefined_flag (name : string) : error :=
  if decide (name = "help" ∨ name = "h") then ErrHelp else ErrStd "flag provided but not defined" name.

(** [flag.Parse]: an error makes the program exit. *)
Fixpoint flag_Parse (args : list string) (fl : flags) : res flags :=
  match args with
  | [] => Ok fl
  | s :: rest =>
      match strip_dashes s with
      | None => Ok fl
      | Some name =>
          match name with
          | EmptyString | String "-" _ | String "=" _ => Err (ErrStd "bad flag syntax" s)
          | _ =>
              let '(name, value) := split_eq name in
              if decide (name = "debug" ∨ name = "version") then
                match value with
                | None => flag_Parse rest (set_bool name true fl)
                | Some v => match ParseBool v with
                            | Some b => flag_Parse rest (set_bool name b fl)
                            | None => Err (ErrStd "invalid boolean value" v)
                            end
                end
              else match value with
                   | Some v => match set_flag name v fl with
                               | None => Err (undefined_flag name)
                               | Some r => r ≫= flag_Parse rest
                               end
                   | None =>
                       match rest with
                       | [] => match set_flag name "" fl with
                               | None => Err (undefined_flag name)
                               | Some _ => Err (ErrStd "flag needs an argument" name)
                               end
                       | v :: rest' =>
                           match set_flag name v fl with
                           | None => Err (undefined_flag name)
                           | Some r => r ≫= flag_Parse rest'
                           end
                       end
                   end
          end
      end
  end.

(** ** Lemmas *)

(** Flags with a value, and the arguments that set them. *)
Definition value_flags : list string := string_flags ++ array_flags ++ ["mtu"; "ssh-port"].
Definition pair_args (l : list (string * string)) : list string :=
  concat ((λ nv, ["-" +:+ nv.1; nv.2]) <$> l).
Definition non_empty (s : string) : Prop := s ≠ "".
#[local] Instance non_empty_dec s : Decision (non_empty s).
Proof. unfold non_empty. apply _. Defined.

Lemma flag_args_pairs (flag : string) values :
  concat (flag_args flag <$> values) = pair_args (pair flag <$> filter non_empty values).
Proof.
  induction values as [|v values IH]; [done|]. rewrite filter_cons. cbn [fmap list_fmap concat].
  rewrite IH. unfold flag_args, non_empty. by repeat case_decide.
Qed.

Lemma pair_args_app l1 l2 : pair_args (l1 ++ l2) = pair_args l1 ++ pair_args l2.
Proof. unfold pair_args. by rewrite fmap_app, concat_app. Qed.

Lemma pair_args_concat {A} (f : A → list (string * string)) (l : list A) :
  pair_args (concat (f <$> l)) = concat ((λ a, pair_args (f a)) <$> l).
Proof.
  induction l as [|a l IH]; [done|]. cbn [fmap list_fmap concat].
  by rewrite pair_args_app, <- IH.
Qed.

(** The pairs of a command line. *)
Definition socket_pairs (order : list (string * string)) : list (string * string) :=
  filter (λ fs, non_empty fs.2) order.
Definition forward_pairs (order : list (string * list string)) : list (string * string) :=
  concat ((λ fs : string * list string, pair fs.1 <$> filter non_empty fs.2) <$> order).

Lemma socketsToCmdline_pairs order : socketsToCmdline order = pair_args (socket_pairs order).
Proof.
  unfold socketsToCmdline, socket_pairs. induction order as [|[f s] order IH]; [done|].
  rewrite filter_cons. cbn [fmap list_fmap concat fst snd]. rewrite IH.
  unfold flag_args, non_empty. cbn [snd]. by repeat case_decide.
Qed.

Lemma forwardInfoToCmdline_pairs order : forwardInfoToCmdline order = pair_args (forward_pairs order).
Proof.
  unfold forwardInfoToCmdline, forward_pairs. rewrite pair_args_concat. f_equal.
  apply list_fmap_ext. intros i [f l] _. cbn. apply flag_args_pairs.
Qed.

(** A printed number is read back: it has no sign, no prefix and no underscore. *)
Lemma base_digits_digits s n u v : digits_val s n = Some v → base_digits 10 s n u = Some (v, u).
Proof.
  revert n. induction s as [|c s IH]; intros n; cbn [digits_val base_digits]; [by intros [= ->]|].
  unfold digit_val, hex_val. destruct (decide (48 ≤ code c ≤ 57)) as [Hc|]; [|done]. cbn [mbind option_bind].
  intros H. rewrite decide_False by (intros ->; destruct Hc as [_ Hc]; by destruct Hc).
  rewrite decide_False by lia. by apply IH.
Qed.

Lemma pretty_go_head x s : (0 < x)%N → ∃ c t, pretty_N_go x s = String c t ∧ c ≠ "0"%char ∧ digit_val c ≠ None.
Proof.
  revert s. induction x as [x IH] using (well_founded_induction N.lt_wf_0). intros s Hx.
  rewrite pretty_N_go_step by lia. destruct (decide (x / 10 = 0)%N) as [E|E].
  - rewrite E, pretty_N_go_0. eexists _, _. split; [done|].
    assert (x < 10)%N as Hlt by (apply N.div_small_iff in E; lia).
    pose proof (digit_val_pretty (x mod 10)) as Hd. rewrite N.mod_small in * by done. specialize (Hd Hlt).
    split; [|by rewrite Hd]. intros H0. rewrite H0 in Hd.
    change (Some 0 = Some (Z.of_N x)) in Hd. injection Hd as Hd. lia.
  - apply IH; [apply N.div_lt; lia|by apply N.neq_0_lt_0].
Qed.

Lemma Itoa_pos_head z : 0 < z → ∃ c t, Itoa z = String c t ∧ c ≠ "0"%char ∧ digit_val c ≠ None.
Proof. intros Hz. rewrite Itoa_N, decide_False by lia. apply pretty_go_head. lia. Qed.

Lemma parse_magnitude_Itoa z : 0 ≤ z → parse_magnitude (Itoa z) = Some z.
Proof.
  intros Hz. destruct (decide (z = 0)) as [->|Hz0]; [by vm_compute|].
  destruct (Itoa_pos_head z) as (c & t & He & Hc & _); [lia|].
  assert (base_prefix (Itoa z) = (10, Itoa z)) as Hb.
  { rewrite He. by destruct c as [[] [] [] [] [] [] [] []]. }
  unfold parse_magnitude. rewrite Hb, (base_digits_digits _ _ _ z) by (by apply digits_val_Itoa).
  by rewrite He.
Qed.

Lemma ParseInt_Itoa z : - 2 ^ 63 ≤ z < 2 ^ 63 → ParseInt (Itoa z) = Ok z.
Proof.
  intros Hz. unfold ParseInt. destruct (decide (0 ≤ z)) as [Hp|Hn].
  - assert (match Itoa z with String "-" t => (true, t) | String "+" t => (false, t) | _ => (false, Itoa z) end
      = (false, Itoa z)) as ->.
    { destruct (Itoa_head z Hp) as (c & t & -> & Hc). by destruct c as [[] [] [] [] [] [] [] []]; try (by destruct Hc). }
    by rewrite parse_magnitude_Itoa, decide_True by lia.
  - assert (Itoa z = String "-" (Itoa (- z))) as ->.
    { destruct z as [|p|p]; [lia..|]. reflexivity. }
    rewrite parse_magnitude_Itoa, decide_True by lia. f_equal. lia.
Qed.

Definition set_pair (fl : flags) (nv : string * string) : flags :=
  match set_flag nv.1 nv.2 fl with Some (Ok fl') => fl' | _ => fl end.

(** A pair that is accepted. *)
Definition pair_ok (nv : string * string) : Prop :=
  nv.1 ∈ value_flags ∧ (nv.1 ∉ string_flags ++ array_flags → ∃ n, ParseInt nv.2 = Ok n).

Lemma parse_pair name value rest fl : name ∈ value_flags →
  flag_Parse (("-" +:+ name) :: value :: rest) fl =
    match set_flag name value fl with
    | None => Err (undefined_flag name)
    | Some r => r ≫= flag_Parse rest
    end.
Proof.
  intros Hn. unfold value_flags, string_flags, array_flags in Hn. cbn [app] in Hn.
  repeat (apply elem_of_cons in Hn as [->|Hn]; [reflexivity|]). by apply elem_of_nil in Hn.
Qed.

Lemma set_flag_ok nv fl : pair_ok nv → set_flag nv.1 nv.2 fl = Some (Ok (set_pair fl nv)).
Proof.
  intros [Hn Hi]. unfold set_pair, set_flag. destruct (decide (nv.1 ∈ string_flags)); [done|].
  destruct (decide (nv.1 ∈ array_flags)); [done|].
  destruct Hi as [v Hv]; [by rewrite elem_of_app; intros [?|?]|]. rewrite Hv.
  unfold value_flags in Hn. rewrite !elem_of_app in Hn. rewrite decide_True; [done|]. set_solver.
Qed.

Lemma parse_pairs l rest fl : Forall pair_ok l →
  flag_Parse (pair_args l ++ rest) fl = flag_Parse rest (foldl set_pair fl l).
Proof.
  intros Hl. revert fl. induction Hl as [|[name value] l Hnv Hl IH]; intros fl; [done|].
  change (pair_args ((name, value) :: l) ++ rest) with (("-" +:+ name) :: value :: (pair_args l ++ rest)).
  rewrite parse_pair by apply Hnv. pose proof (set_flag_ok (name, value) fl Hnv) as Hs. cbn in Hs.
  rewrite Hs. cbn [mbind res_bind foldl]. apply IH.
Qed.

(** What the pairs set. *)
Definition values_of (name : string) (l : list (string * string)) : list string :=
  snd <$> filter (λ nv, nv.1 = name) l.

Lemma values_of_cons name nv l :
  values_of name (nv :: l) = (if decide (nv.1 = name) then [nv.2] else []) ++ values_of name l.
Proof. unfold values_of. rewrite filter_cons. by case_decide. Qed.

Lemma values_of_app name l1 l2 : values_of name (l1 ++ l2) = values_of name l1 ++ values_of name l2.
Proof. unfold values_of. by rewrite filter_app, fmap_app. Qed.

Lemma set_pair_string name fl nv : name ∈ string_flags →
  string_flag name (set_pair fl nv) = if decide (nv.1 = name) then nv.2 else string_flag name fl.
Proof.
  intros Hn. unfold set_pair, set_flag, string_flag. destruct (decide (nv.1 ∈ string_flags)) as [Hs|Hs]; cbn.
  - case_decide as E; [subst; by rewrite lookup_insert_eq|by rewrite lookup_insert_ne].
  - rewrite (decide_False (P := nv.1 = name)) by (intros E; by rewrite E in Hs).
    repeat case_decide; try done; by destruct (ParseInt nv.2).
Qed.

Lemma set_pairs_string name fl l : name ∈ string_flags →
  string_flag name (foldl set_pair fl l) = default (string_flag name fl) (last (values_of name l)).
Proof.
  intros Hn. induction l as [|nv l IH] using rev_ind; [done|].
  rewrite foldl_snoc, set_pair_string, values_of_app by done. rewrite values_of_cons.
  unfold values_of at 2. cbn [filter list_filter fmap list_fmap]. rewrite app_nil_r.
  case_decide; [by rewrite last_snoc|by rewrite app_nil_r, IH].
Qed.

Lemma string_array_disjoint name : name ∈ array_flags → name ∉ string_flags.
Proof.
  intros Hn. unfold array_flags in Hn.
  repeat (apply elem_of_cons in Hn as [->|Hn]; [by apply (bool_decide_unpack _)|]). by apply elem_of_nil in Hn.
Qed.

Lemma set_pair_array name fl nv : name ∈ array_flags →
  array_flag name (set_pair fl nv) = array_flag name fl ++ if decide (nv.1 = name) then [nv.2] else [].
Proof.
  intros Hn. unfold set_pair, set_flag. destruct (decide (nv.1 ∈ string_flags)) as [Hs|Hs].
  { rewrite decide_False, app_nil_r; [done|]. intros <-. by apply string_array_disjoint in Hn. }
  destruct (decide (nv.1 ∈ array_flags)) as [Ha|Ha].
  - unfold array_flag at 1. cbn. case_decide as E.
    + rewrite E, lookup_insert_eq. done.
    + by rewrite lookup_insert_ne, app_nil_r.
  - rewrite (decide_False (P := nv.1 = name)), app_nil_r by (intros E; by rewrite E in Ha).
    case_decide; [|done]. by destruct (ParseInt nv.2).
Qed.

Lemma set_pairs_array name fl l : name ∈ array_flags →
  array_flag name (foldl set_pair fl l) = array_flag name fl ++ values_of name l.
Proof.
  intros Hn. revert fl. induction l as [|nv l IH]; intros fl; [cbn; by rewrite app_nil_r|].
  cbn [foldl]. by rewrite IH, set_pair_array, values_of_cons, app_assoc by done.
Qed.

(** Pairs about strings and arrays leave the other flags alone. *)
Lemma set_pairs_rest fl l :
  Forall (λ nv, nv.1 ∈ string_flags ++ array_flags) l →
  fl_debug (foldl set_pair fl l) = fl_debug fl ∧ fl_version (foldl set_pair fl l) = fl_version fl ∧
  fl_mtu (foldl set_pair fl l) = fl_mtu fl ∧ fl_sshPort (foldl set_pair fl l) = fl_sshPort fl.
Proof.
  intros Hl. revert fl. induction Hl as [|nv l Hnv Hl IH]; intros fl; [done|]. cbn [foldl].
  destruct (IH (set_pair fl nv)) as (-> & -> & -> & ->). unfold set_pair, set_flag.
  apply elem_of_app in Hnv as [Hs|Ha]; [by rewrite decide_True|].
  rewrite decide_False by (by apply string_array_disjoint). by rewrite decide_True.
Qed.

(** *** Commands built with the operations *)

Definition socket_flags : list string :=
  ["listen-vpnkit"; "listen-qemu"; "listen-bess"; "listen-stdio"; "listen-vfkit"].
Definition forward_flags : list string := ["forward-sock"; "forward-dest"; "forward-user"; "forward-identity"].

Record command_ok (c : GvproxyCommand) : Prop := {
  ok_sockets k v : sockets c !! k = Some v → k ∈ socket_flags;
  ok_forward k v : forwardInfo c !! k = Some v → k ∈ forward_flags;
}.

Lemma values_of_sockets so m name : range_order m so →
  values_of name (socket_pairs so) = filter non_empty (option_list (m !! name)).
Proof.
  intros Ho. unfold values_of, socket_pairs. rewrite <- (range_order_key m so name Ho).
  clear Ho. induction so as [|[k v] so IH]; [done|]. rewrite !filter_cons. cbn [fst snd].
  destruct (decide (non_empty v)), (decide (k = name)); cbn [fmap list_fmap];
    rewrite ?filter_cons; cbn [fst snd]; rewrite ?decide_True, ?decide_False by done; cbn [fmap list_fmap];
    rewrite ?IH; done.
Qed.

Lemma values_of_forward_entry name (k : string) l :
  values_of name (pair k <$> l) = if decide (k = name) then l else [].
Proof.
  induction l as [|v l IH]; [by case_decide|]. cbn [fmap list_fmap]. rewrite values_of_cons, IH. cbn.
  by case_decide.
Qed.

Lemma values_of_forward fo m name : range_order m fo →
  values_of name (forward_pairs fo) = filter non_empty (default [] (m !! name)).
Proof.
  intros Ho.
  assert (values_of name (forward_pairs fo) =
    concat (filter non_empty <$> (snd <$> filter (λ kv, kv.1 = name) fo))) as ->.
  { clear Ho. unfold forward_pairs. induction fo as [|[k l] fo IH]; [done|].
    cbn [fmap list_fmap concat fst snd]. rewrite values_of_app, IH, values_of_forward_entry, filter_cons.
    cbn [fst]. by case_decide. }
  rewrite (range_order_key m fo name Ho). destruct (m !! name); cbn; by rewrite ?app_nil_r.
Qed.

Lemma values_of_endpoints name l :
  values_of name (pair "listen" <$> l) = if decide ("listen" = name) then l else [].
Proof. apply values_of_forward_entry. Qed.

Lemma filter_non_empty_last (o : option string) :
  default "" (last (filter non_empty (option_list o))) = default "" o.
Proof.
  destruct o as [v|]; [|done]. change (option_list (Some v)) with [v]. rewrite filter_cons.
  case_decide as E; [done|].
  cbn. destruct (decide (v = "")) as [->|]; [done|]. by destruct E.
Qed.

(** The pairs of a whole command line, "-debug" aside. *)
Definition pid_pairs (c : GvproxyCommand) : list (string * string) :=
  if decide (PidFile c ≠ "") then [("pid-file", PidFile c)] else [].
Definition tail_pairs so fo (c : GvproxyCommand) : list (string * string) :=
  [("mtu", Itoa (gc_MTU c)); ("ssh-port", Itoa (SSHPort c))] ++
  socket_pairs so ++ forward_pairs fo ++ pid_pairs c.

Lemma ToCmdline_pairs so fo c :
  ToCmdline so fo c =
    pair_args (pair "listen" <$> filter non_empty (gc_endpoints c)) ++
    (if gc_Debug c then ["-debug"] else []) ++ pair_args (tail_pairs so fo c).
Proof.
  unfold ToCmdline, endpointsToCmdline, tail_pairs, pid_pairs. cbv zeta.
  rewrite flag_args_pairs, socketsToCmdline_pairs, forwardInfoToCmdline_pairs, !pair_args_app, <- !app_assoc.
  do 2 f_equal. by destruct (decide (PidFile c ≠ "")).
Qed.

Lemma tail_pairs_ok so fo c : command_ok c → range_order (sockets c) so → range_order (forwardInfo c) fo →
  (∃ n, ParseInt (Itoa (gc_MTU c)) = Ok n) → (∃ n, ParseInt (Itoa (SSHPort c)) = Ok n) →
  Forall pair_ok (tail_pairs so fo c) ∧
  Forall (λ nv, nv.1 ∈ string_flags ++ array_flags) (socket_pairs so ++ forward_pairs fo ++ pid_pairs c).
Proof.
  intros [Hs Hf] Hso Hfo Hm Hp.
  assert (Forall (λ nv, nv.1 ∈ string_flags ++ array_flags) (socket_pairs so ++ forward_pairs fo ++ pid_pairs c)) as Hall.
  { rewrite !Forall_app. split_and!.
    - apply Forall_forall. intros [k v] [_ Hin]%list_elem_of_filter.
      apply (range_order_elem _ _ _ _ Hso), Hs in Hin. cbn. unfold socket_flags, string_flags in *. set_solver.
    - apply Forall_forall. intros [k v] Hin. unfold forward_pairs in Hin.
      apply elem_of_concat in Hin as (l & Hl & Hin). apply list_elem_of_fmap in Hl as ([k' l'] & -> & Hl).
      apply list_elem_of_fmap in Hin as (v' & [= -> ->] & _).
      apply (range_order_elem _ _ _ _ Hfo), Hf in Hl. cbn. unfold forward_flags, array_flags in *. set_solver.
    - unfold pid_pairs. case_decide; [|done]. constructor; [|done]. cbn. unfold string_flags. set_solver. }
  split; [|done]. unfold tail_pairs. apply Forall_app. split.
  - repeat constructor; cbn; try done; unfold value_flags; set_solver.
  - eapply Forall_impl; [exact Hall|]. intros nv Hnv. split; [|done].
    unfold value_flags. rewrite app_assoc. apply elem_of_app. by left.
Qed.

Lemma flag_classes name : name ∈ socket_flags ∨ name ∈ forward_flags →
  name ≠ "mtu" ∧ name ≠ "ssh-port" ∧ name ≠ "pid-file" ∧
  (name ∈ socket_flags → name ∈ string_flags) ∧ (name ∈ forward_flags → name ∈ array_flags) ∧
  (name ∈ forward_flags → name ∉ socket_flags) ∧ name ≠ "listen".
Proof.
  assert (Forall (λ name, name ≠ "mtu" ∧ name ≠ "ssh-port" ∧ name ≠ "pid-file" ∧
    (name ∈ socket_flags → name ∈ string_flags) ∧ (name ∈ forward_flags → name ∈ array_flags) ∧
    (name ∈ forward_flags → name ∉ socket_flags) ∧ name ≠ "listen") (socket_flags ++ forward_flags)) as H
    by by apply (bool_decide_unpack _).
  rewrite Forall_forall in H. rewrite <- elem_of_app. apply H.
Qed.

Lemma no_socket c name : command_ok c → name ∉ socket_flags → sockets c !! name = None.
Proof. intros [Hs _] Hn. destruct (sockets c !! name) eqn:E; [|done]. by apply Hs in E. Qed.
Lemma no_forward c name : command_ok c → name ∉ forward_flags → forwardInfo c !! name = None.
Proof. intros [_ Hf] Hn. destruct (forwardInfo c !! name) eqn:E; [|done]. by apply Hf in E. Qed.

Lemma values_of_tl name so fo c : range_order (sockets c) so → range_order (forwardInfo c) fo →
  values_of name (socket_pairs so ++ forward_pairs fo ++ pid_pairs c) =
    filter non_empty (option_list (sockets c !! name)) ++
    filter non_empty (default [] (forwardInfo c !! name)) ++
    (if decide ("pid-file" = name) then if decide (PidFile c ≠ "") then [PidFile c] else [] else []).
Proof.
  intros Hso Hfo. rewrite !values_of_app, (values_of_sockets _ (sockets c)), (values_of_forward _ (forwardInfo c)) by done.
  do 2 f_equal. unfold pid_pairs. destruct (decide (PidFile c ≠ "")); [|by case_decide].
  by rewrite values_of_cons, app_nil_r.
Qed.

(** *** What gvproxy has read

    The flags after the endpoints and "-debug", and at the end. *)
Definition endpoint_pairs (c : GvproxyCommand) : list (string * string) :=
  pair "listen" <$> filter non_empty (gc_endpoints c).
Definition start_flags (c : GvproxyCommand) : flags :=
  let fl := foldl set_pair flags0 (endpoint_pairs c) in
  if gc_Debug c then set_bool "debug" true fl else fl.
Definition number_flags (c : GvproxyCommand) : flags :=
  set_pair (set_pair (start_flags c) ("mtu", Itoa (gc_MTU c))) ("ssh-port", Itoa (SSHPort c)).
Definition parsed so fo (c : GvproxyCommand) : flags :=
  foldl set_pair (number_flags c) (socket_pairs so ++ forward_pairs fo ++ pid_pairs c).

Definition in_range (c : GvproxyCommand) : Prop :=
  - 2 ^ 63 ≤ gc_MTU c < 2 ^ 63 ∧ - 2 ^ 63 ≤ SSHPort c < 2 ^ 63.

Lemma parse_ToCmdline_parsed so fo c :
  command_ok c → in_range c → range_order (sockets c) so → range_order (forwardInfo c) fo →
  flag_Parse (ToCmdline so fo c) flags0 = Ok (parsed so fo c).
Proof.
  intros Hc [Hm Hp] Hso Hfo.
  destruct (tail_pairs_ok so fo c Hc Hso Hfo) as [Htail _]; [eexists; by apply ParseInt_Itoa..|].
  rewrite ToCmdline_pairs, parse_pairs.
  2: { apply Forall_fmap, Forall_forall. intros v _. split; cbn; unfold value_flags; set_solver. }
  transitivity (flag_Parse (pair_args (tail_pairs so fo c)) (start_flags c)).
  - unfold start_flags, endpoint_pairs. by destruct (gc_Debug c).
  - rewrite <- (app_nil_r (pair_args _)). by rewrite parse_pairs.
Qed.

Lemma set_pair_mtu fl z : - 2 ^ 63 ≤ z < 2 ^ 63 →
  set_pair fl ("mtu", Itoa z) =
    {| fl_strings := fl_strings fl; fl_arrays := fl_arrays fl; fl_debug := fl_debug fl;
       fl_version := fl_version fl; fl_mtu := z; fl_sshPort := fl_sshPort fl |}.
Proof. intros Hz. unfold set_pair, set_flag. cbn [fst snd]. by rewrite ParseInt_Itoa. Qed.
Lemma set_pair_ssh_port fl z : - 2 ^ 63 ≤ z < 2 ^ 63 →
  set_pair fl ("ssh-port", Itoa z) =
    {| fl_strings := fl_strings fl; fl_arrays := fl_arrays fl; fl_debug := fl_debug fl;
       fl_version := fl_version fl; fl_mtu := fl_mtu fl; fl_sshPort := z |}.
Proof. intros Hz. unfold set_pair, set_flag. cbn [fst snd]. by rewrite ParseInt_Itoa. Qed.

Lemma parsed_numbers so fo c :
  command_ok c → in_range c → range_order (sockets c) so → range_order (forwardInfo c) fo →
  fl_mtu (parsed so fo c) = gc_MTU c ∧ fl_sshPort (parsed so fo c) = SSHPort c ∧
  fl_debug (parsed so fo c) = gc_Debug c ∧ fl_version (parsed so fo c) = false.
Proof.
  intros Hc [Hm Hp] Hso Hfo.
  destruct (tail_pairs_ok so fo c Hc Hso Hfo) as [_ Hrest]; [eexists; by apply ParseInt_Itoa..|].
  destruct (set_pairs_rest (number_flags c) _ Hrest) as (Ed & Ev & Em & Ep).
  destruct (set_pairs_rest flags0 (endpoint_pairs c)) as (Ed0 & Ev0 & _).
  { apply Forall_fmap, Forall_forall. intros v _. cbn. set_solver. }
  unfold parsed. rewrite Em, Ep, Ed, Ev. unfold number_flags.
  rewrite set_pair_ssh_port, set_pair_mtu by done. cbn. split_and!; try done.
  - unfold start_flags. destruct (gc_Debug c); [done|]. by rewrite Ed0.
  - unfold start_flags. destruct (gc_Debug c); by cbn; rewrite Ev0.
Qed.

Lemma parsed_string so fo c name :
  range_order (sockets c) so → range_order (forwardInfo c) fo → in_range c → name ∈ string_flags →
  string_flag name (parsed so fo c) =
    default "" (last (filter non_empty (option_list (sockets c !! name)) ++
                      filter non_empty (default [] (forwardInfo c !! name)) ++
                      (if decide ("pid-file" = name) then
                         if decide (PidFile c ≠ "") then [PidFile c] else [] else []))).
Proof.
  intros Hso Hfo [Hm Hp] Hn. unfold parsed. rewrite set_pairs_string, values_of_tl by done. f_equal.
  unfold number_flags. rewrite set_pair_ssh_port, set_pair_mtu by done.
  transitivity (string_flag name (foldl set_pair flags0 (endpoint_pairs c))).
  - unfold start_flags. by destruct (gc_Debug c).
  - rewrite set_pairs_string by done. unfold endpoint_pairs. rewrite values_of_endpoints, decide_False; [done|].
    intros <-. by apply string_array_disjoint in Hn; [|by apply (bool_decide_unpack _)].
Qed.

Lemma parsed_array so fo c name :
  range_order (sockets c) so → range_order (forwardInfo c) fo → in_range c → name ∈ array_flags →
  array_flag name (parsed so fo c) =
    (if decide ("listen" = name) then filter non_empty (gc_endpoints c) else []) ++
    filter non_empty (option_list (sockets c !! name)) ++
    filter non_empty (default [] (forwardInfo c !! name)) ++
    (if decide ("pid-file" = name) then if decide (PidFile c ≠ "") then [PidFile c] else [] else []).
Proof.
  intros Hso Hfo [Hm Hp] Hn. unfold parsed. rewrite set_pairs_array, values_of_tl by done. f_equal.
  unfold number_flags. rewrite set_pair_ssh_port, set_pair_mtu by done.
  transitivity (array_flag name (foldl set_pair flags0 (endpoint_pairs c))).
  - unfold start_flags. by destruct (gc_Debug c).
  - rewrite set_pairs_array by done. unfold endpoint_pairs. by rewrite values_of_endpoints.
Qed.

(** The commands a program can build: the operations, and the exported fields set. *)
Inductive built : GvproxyCommand → Prop :=
| built_new : built NewGvproxyCommand
| built_fields (debug : bool) (mtu sshPort : Z) (pidFile : string) c : built c →
    built {| gc_Debug := debug; gc_MTU := mtu; forwardInfo := forwardInfo c; gc_endpoints := gc_endpoints c;
             sockets := sockets c; PidFile := pidFile; SSHPort := sshPort |}
| built_endpoint e c : built c → built (AddEndpoint e c)
| built_socket add s c :
    add ∈ [AddVpnkitSocket; AddQemuSocket; AddBessSocket; AddStdioSocket; AddVfkitSocket] →
    built c → built (add s c)
| built_forward add s c :
    add ∈ [AddForwardSock; AddForwardDest; AddForwardUser; AddForwardIdentity] →
    built c → built (add s c).

Lemma add_socket_ok flag s c : flag ∈ socket_flags → command_ok c → command_ok (add_socket flag s c).
Proof.
  intros Hin [Hs Hf]. unfold add_socket, checkSocketsInitialized. case_decide as E.
  - split; cbn; [|done]. intros k v [[<- _]|[_ Hk]]%lookup_insert_Some; [done|]. by rewrite lookup_empty in Hk.
  - split; cbn; [|done]. intros k v [[<- _]|[_ Hk]]%lookup_insert_Some; [done|by eapply Hs].
Qed.

Lemma addForwardInfo_ok flag s c :
  flag ∈ forward_flags → command_ok c → command_ok (addForwardInfo flag s (checkForwardInfoInitialized c)).
Proof.
  intros Hin [Hs Hf]. unfold addForwardInfo, checkForwardInfoInitialized. case_decide as E.
  - split; cbn; [done|]. intros k v [[<- _]|[_ Hk]]%lookup_insert_Some; [done|]. by rewrite lookup_empty in Hk.
  - split; cbn; [done|]. intros k v [[<- _]|[_ Hk]]%lookup_insert_Some; [done|by eapply Hf].
Qed.

Lemma built_ok c : built c → command_ok c.
Proof.
  induction 1 as [|debug mtu p pid c _ [Hs Hf]|e c _ [Hs Hf]|add s c Hadd _ IH|add s c Hadd _ IH]; [done..| |].
  - repeat (apply elem_of_cons in Hadd as [->|Hadd]; [by apply add_socket_ok; [apply (bool_decide_unpack _)|]|]).
    by apply elem_of_nil in Hadd.
  - repeat (apply elem_of_cons in Hadd as [->|Hadd]; [by apply addForwardInfo_ok; [apply (bool_decide_unpack _)|]|]).
    by apply elem_of_nil in Hadd.
Qed.

(** C33: round trip of the command line.  A command built with [NewGvproxyCommand]
    and the Add functions, printed by [ToCmdline] for any iteration order of its
    maps, is read back by the flags of gvproxy as the same configuration: same
    MTU, SSH port and debug switch, every socket and the PID file, every endpoint
    and every forward list in order (empty texts, which the builder leaves out,
    aside). *)
Theorem Parse_ToCmdline so fo c :
  built c → range_order (sockets c) so → range_order (forwardInfo c) fo →
  - 2 ^ 63 ≤ gc_MTU c < 2 ^ 63 → - 2 ^ 63 ≤ SSHPort c < 2 ^ 63 →
  ∃ fl, flag_Parse (ToCmdline so fo c) flags0 = Ok fl ∧
    fl_mtu fl = gc_MTU c ∧ fl_sshPort fl = SSHPort c ∧ fl_debug fl = gc_Debug c ∧ fl_version fl = false ∧
    (∀ name, name ∈ socket_flags → string_flag name fl = default "" (sockets c !! name)) ∧
    string_flag "pid-file" fl = PidFile c ∧
    array_flag "listen" fl = filter non_empty (gc_endpoints c) ∧
    (∀ name, name ∈ forward_flags → array_flag name fl = filter non_empty (default [] (forwardInfo c !! name))).
Proof.
  intros Hc%built_ok Hso Hfo Hm Hp. assert (in_range c) as Hr by done. exists (parsed so fo c).
  split; [by apply parse_ToCmdline_parsed|].
  destruct (parsed_numbers so fo c) as (-> & -> & -> & ->); [done..|].
  split_and!; try done.
  - intros name Hn. destruct (flag_classes name (or_introl Hn)) as (_ & _ & ? & Hs & _ & Hfs & _).
    assert (name ∉ forward_flags) by (intros Hf; by apply Hfs).
    rewrite parsed_string, (no_forward c), decide_False by auto. rewrite !app_nil_r.
    apply filter_non_empty_last.
  - rewrite parsed_string, (no_socket c), (no_forward c) by (done || by apply (bool_decide_unpack _)).
    rewrite decide_True by done. cbn.
    destruct (decide (PidFile c ≠ "")) as [|E%dec_stable]; [done|by rewrite E].
  - rewrite parsed_array, (no_socket c), (no_forward c) by (done || by apply (bool_decide_unpack _)).
    cbn. by rewrite app_nil_r.
  - intros name Hn. destruct (flag_classes name (or_intror Hn)) as (_ & _ & ? & _ & Ha & Hns & Hnl).
    rewrite parsed_array, (no_socket c), !decide_False by auto. cbn. by rewrite app_nil_r.
Qed.

(** A machine with two endpoints, a qemu socket and a forwarded Docker socket. *)
Definition sample_command : GvproxyCommand :=
  AddForwardSock "/tmp/docker.sock" (AddForwardDest "/var/run/docker.sock"
    (AddQemuSocket "unix:///tmp/qemu.sock" (AddEndpoint "unix:///tmp/net.sock"
      (AddEndpoint "vsock://:1024" NewGvproxyCommand)))).

Lemma Parse_ToCmdline_witness : ∃ fl,
  flag_Parse (ToCmdline (map_to_list (sockets sample_command)) (map_to_list (forwardInfo sample_command))
                sample_command) flags0 = Ok fl ∧
  fl_mtu fl = 1500 ∧ fl_sshPort fl = 2222 ∧
  string_flag "listen-qemu" fl = "unix:///tmp/qemu.sock" ∧
  array_flag "listen" fl = ["vsock://:1024"; "unix:///tmp/net.sock"] ∧
  array_flag "forward-sock" fl = ["/tmp/docker.sock"].
Proof.
  destruct (Parse_ToCmdline (map_to_list (sockets sample_command)) (map_to_list (forwardInfo sample_command))
    sample_command) as (fl & H & Hm & Hp & _ & _ & Hs & _ & Ha & Hf).
  - apply (built_forward AddForwardSock); [by repeat constructor|].
    apply (built_forward AddForwardDest); [by repeat constructor|].
    apply (built_socket AddQemuSocket); [by repeat constructor|].
    do 2 apply built_endpoint. apply built_new.
  - apply range_order_canonical.
  - apply range_order_canonical.
  - by vm_compute.
  - by vm_compute.
  - exists fl. split; [exact H|]. split; [by rewrite Hm|]. split; [by rewrite Hp|].
    rewrite Ha, (Hf "forward-sock"), (Hs "listen-qemu") by by apply (bool_decide_unpack _).
    clear. split_and!; reflexivity.
Defined.
