(* ===== verification/SSH.v ===== *)
(** pkg/sshclient: tunnels through the SSH server of the guest.  [setupProxy]
    listens on the host and connects to the server with retries, [CreateBastion]
    authenticates, and every accepted connection gets a channel of its own, for
    which the SSH connection is checked and renewed.  The SSH protocol, the
    dialer (which may panic), the files and the clock are parameters over a world [W];
    Tunnels.v gives the dialer of ports.go. *)
From Stdlib Require Import Ascii String.
From S2P Require Import Prelude GoStrings GoNet GoURL Types Ports Cmdline.

Local Open Scope string_scope.
Local Open Scope list_scope.
Local Open Scope Z_scope.

(** ** Durations, in nanoseconds *)

Definition Millisecond : Z := 1000000.
Definition Second : Z := 1000 * Millisecond.

(** [backOff]. *)
Definition backOff (delay : Z) : Z :=
  let delay := if decide (delay = 0) then 5 * Millisecond else delay * 2 in
  if decide (delay > Second) then Second else delay.

(** ** Data *)

(** The user information of a URL. *)
Record Userinfo := { ui_name : string; ui_password : option string }.
Definition Username (u : option Userinfo) : string := match u with Some u => ui_name u | None => "" end.
Definition Password (u : option Userinfo) : option string := u ≫= ui_password.

Section data.
Context {client signer hostkey : Type}.

Inductive AuthMethod := PublicKeys (s : signer) | AuthPassword (pw : string).
Inductive HostKeyCallback := InsecureIgnoreHostKey | FixedHostKey (k : hostkey).

Record ClientConfig := {
  cc_User : string;
  cc_Auth : list AuthMethod;
  cc_HostKeyCallback : HostKeyCallback;
  cc_HostKeyAlgorithms : list string;
  cc_Timeout : Z;
}.

(** The context of the caller, or [context.Background()]. *)
Inductive context := Ctx | Background.

(** The [ConnectCallback]s: the one of [setupProxy], on the address of the
    destination, and the default one of [CreateBastion]. *)
Inductive ConnectCallback := SetupConnect (host : string) | DefaultConnect.

Record Bastion := {
  Client : option client;
  Config : ClientConfig;
  Host : string;
  Port : string;
  Path : string;
  connect : ConnectCallback;
}.

Definition set_Client (c : client) (b : Bastion) : Bastion :=
  {| Client := Some c; Config := Config b; Host := Host b; Port := Port b; Path := Path b; connect := connect b |}.

(** [SSHForward]: the listener by its network and path. *)
Record SSHForward := {
  sf_listener : option (string * string);
  sf_bastion : option Bastion;
  sf_sock : URL;
}.

(** What the operations do to the outside. *)
Inductive ev :=
  | EvListen (network path : string) (umask : Z)
  | EvDialTCP (ctx : context) (host : string) (timeout : Z)  (* a connection to the server is opened *)
  | EvHandshake (addr : string) (config : ClientConfig) (result : option client)
  | EvDial (c : client) (path : string) (ok : bool)  (* ssh.Client.Dial *)
  | EvAlive (c : client) (ok : bool)                 (* the keep-alive request *)
  | EvSleep (wait : Z)
  | EvAccept (ok : bool)                             (* listener.Accept *)
  | EvCloseConn                                      (* the accepted connection is closed *)
  | EvCloseListener
  | EvCloseClient (c : client)
  | EvForward                                        (* both copying goroutines are started *)
  | EvLog (e : error).
End data.
Arguments AuthMethod : clear implicits.
Arguments HostKeyCallback : clear implicits.
Arguments ClientConfig : clear implicits.
Arguments Bastion : clear implicits.
Arguments SSHForward : clear implicits.
Arguments ev : clear implicits.

(** What [ssh.ParsePrivateKey] says of a key. *)
Inductive parsed_key (signer : Type) := KeyOk (s : signer) | PassphraseMissing | KeyError (e : error).
Arguments KeyOk {signer}.
Arguments PassphraseMissing {signer}.
Arguments KeyError {signer}.

Section ssh.
Context {W client signer hostkey conn stream : Type}.
#[local] Abbreviation bastion := (Bastion client signer hostkey).
#[local] Abbreviation event := (ev client signer hostkey).
#[local] Abbreviation config := (ClientConfig signer hostkey).

(** The libraries and the operating system. *)
Record outside := {
  ctx_Done : W → bool;
  (* the race between ctx.Done and a timer: true when the timer fires *)
  race : Z → W → bool * W;
  (* the SSHDialer of the caller, which may be one of this repository and panic
     (gonetDialer of ports.go, the virtual network) *)
  DialContextTCP : context → string → Z → W → res conn * W;
  net_DialTimeout : string → Z → W → (error + conn) * W;
  NewClientConn : conn → string → config → W → (error + client) * W;
  client_Dial : client → string → W → (error + stream) * W;
  SendRequest : client → string → W → option error * W;
  ReadFile : string → W → error + string;
  ParsePrivateKey : string → parsed_key signer;
  ParsePrivateKeyWithPassphrase : string → string → error + signer;
  (* the lines of ~/.ssh/known_hosts and what ParseKnownHosts makes of them *)
  known_hosts : W → error + list string;
  ParseKnownHosts : string → error + (list string * hostkey);
  HashHostname : string → W → string * W;
  (* os.Remove, but for the error that the file does not exist *)
  Remove : string → W → option error * W;
  Umask : Z → W → Z * W;
  Listen : string → string → W → option error * W;
  CurrentUid : W → error + string;
  Accept : W → (error + bool) * W;    (* whether the connection has CloseWrite *)
}.
Context (o : outside).

(** ** The monad of the operations *)

Definition M (A : Type) : Type := W → A * W * list event.
Definition ret {A} (a : A) : M A := λ w, (a, w, []).
Definition bind {A B} (m : M A) (f : A → M B) : M B := λ w,
  let '(a, w1, l1) := m w in let '(b, w2, l2) := f a w1 in (b, w2, l1 ++ l2).
Definition emit (e : event) : M unit := λ w, (tt, w, [e]).
Definition lift {A} (f : W → A * W) : M A := λ w, let '(a, w') := f w in (a, w', []).
Definition get {A} (f : W → A) : M A := λ w, (f w, w, []).

#[local] Notation "x ⟵ m ;; k" := (bind m (λ x, k)) (at level 100, m at next level, right associativity).
#[local] Notation "m ;;; k" := (bind m (λ _, k)) (at level 100, right associativity).

(** ** ssh_forwarder.go: helpers *)

Definition sleep (wait : Z) : M bool := emit (EvSleep wait) ;;; lift (race o wait).

(** ** bastion.go *)

Definition PublicKey (path passphrase : string) (w : W) : res signer :=
  key ← of_sum (ReadFile o path w);
  match ParsePrivateKey o key with
  | KeyOk s => Ok s
  | PassphraseMissing => of_sum (ParsePrivateKeyWithPassphrase o key passphrase)
  | KeyError err => Err err
  end.

(** The loop of [HostKey] over the lines of the file. *)
Fixpoint scan_known_hosts (host hashhost : string) (lines : list string) : option hostkey :=
  match lines with
  | [] => None
  | line :: lines =>
      match ParseKnownHosts o line with
      | inl _ => scan_known_hosts host hashhost lines
      | inr (hosts, k) =>
          if decide (host ∈ hosts ∨ hashhost ∈ hosts) then Some k else scan_known_hosts host hashhost lines
      end
  end.

(** [getHome], computed once: the environment's home directory, or the user's. *)
Definition getHome (UserHomeDir LookupId : error + string) : string :=
  let from_user := match LookupId with inl _ => "" | inr dir => dir end in
  match UserHomeDir with
  | inl _ => from_user
  | inr env => if decide (env = "") then from_user else env
  end.
Definition knownHosts (home : string) : string := path_Join [home; ".ssh"; "known_hosts"].

Definition HostKey (host : string) : M (option hostkey) :=
  f ⟵ get (known_hosts o) ;;
  match f with
  | inl err => emit (EvLog err) ;;; ret None
  | inr lines => hashhost ⟵ lift (HashHostname o host) ;; ret (scan_known_hosts host hashhost lines)
  end.

(** The call of [bastion.connect], with the bastion or with nil. *)
Definition call_connect (ctx : context) (c : ConnectCallback) (b : option bastion) : M (res conn) :=
  match c with
  | SetupConnect host =>
      let timeout := match b with Some b => cc_Timeout (Config b) | None => 5 * Second end in
      emit (EvDialTCP ctx host timeout) ;;; lift (DialContextTCP o ctx host timeout)
  | DefaultConnect =>
      match b with
      | Some b => let addr := JoinHostPort (Host b) (Port b) in
                  emit (EvDialTCP Background addr (cc_Timeout (Config b))) ;;;
                  r ⟵ lift (net_DialTimeout o addr (cc_Timeout (Config b))) ;; ret (of_sum r)
      | None => ret Panic   (* a nil bastion; never called so *)
      end
  end.

(** [bastion.reconnect]: on an error the old client stays. *)
Definition reconnect (ctx : context) (c : option conn) (b : bastion) : M (bastion * res unit) :=
  r ⟵ match c with Some c => ret (Ok c) | None => call_connect ctx (connect b) (Some b) end ;;
  match r with
  | Panic => ret (b, Panic)
  | Err err => ret (b, Err (ErrWrap ("Connection to bastion host (" +:+ Host b +:+ ") failed") err))
  | Ok c =>
      let addr := JoinHostPort (Host b) (Port b) in
      r ⟵ lift (NewClientConn o c addr (Config b)) ;;
      match r with
      | inl err => emit (EvHandshake addr (Config b) None) ;;; ret (b, Err err)
      | inr cl => emit (EvHandshake addr (Config b) (Some cl)) ;;; ret (set_Client cl b, Ok tt)
      end
  end.
Definition Reconnect : bastion → M (bastion * res unit) := reconnect Ctx None.

Definition Bastion_Close (b : bastion) : M unit :=
  match Client b with Some c => emit (EvCloseClient c) | None => ret tt end.

Definition HostKeyAlgorithms : list string :=
  ["ssh-rsa"; "ssh-dss"; "ecdsa-sha2-nistp256"; "ecdsa-sha2-nistp384"; "ecdsa-sha2-nistp521"; "ssh-ed25519"].

(** The authentication methods of [CreateBastion]. *)
Definition auth_methods (user : option Userinfo) (passPhrase identity : string) (w : W) : res (list (AuthMethod signer)) :=
  keys ← (if decide (identity ≠ "")
          then wrap "failed to parse identity" (s ← PublicKey identity passPhrase w; mret [PublicKeys s])
          else mret []);
  let auth := keys ++ match Password user with Some pw => [AuthPassword pw] | None => [] end in
  if decide (length auth = 0%nat) then Err (ErrMsg "No available auth methods") else Ok auth.

(** The parameter "secure" of the URL. *)
Definition secure_of (u : URL) : bool :=
  default false (ParseBool (default "" (head (default [] (url_Query u !! "secure"))))).

Definition host_callback (u : URL) (port : string) : M (HostKeyCallback hostkey) :=
  if secure_of u then
    let host := if decide (port ≠ "22") then "[" +:+ Hostname u +:+ "]:" +:+ port else Hostname u in
    k ⟵ HostKey host ;; ret match k with Some k => FixedHostKey k | None => InsecureIgnoreHostKey end
  else ret InsecureIgnoreHostKey.

Definition CreateBastion (u : URL) (user : option Userinfo) (passPhrase identity : string)
    (initial : option conn) (cb : ConnectCallback) : M (res bastion) :=
  auth ⟵ get (auth_methods user passPhrase identity) ;;
  match auth with
  | Err err => ret (Err err)
  | Panic => ret Panic
  | Ok auth =>
      let port := if decide (URL_Port u = "") then "22" else URL_Port u in
      callback ⟵ host_callback u port ;;
      let config := {| cc_User := Username user; cc_Auth := auth; cc_HostKeyCallback := callback;
                       cc_HostKeyAlgorithms := HostKeyAlgorithms; cc_Timeout := 5 * Second |} in
      r ⟵ reconnect Background initial {| Client := None; Config := config; Host := Hostname u; Port := port;
                               Path := url_Path u; connect := cb |} ;;
      ret match r with (b, Ok _) => Ok b | (_, Err err) => Err err | (_, Panic) => Panic end
  end.

(** ** ssh_forwarder.go *)

(** [initialConnection]: at most [n] attempts left, [err] the last error. *)
Fixpoint initial_loop (n : nat) (backoff : Z) (err : option error) (cb : ConnectCallback)
    : M (res (option conn)) :=
  let stop := ret match err with None => Ok None | Some err => Err err end in
  match n with
  | O => stop
  | S n =>
      d ⟵ get (ctx_Done o) ;;
      if d : bool then stop
      else
        r ⟵ call_connect Ctx cb None ;;
        match r with
        | Ok c => ret (Ok (Some c))
        | Panic => ret Panic
        | Err err => sleep backoff ;;; initial_loop n (backOff backoff) (Some err) cb
        end
  end.
Definition initialConnection (cb : ConnectCallback) : M (res (option conn)) :=
  initial_loop 60 (100 * Millisecond) None cb.

(** The inner loop of [connectForward]: [Reconnect] until it succeeds; the answer is
    [None] when the fuel runs out. *)
Fixpoint bastion_loop (fuel : nat) (bastionRetries : Z) (b : bastion) : M (bastion * option (res unit)) :=
  match fuel with
  | O => ret (b, None)
  | S fuel =>
      r ⟵ Reconnect b ;;
      match r with
      | (b, Ok _) => ret (b, Some (Ok tt))
      | (b, Panic) => ret (b, Some Panic)
      | (b, Err err) =>
          let stop := ret (b, Some (Err (ErrWrap ("Couldn't reestablish ssh connection: " +:+ Host b) err))) in
          if decide (bastionRetries > 2) then stop
          else ok ⟵ sleep (200 * Millisecond) ;;
               if negb ok then stop else bastion_loop fuel (bastionRetries + 1) b
      end
  end.

(** [connectForward]; the answer is [None] when the fuel runs out. *)
Fixpoint connect_loop (fuel : nat) (retries : Z) (b : bastion) : M (bastion * option (res stream)) :=
  match fuel with
  | O => ret (b, None)
  | S fuel' =>
      match Client b with
      | None => ret (b, Some Panic)
      | Some cl =>
          r ⟵ lift (client_Dial o cl (Path b)) ;;
          match r with
          | inr s => emit (EvDial cl (Path b) true) ;;; ret (b, Some (Ok s))
          | inl err =>
              emit (EvDial cl (Path b) false) ;;;
              if decide (retries > 2)
              then ret (b, Some (Err (ErrWrap ("Couldn't reestablish ssh tunnel on path: " +:+ Path b) err)))
              else
                let again (b : bastion) :=
                  ok ⟵ sleep (200 * Millisecond) ;;
                  connect_loop fuel' ((if ok : bool then retries else 3) + 1) b in
                e ⟵ lift (SendRequest o cl "alive@gvproxy") ;;
                emit (EvAlive cl (bool_decide (e = None))) ;;;
                match e with
                | None => again b
                | Some _ =>
                    r ⟵ bastion_loop 3 1 b ;;
                    match r with
                    | (b, None) => ret (b, None)
                    | (b, Some (Ok _)) => again b
                    | (b, Some (Err err)) => ret (b, Some (Err err))
                    | (b, Some Panic) => ret (b, Some Panic)
                    end
                end
          end
      end
  end.
Definition connectForward (b : bastion) : M (bastion * option (res stream)) := connect_loop 3 1 b.

Definition listenUnix (windows : bool) (socketURI : URL) : M (res string) :=
  let path := if windows then TrimPrefix (url_Path socketURI) "/" else url_Path socketURI in
  e ⟵ lift (Remove o path) ;;
  match e with
  | Some err => ret (Err err)
  | None =>
      oldmask ⟵ lift (Umask o 127) ;;
      r ⟵ lift (Listen o "unix" path) ;;
      _ ⟵ lift (Umask o oldmask) ;;
      match r with
      | None => emit (EvListen "unix" path 127) ;;; ret (Ok path)
      | Some err => ret (Err (ErrWrap ("Error listening on socket: " +:+ url_Path socketURI) err))
      end
  end.

(** [strings.Replace(path, "/", "\", -1)]. *)
Fixpoint backslashes (s : string) : string :=
  match s with
  | EmptyString => EmptyString
  | String c s => String (if decide (c = "/"%char) then "092"%char else c) (backslashes s)
  end.

(** [ListenNpipe], in npipe_windows.go and npipe_unsupported.go. *)
Definition listenNpipe (windows : bool) (socketURI : URL) : M (res string) :=
  if negb windows then ret (Err (ErrMsg "named pipes are not supported by this platform"))
  else
    user ⟵ get (CurrentUid o) ;;
    match user with
    | inl err => ret (Err err)
    | inr _ =>
        let path := backslashes (url_Path socketURI) in
        r ⟵ lift (Listen o "npipe" path) ;;
        match r with
        | None => emit (EvListen "npipe" path 0) ;;; ret (Ok path)
        | Some err => ret (Err (ErrWrap "Error listening on socket" err))
        end
    end.

(** [setupProxy]; an error comes with an empty [SSHForward]. *)
Definition setupProxy (windows : bool) (socketURI dest : URL) (user : option Userinfo) (identity passphrase : string)
    : M (res (SSHForward client signer hostkey)) :=
  let listen :=
    if decide (url_Scheme socketURI = "unix") then
      r ⟵ listenUnix windows socketURI ;; ret (path ← r; mret (Some ("unix", path)))
    else if decide (url_Scheme socketURI = "npipe") then
      r ⟵ listenNpipe windows socketURI ;; ret (path ← r; mret (Some ("npipe", path)))
    else if decide (url_Scheme socketURI = "") then ret (Ok None)
    else ret (Err (ErrMsg ("URI scheme not supported: " +:+ url_Scheme socketURI))) in
  l ⟵ listen ;;
  match l with
  | Panic => ret Panic
  | Err err => ret (Err err)
  | Ok listener =>
      let cb := SetupConnect (url_Host dest) in
      c ⟵ initialConnection cb ;;
      match c with
      | Panic => ret Panic
      | Err err => ret (Err err)
      | Ok c =>
          b ⟵ CreateBastion dest user passphrase identity c cb ;;
          ret (b ← b; mret {| sf_listener := listener; sf_bastion := Some b; sf_sock := socketURI |})
      end
  end.

(** [CreateSSHForward] and the variant with a passphrase. *)
Definition CreateSSHForward windows (src dest : URL) user (identity : string) :=
  setupProxy windows src dest user identity "".
Definition CreateSSHForwardPassphrase windows (src dest : URL) user (identity passphrase : string) :=
  setupProxy windows src dest user identity passphrase.

Definition SSHForward_Close (f : SSHForward client signer hostkey) : M unit :=
  (match sf_listener f with Some _ => emit EvCloseListener | None => ret tt end) ;;;
  match sf_bastion f with Some b => Bastion_Close b | None => ret tt end.

(** [acceptConnection]: [Accept] of a nil listener (an empty scheme) panics;
    [errors.Wrapf] of a nil error is nil, so a connection without half-close is dropped
    without an error. *)
Definition acceptConnection (listener : option (string * string)) (b : bastion) (socketURI : URL)
    : M (bastion * option (res unit)) :=
  match listener with
  | None => ret (b, Some Panic)
  | Some _ =>
      a ⟵ lift (Accept o) ;;
      match a with
      | inl err =>
          emit (EvAccept false) ;;;
          ret (b, Some (Err (ErrWrap ("Error accepting on socket: " +:+ url_Path socketURI) err)))
      | inr half_close =>
          emit (EvAccept true) ;;;
          if negb half_close then emit EvCloseConn ;;; ret (b, Some (Ok tt))
          else
            r ⟵ connectForward b ;;
            match r with
            | (b, None) => ret (b, None)
            | (b, Some Panic) => ret (b, Some Panic)
            | (b, Some (Err err)) => emit EvCloseConn ;;; emit (EvLog err) ;;; ret (b, Some (Ok tt))
            | (b, Some (Ok _)) => emit EvForward ;;; ret (b, Some (Ok tt))
            end
      end
  end.

Definition set_bastion (b : bastion) (f : SSHForward client signer hostkey) : SSHForward client signer hostkey :=
  {| sf_listener := sf_listener f; sf_bastion := Some b; sf_sock := sf_sock f |}.

Definition AcceptAndTunnel (f : SSHForward client signer hostkey)
    : M (SSHForward client signer hostkey * option (res unit)) :=
  match sf_bastion f with
  | None => ret (f, Some Panic)
  | Some b => r ⟵ acceptConnection (sf_listener f) b (sf_sock f) ;; ret (set_bastion r.1 f, r.2)
  end.
Definition Tunnel (f : SSHForward client signer hostkey)
    : M (SSHForward client signer hostkey * option (res stream)) :=
  match sf_bastion f with
  | None => ret (f, Some Panic)
  | Some b => r ⟵ connectForward b ;; ret (set_bastion r.1 f, r.2)
  end.

(** ** The programs that forward sockets (gvproxy and win-sshproxy) *)

(** The loop of the goroutine of a forwarded socket, for [n] iterations; the
    answer is [None] when it is still running. *)
Fixpoint serve_loop (n : nat) (f : SSHForward client signer hostkey)
    : M (SSHForward client signer hostkey * option (res unit)) :=
  match n with
  | O => ret (f, None)
  | S n =>
      d ⟵ get (ctx_Done o) ;;
      if d : bool then ret (f, Some (Ok tt))
      else
        r ⟵ AcceptAndTunnel f ;;
        match r with
        | (f, Some (Ok _)) => serve_loop n f
        | (f, Some (Err err)) => emit (EvLog err) ;;; serve_loop n f
        | (f, a) => ret (f, a)
        end
  end.

(** The goroutine of a forwarded socket; the one it starts, which waits for the
    context, is [SSHForward_Close]. *)
Definition forward_task (n : nat) (windows : bool) (src dest : URL) user (identity : string) : M (option (res unit)) :=
  r ⟵ CreateSSHForward windows src dest user identity ;;
  match r with
  | Ok f => a ⟵ serve_loop n f ;; ret a.2
  | Err err => ret (Some (Err err))
  | Panic => ret (Some Panic)
  end.

(** ** Reasoning about the operations

    [wp m w Q]: [m] run in [w] ends with an answer, a world and a log in [Q]. *)
Definition wp {A} (m : M A) (w : W) (Q : A → W → list event → Prop) : Prop :=
  let '(a, w', l) := m w in Q a w' l.

Lemma wp_mono {A} (m : M A) w (P Q : A → W → list event → Prop) :
  wp m w P → (∀ a w' l, P a w' l → Q a w' l) → wp m w Q.
Proof. unfold wp. destruct (m w) as [[a w'] l]. auto. Qed.
Lemma wp_bind {A B} (m : M A) (f : A → M B) w Q :
  wp m w (λ a w1 l1, wp (f a) w1 (λ b w2 l2, Q b w2 (l1 ++ l2))) → wp (bind m f) w Q.
Proof. unfold wp, bind. destruct (m w) as [[a w1] l1]. by destruct (f a w1) as [[b w2] l2]. Qed.
Lemma wp_ret {A} (a : A) w Q : Q a w [] → wp (ret a) w Q.
Proof. done. Qed.
Lemma wp_emit e w Q : Q tt w [e] → wp (emit e) w Q.
Proof. done. Qed.
Lemma wp_lift {A} (f : W → A * W) w Q : (∀ a w', Q a w' []) → wp (lift f) w Q.
Proof. intros H. unfold wp, lift. by destruct (f w). Qed.
Lemma wp_get {A} (f : W → A) w Q : Q (f w) w [] → wp (get f) w Q.
Proof. done. Qed.

(** The steps of the common cases. *)
Ltac wp_step :=
  lazymatch goal with
  | |- wp (bind _ _) _ _ => apply wp_bind
  | |- wp (ret _) _ _ => apply wp_ret
  | |- wp (emit _) _ _ => apply wp_emit
  | |- wp (get _) _ _ => apply wp_get
  | |- wp (lift _) _ _ => apply wp_lift; let a := fresh "a" in let w := fresh "w" in intros a w
  | |- wp (sleep _) _ _ => unfold sleep
  | |- wp (match ?x with _ => _ end) _ _ => destruct x
  end; cbn beta iota.
Ltac wps := repeat wp_step; cbn [app].

(** *** Logs *)

Definition count (p : event → bool) (l : list event) : nat := length (filter (λ e, p e = true) l).

Lemma count_app p l1 l2 : count p (l1 ++ l2) = (count p l1 + count p l2)%nat.
Proof. unfold count. by rewrite filter_app, length_app. Qed.
Lemma count_cons p e l : count p (e :: l) = ((if p e then 1 else 0) + count p l)%nat.
Proof. unfold count. rewrite filter_cons. by destruct (p e). Qed.

Definition is_dial (e : event) : bool := match e with EvDial _ _ _ => true | _ => false end.
Definition is_alive (e : event) : bool := match e with EvAlive _ _ => true | _ => false end.
Definition is_connect (e : event) : bool := match e with EvDialTCP _ _ _ => true | _ => false end.
Definition is_accept (e : event) : bool := match e with EvAccept _ => true | _ => false end.
Definition accepted (e : event) : bool := match e with EvAccept ok => ok | _ => false end.
Definition served (e : event) : bool := match e with EvForward | EvCloseConn => true | _ => false end.
Definition good_dial (e : event) : bool := match e with EvDial _ _ ok => ok | _ => false end.

(** Every request of the log goes through the client of the last handshake
    before it; [cur] is the client at the beginning and [last] at the end. *)
Fixpoint through (cur : client) (l : list event) (last : client) : Prop :=
  match l with
  | [] => last = cur
  | EvDial c _ _ :: l | EvAlive c _ :: l => c = cur ∧ through cur l last
  | EvHandshake _ _ (Some c) :: l => through c l last
  | _ :: l => through cur l last
  end.

Lemma through_app cur mid last l1 l2 : through cur l1 mid → through mid l2 last → through cur (l1 ++ l2) last.
Proof.
  revert cur. induction l1 as [|e l1 IH]; intros cur; [by intros ->|].
  destruct e as [| |? ? []|c|c| | | | | | |]; cbn; naive_solver.
Qed.

(** What a log of at most [d] dials, [a] keep-alives and [t] connections is. *)
Record log_ok (cur last : client) (d a t : nat) (l : list event) : Prop := {
  log_through : through cur l last;
  log_dials : (count is_dial l <= d)%nat;
  log_alives : (count is_alive l <= a)%nat;
  log_connects : (count is_connect l <= t)%nat;
  log_accepts : count is_accept l = 0%nat;
  log_served : count served l = 0%nat;
}.

Lemma log_ok_app c1 c2 c3 d1 a1 t1 l1 d2 a2 t2 l2 d a t :
  log_ok c1 c2 d1 a1 t1 l1 → log_ok c2 c3 d2 a2 t2 l2 →
  (d1 + d2 <= d)%nat → (a1 + a2 <= a)%nat → (t1 + t2 <= t)%nat → log_ok c1 c3 d a t (l1 ++ l2).
Proof.
  intros [] [] ???. split; [by eapply through_app|..]; rewrite count_app; lia.
Qed.

Lemma log_ok_nil c : log_ok c c 0 0 0 [].
Proof. by split. Qed.

Lemma log_ok_weaken c1 c2 d1 a1 t1 d a t l :
  log_ok c1 c2 d1 a1 t1 l → (d1 <= d)%nat → (a1 <= a)%nat → (t1 <= t)%nat → log_ok c1 c2 d a t l.
Proof. intros []. split; try done; lia. Qed.

(** Events that are not counted. *)
Lemma log_ok_sleep c1 c2 d a t l x : log_ok c1 c2 d a t l → log_ok c1 c2 d a t (EvSleep x :: l).
Proof. intros []. by split. Qed.
Lemma log_ok_alive c1 c2 d a t l ok :
  log_ok c1 c2 d a t l → log_ok c1 c2 d (S a) t (EvAlive c1 ok :: l).
Proof. intros []. split; rewrite ?count_cons; cbn; auto with lia. Qed.
Lemma log_ok_dial c1 c2 d a t l p ok :
  log_ok c1 c2 d a t l → log_ok c1 c2 (S d) a t (EvDial c1 p ok :: l).
Proof. intros []. split; rewrite ?count_cons; cbn; auto with lia. Qed.

Lemma count_good_dial l : (count good_dial l <= count is_dial l)%nat.
Proof.
  induction l as [|e l IH]; [done|]. rewrite !count_cons.
  destruct e as [| | |? ? []| | | | | | | |]; cbn; lia.
Qed.

(** The dialer of a callback can panic: on this host, for some context and timeout. *)
Definition dialer_panics (c : ConnectCallback) : Prop :=
  match c with
  | SetupConnect host => ∃ ctx timeout w, (DialContextTCP o ctx host timeout w).1 = Panic
  | DefaultConnect => False
  end.

Lemma wp_call_connect ctx c b w : (c = DefaultConnect → is_Some b) →
  wp (call_connect ctx c b) w (λ r w' l, (r = Panic → dialer_panics c) ∧
    (∃ ctx' host timeout, l = [EvDialTCP ctx' host timeout]) ∧
    match c with SetupConnect host => b = None → l = [EvDialTCP ctx host (5 * Second)] | DefaultConnect => True end).
Proof.
  intros Hc. unfold call_connect. destruct c as [host|].
  - apply wp_bind, wp_emit. unfold wp, lift. destruct (DialContextTCP _ _ _ _ _) as [r w'] eqn:E. cbn. split_and!.
    + intros ->. eexists _, _, _. by rewrite E.
    + by eexists _, _, _.
    + by intros ->.
  - destruct (Hc eq_refl) as [b' ->]. wps. split_and!; [by destruct a|by eexists _, _, _|done].
Qed.

Lemma wp_Reconnect b w cur : Client b = Some cur →
  wp (Reconnect b) w (λ r w' l, match r with
    | (b', Ok _) => ∃ c, b' = set_Client c b ∧ log_ok cur c 0 0 1 l
    | (b', Err _) => b' = b ∧ log_ok cur cur 0 0 1 l
    | (b', Panic) => b' = b ∧ dialer_panics (connect b) ∧ log_ok cur cur 0 0 1 l
    end).
Proof.
  intros Hb. unfold Reconnect, reconnect. apply wp_bind. eapply wp_mono; [by apply wp_call_connect|].
  intros r w1 l (Hp & (ctx' & host & timeout & ->) & _). destruct r as [c|err|]; wps;
    try (eexists; split; [done|]); try (split; [by auto|]); try (split; [by auto|]); by split; cbn; auto with lia.
Qed.

Lemma wp_sleep d w Q : (∀ ok w', Q ok w' [EvSleep d]) → wp (sleep d) w Q.
Proof. intros H. unfold sleep. wps. apply H. Qed.

Lemma wp_bastion_loop fuel k b w cur : Client b = Some cur → (fuel ≠ 0)%nat → Z.of_nat fuel + k >= 4 →
  wp (bastion_loop fuel k b) w (λ r w' l,
    ∃ b' e c, r = (b', Some e) ∧ (e = Panic → dialer_panics (connect b)) ∧
      Client b' = Some c ∧ Path b' = Path b ∧ connect b' = connect b ∧ log_ok cur c 0 0 fuel l).
Proof.
  revert k w. induction fuel as [|fuel IH]; intros k w Hb H0 Hk; [done|]. cbn [bastion_loop].
  apply wp_bind. eapply wp_mono; [by apply wp_Reconnect|]. intros [b' [u|err|]] w1 l1 H.
  - destruct H as (c & -> & Hl). wps. rewrite app_nil_r. eexists _, _, c. split_and!; [done..|].
    eapply log_ok_weaken; [done|lia..].
  - destruct H as [-> Hl]. case_decide as Hr.
    { wps. rewrite app_nil_r. eexists _, _, _. split_and!; [done..|]. eapply log_ok_weaken; [done|lia..]. }
    apply wp_bind, wp_sleep. intros [] w2; cbn [negb].
    + eapply wp_mono; [apply IH; [done|lia|lia]|]. intros r w' l (b' & e & c & -> & He & Hc & Hp & Hn & Hl').
      eexists _, _, _. split_and!; [done..|]. eapply log_ok_app; [exact Hl|by apply log_ok_sleep|lia..].
    + wps. eexists _, _, _. split_and!; [done..|].
      eapply log_ok_app; [exact Hl|apply log_ok_sleep, log_ok_nil|lia..].
  - destruct H as (-> & Hp & Hl). wps. rewrite app_nil_r. eexists _, _, cur. split_and!; [done..|].
    eapply log_ok_weaken; [done|lia..].
Qed.

(** What a call of [connect_loop] with [n] attempts left has done. *)
Definition forwarded (cur : client) (n : nat) (path : string) (cb : ConnectCallback)
    (r : bastion * option (res stream)) (l : list event) : Prop :=
  ∃ b' a c, r = (b', Some a) ∧ (a = Panic → dialer_panics cb) ∧ Client b' = Some c ∧ Path b' = path ∧ connect b' = cb ∧
    log_ok cur c n (pred n) (3 * pred n) l ∧
    count good_dial l = (if a is Ok _ then 1 else 0)%nat ∧
    (∀ s, a = Ok s → last l = Some (EvDial c path true)).

(** After a failed dial and some other events, the attempts that are left. *)
Lemma forwarded_again cur mid n p cb r l0 l ok :
  log_ok cur mid 0 1 3 l0 → n ≠ 0%nat → forwarded mid n p cb r l →
  forwarded cur (S n) p cb r (EvDial cur p false :: l0 ++ EvSleep ok :: l).
Proof.
  intros H0 Hn (b' & a & c & -> & Ha & Hc & Hp & Hcb & Hl & Hg & Hlast).
  eexists _, _, c. split_and!; [done..| | |].
  - apply log_ok_dial. eapply log_ok_app; [exact H0|apply log_ok_sleep; exact Hl|cbn; lia..].
  - rewrite count_cons, count_app, count_cons, Hg. pose proof (count_good_dial l0). destruct H0. cbn. lia.
  - intros s Hs. specialize (Hlast s Hs).
    change (EvDial cur p false :: l0 ++ EvSleep ok :: l) with ((EvDial cur p false :: l0) ++ [EvSleep ok] ++ l).
    rewrite !last_app, Hlast. done.
Qed.

Lemma forwarded_stop cur mid b a l0 : (∀ s, a ≠ Ok s) → (a = Panic → dialer_panics (connect b)) →
  Client b = Some mid → ∀ n, log_ok cur mid 0 (pred n) (3 * pred n) l0 → (n ≠ 0)%nat →
  forwarded cur n (Path b) (connect b) (b, Some a) (EvDial cur (Path b) false :: l0).
Proof.
  intros Ha Hpn Hb n Hl Hn. eexists _, _, mid. split_and!; [done..| | |by intros s ->; destruct (Ha s)].
  - destruct n; [done|]. apply log_ok_dial. eapply log_ok_weaken; [exact Hl|lia..].
  - rewrite count_cons. pose proof (count_good_dial l0). destruct Hl. cbn.
    destruct a as [s| |]; [by destruct (Ha s)|lia..].
Qed.

Lemma wp_connect_loop fuel k b w cur : Client b = Some cur → (fuel ≠ 0)%nat → Z.of_nat fuel + k >= 4 →
  wp (connect_loop fuel k b) w (λ r w' l, forwarded cur fuel (Path b) (connect b) r l).
Proof.
  revert k b w cur. induction fuel as [|fuel IH]; intros k b w cur Hb H0 Hk; [done|]. cbn [connect_loop]. rewrite Hb.
  assert (∀ b' mid w1 l0, Client b' = Some mid → Path b' = Path b → connect b' = connect b → ¬ k > 2 → log_ok cur mid 0 1 3 l0 →
    wp (bind (sleep (200 * Millisecond)) (λ ok, connect_loop fuel ((if ok : bool then k else 3) + 1) b')) w1
      (λ r w' l, forwarded cur (S fuel) (Path b) (connect b) r (EvDial cur (Path b) false :: l0 ++ l))) as Hagain.
  { intros b' mid w1 l0 Hb' Hp' Hcb' Hk2 Hl. apply wp_bind, wp_sleep. intros ok w2.
    eapply wp_mono; [apply (IH _ _ _ mid Hb')|].
    - lia.
    - destruct ok; lia.
    - intros r w3 l Hr. rewrite Hp', Hcb' in Hr. apply (forwarded_again _ mid); [done|lia|done]. }
  wp_step. wp_step. destruct a as [err|s].
  - apply wp_bind, wp_emit. case_decide as Hk2.
    { wps. apply (forwarded_stop _ cur); [done..| |done]. eapply log_ok_weaken; [apply log_ok_nil|lia..]. }
    wp_step. wp_step. apply wp_bind, wp_emit. destruct a as [err'|].
    + apply wp_bind. eapply wp_mono; [by apply (wp_bastion_loop 3)|].
      intros r w3 l (b' & e & c & -> & He & Hc & Hp & Hcb & Hl). rewrite <- Hp, <- Hcb in *.
      destruct e as [u|err2|].
      * eapply wp_mono; [eapply (Hagain b' c _ (EvAlive cur (bool_decide (Some err' = None)) :: l)); [done..|]|].
        -- by apply log_ok_alive.
        -- intros r w4 l'. cbn [app]. done.
      * wps. rewrite app_nil_r. apply (forwarded_stop _ c); [done..| |done].
        destruct fuel; [lia|]. apply log_ok_alive. eapply log_ok_weaken; [exact Hl|cbn; lia..].
      * wps. rewrite app_nil_r. apply (forwarded_stop _ c); [done|by intros _; apply He|done| |done].
        destruct fuel; [lia|]. apply log_ok_alive. eapply log_ok_weaken; [exact Hl|cbn; lia..].
    + eapply wp_mono; [eapply (Hagain b cur _ [EvAlive cur (bool_decide (@None error = None))]); [done..|]|].
      * apply log_ok_alive. eapply log_ok_weaken; [apply log_ok_nil|lia..].
      * intros r w4 l'. cbn [app]. done.
  - wps. eexists _, _, cur. split_and!; [done..| |done|by intros ? [= ->]].
    apply log_ok_dial. eapply log_ok_weaken; [apply log_ok_nil|lia..].
Qed.

(** *** The accept loop *)

Lemma count_accepted l : (count accepted l <= count is_accept l)%nat.
Proof. induction l as [|e l IH]; [done|]. rewrite !count_cons. destruct e as [| | | | | |[]| | | | |]; cbn; lia. Qed.

(** The log of [n] calls of Accept that keeps to the client of the last
    handshake, in which every accepted connection is tunnelled or closed. *)
Record loop_log (cur last : client) (n : nat) (l : list event) : Prop := {
  loop_through : through cur l last;
  loop_accepts : count is_accept l = n;
  loop_served : count served l = count accepted l;
}.

Lemma loop_log_nil c : loop_log c c 0 [].
Proof. by split. Qed.
Lemma loop_log_app c1 c2 c3 n1 l1 n2 l2 :
  loop_log c1 c2 n1 l1 → loop_log c2 c3 n2 l2 → loop_log c1 c3 (n1 + n2) (l1 ++ l2).
Proof. intros [] []. split; [by eapply through_app|..]; rewrite !count_app; lia. Qed.

(** A forward whose bastion has the client [c]. *)
Definition ready (f : SSHForward client signer hostkey) (c : client) : Prop :=
  ∃ b, sf_bastion f = Some b ∧ Client b = Some c.

(** A socket that can be served: it has a listener, and the dialer of its bastion does
    not panic on the address of the server. *)
Definition serving (f : SSHForward client signer hostkey) (c : client) : Prop :=
  is_Some (sf_listener f) ∧ ∃ b, sf_bastion f = Some b ∧ Client b = Some c ∧ ¬ dialer_panics (connect b).

Lemma loop_log_accept cur c d a t l l' :
  log_ok cur c d a t l → (∀ e, e ∈ l' → e = EvForward ∨ e = EvCloseConn ∨ ∃ err, e = EvLog err) →
  count served l' = 1%nat → loop_log cur c 1 (EvAccept true :: l ++ l').
Proof.
  intros [Ht _ _ _ Ha Hs] Hl' H1.
  assert (through c l' c ∧ count is_accept l' = 0%nat) as [Ht' Ha'].
  { clear H1. induction l' as [|e l' IH]; [done|]. destruct IH as [IH1 IH2]; [intros; apply Hl'; set_solver|].
    rewrite count_cons, IH2. destruct (Hl' e ltac:(set_solver)) as [->|[->|[err ->]]]; by split. }
  pose proof (count_accepted l). pose proof (count_accepted l').
  split; [by cbn; eapply through_app|..]; rewrite !count_cons, !count_app; cbn; lia.
Qed.

Lemma wp_AcceptAndTunnel f w cur : serving f cur →
  wp (AcceptAndTunnel f) w (λ r w' l,
    ∃ f' a c, r = (f', Some a) ∧ a ≠ Panic ∧ serving f' c ∧ loop_log cur c 1 l).
Proof.
  intros ([lis Hlis] & b & Hf & Hb & Hd). unfold AcceptAndTunnel, acceptConnection. rewrite Hf, Hlis.
  assert (∀ b' c, Client b' = Some c → connect b' = connect b → serving (set_bastion b' f) c) as Hserve.
  { intros b' c Hc Hcb. split; [by exists lis|]. exists b'. by rewrite Hcb. }
  apply wp_bind, wp_bind, wp_lift. intros [err|[]] w1; cbn [negb].
  - wps. eexists _, _, cur. split_and!; [done..|by apply Hserve|by split].
  - apply wp_bind, wp_emit, wp_bind. eapply wp_mono; [by apply (wp_connect_loop 3 1)|].
    intros r w2 l (b' & a & c & -> & Ha & Hc & _ & Hcb & Hl & _).
    destruct a as [st|err|]; [..|by destruct Hd; apply Ha]; wps; cbn; eexists _, _, c;
      (split_and!; [done..|by apply Hserve|]);
      rewrite ?app_nil_r; (eapply loop_log_accept; [exact Hl|set_solver|done]).
  - wps. eexists _, _, cur. split_and!; [done..|by apply Hserve|by split].
Qed.

(** Without a listener. *)
Lemma AcceptAndTunnel_nil f w : sf_listener f = None → AcceptAndTunnel f w = ((f, Some Panic), w, []).
Proof. destruct f as [lis [b|] sock]; cbn; by intros ->. Qed.

Lemma wp_serve_loop n f w cur : serving f cur →
  wp (serve_loop n f) w (λ r w' l, ∃ f' a c m, r = (f', a) ∧ serving f' c ∧ loop_log cur c m l ∧
    (a = None ∧ m = n ∨ a = Some (Ok tt) ∧ (m < n)%nat ∧ ctx_Done o w' = true)).
Proof.
  revert f w cur. induction n as [|n IH]; intros f w cur Hf; cbn [serve_loop].
  { apply wp_ret. exists f, None, cur, 0%nat. split_and!; [done..|apply loop_log_nil|by left]. }
  apply wp_bind, wp_get. destruct (ctx_Done o w) eqn:Hd.
  { apply wp_ret. exists f, (Some (Ok tt)), cur, 0%nat. split_and!; [done..|apply loop_log_nil|].
    right. split_and!; [done|lia|done]. }
  apply wp_bind. eapply wp_mono; [by apply wp_AcceptAndTunnel|].
  intros r w1 l1 (f1 & a & c1 & -> & Ha & Hf1 & Hl1).
  assert (∀ l0 : list event, (∀ e, e ∈ l0 → ∃ err, e = EvLog err) →
    wp (serve_loop n f1) w1 (λ r w' l, ∃ f' a c m, r = (f', a) ∧ serving f' c ∧
      loop_log cur c m (l1 ++ l0 ++ l) ∧
      (a = None ∧ m = S n ∨ a = Some (Ok tt) ∧ (m < S n)%nat ∧ ctx_Done o w' = true))) as Hgo.
  { intros l0 Hl0. eapply wp_mono; [by apply IH|]. intros r w2 l2 (f' & a' & c & m & -> & Hf' & Hl2 & Hm).
    eexists f', a', c, (1 + (0 + m))%nat. split_and!; [done..| |].
    - eapply loop_log_app; [exact Hl1|]. eapply loop_log_app; [|exact Hl2].
      clear -Hl0. induction l0 as [|e l0 IH]; [apply loop_log_nil|].
      destruct (Hl0 e ltac:(set_solver)) as [err ->]. destruct IH; [set_solver|]. split; by rewrite ?count_cons.
    - destruct Hm as [[-> ->]|(-> & Hm & Hd')]; [by left|]. right. split_and!; [done|lia|done]. }
  destruct a as [[]|err|]; [..|done].
  - apply (Hgo []). set_solver.
  - apply wp_bind, wp_emit. apply (Hgo [EvLog err]). set_solver.
Qed.

(** *** The first connection *)

Definition server_dial (host : string) : event := EvDialTCP Ctx host (5 * Second).

(** The log of [k] attempts that failed, from the [i]th on, and the wait after
    attempt [i]: doubled from 100 ms up to a second. *)
Definition wait_after (i : nat) : Z := Z.min (100 * Millisecond * 2 ^ Z.of_nat i) Second.
Definition failed_attempts (host : string) (i k : nat) : list event :=
  concat ((λ i, [server_dial host; EvSleep (wait_after i)]) <$> seq i k).

Lemma backOff_wait i : backOff (wait_after i) = wait_after (S i).
Proof.
  unfold backOff, wait_after. rewrite Nat2Z.inj_succ, Z.pow_succ_r by lia.
  assert (0 < 2 ^ Z.of_nat i) by (apply Z.pow_pos_nonneg; lia).
  unfold Second, Millisecond. repeat case_decide; lia.
Qed.

Lemma wp_initial_loop n i err host w :
  wp (initial_loop n (wait_after i) err (SetupConnect host)) w (λ r w' l,
    (∃ k c, (k < n)%nat ∧ r = Ok (Some c) ∧ l = failed_attempts host i k ++ [server_dial host]) ∨
    (∃ k, (k <= n)%nat ∧ l = failed_attempts host i k ∧ ((k < n)%nat → ctx_Done o w' = true) ∧
       if decide (k = 0%nat) then r = match err with None => Ok None | Some e => Err e end
       else ∃ e, r = Err e) ∨
    (∃ k, (k < n)%nat ∧ r = Panic ∧ l = failed_attempts host i k ++ [server_dial host] ∧ dialer_panics (SetupConnect host))).
Proof.
  revert i err w. induction n as [|n IH]; intros i err w; cbn [initial_loop].
  { right. left. exists 0%nat. split_and!; [lia|done|lia|done]. }
  wp_step. wp_step. destruct (ctx_Done o w) eqn:Hd.
  { right. left. exists 0%nat. split_and!; [lia|done|done|done]. }
  apply wp_bind. eapply wp_mono; [by apply wp_call_connect|]. cbn beta iota.
  intros [c|e|] w1 l (Hp & _ & Hl); rewrite (Hl eq_refl).
  - wps. left. exists 0%nat, c. split_and!; [lia|done|done].
  - apply wp_bind, wp_sleep. intros ok w2. rewrite backOff_wait. eapply wp_mono; [apply IH|].
    intros r w3 l' [(k & c & Hk & -> & ->)|[(k & Hk & -> & Hdone & Hr)|(k & Hk & -> & -> & Hpan)]]; [left|right; left|right; right].
    + exists (S k), c. split_and!; [lia|done|done].
    + exists (S k). split_and!; [lia|done|intros; apply Hdone; lia|]. rewrite decide_False by done.
      case_decide; [by eexists|done].
    + exists (S k). split_and!; [lia|done|done|done].
  - wps. right. right. exists 0%nat. split_and!; [lia|done|done|by apply Hp].
Qed.

(** ** Properties *)

(** C25: opening a channel to the guest always returns.  It makes at most three
    dials, two keep-alive requests and six reconnections; every request goes
    through the client of the latest handshake, which is the one the bastion
    keeps; the answer is the channel of the last dial exactly when one dial
    succeeded, and an error otherwise, never a panic unless the dialer of the caller
    panics. *)
Theorem connectForward_bounded b w cur : Client b = Some cur →
  ∃ b' a w' l c, connectForward b w = ((b', Some a), w', l) ∧ (a = Panic → dialer_panics (connect b)) ∧
    Client b' = Some c ∧ through cur l c ∧
    (count is_dial l <= 3)%nat ∧ (count is_alive l <= 2)%nat ∧ (count is_connect l <= 6)%nat ∧
    count good_dial l = (if a is Ok _ then 1 else 0)%nat ∧
    (∀ s, a = Ok s → last l = Some (EvDial c (Path b) true)).
Proof.
  intros Hb. pose proof (wp_connect_loop 3 1 b w cur Hb ltac:(done) ltac:(lia)) as H.
  unfold wp in H. unfold connectForward. destruct (connect_loop 3 1 b w) as [[r w'] l].
  destruct H as (b' & a & c & -> & Ha & Hc & _ & _ & [] & Hg & Hlast). by eexists _, _, _, _, c.
Qed.

(** The first connection to the guest's SSH server.  At most sixty attempts
    are made, with waits of 100 ms doubled up to one second, until one succeeds
    or the context is done; a context that is done before the first attempt is
    not an error: no connection and no error are returned.  A dialer that panics ends the
    attempts with its panic. *)
Theorem initialConnection_spec host w :
  let '(r, w', l) := initialConnection (SetupConnect host) w in
  (∃ k c, (k < 60)%nat ∧ r = Ok (Some c) ∧ l = failed_attempts host 0 k ++ [server_dial host]) ∨
  (∃ k, (k <= 60)%nat ∧ l = failed_attempts host 0 k ∧ ((k < 60)%nat → ctx_Done o w' = true) ∧
     if decide (k = 0%nat) then r = Ok None else ∃ e, r = Err e) ∨
  (∃ k, (k < 60)%nat ∧ r = Panic ∧ l = failed_attempts host 0 k ++ [server_dial host] ∧ dialer_panics (SetupConnect host)).
Proof. apply (wp_initial_loop 60 0 None host w). Qed.

(** C24: the accept loop of a forwarded socket, after any number of iterations.  With a
    listener, and a dialer that does not panic on the address of the server,
    it never panics and never returns an error; it stops only when the context
    is done, and then for good.  Until then it has called Accept once per
    iteration; every connection it accepted was handed to the copying goroutines
    or closed, and every request went through the client of the latest
    handshake, which the bastion keeps.  Without a listener, which is what a source with an
    empty scheme gets, the first iteration panics unless the context is done. *)
Theorem serve_loop_spec n f w :
  (∀ cur, serving f cur →
     ∃ f' a w' l c m, serve_loop n f w = ((f', a), w', l) ∧ serving f' c ∧ through cur l c ∧
       count is_accept l = m ∧ count served l = count accepted l ∧
       (a = None ∧ m = n ∨ a = Some (Ok tt) ∧ (m < n)%nat ∧ ctx_Done o w' = true)) ∧
  (sf_listener f = None → n ≠ 0%nat →
     serve_loop n f w = ((f, Some (if ctx_Done o w then Ok tt else Panic)), w, [])).
Proof.
  split.
  - intros cur Hf. pose proof (wp_serve_loop n f w cur Hf) as H. unfold wp in H.
    destruct (serve_loop n f w) as [[r w'] l]. destruct H as (f' & a & c & m & -> & Hr & [] & Hm).
    by exists f', a, w', l, c, m.
  - intros Hf Hn. destruct n; [done|]. cbn [serve_loop]. unfold bind, get. destruct (ctx_Done o w); [done|].
    by rewrite AcceptAndTunnel_nil.
Qed.

(** What [setupProxy] returns has a listener unless the scheme is empty, and dials the
    host of the destination. *)
Lemma setupProxy_listener windows socketURI dest user identity passphrase w :
  wp (setupProxy windows socketURI dest user identity passphrase) w (λ r _ _, ∀ f, r = Ok f →
    (sf_listener f = None ↔ url_Scheme socketURI = "") ∧ sf_sock f = socketURI).
Proof.
  unfold setupProxy. apply wp_bind.
  match goal with |- wp ?m _ _ => assert (wp m w (λ l _ _, ∀ x, l = Ok x → (x = None ↔ url_Scheme socketURI = ""))) as Hl end.
  { case_decide as H1; [|case_decide as H2; [|case_decide as H3]].
    - apply wp_bind. unfold wp. destruct (listenUnix windows socketURI w) as [[r w1] l1]. apply wp_ret.
      intros x. destruct r; cbn; try done. intros [= <-]. rewrite H1. by split.
    - apply wp_bind. unfold wp. destruct (listenNpipe windows socketURI w) as [[r w1] l1]. apply wp_ret.
      intros x. destruct r; cbn; try done. intros [= <-]. rewrite H2. by split.
    - apply wp_ret. by intros x [= <-].
    - apply wp_ret. done. }
  eapply wp_mono; [exact Hl|]. intros [x|err|] w1 l1 Hx; [|by apply wp_ret..]. apply wp_bind.
  unfold wp at 1. destruct (initialConnection _ w1) as [[c w2] l2]. destruct c as [c|err|]; [|by apply wp_ret..].
  apply wp_bind. unfold wp at 1. destruct (CreateBastion _ _ _ _ _ _ w2) as [[b w3] l3]. apply wp_ret.
  intros f. destruct b; cbn; try done. intros [= <-]. cbn. auto.
Qed.

(** A source with an empty scheme, such as [/x://y]: once the SSH connection stands, the
    goroutine panics. *)
Theorem tunnel_only_panics n windows src dest user identity f w w1 l : url_Scheme src = "" →
  CreateSSHForward windows src dest user identity w = (Ok f, w1, l) →
  forward_task (S n) windows src dest user identity w = (Some (if ctx_Done o w1 then Ok tt else Panic), w1, l).
Proof.
  intros Hsc Hcr. pose proof (setupProxy_listener windows src dest user identity "" w) as H.
  unfold CreateSSHForward in Hcr. unfold wp in H. rewrite Hcr in H. destruct (H f eq_refl) as [[_ Hl] _].
  unfold forward_task, CreateSSHForward, bind, ret. rewrite Hcr. cbn [serve_loop]. unfold bind, get.
  destruct (ctx_Done o w1); [cbn; by rewrite !app_nil_r|]. rewrite AcceptAndTunnel_nil by auto. cbn. by rewrite !app_nil_r.
Qed.
End ssh.

(** ** Witnesses *)

(** A server that has dropped the client 0; new connections get the client 1. *)
Definition outside0 : outside (W := unit) (client := nat) (signer := unit) (hostkey := unit) (conn := unit) (stream := unit) := {|
  ctx_Done := λ _, false;
  race := λ _ w, (true, w);
  DialContextTCP := λ _ _ _ w, (Ok tt, w);
  net_DialTimeout := λ _ _ w, (inr tt, w);
  NewClientConn := λ _ _ _ w, (inr 1%nat, w);
  client_Dial := λ c _ w, (if decide (c = 1%nat) then inr tt else inl (ErrExt "EOF"), w);
  SendRequest := λ c _ w, (if decide (c = 1%nat) then None else Some (ErrExt "EOF"), w);
  ReadFile := λ _ _, inr "key";
  ParsePrivateKey := λ _, KeyOk tt;
  ParsePrivateKeyWithPassphrase := λ _ _, inr tt;
  known_hosts := λ _, inr [];
  ParseKnownHosts := λ _, inl (ErrExt "parse");
  HashHostname := λ _ w, ("|1|", w);
  Remove := λ _ w, (None, w);
  Umask := λ _ w, (18, w);
  Listen := λ _ _ w, (None, w);
  CurrentUid := λ _, inr "S-1";
  Accept := λ w, (inr true, w);
|}.

Definition bastion0 : Bastion nat unit unit :=
  {| Client := Some 0%nat;
     Config := {| cc_User := "core"; cc_Auth := [PublicKeys tt]; cc_HostKeyCallback := InsecureIgnoreHostKey;
                  cc_HostKeyAlgorithms := HostKeyAlgorithms; cc_Timeout := 5 * Second |};
     Host := "192.168.127.2"; Port := "22"; Path := "/run/podman/podman.sock";
     connect := SetupConnect "192.168.127.2:22" |}.

Example connectForward_renews :
  (connectForward outside0 bastion0 tt).1.1.2 = Some (Ok tt) ∧
  Client (connectForward outside0 bastion0 tt).1.1.1 = Some 1%nat.
Proof. by vm_compute. Qed.

Lemma connectForward_bounded_witness : ∃ b' a w' l c,
  connectForward outside0 bastion0 tt = ((b', Some a), w', l) ∧ Client b' = Some c ∧ through 0%nat l c.
Proof.
  destruct (connectForward_bounded outside0 bastion0 tt 0%nat eq_refl) as (b' & a & w' & l & c & H & _ & Hc & Ht & _).
  by exists b', a, w', l, c.
Defined.

(** The first connection renews the client, the second one uses it. *)
Definition forward0 : SSHForward nat unit unit :=
  {| sf_listener := Some ("unix", "/tmp/podman.sock"); sf_bastion := Some bastion0;
     sf_sock := {| url_Scheme := "unix"; url_Host := ""; url_Path := "/tmp/podman.sock"; url_Query := ∅ |} |}.

Lemma serving_forward0 : serving outside0 forward0 0%nat.
Proof.
  split; [by eexists|]. exists bastion0. split_and!; [done..|]. intros (ctx & t & w & H). discriminate H.
Qed.

Lemma serve_loop_spec_witness : ∃ f' w' l c,
  serve_loop outside0 2 forward0 tt = ((f', None), w', l) ∧ through 0%nat l c ∧
  count accepted l = 2%nat ∧ count served l = 2%nat.
Proof.
  destruct (proj1 (serve_loop_spec outside0 2 forward0 tt) 0%nat serving_forward0)
    as (f' & a & w' & l & c & m & H & _ & Ht & _ & Hs & _).
  assert (a = None ∧ count accepted l = 2%nat) as [-> Ha]; [|by exists f', w', l, c; rewrite Hs].
  revert H. vm_compute. by intros [= _ <- _ <-].
Defined.

(** [-forward-sock /x://y]: the goroutine panics. *)
Example tunnel_only :
  (forward_task outside0 1 false {| url_Scheme := ""; url_Host := ""; url_Path := "/x://y"; url_Query := ∅ |}
    {| url_Scheme := "ssh"; url_Host := "192.168.127.2:22"; url_Path := "/run/podman/podman.sock"; url_Query := ∅ |}
    None "/home/u/.ssh/key" tt).1.1 = Some Panic.
Proof. by vm_compute. Qed.
