(* ===== verification/Pipe.v ===== *)
(** pkg/sshclient/ssh_forwarder.go, [acceptConnection] and [forward]: the two
    goroutines that copy the bytes of an accepted connection in both directions,
    and the third one that closes the sockets.  The three run concurrently with
    the two peers; [act] is one step of any of them.  A socket holds a bounded number
    of bytes that its peer has not read, and a copy waits while it is full. *)
From S2P Require Import Prelude.

Local Open Scope Z_scope.

(** [Up] copies from the accepted connection to the tunnel, [Down] back. *)
Inductive side := Up | Down.

#[export] Instance side_eq_dec : EqDecision side.
Proof. solve_decision. Defined.

(** Where a goroutine [forward] is: in [io.Copy], before [dest.CloseWrite()],
    before [complete.Done()], or gone. *)
Inductive phase := Copying | Copied | HalfClosed | Finished.

#[export] Instance phase_eq_dec : EqDecision phase.
Proof. solve_decision. Defined.

(** One direction: what the peer wrote ([sent]), the part of it that is still to be
    written to the other end (on the socket, or in the buffer of the goroutine), whether
    the peer has ended its side, what was written to the other end, whether the copy
    failed, whether the end was announced.  The other end does not read by itself:
    [inflight] of the bytes written to it are still in the buffers of its socket, which
    hold [capacity] bytes; a write that finds no room blocks. *)
Record direction := {
  sent : list Z;
  unread : list Z;
  ended : bool;
  delivered : list Z;
  failed : bool;
  announced : bool;
  capacity : positive;
  inflight : nat;
  d_phase : phase;
}.

Definition room (d : direction) : nat := Pos.to_nat (capacity d) - inflight d.

(** The tunnel: both directions, the [sync.WaitGroup] and the two sockets. *)
Record tunnel := {
  t_up : direction;
  t_down : direction;
  waiting : Z;
  src_open : bool;
  dest_open : bool;
}.

Definition direction0 (c : positive) : direction :=
  {| sent := []; unread := []; ended := false; delivered := []; failed := false; announced := false;
     capacity := c; inflight := 0; d_phase := Copying |}.

(** The state in which [acceptConnection] returns: [complete.Add(2)]. *)
Definition tunnel0 (cu cd : positive) : tunnel :=
  {| t_up := direction0 cu; t_down := direction0 cd; waiting := 2; src_open := true; dest_open := true |}.

Definition at_side (s : side) (t : tunnel) : direction := match s with Up => t_up t | Down => t_down t end.
Definition set_side (s : side) (d : direction) (t : tunnel) : tunnel :=
  {| t_up := match s with Up => d | Down => t_up t end; t_down := match s with Up => t_down t | Down => d end;
     waiting := waiting t; src_open := src_open t; dest_open := dest_open t |}.

(** The buffer of [io.Copy]. *)
Definition copyBuffer : Z := 32 * 1024.

(** *** The steps of a peer *)
Definition arrive (bs : list Z) (d : direction) : option direction :=
  if ended d then None
  else Some {| sent := sent d ++ bs; unread := unread d ++ bs; ended := false; delivered := delivered d;
               failed := failed d; announced := announced d; capacity := capacity d; inflight := inflight d; d_phase := d_phase d |}.
Definition peer_end (d : direction) : option direction :=
  Some {| sent := sent d; unread := unread d; ended := true; delivered := delivered d;
          failed := failed d; announced := announced d; capacity := capacity d; inflight := inflight d; d_phase := d_phase d |}.

(** The peer of the other end reads [k] bytes. *)
Definition drain (k : nat) (d : direction) : option direction :=
  if decide (0 < k ≤ inflight d)%nat then
    Some {| sent := sent d; unread := unread d; ended := ended d; delivered := delivered d;
            failed := failed d; announced := announced d; capacity := capacity d; inflight := inflight d - k;
            d_phase := d_phase d |}
  else None.

(** *** The steps of [forward] *)

(** One iteration of [io.Copy] reads bytes and writes them, for which the socket may
    take several pieces: here are [n] bytes for which it has room. *)
Definition copy_chunk (n : nat) (d : direction) : option direction :=
  if decide (d_phase d = Copying ∧ 0 < Z.of_nat n ≤ copyBuffer ∧ (n ≤ length (unread d) ∧ n ≤ room d)%nat) then
    Some {| sent := sent d; unread := drop n (unread d); ended := ended d;
            delivered := delivered d ++ take n (unread d);
            failed := failed d; announced := announced d; capacity := capacity d; inflight := inflight d + n; d_phase := Copying |}
  else None.

(** One that reads [n] bytes and fails after writing [k] of them; [n = 0] is a
    failing read. *)
Definition copy_fail (n k : nat) (d : direction) : option direction :=
  if decide (d_phase d = Copying ∧ Z.of_nat n ≤ copyBuffer ∧ (n ≤ length (unread d) ∧ k ≤ n ∧ k ≤ room d)%nat) then
    Some {| sent := sent d; unread := drop n (unread d); ended := ended d;
            delivered := delivered d ++ take k (unread d);
            failed := true; announced := announced d; capacity := capacity d; inflight := inflight d + k; d_phase := Copied |}
  else None.

(** [io.Copy] returns at the end of the file. *)
Definition copy_eof (d : direction) : option direction :=
  if decide (d_phase d = Copying ∧ unread d = [] ∧ ended d = true) then
    Some {| sent := sent d; unread := unread d; ended := ended d; delivered := delivered d;
            failed := failed d; announced := announced d; capacity := capacity d; inflight := inflight d; d_phase := Copied |}
  else None.

(** [dest.CloseWrite()], whose error is ignored. *)
Definition close_write (d : direction) : option direction :=
  if decide (d_phase d = Copied) then
    Some {| sent := sent d; unread := unread d; ended := ended d; delivered := delivered d;
            failed := failed d; announced := true; capacity := capacity d; inflight := inflight d; d_phase := HalfClosed |}
  else None.

(** The deferred [complete.Done()]. *)
Definition finish (d : direction) : option direction :=
  if decide (d_phase d = HalfClosed) then
    Some {| sent := sent d; unread := unread d; ended := ended d; delivered := delivered d;
            failed := failed d; announced := announced d; capacity := capacity d; inflight := inflight d; d_phase := Finished |}
  else None.

(** *** The steps of the closing goroutine *)
Definition close_src (t : tunnel) : option tunnel :=
  if decide (waiting t = 0 ∧ src_open t = true) then
    Some {| t_up := t_up t; t_down := t_down t; waiting := waiting t; src_open := false; dest_open := dest_open t |}
  else None.
Definition close_dest (t : tunnel) : option tunnel :=
  if decide (waiting t = 0 ∧ src_open t = false ∧ dest_open t = true) then
    Some {| t_up := t_up t; t_down := t_down t; waiting := waiting t; src_open := false; dest_open := false |}
  else None.

Inductive action :=
  | Arrive (s : side) (bs : list Z)
  | PeerEnd (s : side)
  | Drain (s : side) (k : nat)
  | Chunk (s : side) (n : nat)
  | Fail_ (s : side) (n k : nat)
  | Eof (s : side)
  | CloseWrite (s : side)
  | Done_ (s : side)
  | CloseSrc
  | CloseDest.

Definition on (s : side) (f : direction → option direction) (t : tunnel) : option tunnel :=
  d ← f (at_side s t); Some (set_side s d t).

Definition act (a : action) (t : tunnel) : option tunnel :=
  match a with
  | Arrive s bs => on s (arrive bs) t
  | PeerEnd s => on s peer_end t
  | Drain s k => on s (drain k) t
  | Chunk s n => on s (copy_chunk n) t
  | Fail_ s n k => on s (copy_fail n k) t
  | Eof s => on s copy_eof t
  | CloseWrite s => on s close_write t
  | Done_ s =>
      t' ← on s finish t;
      Some {| t_up := t_up t'; t_down := t_down t'; waiting := waiting t' - 1;
              src_open := src_open t'; dest_open := dest_open t' |}
  | CloseSrc => close_src t
  | CloseDest => close_dest t
  end.

(** Who does a step: the program; the peers when they read, or when a socket breaks;
    the peers when they write or end. *)
Definition internal (a : action) : bool :=
  match a with Arrive _ _ | PeerEnd _ | Drain _ _ | Fail_ _ _ _ => false | _ => true end.
Definition writing (a : action) : bool := match a with Arrive _ _ | PeerEnd _ => true | _ => false end.
Definition reading (a : action) : bool := match a with Drain _ _ => true | _ => false end.

(** The steps of everybody; those of the program alone; those of the program while the
    peers read; those of everybody when the peers have nothing more to write. *)
Definition any_step (t t' : tunnel) : Prop := ∃ a, act a t = Some t'.
Definition own_step (t t' : tunnel) : Prop := ∃ a, internal a = true ∧ act a t = Some t'.
Definition read_step (t t' : tunnel) : Prop := ∃ a, internal a || reading a = true ∧ act a t = Some t'.
Definition late_step (t t' : tunnel) : Prop := ∃ a, writing a = false ∧ act a t = Some t'.

(** A write that blocks: the peer it is for does not read. *)
Definition blocked (d : direction) : Prop := d_phase d = Copying ∧ unread d ≠ [] ∧ room d = 0%nat ∧ (0 < inflight d)%nat.

(** ** The invariant *)

Definition not_finished (d : direction) : Z := if decide (d_phase d = Finished) then 0 else 1.

Record direction_ok (d : direction) : Prop := {
  ok_prefix : delivered d `prefix_of` sent d;
  ok_all : failed d = false → sent d = delivered d ++ unread d;
  ok_eof : d_phase d ≠ Copying → failed d = false → ended d = true ∧ unread d = [];
  ok_failed : failed d = true → d_phase d ≠ Copying;
  ok_announced : announced d = true ↔ d_phase d = HalfClosed ∨ d_phase d = Finished;
  ok_room : (inflight d ≤ Pos.to_nat (capacity d))%nat;
}.

Record tunnel_ok (t : tunnel) : Prop := {
  ok_side s : direction_ok (at_side s t);
  ok_waiting : waiting t = not_finished (t_up t) + not_finished (t_down t);
  ok_src : src_open t = false → waiting t = 0;
  ok_dest : dest_open t = false → src_open t = false;
}.

Lemma direction0_ok c : direction_ok (direction0 c).
Proof. split; cbn; try naive_solver. lia. Qed.
Lemma tunnel0_ok cu cd : tunnel_ok (tunnel0 cu cd).
Proof. split; try done. intros []; apply direction0_ok. Qed.

Lemma at_set_side s s' d t : at_side s' (set_side s d t) = if decide (s' = s) then d else at_side s' t.
Proof. by destruct s, s'. Qed.

(** A step of one direction that keeps it correct and unfinished. *)
Lemma on_ok s f t t' :
  tunnel_ok t → on s f t = Some t' →
  (∀ d d', direction_ok d → f d = Some d' → direction_ok d' ∧ not_finished d' = not_finished d) → tunnel_ok t'.
Proof.
  intros [Hs Hw Hsrc Hd] Hon Hf. unfold on in Hon. destruct (f (at_side s t)) as [d|] eqn:E; [|done].
  injection Hon as <-. destruct (Hf _ _ (Hs s) E) as [Hok Hn]. split.
  - intros s'. rewrite at_set_side. by case_decide.
  - cbn. rewrite Hw. destruct s; cbn in *; lia.
  - done.
  - done.
Qed.

(** What a step of a direction preserves. *)
Definition keeps (f : direction → option direction) : Prop :=
  ∀ d d', direction_ok d → f d = Some d' → direction_ok d' ∧ not_finished d' = not_finished d.

Lemma arrive_ok bs : keeps (arrive bs).
Proof.
  intros d d' [Hp Ha He Hfl Hn Hrm]. unfold arrive. destruct (ended d) eqn:E; [done|]. intros [= <-].
  split; [split; cbn|done]; try done.
  - by apply prefix_app_r.
  - intros Hf. by rewrite Ha, app_assoc.
  - intros Hc Hf. by destruct (He Hc Hf).
Qed.

Lemma peer_end_ok : keeps peer_end.
Proof.
  intros d d' [Hp Ha He Hfl Hn Hrm] [= <-]. split; [split; cbn|done]; try done.
  intros Hc Hf. by destruct (He Hc Hf).
Qed.

Lemma drain_ok k : keeps (drain k).
Proof.
  intros d d' [Hp Ha He Hfl Hn Hrm]. unfold drain. case_decide; [|done]. intros [= <-].
  split; [split; cbn|done]; try done. lia.
Qed.

Lemma copy_chunk_ok n : keeps (copy_chunk n).
Proof.
  intros d d' [Hp Ha He Hfl Hn Hrm]. unfold copy_chunk. case_decide as Hc; [|done]. intros [= <-].
  destruct Hc as (Hc & _ & _ & Hroom). assert (failed d = false) as Hf by (destruct (failed d); [by destruct Hfl|done]).
  split; [split; cbn|by unfold not_finished; rewrite Hc]; rewrite ?Hf; try done.
  - rewrite Ha by done. apply prefix_app, prefix_take.
  - intros _. by rewrite Ha, <- app_assoc, take_drop by done.
  - rewrite Hn, Hc. naive_solver.
  - unfold room in Hroom. lia.
Qed.

Lemma copy_fail_ok n k : keeps (copy_fail n k).
Proof.
  intros d d' [Hp Ha He Hfl Hn Hrm]. unfold copy_fail. case_decide as Hc; [|done]. intros [= <-].
  destruct Hc as (Hc & _ & _ & _ & Hroom). assert (failed d = false) as Hf by (destruct (failed d); [by destruct Hfl|done]).
  split; [split; cbn|by unfold not_finished; rewrite Hc]; try done.
  - rewrite Ha by done. apply prefix_app, prefix_take.
  - rewrite Hn, Hc. naive_solver.
  - unfold room in Hroom. lia.
Qed.

Lemma copy_eof_ok : keeps copy_eof.
Proof.
  intros d d' [Hp Ha He Hfl Hn Hrm]. unfold copy_eof. case_decide as Hc; [|done]. intros [= <-].
  destruct Hc as (Hc & Hu & Hend). split; [split; cbn|by unfold not_finished; rewrite Hc]; try done.
  rewrite Hn, Hc. naive_solver.
Qed.

Lemma close_write_ok : keeps close_write.
Proof.
  intros d d' [Hp Ha He Hfl Hn Hrm]. unfold close_write. case_decide as Hc; [|done]. intros [= <-].
  split; [split; cbn|by unfold not_finished; rewrite Hc]; try done.
  - intros _ Hf. apply He; [by rewrite Hc|done].
  - naive_solver.
Qed.

Lemma finish_ok d d' : direction_ok d → finish d = Some d' →
  direction_ok d' ∧ not_finished d = 1 ∧ not_finished d' = 0.
Proof.
  intros [Hp Ha He Hfl Hn Hrm]. unfold finish. case_decide as Hc; [|done]. intros [= <-].
  split; [split; cbn|by unfold not_finished; rewrite Hc]; try done.
  - intros _ Hf. apply He; [by rewrite Hc|done].
  - rewrite Hn, Hc. naive_solver.
Qed.

Lemma not_finished_bound d : 0 ≤ not_finished d ≤ 1.
Proof. unfold not_finished. case_decide; lia. Qed.

(** The invariant holds in every reachable state. *)
Lemma act_ok a t t' : tunnel_ok t → act a t = Some t' → tunnel_ok t'.
Proof.
  intros Hok Ha. destruct a as [s bs|s|s k|s n|s n k|s|s|s| |]; cbn in Ha.
  - exact (on_ok s (arrive bs) t t' Hok Ha (arrive_ok bs)).
  - exact (on_ok s peer_end t t' Hok Ha peer_end_ok).
  - exact (on_ok s (drain k) t t' Hok Ha (drain_ok k)).
  - exact (on_ok s (copy_chunk n) t t' Hok Ha (copy_chunk_ok n)).
  - exact (on_ok s (copy_fail n k) t t' Hok Ha (copy_fail_ok n k)).
  - exact (on_ok s copy_eof t t' Hok Ha copy_eof_ok).
  - exact (on_ok s close_write t t' Hok Ha close_write_ok).
  - destruct Hok as [Hs Hw Hsrc Hd]. unfold on in Ha. destruct (finish (at_side s t)) as [d|] eqn:E; [|done].
    injection Ha as <-. destruct (finish_ok _ _ (Hs s) E) as (Hd' & H1 & H0).
    pose proof (not_finished_bound (t_up t)). pose proof (not_finished_bound (t_down t)). split.
    + intros s'. destruct s, s'; cbn; apply Hd' || apply (Hs Up) || apply (Hs Down).
    + cbn. destruct s; cbn in *; lia.
    + cbn. intros Ho. apply Hsrc in Ho. destruct s; cbn in *; lia.
    + done.
  - unfold close_src in Ha. case_decide as Hc; [|done]. injection Ha as <-. destruct Hok. by split; cbn; naive_solver.
  - unfold close_dest in Ha. case_decide as Hc; [|done]. injection Ha as <-. destruct Hok. by split; cbn; naive_solver.
Qed.

Lemma reachable_ok cu cd t : star any_step (tunnel0 cu cd) t → tunnel_ok t.
Proof. apply star_invariant; [|apply tunnel0_ok]. intros a b Ha [x Hx]. by eapply act_ok. Qed.

(** ** Termination *)

(** The steps a direction still has to do when its peer has nothing more to write,
    those of the reader included. *)
Definition work (d : direction) : nat :=
  2 * length (unread d) + inflight d +
  match d_phase d with Copying => 3 | Copied => 2 | HalfClosed => 1 | Finished => 0 end.
Definition tunnel_work (t : tunnel) : nat :=
  work (t_up t) + work (t_down t) + (if src_open t then 1 else 0) + (if dest_open t then 1 else 0).

Lemma on_work s f t t' : on s f t = Some t' →
  (∀ d d', f d = Some d' → (work d' < work d)%nat) → (tunnel_work t' < tunnel_work t)%nat.
Proof.
  unfold on. intros Hon Hf. destruct (f (at_side s t)) as [d|] eqn:E; [|done]. injection Hon as <-.
  apply Hf in E. unfold tunnel_work. destruct s; cbn in *; lia.
Qed.

Lemma late_step_decreases t t' : late_step t t' → (tunnel_work t' < tunnel_work t)%nat.
Proof.
  intros ([s bs|s|s k|s n|s n k|s|s|s| |] & Hi & Ha); try done; cbn in Ha.
  - apply (on_work _ _ _ _ Ha). intros d d'. unfold drain. case_decide as Hc; [|done]. intros [= <-].
    unfold work. cbn [unread inflight d_phase]. lia.
  - apply (on_work _ _ _ _ Ha). intros d d'. unfold copy_chunk. case_decide as Hc; [|done]. intros [= <-].
    destruct Hc as (Hc & Hn & Hl). unfold work. cbn [unread inflight d_phase]. rewrite Hc, length_drop. lia.
  - apply (on_work _ _ _ _ Ha). intros d d'. unfold copy_fail. case_decide as Hc; [|done]. intros [= <-].
    destruct Hc as (Hc & _ & Hl). unfold work. cbn [unread inflight d_phase]. rewrite Hc, length_drop. lia.
  - apply (on_work _ _ _ _ Ha). intros d d'. unfold copy_eof. case_decide as Hc; [|done]. intros [= <-].
    destruct Hc as (Hc & _). unfold work. cbn. rewrite Hc. lia.
  - apply (on_work _ _ _ _ Ha). intros d d'. unfold close_write. case_decide as Hc; [|done]. intros [= <-].
    unfold work. cbn. rewrite Hc. lia.
  - destruct (on s finish t) as [t1|] eqn:E; [|done]. injection Ha as <-.
    enough (tunnel_work t1 < tunnel_work t)%nat by done.
    apply (on_work _ _ _ _ E). intros d d'. unfold finish. case_decide as Hc; [|done]. intros [= <-].
    unfold work. cbn. rewrite Hc. lia.
  - unfold close_src in Ha. case_decide as Hc; [|done]. injection Ha as <-. destruct Hc as [_ Hc].
    unfold tunnel_work. cbn. rewrite Hc. lia.
  - unfold close_dest in Ha. case_decide as Hc; [|done]. injection Ha as <-. destruct Hc as (_ & Hc & Hd).
    unfold tunnel_work. cbn. rewrite Hc, Hd. lia.
Qed.

(** When the program cannot move, a direction whose peer has ended is finished, or its
    write blocks. *)
Lemma stuck_finished s t : tunnel_ok t → ended (at_side s t) = true → (∀ t', ¬ own_step t t') →
  d_phase (at_side s t) = Finished ∨ blocked (at_side s t).
Proof.
  intros Hok He Hst. destruct (d_phase (at_side s t)) eqn:Hp; [|exfalso..|by left].
  - destruct (unread (at_side s t)) as [|b l] eqn:Hu.
    + exfalso. eapply Hst. exists (Eof s). split; [done|]. cbn. unfold on, copy_eof. by rewrite decide_True by done.
    + pose proof (ok_room _ (ok_side _ Hok s)) as Hrm. destruct (decide (room (at_side s t) = 0)%nat) as [Hz|Hz].
      * right. split_and!; [done|by rewrite Hu|done|]. unfold room in Hz. lia.
      * exfalso. eapply Hst. exists (Chunk s 1). split; [done|]. cbn. unfold on, copy_chunk.
        rewrite decide_True; [done|]. rewrite Hu. cbn. split; [done|]. unfold copyBuffer. lia.
  - eapply Hst. exists (CloseWrite s). split; [done|]. cbn. unfold on, close_write. by rewrite decide_True by done.
  - eapply Hst. exists (Done_ s). split; [done|]. cbn. unfold on, finish. by rewrite decide_True by done.
Qed.

Lemma finished_closed t : tunnel_ok t → (∀ s, d_phase (at_side s t) = Finished) → (∀ t', ¬ own_step t t') →
  src_open t = false ∧ dest_open t = false.
Proof.
  intros Hok Hf Hst. pose proof (Hf Up) as Hu. pose proof (Hf Down) as Hd.
  assert (waiting t = 0) as Hw.
  { rewrite (ok_waiting _ Hok). unfold not_finished. by rewrite !decide_True. }
  assert (src_open t = false) as Hs.
  { destruct (src_open t) eqn:E; [|done]. exfalso. eapply Hst. exists CloseSrc. split; [done|].
    cbn. unfold close_src. by rewrite decide_True. }
  split; [done|]. destruct (dest_open t) eqn:E; [|done]. exfalso. eapply Hst. exists CloseDest. split; [done|].
  cbn. unfold close_dest. by rewrite decide_True.
Qed.

(** No step takes back the end of a peer. *)
Lemma on_ended s s' f t t' : on s' f t = Some t' → (∀ d d', f d = Some d' → ended d = true → ended d' = true) →
  ended (at_side s t) = true → ended (at_side s t') = true.
Proof.
  intros Hf Hk He. unfold on in Hf. destruct (f (at_side s' t)) as [d|] eqn:E; [|done].
  injection Hf as <-. rewrite at_set_side. case_decide as Es; [|done]. subst. by eapply Hk.
Qed.

Lemma any_step_ended t t' s : any_step t t' → ended (at_side s t) = true → ended (at_side s t') = true.
Proof.
  intros [a Ha] He. destruct a as [s' bs|s'|s' k|s' n|s' n k|s'|s'|s'| |]; cbn -[on peer_end] in Ha;
    try (eapply on_ended; [exact Ha| |exact He]; intros d d';
         unfold arrive, peer_end, drain, copy_chunk, copy_fail, copy_eof, close_write;
         try (destruct (ended d) eqn:Hed; [done|]); try (case_decide; [|done]); intros [= <-] Hed'; cbn; congruence).
  - destruct (on s' finish t) as [t1|] eqn:E; [|done]. injection Ha as <-.
    assert (ended (at_side s t1) = true) as H; [|by destruct s].
    eapply on_ended; [exact E| |exact He]. intros d d'. unfold finish. case_decide; [|done]. by intros [= <-].
  - unfold close_src in Ha. case_decide; [|done]. injection Ha as <-. by destruct s.
  - unfold close_dest in Ha. case_decide; [|done]. injection Ha as <-. by destruct s.
Qed.

Lemma late_step_any t t' : late_step t t' → any_step t t'.
Proof. intros (a & _ & Ha). by exists a. Qed.

(** ** Properties *)

(** C20: what a tunnel delivers, under every interleaving of the two copying
    goroutines, the closing one and the peers.  Each end receives a prefix of
    what the other one wrote; the end of a direction is only announced after
    everything was delivered, unless the copy failed; and a socket is only closed
    after both ends were announced, so that a healthy tunnel loses no byte. *)
Theorem tunnel_safe cu cd t : star any_step (tunnel0 cu cd) t →
  (∀ s, delivered (at_side s t) `prefix_of` sent (at_side s t)) ∧
  (∀ s, announced (at_side s t) = true → failed (at_side s t) = false →
     ended (at_side s t) = true ∧ delivered (at_side s t) = sent (at_side s t)) ∧
  (src_open t = false ∨ dest_open t = false → ∀ s, announced (at_side s t) = true).
Proof.
  intros Ht. pose proof (reachable_ok cu cd t Ht) as Hok. split_and!.
  - intros s. apply (ok_side _ Hok s).
  - intros s Ha Hf. destruct (ok_side _ Hok s) as [_ Hall Heof _ Hann _].
    apply Hann in Ha. destruct (Heof ltac:(destruct Ha as [-> | ->]; done) Hf) as [He Hu].
    split; [done|]. by rewrite (Hall Hf), Hu, app_nil_r.
  - intros Hc s. apply (ok_announced _ (ok_side _ Hok s)). right.
    assert (waiting t = 0) as Hw by (apply (ok_src _ Hok); destruct Hc; [|apply (ok_dest _ Hok)]; done).
    rewrite (ok_waiting _ Hok) in Hw. unfold not_finished in Hw. destruct s; cbn; repeat case_decide; done || lia.
Qed.

(** C21: a tunnel ends.  Once both peers have ended, nobody can run for ever, whatever
    fails and whoever reads.  When the program and the reading peers have nothing left
    to do both sockets are closed and every direction whose copy did not fail has
    delivered everything; when the program has nothing left to do by itself that is so
    too, or it is writing to a peer that does not read what it has been sent. *)
Theorem tunnel_completes cu cd t :
  star any_step (tunnel0 cu cd) t → (∀ s, ended (at_side s t) = true) →
  Acc (λ b a, late_step a b) t ∧
  ∀ t', star late_step t t' →
    let completed := src_open t' = false ∧ dest_open t' = false ∧
      ∀ s, failed (at_side s t') = false → delivered (at_side s t') = sent (at_side s t') in
    ((∀ t'', ¬ own_step t' t'') → completed ∨ ∃ s, blocked (at_side s t')) ∧
    ((∀ t'', ¬ read_step t' t'') → completed).
Proof.
  intros Ht He. split.
  - clear He Ht. remember (tunnel_work t) as n eqn:Hn. revert t Hn.
    induction n as [n IH] using lt_wf_ind. intros t ->. constructor. intros t' Hs.
    eapply IH; [|done]. by apply late_step_decreases.
  - intros t' Hr completed.
    assert (tunnel_ok t' ∧ ∀ s, ended (at_side s t') = true) as [Hok He'].
    { refine (star_invariant late_step (λ t, tunnel_ok t ∧ ∀ s, ended (at_side s t) = true) t t' _ _ Hr).
      - intros a b [Ha Hea] Hs%late_step_any. split; [destruct Hs as [x Hx]; by eapply act_ok|].
        intros s. by eapply any_step_ended.
      - split; [by eapply reachable_ok|done]. }
    assert ((∀ t'', ¬ own_step t' t'') → completed ∨ ∃ s, blocked (at_side s t')) as Halone.
    { intros Hst. destruct (stuck_finished Up t' Hok (He' Up) Hst) as [Hu|]; [|by right; exists Up].
      destruct (stuck_finished Down t' Hok (He' Down) Hst) as [Hd|]; [|by right; exists Down]. left.
      assert (∀ s, d_phase (at_side s t') = Finished) as Hf by by intros [].
      destruct (finished_closed t' Hok Hf Hst) as [Hc1 Hc2]. split_and!; [done..|]. intros s Hfl.
      destruct (ok_side _ Hok s) as [_ Hall Heof _ _ _]. destruct (Heof ltac:(by rewrite Hf) Hfl) as [_ Hu'].
      by rewrite (Hall Hfl), Hu', app_nil_r. }
    split; [done|]. intros Hst. destruct Halone as [|[s (_ & _ & _ & Hin)]]; [|done|].
    + intros t'' (a & Hi & Ha). apply (Hst t''). exists a. by rewrite Hi.
    + exfalso. eapply Hst. exists (Drain s (inflight (at_side s t'))). split; [done|]. cbn. unfold on, drain.
      by rewrite decide_True by lia.
Qed.

(** ** Runs *)

Definition run_actions (l : list action) (t : tunnel) : option tunnel :=
  foldl (λ t a, t ≫= act a) (Some t) l.

Lemma run_actions_star l t t' : run_actions l t = Some t' → star any_step t t'.
Proof.
  unfold run_actions. revert t. induction l as [|a l IH]; intros t; cbn; [intros [= ->]; apply star_refl|].
  destruct (act a t) as [t1|] eqn:E; cbn.
  - intros H. eapply star_step; [by exists a|by apply IH].
  - assert (foldl (λ (t : option tunnel) a, t ≫= act a) None l = None) as -> by (clear; by induction l). done.
Qed.

(** The peer of the accepted connection has ended, but the other end does not read: the
    tunnel stays open. *)
Definition unread_run : list action :=
  [Arrive Up [1; 2; 3]; Chunk Up 2; PeerEnd Up; PeerEnd Down; Eof Down; CloseWrite Down; Done_ Down].
Theorem unread_blocks :
  let t := default (tunnel0 2 2) (run_actions unread_run (tunnel0 2 2)) in
  star any_step (tunnel0 2 2) t ∧ blocked (t_up t) ∧ src_open t = true ∧ ∀ t', ¬ own_step t t'.
Proof.
  intros t. split; [apply (run_actions_star unread_run); by vm_compute|].
  assert (room (t_up t) = 0%nat) as Hroom by by vm_compute.
  split; [split_and!; [by vm_compute..|by vm_compute; lia]|]. split; [by vm_compute|].
  intros t' (a & Hi & Ha). destruct a as [s bs|s|s k|s n|s n k|s|s|s| |]; try discriminate Hi;
    [|destruct s; vm_compute in Ha; discriminate Ha..|vm_compute in Ha; discriminate Ha|vm_compute in Ha; discriminate Ha].
  unfold act, on, copy_chunk in Ha. case_decide as Hc; [|discriminate Ha]. destruct Hc as (Hc & Hn & _ & Hr).
  destruct s; [cbn [at_side] in Hr; rewrite Hroom in Hr; lia|vm_compute in Hc; discriminate Hc].
Qed.

(** ** Witnesses *)

(** A request of three bytes over a socket that holds two, answered by one byte; both
    sides end. *)
Definition exchange : list action :=
  [Arrive Up [1; 2; 3]; Chunk Up 2; PeerEnd Up; Arrive Down [7]; Drain Up 1; Chunk Up 1; Eof Up; CloseWrite Up;
   Chunk Down 1; PeerEnd Down; Done_ Up].
Definition start2 : tunnel := tunnel0 2 2.
Definition exchanged : tunnel := default start2 (run_actions exchange start2).

Lemma exchanged_reachable : star any_step start2 exchanged.
Proof. apply (run_actions_star exchange). by vm_compute. Qed.

Lemma tunnel_safe_witness : announced (at_side Up exchanged) = true ∧ delivered (at_side Up exchanged) = [1; 2; 3].
Proof.
  split; [by vm_compute|].
  destruct (tunnel_safe 2 2 exchanged exchanged_reachable) as (_ & H & _).
  destruct (H Up) as [_ Hd]; [by vm_compute|by vm_compute|]. etransitivity; [exact Hd|]. by vm_compute.
Defined.

Lemma tunnel_completes_witness : Acc (λ b a, late_step a b) exchanged.
Proof. refine (proj1 (tunnel_completes 2 2 exchanged exchanged_reachable _)). intros []; by vm_compute. Defined.
