(* ===== verification/Splice.v ===== *)
(** The copying of bytes by tcpproxy ([DialProxy.HandleConn], vendored as
    inet.af/tcpproxy): behind the exposed TCP ports and UNIX sockets of ports.go, the
    TCP flows of the guests (tcp.go) and /tunnel (mux.go).  Two goroutines copy, as
    in Pipe.v; the first one to end makes [HandleConn] return, which closes both
    connections.  They run concurrently with the two peers, and a copy waits while its
    socket is full of bytes that the peer has not read. *)
From S2P Require Import Prelude Pipe.

Local Open Scope Z_scope.

(** ** State *)

(** [Up] is [proxyCopy(errc, dst, src)]; [gone] says that a goroutine has put its
    error in [errc], which holds one; [returned] that [HandleConn] has taken one. *)
Record splice := {
  sp_up : direction;
  sp_down : direction;
  gone_up : bool;
  gone_down : bool;
  errc : nat;
  returned : bool;
  sp_src_open : bool;
  sp_dst_open : bool;
}.

Definition splice0 (cu cd : positive) : splice :=
  {| sp_up := direction0 cu; sp_down := direction0 cd; gone_up := false; gone_down := false; errc := 0; returned := false;
     sp_src_open := true; sp_dst_open := true |}.

(** What [HandleConn] does with a connection: the dial failed, and [src] is closed
    unless there is an [OnDialError]; or the bytes are copied, between sockets that hold
    [cu] and [cd] bytes which their peers have not read. *)
Inductive handled := DialFailed (src_closed : bool) | Spliced (t : splice).
Definition HandleConn (dial : option error) (OnDialError : bool) (cu cd : positive) : handled :=
  match dial with Some _ => DialFailed (negb OnDialError) | None => Spliced (splice0 cu cd) end.

Definition dir (s : side) (t : splice) : direction := match s with Up => sp_up t | Down => sp_down t end.
Definition gone (s : side) (t : splice) : bool := match s with Up => gone_up t | Down => gone_down t end.
(** The connections a direction reads from and writes to. *)
Definition reads (s : side) (t : splice) : bool := match s with Up => sp_src_open t | Down => sp_dst_open t end.
Definition writes_to (s : side) (t : splice) : bool := match s with Up => sp_dst_open t | Down => sp_src_open t end.

Definition set_dir (s : side) (d : direction) (t : splice) : splice :=
  {| sp_up := match s with Up => d | Down => sp_up t end; sp_down := match s with Up => sp_down t | Down => d end;
     gone_up := gone_up t; gone_down := gone_down t; errc := errc t; returned := returned t;
     sp_src_open := sp_src_open t; sp_dst_open := sp_dst_open t |}.

(** ** Steps *)

(** [errc <- err]: the channel holds one error. *)
Definition send (s : side) (t : splice) : option splice :=
  if decide (d_phase (dir s t) = Copied ∧ gone s t = false ∧ errc t = 0%nat) then
    Some {| sp_up := sp_up t; sp_down := sp_down t; gone_up := match s with Up => true | Down => gone_up t end;
            gone_down := match s with Up => gone_down t | Down => true end; errc := 1; returned := returned t;
            sp_src_open := sp_src_open t; sp_dst_open := sp_dst_open t |}
  else None.

(** [<-errc], and the return of [HandleConn]. *)
Definition receive (t : splice) : option splice :=
  if decide (returned t = false ∧ errc t = 1%nat) then
    Some {| sp_up := sp_up t; sp_down := sp_down t; gone_up := gone_up t; gone_down := gone_down t; errc := 0;
            returned := true; sp_src_open := sp_src_open t; sp_dst_open := sp_dst_open t |}
  else None.

(** The goroutines of the deferred [goCloseConn]s. *)
Definition close_conn (src : bool) (t : splice) : option splice :=
  if decide (returned t = true ∧ (if src then sp_src_open t else sp_dst_open t) = true) then
    Some {| sp_up := sp_up t; sp_down := sp_down t; gone_up := gone_up t; gone_down := gone_down t; errc := errc t;
            returned := true; sp_src_open := if src then false else sp_src_open t;
            sp_dst_open := if src then sp_dst_open t else false |}
  else None.

Definition on_dir (s : side) (f : direction → option direction) (t : splice) : option splice :=
  d ← f (dir s t); Some (set_dir s d t).

Inductive sp_action :=
  | SArrive (s : side) (bs : list Z)   (* a peer writes *)
  | SPeerEnd (s : side)                (* a peer ends its side *)
  | SDrain (s : side) (k : nat)        (* a peer reads *)
  | SReset (s : side) (n k : nat)      (* a copy fails because of a peer *)
  | SChunk (s : side) (n : nat)
  | SEof (s : side)
  | SBroken (s : side) (n : nat)       (* a copy fails on a connection that was closed here *)
  | SSend (s : side)
  | SReceive
  | SClose (src : bool).

Definition sp_act (a : sp_action) (t : splice) : option splice :=
  match a with
  | SArrive s bs => on_dir s (arrive bs) t
  | SPeerEnd s => on_dir s peer_end t
  | SDrain s k => on_dir s (drain k) t
  | SReset s n k => if reads s t && writes_to s t then on_dir s (copy_fail n k) t else None
  | SChunk s n => if reads s t && writes_to s t then on_dir s (copy_chunk n) t else None
  | SEof s => if reads s t then on_dir s copy_eof t else None
  | SBroken s n =>
      if reads s t then
        if negb (writes_to s t) && bool_decide (0 < n)%nat then on_dir s (copy_fail n 0) t else None
      else on_dir s (copy_fail 0 0) t
  | SSend s => send s t
  | SReceive => receive t
  | SClose src => close_conn src t
  end.

(** Who does a step: the program; the peers when they read, or break a connection; the
    peers when they write or end. *)
Definition sp_internal (a : sp_action) : bool :=
  match a with SArrive _ _ | SPeerEnd _ | SDrain _ _ | SReset _ _ _ => false | _ => true end.
Definition sp_writing (a : sp_action) : bool := match a with SArrive _ _ | SPeerEnd _ => true | _ => false end.
Definition sp_reading (a : sp_action) : bool := match a with SDrain _ _ => true | _ => false end.

(** The steps of everybody; those of the program alone; those of the program while the
    peers read; those of everybody when the peers write nothing more. *)
Definition sp_step (t t' : splice) : Prop := ∃ a, sp_act a t = Some t'.
Definition sp_own (t t' : splice) : Prop := ∃ a, sp_internal a = true ∧ sp_act a t = Some t'.
Definition sp_read (t t' : splice) : Prop := ∃ a, sp_internal a || sp_reading a = true ∧ sp_act a t = Some t'.
Definition sp_late (t t' : splice) : Prop := ∃ a, sp_writing a = false ∧ sp_act a t = Some t'.

(** ** The invariant *)

Definition count_gone (t : splice) : nat := (if gone_up t then 1 else 0) + (if gone_down t then 1 else 0).

Record splice_ok (t : splice) : Prop := {
  so_dir s : direction_ok (dir s t) ∧ (d_phase (dir s t) = Copying ∨ d_phase (dir s t) = Copied);
  so_gone s : gone s t = true → d_phase (dir s t) = Copied;
  so_errc : (errc t + (if returned t then 1 else 0) = count_gone t ∧ errc t ≤ 1)%nat;
  so_src : sp_src_open t = false → returned t = true;
  so_dst : sp_dst_open t = false → returned t = true;
}.

Lemma splice0_ok cu cd : splice_ok (splice0 cu cd).
Proof.
  split; try done.
  - intros []; (split; [apply direction0_ok|by left]).
  - by intros [].
  - cbn. unfold count_gone. cbn. lia.
Qed.

Lemma dir_set_dir s s' d t : dir s' (set_dir s d t) = if decide (s' = s) then d else dir s' t.
Proof. by destruct s, s'. Qed.

(** A step of a copy. *)
Definition copies (f : direction → option direction) : Prop :=
  ∀ d d', f d = Some d' →
    (d_phase d' = d_phase d ∨ (d_phase d = Copying ∧ d_phase d' = Copied)).

Lemma on_dir_ok s f t t' : splice_ok t → keeps f → copies f → on_dir s f t = Some t' → splice_ok t'.
Proof.
  intros [Hd Hg He Hs Hdst] Hk Hc Hon. unfold on_dir in Hon. destruct (f (dir s t)) as [d|] eqn:E; [|done].
  injection Hon as <-. destruct (Hd s) as [Hok Hph]. destruct (Hk _ _ Hok E) as [Hok' _]. pose proof (Hc _ _ E) as Hp.
  split; try done.
  - intros s'. rewrite dir_set_dir. case_decide as Heq; [|apply Hd]. subst. split; [done|].
    destruct Hp as [->|[_ ->]]; [done|by right].
  - intros s' Hgo. rewrite dir_set_dir. assert (gone s' t = true) as Hgo' by (by destruct s'; destruct s).
    case_decide as Heq; [|by apply Hg]. subst. destruct Hp as [->|[_ ->]]; [by apply Hg|done].
Qed.

Lemma arrive_copies bs : copies (arrive bs).
Proof. intros d d'. unfold arrive. destruct (ended d); [done|]. intros [= <-]. by left. Qed.
Lemma peer_end_copies : copies peer_end.
Proof. intros d d' [= <-]. by left. Qed.
Lemma drain_copies k : copies (drain k).
Proof. intros d d'. unfold drain. case_decide; [|done]. intros [= <-]. by left. Qed.
Lemma copy_chunk_copies n : copies (copy_chunk n).
Proof. intros d d'. unfold copy_chunk. case_decide as Hc; [|done]. intros [= <-]. left. cbn. by destruct Hc as [-> _]. Qed.
Lemma copy_fail_copies n k : copies (copy_fail n k).
Proof. intros d d'. unfold copy_fail. case_decide as Hc; [|done]. intros [= <-]. right. split; [apply Hc|done]. Qed.
Lemma copy_eof_copies : copies copy_eof.
Proof. intros d d'. unfold copy_eof. case_decide as Hc; [|done]. intros [= <-]. right. split; [apply Hc|done]. Qed.

Create HintDb splice.
#[local] Hint Resolve arrive_ok peer_end_ok drain_ok copy_chunk_ok copy_fail_ok copy_eof_ok arrive_copies peer_end_copies drain_copies
  copy_chunk_copies copy_fail_copies copy_eof_copies : splice.

Lemma send_ok s t t' : splice_ok t → send s t = Some t' → splice_ok t'.
Proof.
  intros [Hd Hg He Hs Hdst]. unfold send. case_decide as Hc; [|done]. intros [= <-]. destruct Hc as (Hp & Hgo & Hz).
  unfold count_gone in *. destruct s; cbn in *; split; try done; cbn.
  - intros []; cbn; [done|apply (Hg Down)].
  - unfold count_gone. cbn. rewrite Hgo in He. lia.
  - intros []; cbn; [apply (Hg Up)|done].
  - unfold count_gone. cbn. rewrite Hgo in He. lia.
Qed.

Lemma sp_step_ok t t' : splice_ok t → sp_step t t' → splice_ok t'.
Proof.
  intros Hok [a Ha]. destruct a as [s bs|s|s k|s n k|s n|s|s n|s| |src]; cbn [sp_act] in Ha;
    repeat case_match; try done; try (refine (on_dir_ok _ _ _ _ Hok _ _ Ha); by auto with splice).
  - by eapply send_ok.
  - unfold receive in Ha. case_decide as Hc; [|done]. injection Ha as <-. destruct Hok as [Hd Hg He Hs Hdst], Hc as [Hr Hz].
    split; cbn; try done. rewrite Hr, Hz in He. unfold count_gone in *. cbn. lia.
  - unfold close_conn in Ha. case_decide as Hc; [|done]. injection Ha as <-. destruct Hok as [Hd Hg He Hs Hdst], Hc as [Hr _].
    split; cbn; try done. by rewrite Hr in He.
Qed.

Lemma sp_reachable_ok cu cd t : star sp_step (splice0 cu cd) t → splice_ok t.
Proof. apply star_invariant; [apply sp_step_ok|apply splice0_ok]. Qed.

(** ** Termination *)

Definition side_work (d : direction) (g : bool) : nat :=
  2 * length (unread d) + inflight d + match d_phase d with Copying => 3 | _ => if g then 0 else 1 end.
Definition splice_work (t : splice) : nat :=
  side_work (sp_up t) (gone_up t) + side_work (sp_down t) (gone_down t) + (if returned t then 0 else 1) +
  (if sp_src_open t then 1 else 0) + (if sp_dst_open t then 1 else 0).

Lemma on_dir_work s f t t' : on_dir s f t = Some t' →
  (∀ d d' g, f d = Some d' → (side_work d' g < side_work d g)%nat) → (splice_work t' < splice_work t)%nat.
Proof.
  unfold on_dir. intros Hon Hf. destruct (f (dir s t)) as [d|] eqn:E; [|done]. injection Hon as <-.
  pose proof (Hf _ _ (gone s t) E). unfold splice_work. destruct s; cbn in *; lia.
Qed.

Lemma drain_work k d d' g : drain k d = Some d' → (side_work d' g < side_work d g)%nat.
Proof. unfold drain. case_decide as Hc; [|done]. intros [= <-]. unfold side_work. cbn [unread inflight d_phase]. lia. Qed.
Lemma copy_chunk_work n d d' g : copy_chunk n d = Some d' → (side_work d' g < side_work d g)%nat.
Proof.
  unfold copy_chunk. case_decide as Hc; [|done]. intros [= <-]. destruct Hc as (Hc & Hn & Hl).
  unfold side_work. cbn [unread inflight d_phase]. rewrite Hc, length_drop. lia.
Qed.
Lemma copy_fail_work n k d d' g : copy_fail n k d = Some d' → (side_work d' g < side_work d g)%nat.
Proof.
  unfold copy_fail. case_decide as Hc; [|done]. intros [= <-]. destruct Hc as (Hc & _ & Hl).
  unfold side_work. cbn [unread inflight d_phase]. rewrite Hc, length_drop. destruct g; lia.
Qed.
Lemma copy_eof_work d d' g : copy_eof d = Some d' → (side_work d' g < side_work d g)%nat.
Proof.
  unfold copy_eof. case_decide as Hc; [|done]. intros [= <-]. destruct Hc as (Hc & _).
  unfold side_work. cbn. rewrite Hc. destruct g; lia.
Qed.
#[local] Hint Resolve drain_work copy_chunk_work copy_fail_work copy_eof_work : splice.

Lemma sp_late_decreases t t' : sp_late t t' → (splice_work t' < splice_work t)%nat.
Proof.
  intros (a & Hi & Ha). destruct a as [s bs|s|s k|s n k|s n|s|s n|s| |src]; try done; cbn [sp_act] in Ha;
    repeat case_match; try done; try (apply (on_dir_work _ _ _ _ Ha); by eauto with splice).
  - unfold send in Ha. case_decide as Hc; [|done]. injection Ha as <-. destruct Hc as (Hp & Hg & _).
    unfold splice_work, side_work. destruct s; cbn in *; rewrite Hp, Hg; lia.
  - unfold receive in Ha. case_decide as Hc; [|done]. injection Ha as <-. destruct Hc as [Hr _].
    unfold splice_work. cbn. rewrite Hr. lia.
  - unfold close_conn in Ha. case_decide as Hc; [|done]. injection Ha as <-. destruct Hc as [Hr Ho].
    unfold splice_work. cbn. rewrite Hr. destruct src; rewrite Ho; cbn; lia.
Qed.

(** ** What is left when nothing moves *)

Lemma stuck_none a t : sp_internal a = true → (∀ t', ¬ sp_own t t') → sp_act a t = None.
Proof. intros Hi Hst. destruct (sp_act a t) as [t'|] eqn:E; [|done]. exfalso. apply (Hst t'). by exists a. Qed.

(** A direction whose reader is closed, or whose peer has ended, is not copying, or its
    write blocks. *)
Lemma stuck_copying s t : splice_ok t → (∀ t', ¬ sp_own t t') → ended (dir s t) = true ∨ reads s t = false →
  d_phase (dir s t) = Copying → reads s t = true ∧ writes_to s t = true ∧ blocked (dir s t).
Proof.
  intros Hok Hst He Hp. destruct (reads s t) eqn:Hr.
  - destruct He as [He|]; [|done]. destruct (unread (dir s t)) as [|b l] eqn:Hu.
    + pose proof (stuck_none (SEof s) t eq_refl Hst) as H. cbn [sp_act] in H. rewrite Hr in H.
      unfold on_dir, copy_eof in H. by rewrite decide_True in H.
    + destruct (writes_to s t) eqn:Hw.
      * split_and!; [done..|]. pose proof (ok_room _ (proj1 (so_dir _ Hok s))) as Hrm.
        destruct (decide (room (dir s t) = 0)%nat) as [Hz|Hz].
        { split_and!; [done|by rewrite Hu|done|]. unfold room in Hz. lia. }
        pose proof (stuck_none (SChunk s 1) t eq_refl Hst) as H. cbn [sp_act] in H. rewrite Hr, Hw in H. cbn [andb] in H.
        unfold on_dir, copy_chunk in H. rewrite decide_True in H; [done|]. rewrite Hu. cbn. unfold copyBuffer. split; [done|lia].
      * pose proof (stuck_none (SBroken s 1) t eq_refl Hst) as H. cbn [sp_act] in H. rewrite Hr, Hw in H. cbn in H.
        unfold on_dir, copy_fail in H. rewrite decide_True in H; [done|]. rewrite Hu. cbn. unfold copyBuffer. split; [done|lia].
  - pose proof (stuck_none (SBroken s 0) t eq_refl Hst) as H. cbn [sp_act] in H. rewrite Hr in H.
    unfold on_dir, copy_fail in H. rewrite decide_True in H; [done|]. unfold copyBuffer. split; [done|lia].
Qed.

Lemma stuck_returned s t : splice_ok t → (∀ t', ¬ sp_own t t') → d_phase (dir s t) = Copied → returned t = true.
Proof.
  intros Hok Hst Hp. destruct (returned t) eqn:Hr; [done|exfalso].
  pose proof (stuck_none SReceive t eq_refl Hst) as H. cbn [sp_act] in H. unfold receive in H. rewrite Hr in H.
  destruct (so_errc _ Hok) as [He Hle]. rewrite Hr in He.
  destruct (decide (errc t = 1%nat)) as [Hz|Hz]; [by rewrite decide_True in H|].
  pose proof (stuck_none (SSend s) t eq_refl Hst) as Hs. cbn [sp_act] in Hs. unfold send in Hs.
  rewrite decide_True in Hs; [done|]. split_and!; [done| |lia].
  unfold count_gone in He. destruct s; cbn; [destruct (gone_up t)|destruct (gone_down t)]; done || lia.
Qed.

Lemma stuck_closed_both t : splice_ok t → (∀ t', ¬ sp_own t t') → returned t = true →
  sp_src_open t = false ∧ sp_dst_open t = false ∧ ∀ s, d_phase (dir s t) = Copied ∧ gone s t = true.
Proof.
  intros Hok Hst Hr.
  assert (sp_src_open t = false) as Hs.
  { destruct (sp_src_open t) eqn:E; [|done]. pose proof (stuck_none (SClose true) t eq_refl Hst) as H.
    cbn [sp_act] in H. unfold close_conn in H. by rewrite decide_True in H. }
  assert (sp_dst_open t = false) as Hd.
  { destruct (sp_dst_open t) eqn:E; [|done]. pose proof (stuck_none (SClose false) t eq_refl Hst) as H.
    cbn [sp_act] in H. unfold close_conn in H. by rewrite decide_True in H. }
  assert (∀ s, d_phase (dir s t) = Copied) as Hc.
  { intros s. destruct (proj2 (so_dir _ Hok s)) as [Hp|]; [|done]. exfalso.
    destruct (stuck_copying s t Hok Hst) as (Hrd & _ & _); [right; by destruct s|done|].
    assert (reads s t = false) as Hrf by by destruct s. by rewrite Hrf in Hrd. }
  split_and!; [done..|]. intros s. split; [done|]. destruct (gone s t) eqn:Hg; [done|exfalso].
  pose proof (stuck_none (SSend s) t eq_refl Hst) as H. cbn [sp_act] in H. unfold send in H.
  rewrite decide_True in H; [done|]. destruct (so_errc _ Hok) as [He _]. rewrite Hr in He. unfold count_gone in He.
  split_and!; [done..|]. destruct s; cbn in Hg; rewrite Hg in He; [destruct (gone_down t)|destruct (gone_up t)]; cbn in He; lia.
Qed.

(** *** What stays *)

Definition keeps_end (f : direction → option direction) : Prop := ∀ d d', f d = Some d' → ended d' = ended d.
Lemma drain_ended k : keeps_end (drain k).
Proof. intros d d'. unfold drain. case_decide; [|done]. by intros [= <-]. Qed.
Lemma copy_chunk_ended n : keeps_end (copy_chunk n).
Proof. intros d d'. unfold copy_chunk. case_decide; [|done]. by intros [= <-]. Qed.
Lemma copy_fail_ended n k : keeps_end (copy_fail n k).
Proof. intros d d'. unfold copy_fail. case_decide; [|done]. by intros [= <-]. Qed.
Lemma copy_eof_ended : keeps_end copy_eof.
Proof. intros d d'. unfold copy_eof. case_decide; [|done]. by intros [= <-]. Qed.
#[local] Hint Resolve drain_ended copy_chunk_ended copy_fail_ended copy_eof_ended : splice.

(** The end of a peer, and the end of a copy. *)
Lemma late_stays s t t' : sp_late t t' →
  (ended (dir s t) = true → ended (dir s t') = true) ∧ (d_phase (dir s t) = Copied → d_phase (dir s t') = Copied).
Proof.
  intros (a & Hi & Ha).
  assert (∀ s' f t1, on_dir s' f t = Some t1 → copies f → keeps_end f →
    (ended (dir s t) = true → ended (dir s t1) = true) ∧ (d_phase (dir s t) = Copied → d_phase (dir s t1) = Copied)) as Hon.
  { intros s' f t1 Hf Hc Hk. unfold on_dir in Hf. destruct (f (dir s' t)) as [d|] eqn:E; [|done].
    injection Hf as <-. rewrite dir_set_dir. case_decide as Es; [subst|done].
    rewrite (Hk _ _ E). split; [done|]. intros Hp. by destruct (Hc _ _ E) as [->|[_ ->]]. }
  destruct a as [s' bs|s'|s' k|s' n k|s' n|s'|s' n|s'| |src]; try done; cbn [sp_act] in Ha; repeat case_match; try done;
    try (eapply Hon; [exact Ha|by auto with splice..]).
  - unfold send in Ha. case_decide; [|done]. injection Ha as <-. by destruct s.
  - unfold receive in Ha. case_decide; [|done]. injection Ha as <-. by destruct s.
  - unfold close_conn in Ha. case_decide; [|done]. injection Ha as <-. by destruct s.
Qed.

Lemma late_step_ok t t' : splice_ok t → sp_late t t' → splice_ok t'.
Proof. intros Hok (a & _ & Ha). eapply sp_step_ok; [done|by exists a]. Qed.

(** A peer has ended, or a copy. *)
Definition over (s : side) (t : splice) : Prop := ended (dir s t) = true ∨ d_phase (dir s t) = Copied.

(** When the program cannot move, it has stopped, or the write of a direction that is
    over blocks. *)
Lemma stuck_over s t : splice_ok t → (∀ t', ¬ sp_own t t') → over s t →
  (sp_src_open t = false ∧ sp_dst_open t = false ∧ ∀ s', d_phase (dir s' t) = Copied ∧ gone s' t = true) ∨
  blocked (dir s t).
Proof.
  intros Hok Hst Ho. destruct (proj2 (so_dir _ Hok s)) as [Hp|Hp].
  - right. destruct Ho as [He|Hc]; [|congruence]. by destruct (stuck_copying s t Hok Hst (or_introl He) Hp) as (_ & _ & ?).
  - left. apply stuck_closed_both; [done..|]. by apply (stuck_returned s).
Qed.

(** ** Properties *)

(** C22: what tcpproxy does with the bytes of an exposed port, of a flow of a guest and
    of /tunnel, under every interleaving.  Each end receives a prefix of what the
    other one wrote, all of it if its copy ended at the end of the other side.  As
    soon as one peer has ended, or one copy, nobody can run for ever while nothing new is
    written, and then: if a copy has ended the program stops by itself, with both
    connections closed and both goroutines gone, even if the other peer neither ends nor
    reads; if only a peer has ended the program stops in the same way while the peers read,
    and by itself it stops or is writing what is left to a peer that does not read. *)
Theorem splice_spec cu cd t :
  star sp_step (splice0 cu cd) t →
  (∀ s, delivered (dir s t) `prefix_of` sent (dir s t) ∧
        (d_phase (dir s t) = Copied → failed (dir s t) = false → delivered (dir s t) = sent (dir s t))) ∧
  ∀ s, over s t →
    Acc (λ b a, sp_late a b) t ∧
    ∀ t', star sp_late t t' →
      let stopped := sp_src_open t' = false ∧ sp_dst_open t' = false ∧ ∀ s', d_phase (dir s' t') = Copied ∧ gone s' t' = true in
      (d_phase (dir s t) = Copied → (∀ t'', ¬ sp_own t' t'') → stopped) ∧
      ((∀ t'', ¬ sp_own t' t'') → stopped ∨ blocked (dir s t')) ∧
      ((∀ t'', ¬ sp_read t' t'') → stopped).
Proof.
  intros Hr%sp_reachable_ok. split.
  - intros s. destruct (so_dir _ Hr s) as [[Hp Ha He _ _ _] _]. split; [done|]. intros Hc Hf.
    destruct (He ltac:(by rewrite Hc) Hf) as [_ Hu]. by rewrite (Ha Hf), Hu, app_nil_r.
  - intros s Ho. split.
    + clear Ho Hr s. remember (splice_work t) as n eqn:Hn. revert t Hn.
      induction n as [n IH] using lt_wf_ind. intros t ->. constructor. intros t' Hs.
      eapply IH; [|done]. by apply sp_late_decreases.
    + intros t' Hs stopped.
      assert (splice_ok t' ∧ (ended (dir s t) = true → ended (dir s t') = true) ∧
              (d_phase (dir s t) = Copied → d_phase (dir s t') = Copied)) as (Hok' & He & Hc).
      { refine (star_invariant sp_late (λ u, splice_ok u ∧ (ended (dir s t) = true → ended (dir s u) = true) ∧
          (d_phase (dir s t) = Copied → d_phase (dir s u) = Copied)) t t' _ _ Hs); [|done].
        intros a b (Hoa & Hea & Hca) Hab. destruct (late_stays s a b Hab). split; [by eapply late_step_ok|auto]. }
      assert (over s t') as Ho' by (destruct Ho; [left|right]; auto).
      split_and!.
      * intros Hcp Hst. destruct (stuck_over s t' Hok' Hst Ho') as [|(Hp & _)]; [done|]. by rewrite (Hc Hcp) in Hp.
      * intros Hst. by apply stuck_over.
      * intros Hst. destruct (stuck_over s t' Hok') as [|(_ & _ & _ & Hin)]; [|done..|].
        { intros t'' (a & Hi & Ha). apply (Hst t''). exists a. by rewrite Hi. }
        exfalso. eapply Hst. exists (SDrain s (inflight (dir s t'))). split; [done|]. cbn. unfold on_dir, drain.
        by rewrite decide_True by lia.
Qed.

(** ** Runs *)

Fixpoint sp_run (l : list sp_action) (t : splice) : option splice :=
  match l with [] => Some t | a :: l => t' ← sp_act a t; sp_run l t' end.

Lemma sp_run_star l t t' : sp_run l t = Some t' → star sp_step t t'.
Proof.
  revert t. induction l as [|a l IH]; cbn; intros t; [intros [= <-]; constructor|].
  destruct (sp_act a t) as [t1|] eqn:E; cbn; [|done]. intros ?. econstructor; [by exists a|auto].
Qed.

(** A client that sends its request and ends its side before the answer comes (a
    half-closed connection) never gets the answer: the end of its side makes
    [HandleConn] return, which closes both connections. *)
Definition half_close : list sp_action :=
  [SArrive Up [1; 2]; SPeerEnd Up; SChunk Up 2; SEof Up; SSend Up; SReceive; SClose true; SClose false;
   SArrive Down [3]; SBroken Down 0; SSend Down].
Theorem half_close_truncates :
  let t := default (splice0 8 8) (sp_run half_close (splice0 8 8)) in
  star sp_step (splice0 8 8) t ∧ sent (sp_down t) = [3] ∧ delivered (sp_down t) = [] ∧
  failed (sp_up t) = false ∧ ∀ t', ¬ sp_own t t'.
Proof.
  intros t. split; [apply (sp_run_star half_close); by vm_compute|]. split_and!; [by vm_compute..|].
  intros t' (a & Hi & Ha). destruct a as [[]|[]|[]|[]|[]|[]|[]|[]| |[]]; try discriminate Hi; vm_compute in Ha; discriminate Ha.
Qed.

(** ** Witness *)

Definition answered : list sp_action :=
  [SArrive Up [1; 2]; SChunk Up 2; SArrive Down [3; 4; 5]; SChunk Down 3; SPeerEnd Down; SEof Down].
Definition answered_state : splice := default (splice0 2 3) (sp_run answered (splice0 2 3)).
Lemma answered_reachable : star sp_step (splice0 2 3) answered_state.
Proof. apply (sp_run_star answered). by vm_compute. Qed.

Lemma splice_spec_witness :
  delivered (sp_down answered_state) = [3; 4; 5] ∧ Acc (λ b a, sp_late a b) answered_state.
Proof.
  destruct (splice_spec 2 3 answered_state answered_reachable) as [Hd Ho]. split.
  - etransitivity; [apply (proj2 (Hd Down)); by vm_compute|by vm_compute].
  - apply (Ho Down). left. by vm_compute.
Defined.
