(* ===== verification/Tunnels.v ===== *)
(** pkg/services/forwarder/ports.go, a UNIX proxy whose remote is ssh-tunnel: its
    dial function creates the SSH forward of SSH.v at the first connection that
    succeeds and opens a channel of it for every connection; the forward is
    closed with the proxy.  [connLock] serializes the dials. *)
From Stdlib Require Import Ascii String.
From S2P Require Import Prelude GoStrings GoNet Types Ports Cmdline SSH.

Local Open Scope string_scope.
Local Open Scope list_scope.
Local Open Scope Z_scope.

(** ** The dialer

    [gonetDialer.DialContextTCP]: the text of the address is taken apart by
    [tcpipAddress], which panics when the host is not an IPv4 address; then the network
    stack ([dial]) opens the connection. *)
Section dialer.
Context {W client signer hostkey conn stream : Type}.
Context (dial : context → FullAddress → Z → W → (error + conn) * W).

Definition gonetDialer (ctx : context) (addr : string) (timeout : Z) (w : W) : res conn * W :=
  match tcpipAddress 1 addr with
  | Ok address => let '(r, w') := dial ctx address timeout w in (of_sum r, w')
  | Err err => (Err err, w)
  | Panic => (Panic, w)
  end.

(** The outside of SSH.v with this dialer. *)
Definition through_stack (o : outside (W := W) (client := client) (signer := signer) (hostkey := hostkey) (conn := conn)
    (stream := stream)) : outside (W := W) (client := client) (signer := signer) (hostkey := hostkey) (conn := conn)
    (stream := stream) :=
  {| ctx_Done := ctx_Done o; race := race o; DialContextTCP := gonetDialer; net_DialTimeout := net_DialTimeout o;
     NewClientConn := NewClientConn o; client_Dial := client_Dial o; SendRequest := SendRequest o;
     ReadFile := ReadFile o; ParsePrivateKey := ParsePrivateKey o;
     ParsePrivateKeyWithPassphrase := ParsePrivateKeyWithPassphrase o; known_hosts := known_hosts o;
     ParseKnownHosts := ParseKnownHosts o; HashHostname := HashHostname o; Remove := Remove o; Umask := Umask o;
     Listen := Listen o; CurrentUid := CurrentUid o; Accept := Accept o |}.

Lemma gonetDialer_panics o host :
  dialer_panics (through_stack o) (SetupConnect host) → tcpipAddress 1 host = Panic.
Proof.
  intros (ctx & t & w & H). cbn in H. unfold gonetDialer in H. destruct (tcpipAddress 1 host); [|done|done].
  destruct (dial _ _ _ _) as [[err|c] w']; done.
Qed.
End dialer.

Section tunnels.
Context {W client signer hostkey conn stream : Type}.
Context (outer : outside (W := W) (client := client) (signer := signer) (hostkey := hostkey) (conn := conn) (stream := stream)).
Context (dial : context → FullAddress → Z → W → (error + conn) * W).
#[local] Abbreviation o := (through_stack dial outer).
(** The variables that the dial function captures. *)
Context (windows : bool) (remoteURI : URL) (user : option Userinfo) (sshkeypath passphrase : string).
#[local] Abbreviation forward := (SSHForward client signer hostkey).
#[local] Abbreviation event := (ev client signer hostkey).
#[local] Abbreviation M := (@M W client signer hostkey).
#[local] Notation "x ⟵ m ;; k" := (bind m (λ x, k)) (at level 100, m at next level, right associativity).
#[local] Notation "m ;;; k" := (bind m (λ _, k)) (at level 100, right associativity).

Definition empty_URL : URL := {| url_Scheme := ""; url_Host := ""; url_Path := ""; url_Query := ∅ |}.

(** ** Operations *)

(** [dialFn] on the variable [sshForward]. *)
Definition dialFn (sshForward : option forward) : M (option forward * option (res stream)) :=
  let tunnel (f : forward) := t ⟵ Tunnel o f ;; ret (Some t.1, t.2) in
  match sshForward with
  | Some f => tunnel f
  | None =>
      r ⟵ CreateSSHForwardPassphrase o windows empty_URL remoteURI user sshkeypath passphrase ;;
      match r with
      | Ok f => tunnel f
      | Err err => ret (None, Some (Err err))
      | Panic => ret (None, Some Panic)
      end
  end.

Definition cleanup (sshForward : option forward) : M unit :=
  match sshForward with Some f => SSHForward_Close f | None => ret tt end.

(** [n] connections one after the other, and their outcomes; a panic is the end of the
    process. *)
Fixpoint connections (n : nat) (sshForward : option forward) : M (option forward * list (option (res stream))) :=
  match n with
  | O => ret (sshForward, [])
  | S n =>
      r ⟵ dialFn sshForward ;;
      match r.2 with
      | Some Panic => ret (r.1, [Some Panic])
      | a => rest ⟵ connections n r.1 ;; ret (rest.1, a :: rest.2)
      end
  end.

(** ** Events that use no client *)

Definition quiet (e : event) : bool :=
  match e with EvDial _ _ _ | EvAlive _ _ | EvHandshake _ _ (Some _) => false | _ => true end.
Definition silent (l : list event) : Prop := Forall (λ e, quiet e = true) l.

Lemma silent_nil : silent [].
Proof. constructor. Qed.
Lemma silent_app l1 l2 : silent l1 → silent l2 → silent (l1 ++ l2).
Proof. apply Forall_app_2. Qed.
Lemma silent_one e : quiet e = true → silent [e].
Proof. by repeat constructor. Qed.
#[local] Hint Resolve silent_nil silent_app silent_one : core.

Lemma silent_through l cur l' last : silent l → through cur l' last → through cur (l ++ l') last.
Proof.
  induction 1 as [|e l He _ IH]; [done|]. intros H.
  destruct e as [| |? ? []| | | | | | | | |]; try discriminate He; by apply IH.
Qed.
Lemma silent_good l : silent l → count good_dial l = 0%nat.
Proof.
  induction 1 as [|e l He _ IH]; [done|]. rewrite count_cons, IH. destruct e as [| |? ? []| | | | | | | | |]; done.
Qed.

(** A computation that uses no client and whose answer satisfies [Q]. *)
Definition silently {A} (m : M A) (Q : A → Prop) : Prop := ∀ w, wp m w (λ a w' l, silent l ∧ Q a).

Lemma silently_bind {A B} (m : M A) (f : A → M B) P Q :
  silently m P → (∀ a, P a → silently (f a) Q) → silently (bind m f) Q.
Proof.
  intros Hm Hf w. apply wp_bind. eapply wp_mono; [apply Hm|]. intros a w1 l1 [Hl1 Ha].
  eapply wp_mono; [by apply Hf|]. intros b w2 l2 [Hl2 Hb]. auto.
Qed.
Lemma silently_then {A B} (m : M A) (f : A → M B) Q :
  silently m (λ _, True) → (∀ a, silently (f a) Q) → silently (bind m f) Q.
Proof. intros Hm Hf. eapply silently_bind; eauto. Qed.
Lemma silently_ret {A} (a : A) (Q : A → Prop) : Q a → silently (ret a) Q.
Proof. intros H w. apply wp_ret. auto. Qed.
Lemma silently_emit e : quiet e = true → silently (emit e) (λ _, True).
Proof. intros H w. apply wp_emit. auto. Qed.
Lemma silently_lift {A} (f : W → A * W) : silently (lift f) (λ _, True).
Proof. intros w. apply wp_lift. auto. Qed.
Lemma silently_get {A} (f : W → A) : silently (get f) (λ _, True).
Proof. intros w. apply wp_get. auto. Qed.

(** The steps of the common cases. *)
Ltac silent_step :=
  lazymatch goal with
  | |- silently (bind _ _) _ => apply silently_then; [|intros ?]
  | |- silently (ret _) _ => apply silently_ret
  | |- silently (emit _) _ => by apply silently_emit
  | |- silently (lift _) _ => apply silently_lift
  | |- silently (get _) _ => apply silently_get
  | |- silently (sleep _ _) _ => unfold sleep
  | |- silently (if ?x then _ else _) _ => destruct x
  | |- silently (match ?x with _ => _ end) _ => destruct x
  end; cbn beta iota zeta.
Ltac silent := repeat silent_step.

(** ** Creating the forward *)

(** The address of the server makes the dialer panic. *)
Definition bad_host : Prop := tcpipAddress 1 (url_Host remoteURI) = Panic.
#[local] Abbreviation dial_server := (SetupConnect (url_Host remoteURI)).

Lemma call_connect_silently ctx b : silently (call_connect o ctx dial_server b) (λ r, r = Panic → bad_host).
Proof.
  intros w. eapply wp_mono; [by apply wp_call_connect|]. intros r w' l (Hp & (c & h & t & ->) & _).
  split; [by apply silent_one|]. intros Hr. by apply (gonetDialer_panics dial outer), Hp.
Qed.

Lemma initial_loop_silently n : ∀ backoff err, silently (initial_loop o n backoff err dial_server) (λ r, r = Panic → bad_host).
Proof.
  induction n as [|n IH]; intros backoff err; cbn [initial_loop]; cbv zeta.
  { apply silently_ret. by destruct err. }
  apply silently_then; [apply silently_get|]. intros [].
  { apply silently_ret. by destruct err. }
  eapply silently_bind; [apply call_connect_silently|]. intros [c|e|] Hp; [by apply silently_ret| |apply silently_ret; auto].
  apply silently_then; [silent; done|]. intros _. apply IH.
Qed.

Lemma host_callback_silently u port : silently (host_callback o u port) (λ _, True).
Proof. unfold host_callback, HostKey. silent; done. Qed.

Lemma auth_methods_safe u pass id w : auth_methods o u pass id w ≠ Panic.
Proof.
  unfold auth_methods, PublicKey. case_decide; cbn.
  - destruct (ReadFile outer id w) as [|k]; [done|]. cbn.
    destruct (ParsePrivateKey outer k); cbn; [..|done].
    + by case_decide.
    + destruct (ParsePrivateKeyWithPassphrase outer k pass); cbn; [done|]. by case_decide.
  - by case_decide.
Qed.

(** A computation after which an answer in [good] has the client [c] of the last
    handshake, whatever the client was before. *)
Definition renews {A} (m : M A) (good : A → client → Prop) (safe : A → Prop) : Prop :=
  ∀ w, wp m w (λ a w' l, safe a ∧ count good_dial l = 0%nat ∧
    ((silent l ∧ ∀ c, ¬ good a c) ∨ ∃ c, good a c ∧ ∀ cur, through cur l c)).

Lemma renews_after {A B} (m : M A) (f : A → M B) good safe P :
  silently m P → (∀ a, P a → renews (f a) good safe) → renews (bind m f) good safe.
Proof.
  intros Hm Hf w. apply wp_bind. eapply wp_mono; [apply Hm|]. intros a w1 l1 [Hl1 Ha].
  eapply wp_mono; [by apply Hf|]. intros b w2 l2 (Hs & Hc & Hb). split; [done|]. split.
  { by rewrite count_app, silent_good, Hc. }
  destruct Hb as [[Hl2 Hb]|(c & Hb & Ht)]; [left; auto|]. right. exists c. split; [done|].
  intros cur. by apply silent_through.
Qed.

Lemma renews_bind_ret {A B} (m : M A) (f : A → B) good safe good' (safe' : B → Prop) :
  renews m good safe → (∀ a c, good a c ↔ good' (f a) c) → (∀ a, safe a → safe' (f a)) →
  renews (bind m (λ a, ret (f a))) good' safe'.
Proof.
  intros Hm Hg Hs w. apply wp_bind. eapply wp_mono; [apply Hm|]. intros a w1 l1 (Hsa & Hc & Ha).
  apply wp_ret. rewrite app_nil_r. split; [by apply Hs|]. split; [done|].
  destruct Ha as [[Hl Ha]|(c & Ha & Ht)]; [left|right].
  - split; [done|]. intros c. rewrite <- Hg. apply Ha.
  - exists c. by rewrite <- Hg.
Qed.

Lemma renews_silent {A} (m : M A) good safe :
  silently m (λ a, safe a ∧ ∀ c, ¬ good a c) → renews m good safe.
Proof.
  intros Hm w. eapply wp_mono; [apply Hm|]. intros a w' l (Hl & Hs & Hg). split; [done|].
  split; [by apply silent_good|]. by left.
Qed.

(** What holds of every answer holds of the good ones. *)
Lemma renews_and {A} (m : M A) good safe : renews m good safe → renews m (λ a c, good a c ∧ safe a) safe.
Proof.
  intros Hm w. eapply wp_mono; [apply Hm|]. intros a w' l (Hs & Hc & Ha). split; [done|]. split; [done|].
  destruct Ha as [[Hl Ha]|(c & Ha & Ht)]; [left|right].
  - split; [done|]. intros c [H _]. by destruct (Ha c).
  - by exists c.
Qed.

Lemma reconnect_renews ctx c b : connect b = dial_server →
  renews (reconnect o ctx c b) (λ r cl, r.2 = Ok tt ∧ Client r.1 = Some cl)
    (λ r, (r.2 = Ok tt → is_Some (Client r.1)) ∧ (r.2 = Panic → bad_host) ∧ connect r.1 = dial_server).
Proof.
  intros Hcb. unfold reconnect. rewrite Hcb.
  apply (renews_after _ _ _ _ (λ r, r = Panic → bad_host)); [destruct c; [by silent|apply call_connect_silently]|].
  intros [c'|err|] Hp; [|by apply renews_silent; silent; naive_solver..].
  apply (renews_after _ _ _ _ (λ _, True)); [by silent|]. intros [err|cl] _.
  { apply renews_silent. silent. naive_solver. }
  intros w. apply wp_bind, wp_emit, wp_ret. split_and!; [by eexists|done|done|done|]. right. by exists cl.
Qed.

Lemma CreateBastion_renews initial :
  renews (CreateBastion o remoteURI user passphrase sshkeypath initial dial_server) (λ r cl, ∃ b, r = Ok b ∧ Client b = Some cl)
    (λ r, (r = Panic → bad_host) ∧ ∀ b, r = Ok b → is_Some (Client b) ∧ connect b = dial_server).
Proof.
  unfold CreateBastion. intros w. apply wp_bind, wp_get. cbn [app]. pose proof (auth_methods_safe user passphrase sshkeypath w) as Ha.
  destruct (auth_methods o user passphrase sshkeypath w) as [auth|err|]; [|by apply renews_silent; silent; naive_solver|done].
  revert w Ha. intros w _.
  enough (∀ port, renews (callback ⟵ host_callback o remoteURI port ;;
    r ⟵ reconnect o Background initial
          {| Client := None;
             Config := {| cc_User := Username user; cc_Auth := auth; cc_HostKeyCallback := callback;
                          cc_HostKeyAlgorithms := HostKeyAlgorithms; cc_Timeout := 5 * Second |};
             Host := Hostname remoteURI; Port := port; Path := url_Path remoteURI; connect := dial_server |} ;;
    ret match r with (b, Ok _) => Ok b | (_, Err err) => Err err | (_, Panic) => Panic end)
    (λ r cl, ∃ b, r = Ok b ∧ Client b = Some cl)
    (λ r, (r = Panic → bad_host) ∧ ∀ b, r = Ok b → is_Some (Client b) ∧ connect b = dial_server)) as H.
  { eapply wp_mono; [apply H|]. done. }
  intros port. apply (renews_after _ _ _ _ (λ _, True)); [apply host_callback_silently|]. intros cbk _.
  eapply renews_bind_ret; [by apply reconnect_renews|..].
  - intros [b [[]|e|]] c; cbn; naive_solver.
  - intros [b [[]|e|]] (H1 & H2 & H3); cbn in *; [|done|by split; [auto|]]. split; [done|]. intros ? [= <-]. auto.
Qed.

(** A forward that holds a client and dials the server through the stack. *)
Definition tunnelled (f : forward) (c : client) : Prop :=
  ∃ b, sf_bastion f = Some b ∧ Client b = Some c ∧ connect b = dial_server.

(** A forward that was created has the client of the last handshake. *)
Lemma setupProxy_renews :
  renews (CreateSSHForwardPassphrase o windows empty_URL remoteURI user sshkeypath passphrase)
    (λ r cl, ∃ f, r = Ok f ∧ tunnelled f cl)
    (λ r, (r = Panic → bad_host) ∧ ∀ f, r = Ok f → ∃ c, tunnelled f c).
Proof.
  unfold CreateSSHForwardPassphrase, setupProxy. cbn [url_Scheme empty_URL].
  apply (renews_after _ _ _ _ (λ r, r ≠ Panic)); [by rewrite !decide_False, decide_True by done; silent|].
  intros [l|err|] Hp; [|by apply renews_silent; silent; naive_solver|done].
  apply (renews_after _ _ _ _ (λ r, r = Panic → bad_host)); [apply initial_loop_silently|].
  intros [c|err|] Hp'; [|by apply renews_silent; silent; naive_solver..].
  eapply renews_bind_ret; [apply renews_and, CreateBastion_renews|..].
  - intros r cl. split.
    + intros ((b & -> & Hb) & _ & Hs). eexists. split; [done|]. exists b. by destruct (Hs b eq_refl).
    + intros (f & Hr & b & Hf & Hb & Hcb). destruct r as [b'|e|]; try done. injection Hr as <-. injection Hf as ->.
      split; [by exists b|]. split; [done|]. intros ? [= <-]. split; [by exists cl|done].
  - intros [b|e|] [Hs Hb]; [|done|by split; [auto|]]. split; [done|]. intros f [= <-].
    destruct (Hb b eq_refl) as [[cl Hcl] Hcb]. exists cl. by exists b.
Qed.

(** ** Connections *)

Definition succeeded (r : res stream) : nat := match r with Ok _ => 1 | _ => 0 end.

(** *** A server that can be dialed *)

Section good.
Context (Hhost : ¬ bad_host).

Lemma wp_Tunnel f w cur : tunnelled f cur →
  wp (Tunnel o f) w (λ r w' l, ∃ f' a c, r = (f', Some a) ∧ a ≠ Panic ∧ tunnelled f' c ∧ through cur l c ∧
    count good_dial l = succeeded a).
Proof using Hhost.
  intros (b & Hf & Hb & Hcb). unfold Tunnel. rewrite Hf. apply wp_bind.
  eapply wp_mono; [by apply (wp_connect_loop o 3 1)|].
  intros r w1 l (b' & a & c & -> & Ha & Hc & _ & Hcb' & Hl & Hg & _). apply wp_ret. rewrite app_nil_r.
  eexists _, a, c. split_and!; [done| | |by destruct Hl|].
  - intros Hp. apply Hhost, (gonetDialer_panics dial outer). rewrite <- Hcb. by apply Ha.
  - exists b'. by rewrite Hcb'.
  - rewrite Hg. by destruct a.
Qed.

Lemma wp_dialFn_some f w cur : tunnelled f cur →
  wp (dialFn (Some f)) w (λ r w' l, ∃ f' a c, r = (Some f', Some a) ∧ a ≠ Panic ∧ tunnelled f' c ∧ through cur l c ∧
    count good_dial l = succeeded a).
Proof using Hhost.
  intros Hf. unfold dialFn. apply wp_bind. eapply wp_mono; [by apply wp_Tunnel|].
  intros r w1 l (f' & a & c & -> & H). apply wp_ret. rewrite app_nil_r. by exists f', a, c.
Qed.

Lemma wp_dialFn_none w :
  wp (dialFn None) w (λ r w' l,
    (∃ err, r = (None, Some (Err err)) ∧ silent l) ∨
    ∃ f' a c, r = (Some f', Some a) ∧ a ≠ Panic ∧ tunnelled f' c ∧ (∀ cur, through cur l c) ∧
      count good_dial l = succeeded a).
Proof using Hhost.
  unfold dialFn. apply wp_bind. eapply wp_mono; [apply setupProxy_renews|].
  intros r w1 l1 (Hs & Hg & [[Hl Hr]|(c & (f & -> & Hf) & Ht)]).
  - destruct r as [f|err|]; [|by apply wp_ret; rewrite app_nil_r; left; exists err|by destruct Hhost; apply Hs].
    exfalso. destruct (proj2 Hs f eq_refl) as [c Hc]. apply (Hr c). by exists f.
  - apply wp_bind. eapply wp_mono; [by apply wp_Tunnel|].
    intros r w2 l2 (f' & a & c' & -> & Ha & Hf' & Ht' & Hg'). apply wp_ret. right. exists f', a, c'.
    split_and!; [done|done|done| |].
    + intros cur. rewrite app_nil_r. by eapply through_app.
    + by rewrite app_nil_r, count_app, Hg, Hg'.
Qed.

(** An answer that is not a panic lets the connections go on. *)
Lemma connections_go fw' (a : res stream) n w (Q : option forward * list (option (res stream)) → W → list event → Prop) : a ≠ Panic →
  wp (rest ⟵ connections n fw' ;; ret (rest.1, Some a :: rest.2)) w Q →
  wp (match Some a with
      | Some Panic => ret (fw', [Some Panic])
      | a => rest ⟵ connections n fw' ;; ret (rest.1, a :: rest.2)
      end) w Q.
Proof using Type. by destruct a. Qed.

(** What [n] connections leave behind, from a forward with the client [cur]. *)
Lemma wp_connections_some n : ∀ f w cur, tunnelled f cur →
  wp (connections n (Some f)) w (λ r w' l, ∃ f' outs c, r = (Some f', Some <$> outs) ∧ length outs = n ∧
    Forall (λ a, a ≠ Panic) outs ∧ tunnelled f' c ∧ through cur l c ∧
    count good_dial l = sum_list (succeeded <$> outs)).
Proof using Hhost.
  induction n as [|n IH]; intros f w cur Hf; cbn [connections].
  { apply wp_ret. exists f, [], cur. by split_and!; [..|constructor|]. }
  apply wp_bind. eapply wp_mono; [by apply wp_dialFn_some|].
  intros r w1 l1 (f1 & a & c1 & -> & Ha & Hf1 & Ht1 & Hg1). cbn [fst snd]. apply connections_go; [done|]. apply wp_bind.
  eapply wp_mono; [by apply IH|]. intros r w2 l2 (f2 & outs & c2 & -> & Hn & Ho & Hf2 & Ht2 & Hg2).
  apply wp_ret. exists f2, (a :: outs), c2. rewrite app_nil_r. split_and!; [done|cbn; by rewrite Hn|by constructor|done| |].
  - by eapply through_app.
  - rewrite count_app, Hg1, Hg2. done.
Qed.

Definition outcome_ok (n : nat) (fw : option forward) (outs : list (res stream)) (l : list event) : Prop :=
  length outs = n ∧ Forall (λ a, a ≠ Panic) outs ∧ count good_dial l = sum_list (succeeded <$> outs) ∧
  ((fw = None ∧ silent l ∧ Forall (λ a, ∃ err, a = Err err) outs) ∨
   ∃ f c, fw = Some f ∧ tunnelled f c ∧ ∀ cur, through cur l c).

Lemma wp_connections_none n : ∀ w,
  wp (connections n None) w (λ r w' l, ∃ fw outs, r = (fw, Some <$> outs) ∧ outcome_ok n fw outs l).
Proof using Hhost.
  induction n as [|n IH]; intros w; cbn [connections].
  { apply wp_ret. exists None, []. split; [done|]. split_and!; [done|constructor|done|by left]. }
  apply wp_bind. eapply wp_mono; [apply wp_dialFn_none|].
  intros r w1 l1 [(err & -> & Hl1)|(f1 & a & c1 & -> & Ha & Hf1 & Ht1 & Hg1)]; cbn [fst snd];
    try (apply connections_go; [done|]); apply wp_bind.
  - eapply wp_mono; [apply IH|]. intros r w2 l2 (fw & outs & -> & Hn & Ho & Hg & Hfw). apply wp_ret.
    exists fw, (Err err :: outs). rewrite app_nil_r. split; [done|]. split_and!; [cbn; by rewrite Hn|by constructor| |].
    + by rewrite count_app, silent_good, Hg.
    + destruct Hfw as [(-> & Hl2 & He)|(f & c & -> & Hr & Ht)]; [left|right].
      * split_and!; [done|by apply silent_app|]. constructor; [by exists err|done].
      * exists f, c. split_and!; [done|done|]. intros cur. by apply silent_through.
  - eapply wp_mono; [by apply wp_connections_some|].
    intros r w2 l2 (f2 & outs & c2 & -> & Hn & Ho & Hf2 & Ht2 & Hg2). apply wp_ret.
    exists (Some f2), (a :: outs). rewrite app_nil_r. split; [done|]. split_and!; [cbn; by rewrite Hn|by constructor| |].
    + by rewrite count_app, Hg1, Hg2.
    + right. exists f2, c2. split_and!; [done|done|]. intros cur. by eapply through_app.
Qed.
End good.

(** *** A server whose address makes the dialer panic *)

Section bad.
Context (Hbad : bad_host).

Lemma call_connect_bad ctx b w : (call_connect o ctx dial_server b w).1.1 = Panic.
Proof using Hbad.
  unfold call_connect, bind, emit, lift. cbn [DialContextTCP through_stack]. unfold gonetDialer. by rewrite Hbad.
Qed.

Lemma initial_loop_bad n backoff : silently (initial_loop o n backoff None dial_server) (λ r, r = Ok None ∨ r = Panic).
Proof using Hbad.
  destruct n; cbn [initial_loop]; cbv zeta; [apply silently_ret; by left|].
  apply silently_then; [apply silently_get|]. intros []; [apply silently_ret; by left|].
  apply (silently_bind _ _ (λ r, r = Panic)); [|intros a ->; apply silently_ret; by right].
  intros w. pose proof (call_connect_silently Ctx None w) as H. pose proof (call_connect_bad Ctx None w) as Hp.
  unfold wp in *. destruct (call_connect _ _ _ _ w) as [[a w'] l]. by destruct H.
Qed.

Lemma CreateBastion_bad :
  silently (CreateBastion o remoteURI user passphrase sshkeypath None dial_server) (λ r, ∀ b, r ≠ Ok b).
Proof using Hbad.
  unfold CreateBastion. apply silently_then; [apply silently_get|]. intros [auth|err|]; [|by apply silently_ret..]. cbv zeta.
  apply silently_then; [apply host_callback_silently|]. intros cbk.
  apply (silently_bind _ _ (λ r, r.2 = Panic)); [|intros [b r] Hr; cbn in Hr; subst r; by apply silently_ret].
  unfold reconnect. cbn [connect].
  apply (silently_bind _ _ (λ r, r = Panic)); [|intros a ->; by apply silently_ret].
  intros w.
  match goal with |- wp (call_connect _ ?c _ ?b) _ _ =>
    pose proof (call_connect_silently c b w) as H; pose proof (call_connect_bad c b w) as Hp end.
  unfold wp in *. destruct (call_connect _ _ _ _ w) as [[a w'] l]. by destruct H.
Qed.

Lemma dialFn_bad : silently (dialFn None) (λ r, r = (None, Some Panic) ∨ ∃ err, r = (None, Some (Err err))).
Proof using Hbad.
  unfold dialFn.
  apply (silently_bind _ _ (λ r, ∀ f, r ≠ Ok f)).
  - unfold CreateSSHForwardPassphrase, setupProxy. cbn [url_Scheme empty_URL].
    apply silently_then; [by rewrite !decide_False, decide_True by done; silent|].
    intros [l|err|]; [|by apply silently_ret..]. cbv zeta.
    eapply silently_bind; [apply initial_loop_bad|]. intros c [->| ->]; [|by apply silently_ret].
    eapply silently_bind; [apply CreateBastion_bad|]. intros b Hb. apply silently_ret. intros f.
    destruct b; [by destruct (Hb a)|done..].
  - intros [f|err|] Hr; [by destruct (Hr f)|apply silently_ret; right; by eexists|apply silently_ret; by left].
Qed.

(** The first connection, unless the context is done. *)
Lemma initial_loop_first n backoff err w : ctx_Done outer w = false →
  (initial_loop o (S n) backoff err dial_server w).1.1 = Panic.
Proof using Hbad.
  intros Hd. cbn [initial_loop]. cbv zeta. unfold bind, get. cbn [ctx_Done through_stack]. rewrite Hd.
  pose proof (call_connect_bad Ctx None w) as Hp. destruct (call_connect _ _ _ _ w) as [[a w'] l]. cbn in Hp. by subst a.
Qed.

Lemma dialFn_bad_first w : ctx_Done outer w = false → (dialFn None w).1.1 = (None, Some Panic).
Proof using Hbad.
  intros Hd. unfold dialFn, CreateSSHForwardPassphrase, setupProxy, initialConnection. cbn [url_Scheme empty_URL].
  rewrite !decide_False, decide_True by done. unfold bind, ret. cbv zeta.
  pose proof (initial_loop_first 59 (100 * Millisecond) None w Hd) as Hp.
  destruct (initial_loop o 60 _ _ _ w) as [[a w'] l]. cbn in Hp. by subst a.
Qed.

Lemma connections_bad n : silently (connections n None) (λ r, r.1 = None ∧ ∃ errs : list (res stream),
  Forall (λ a, ∃ err, a = Err err) errs ∧
  (r.2 = Some <$> errs ∧ length errs = n ∨ r.2 = Some <$> (errs ++ [Panic]) ∧ (length errs < n)%nat)).
Proof using Hbad.
  induction n as [|n IH]; cbn [connections].
  { apply silently_ret. split; [done|]. exists []. split; [constructor|by left]. }
  eapply silently_bind; [apply dialFn_bad|]. intros r [->|[err ->]]; cbn [fst snd].
  - apply silently_ret. split; [done|]. exists []. split; [constructor|]. right. split; [done|cbn; lia].
  - eapply silently_bind; [exact IH|]. intros [fw outs] (Hfw & errs & He & Ho). cbn in *. subst fw.
    apply silently_ret. split; [done|]. exists (Err err :: errs). split; [constructor; [by exists err|done]|].
    destruct Ho as [[-> <-]|[-> Hn]]; [by left|right]. split; [done|cbn; lia].
Qed.
End bad.

(** ** Properties *)

End tunnels.

(** ** Examples *)

(** Over the network stack, a server with an address answers, and the name of a host
    ends the process. *)
Definition stack_dial0 : context → FullAddress → Z → unit → (error + unit) * unit := λ _ _ _ w, (inr tt, w).
Definition remote_at (host : string) : URL :=
  {| url_Scheme := "ssh-tunnel"; url_Host := host; url_Path := "/run/podman/podman.sock"; url_Query := ∅ |}.
Definition dial_twice (host : string) : list (option (res unit)) :=
  (connections outside0 stack_dial0 false (remote_at host) None "/home/u/.ssh/key" "" 2 None tt).1.1.2.

Example by_address : dial_twice "192.168.127.2:22" = [Some (Ok tt); Some (Ok tt)].
Proof. by vm_compute. Qed.
Example by_name : dial_twice "localhost:22" = [Some Panic].
Proof. by vm_compute. Qed.

(** ** Witness *)

