(* ===== verification/WinSSHProxy.v ===== *)
(** cmd/win-sshproxy: the service that forwards pipes and sockets of Windows
    through the SSH server of the guest, one goroutine per (source, destination,
    identity) of the command line, and the hook that sends its log to the event
    log of Windows. *)
From Stdlib Require Import Ascii String.
From S2P Require Import Prelude GoStrings GoNet Ports Cmdline SSH.

Local Open Scope string_scope.
Local Open Scope list_scope.
Local Open Scope Z_scope.

(** * main.go *)

Definition ERR_BAD_ARGS : Z := 10.

(** A forwarded socket of the command line. *)
Record triple := { t_source : string; t_dest : string; t_identity : string }.

(** What the first argument selects. *)
Inductive selection := ShowVersion | Arguments_ (debug : bool) (args : list string).

Definition select_args (args : list string) : selection :=
  match args with
  | _ :: a :: _ =>
      if decide (a = "-version") then ShowVersion
      else if decide (a = "-debug") then Arguments_ true (drop 2 args)
      else Arguments_ false (drop 1 args)
  | _ => Arguments_ false args
  end.

(** The test before the usage is shown; [%] is the remainder of Go. *)
Definition bad_usage (args : list string) : bool :=
  let n := Z.of_nat (length args) in bool_decide (n < 5 ∨ Z.rem (n - 2) 3 ≠ 0).

(** The loop [for i := 2; i < len(args)-2; i += 3], on what is left from [i]:
    there are at least three arguments. *)
Fixpoint take_triples (l : list string) : list string * list string * list string :=
  match l with
  | s :: d :: i :: l => let '(ss, ds, ids) := take_triples l in (s :: ss, d :: ds, i :: ids)
  | _ => ([], [], [])
  end.

(** The outside: the event log, the file of the thread, net/url and the wait
    for the goroutines. *)
Record win_env := {
  eventlog_Open : string → option error;
  OpenFile : string → string → option error;       (* directory and name *)
  Getpid : Z;
  thread_id : Z;                                   (* GetCurrentMessageLoopThreadId *)
  win_url_Parse : string → error + (URL * option Userinfo);
}.

(** The goroutine of a forwarded socket: [identities[j]] is read when it runs. *)
Record proxy_task := {
  pt_src : URL;
  pt_dest : URL;
  pt_user : option Userinfo;
  pt_identity : option string;
}.

(** What the service has set up. *)
Record service := {
  log_name : string;
  log_debug : bool;
  stateDir : string;
  tid_file : error + string;       (* what saveThreadId wrote, or its error *)
  tasks : list proxy_task;
  ignored : option error;          (* the error of setupProxies, which main drops *)
}.

Inductive outcome :=
  | VersionShown
  | UsageShown
  | NoLog
  | Served (s : service) (wait : option error).

(** The status of the process. *)
Definition exit_code (r : outcome) : Z :=
  match r with
  | VersionShown => 0
  | UsageShown => ERR_BAD_ARGS
  | NoLog => 1
  | Served _ wait => if decide (wait = None) then 0 else 1
  end.

Section main.
Context (w : win_env).

(** The URL of a source. *)
Definition source_url (s : string) : error + URL :=
  if Contains s "://" then
    match win_url_Parse w s with inl err => inl err | inr (u, _) => inr u end
  else inr {| url_Scheme := "unix"; url_Host := ""; url_Path := s; url_Query := ∅ |}.

(** [setupProxies], from index [i] on: the goroutines it starts and its error. *)
Fixpoint setup_loop (i : nat) (sources dests identities : list string) : list proxy_task * res unit :=
  match sources with
  | [] => ([], Ok tt)
  | s :: sources =>
      match source_url s with
      | inl err => ([], Err err)
      | inr src =>
          match dests !! i with
          | None => ([], Panic)
          | Some d =>
              match win_url_Parse w d with
              | inl err => ([], Err err)
              | inr (dest, user) =>
                  let '(l, r) := setup_loop (S i) sources dests identities in
                  ({| pt_src := src; pt_dest := dest; pt_user := user; pt_identity := identities !! i |} :: l, r)
              end
          end
      end
  end.
Definition setupProxies (sources dests identities : list string) : list proxy_task * res unit :=
  setup_loop 0 sources dests identities.

(** The file is truncated and gets the process and the thread of the message loop. *)
Definition saveThreadId (dir : string) : error + string :=
  match OpenFile w dir "win-sshproxy.tid" with
  | Some err => inl err
  | None => inr (Itoa (Getpid w) +:+ ":" +:+ Itoa (thread_id w) +:+ String "010" "")
  end.

(** [setupLogging] fails when the event log cannot be opened. *)
Definition setupLogging : option error := eventlog_Open w ".NET Runtime".

(** [wait] is what [group.Wait()] returns for the goroutines. *)
Definition main (os_args : list string) (wait : list proxy_task → option error) : res outcome :=
  match select_args os_args with
  | ShowVersion => Ok VersionShown
  | Arguments_ debug args =>
      if bad_usage args then Ok UsageShown
      else
        match args with
        | name :: dir :: rest =>
            match setupLogging with
            | Some _ => Ok NoLog
            | None =>
                let '(sources, dests, identities) := take_triples rest in
                let '(l, r) := setupProxies sources dests identities in
                match r with
                | Panic => Panic
                | _ =>
                    Ok (Served {| log_name := name; log_debug := debug; stateDir := dir;
                                  tid_file := saveThreadId dir; tasks := l;
                                  ignored := match r with Err err => Some err | _ => None end |} (wait l))
                end
            end
        | _ => Panic                                (* args[0], args[1] out of range *)
        end
  end.

(** A task is a goroutine of SSH.v; on an identity out of range it panics. *)
Definition run_task {W client signer hostkey conn stream : Type}
    (o : outside (W := W) (client := client) (signer := signer) (hostkey := hostkey) (conn := conn) (stream := stream))
    (n : nat) (t : proxy_task) : W → option (res unit) * W * list (ev client signer hostkey) :=
  match pt_identity t with
  | Some id => forward_task o n true (pt_src t) (pt_dest t) (pt_user t) id
  | None => λ w, (Some Panic, w, [])
  end.

(** ** The command lines *)

Definition words (t : triple) : list string := [t_source t; t_dest t; t_identity t].
Definition command_line (prog : string) (debug : bool) (name dir : string) (ts : list triple) : list string :=
  prog :: (if debug then ["-debug"] else []) ++ name :: dir :: concat (words <$> ts).

(** The task of a forwarded socket, if both URLs are valid. *)
Definition task_of (t : triple) : error + proxy_task :=
  match source_url (t_source t) with
  | inl err => inl err
  | inr src =>
      match win_url_Parse w (t_dest t) with
      | inl err => inl err
      | inr (dest, user) =>
          inr {| pt_src := src; pt_dest := dest; pt_user := user; pt_identity := Some (t_identity t) |}
      end
  end.

(** The tasks up to the first invalid URL. *)
Fixpoint valid_tasks (ts : list triple) : list proxy_task * option error :=
  match ts with
  | [] => ([], None)
  | t :: ts =>
      match task_of t with
      | inl err => ([], Some err)
      | inr p => let '(l, e) := valid_tasks ts in (p :: l, e)
      end
  end.

Lemma take_triples_words ts :
  take_triples (concat (words <$> ts)) = (t_source <$> ts, t_dest <$> ts, t_identity <$> ts).
Proof. induction ts as [|t ts IH]; [done|]. cbn. by rewrite IH. Qed.

Lemma length_words ts : length (concat (words <$> ts)) = (3 * length ts)%nat.
Proof. induction ts as [|t ts IH]; [done|]. rewrite fmap_cons. cbn [concat]. rewrite length_app, IH. cbn. lia. Qed.

(** Every list whose length is a multiple of three is a list of triples. *)
Lemma words_exist n (l : list string) : length l = (3 * n)%nat → ∃ ts, l = concat (words <$> ts) ∧ length ts = n.
Proof.
  revert l. induction n as [|n IH]; intros l Hl.
  - destruct l; [|done]. by exists [].
  - destruct l as [|s [|d [|i l]]]; cbn in Hl; try lia. destruct (IH l) as (ts & -> & Hn); [lia|].
    exists ({| t_source := s; t_dest := d; t_identity := i |} :: ts). split; [done|]. cbn. by rewrite Hn.
Qed.

Lemma setup_loop_valid ts0 ts :
  setup_loop (length ts0) (t_source <$> ts) (t_dest <$> (ts0 ++ ts)) (t_identity <$> (ts0 ++ ts)) =
    (let '(l, e) := valid_tasks ts in (l, match e with Some err => Err err | None => Ok tt end)).
Proof.
  revert ts0. induction ts as [|t ts IH]; intros ts0; [done|]. rewrite fmap_cons. cbn [setup_loop valid_tasks].
  unfold task_of. destruct (source_url (t_source t)) as [err|src]; [done|].
  rewrite !list_lookup_fmap, list_lookup_middle by done. cbn.
  destruct (win_url_Parse w (t_dest t)) as [err|[dest user]]; [done|].
  specialize (IH (ts0 ++ [t])). rewrite length_app, Nat.add_1_r, <- app_assoc in IH. cbn in IH. rewrite IH.
  by destruct (valid_tasks ts).
Qed.

Lemma bad_usage_words name dir ts : bad_usage (name :: dir :: concat (words <$> ts)) = bool_decide (ts = []).
Proof.
  unfold bad_usage. cbn [length]. rewrite length_words. apply bool_decide_ext.
  replace (Z.of_nat (S (S (3 * length ts))) - 2) with (Z.of_nat (length ts) * 3) by lia.
  rewrite Z.rem_mul by lia. destruct ts; cbn [length]; split; try done; lia.
Qed.

(** Arguments that pass the test are a name, a directory and triples. *)
Lemma good_usage_words args : bad_usage args = false →
  ∃ name dir ts, args = name :: dir :: concat (words <$> ts) ∧ ts ≠ [].
Proof.
  unfold bad_usage. rewrite bool_decide_eq_false. intros H.
  destruct args as [|name [|dir l]]; cbn [length] in H; [exfalso; apply H; lia..|].
  assert (Z.rem (Z.of_nat (length l)) 3 = 0 ∧ 3 <= Z.of_nat (length l)) as [Hr Hl].
  { replace (Z.of_nat (S (S (length l))) - 2) with (Z.of_nat (length l)) in H by lia.
    destruct (decide (Z.rem (Z.of_nat (length l)) 3 = 0)); [|exfalso; apply H; by right].
    split; [done|]. destruct (decide (3 <= Z.of_nat (length l))); [done|]. exfalso. apply H. left. lia. }
  rewrite Z.rem_mod_nonneg in Hr by lia. apply Z.mod_divide in Hr as [k Hk]; [|done].
  destruct (words_exist (Z.to_nat k) l) as (ts & -> & Hn); [lia|].
  exists name, dir, ts. split; [done|]. intros ->. cbn in *. lia.
Qed.

Lemma main_command_line prog debug name dir ts wait :
  ts ≠ [] → (debug = false → name ≠ "-version" ∧ name ≠ "-debug") →
  main (command_line prog debug name dir ts) wait =
    match setupLogging with
    | Some _ => Ok NoLog
    | None =>
        let '(l, e) := valid_tasks ts in
        Ok (Served {| log_name := name; log_debug := debug; stateDir := dir; tid_file := saveThreadId dir;
                      tasks := l; ignored := e |} (wait l))
    end.
Proof.
  intros Hts Hname. unfold main.
  assert (select_args (command_line prog debug name dir ts) =
    Arguments_ debug (name :: dir :: concat (words <$> ts))) as ->.
  { destruct debug; [done|]. destruct (Hname eq_refl). cbn. by rewrite !decide_False. }
  rewrite bad_usage_words, bool_decide_eq_false_2 by done. destruct setupLogging; [done|].
  rewrite take_triples_words. unfold setupProxies.
  pose proof (setup_loop_valid [] ts) as Hv. cbn [length app] in Hv. rewrite Hv.
  by destruct (valid_tasks ts) as [l [err|]].
Qed.

(** The selection loses nothing but the flag. *)
Lemma select_args_inv os_args debug args : select_args os_args = Arguments_ debug args → bad_usage args = false →
  ∃ prog name dir ts, os_args = command_line prog debug name dir ts ∧ ts ≠ [] ∧
    (debug = false → name ≠ "-version" ∧ name ≠ "-debug").
Proof.
  intros Hs Hb. destruct (good_usage_words args Hb) as (name & dir & ts & -> & Hts).
  destruct os_args as [|prog [|a l]]; cbn in Hs; try done.
  rewrite drop_0 in Hs. repeat case_decide; simplify_eq; exists prog, name, dir, ts; by split_and!.
Qed.

(** ** Properties *)

(** C40: what the function main of win-sshproxy makes of its command line, the
    goroutines it starts aside; it has four outcomes.  With -version it prints
    the version.  A command line of a name, a state directory and at least one
    (source, destination, identity), with or without -debug, makes it open the
    event log: if that fails it exits with 1, and otherwise it starts one goroutine per
    triple, in order and each with its own
    URLs and identity, up to the first triple with an invalid URL; that error is
    only visible in [ignored], the status is the one of the goroutines that were
    started.  Every other command line shows the usage and exits with 10.  main does
    not panic on any command line (a goroutine can: [unlistened_panics]). *)
Theorem main_spec os_args wait :
  (os_args !! 1%nat = Some "-version" ∧ main os_args wait = Ok VersionShown) ∨
  (∃ prog debug name dir ts, os_args = command_line prog debug name dir ts ∧ ts ≠ [] ∧
     ((is_Some (eventlog_Open w ".NET Runtime") ∧ main os_args wait = Ok NoLog ∧ exit_code NoLog = 1) ∨
      (eventlog_Open w ".NET Runtime" = None ∧ main os_args wait =
         Ok (Served {| log_name := name; log_debug := debug; stateDir := dir; tid_file := saveThreadId dir;
                       tasks := (valid_tasks ts).1; ignored := (valid_tasks ts).2 |} (wait (valid_tasks ts).1))))) ∨
  ((∀ prog debug name dir ts, ts ≠ [] → (debug = false → name ≠ "-version" ∧ name ≠ "-debug") →
      os_args ≠ command_line prog debug name dir ts) ∧
   main os_args wait = Ok UsageShown ∧ exit_code UsageShown = 10).
Proof.
  destruct (select_args os_args) as [|debug args] eqn:Hs.
  { left. destruct os_args as [|p [|a l]]; cbn in Hs; try done. repeat case_decide; simplify_eq.
    split; [done|]. done. }
  destruct (bad_usage args) eqn:Hb.
  - right; right. split_and!; [|by unfold main; rewrite Hs, Hb|done].
    intros prog d name dir ts Hts Hname ->.
    assert (main (command_line prog d name dir ts) wait = Ok UsageShown) as H by (unfold main; by rewrite Hs, Hb).
    rewrite main_command_line in H by done. by destruct setupLogging, (valid_tasks ts).
  - right; left. destruct (select_args_inv _ _ _ Hs Hb) as (prog & name & dir & ts & -> & Hts & Hname).
    exists prog, debug, name, dir, ts. split_and!; [done..|]. rewrite main_command_line by done.
    unfold setupLogging. destruct (eventlog_Open w ".NET Runtime"), (valid_tasks ts); [left|right]; by eauto.
Qed.
End main.

(** The goroutine of a source whose URL has an empty scheme, such as [/x://y]: once the
    SSH connection stands it panics, and takes the process with it. *)
Theorem unlistened_panics {W client signer hostkey conn stream : Type}
    (o : outside (W := W) (client := client) (signer := signer) (hostkey := hostkey) (conn := conn) (stream := stream))
    n t id f w w1 l :
  pt_identity t = Some id → url_Scheme (pt_src t) = "" →
  CreateSSHForward o true (pt_src t) (pt_dest t) (pt_user t) id w = (Ok f, w1, l) → ctx_Done o w1 = false →
  run_task o (S n) t w = (Some Panic, w1, l).
Proof.
  intros Hid Hsc Hcr Hd. unfold run_task. rewrite Hid, (tunnel_only_panics _ _ _ _ _ _ _ _ _ _ _ Hsc Hcr). by rewrite Hd.
Qed.

(** The second destination is not a URL: its socket and the third one are
    dropped, and the process still exits with 0 when it is told to quit. *)
Definition example_env : win_env := {|
  eventlog_Open := λ _, None;
  OpenFile := λ _ _, None;
  Getpid := 42;
  thread_id := 7;
  win_url_Parse := λ s,
    if decide (s = "%") then inl (ErrStd "parse" "%")
    else inr ({| url_Scheme := "ssh"; url_Host := "localhost:22"; url_Path := s; url_Query := ∅ |}, None);
|}.

Example bad_url_ignored :
  match main example_env
    (command_line "win-sshproxy" false "podman" "C:\run"
       [{| t_source := "a"; t_dest := "x"; t_identity := "k" |}; {| t_source := "b"; t_dest := "%"; t_identity := "k" |};
        {| t_source := "c"; t_dest := "y"; t_identity := "k" |}]) (λ _, None) with
  | Ok (Served s e as r) =>
      length (tasks s) = 1%nat ∧ ignored s = Some (ErrStd "parse" "%") ∧ exit_code r = 0 ∧
      tid_file s = inr ("42:7" +:+ String "010" "")
  | _ => False
  end.
Proof. by vm_compute. Qed.

(** * event-hook.go *)

(** The levels of logrus. *)
Inductive level :=
  | PanicLevel | FatalLevel | ErrorLevel | WarnLevel | InfoLevel | DebugLevel | TraceLevel
  | OtherLevel (n : Z).

#[export] Instance level_eq_dec : EqDecision level.
Proof. solve_decision. Defined.

Definition level_String (l : level) : string :=
  match l with
  | PanicLevel => "panic"
  | FatalLevel => "fatal"
  | ErrorLevel => "error"
  | WarnLevel => "warning"
  | InfoLevel => "info"
  | DebugLevel => "debug"
  | TraceLevel => "trace"
  | OtherLevel _ => "unknown"
  end.

Definition AllLevels : list level :=
  [PanicLevel; FatalLevel; ErrorLevel; WarnLevel; InfoLevel; DebugLevel; TraceLevel].

(** An entry; the values of the fields as [%s] prints them, and the contents of
    the buffer of the entry, if it has one. *)
Record log_entry := {
  e_level : level;
  e_message : string;
  e_data : gmap string string;
  e_buffer : option string;
}.

Fixpoint spaces (n : nat) : string := match n with O => "" | S n => " " +:+ spaces n end.

(** The verb [%-5s]. *)
Definition pad5 (s : string) : string := s +:+ spaces (5 - String.length s).

(** [LogFormat.Format], with the fields in the order of the iteration. *)
Definition Format (name : string) (e : log_entry) (data : list (string * string)) : string :=
  let b := default "" (e_buffer e) in
  let b := b +:+ "[" +:+ pad5 (level_String (e_level e)) +:+ "] " +:+ name +:+ ": " +:+ e_message e in
  let b := foldl (λ b kv, b +:+ " {" +:+ kv.1 +:+ " = " +:+ kv.2 +:+ "}") b data in
  b +:+ String "010" "".

(** What the event log receives. *)
Inductive report :=
  | Error_ (eid : Z) (line : string)
  | Warning (eid : Z) (line : string)
  | Info (eid : Z) (line : string).

(** [EventLogHook.Fire]: [None] is the level that is not reported. *)
Definition Fire (name : string) (e : log_entry) (data : list (string * string)) : option report :=
  let line := Format name e data in
  match e_level e with
  | PanicLevel => Some (Error_ 1002 line)
  | FatalLevel => Some (Error_ 1001 line)
  | ErrorLevel => Some (Error_ 1000 line)
  | WarnLevel => Some (Warning 1000 line)
  | InfoLevel => Some (Info 1000 line)
  | DebugLevel | TraceLevel => Some (Info 1001 line)
  | OtherLevel _ => None
  end.
Definition Levels : list level := AllLevels.

(** The hook is fired for the levels of [Levels] and reports every one of them;
    an error is an error of the event log, and the identifier separates the
    levels of a kind, but for trace, which is reported as debug. *)
Lemma Fire_levels name e data : e_level e ∈ Levels → is_Some (Fire name e data).
Proof. unfold Fire, Levels, AllLevels. intros H. by destruct (e_level e); set_solver. Qed.
Lemma Fire_error name e data : e_level e ∈ Levels →
  (∃ n l, Fire name e data = Some (Error_ n l)) ↔ e_level e ∈ [PanicLevel; FatalLevel; ErrorLevel].
Proof.
  unfold Fire. intros _. destruct (e_level e); split; try (by eauto); try set_solver; intros (? & ? & ?); done.
Qed.

Example Format_fields : Format "proxy"
  {| e_level := InfoLevel; e_message := "up"; e_data := {["k" := "v"]}; e_buffer := None |} [("k", "v")] =
  "[info ] proxy: up {k = v}" +:+ String "010" "".
Proof. by vm_compute. Qed.
