(* ===== verification/Gvproxy.v ===== *)
(** cmd/gvproxy/main.go: the program on the host.  [main] reads the flags, checks
    them, writes the PID file and makes the configuration of the virtual network;
    [run] starts the network, its HTTP servers, the listener of the guest and the
    SSH forwards.  A goroutine of the error group is a [task]; the operating
    system and net/url are parameters. *)
From Stdlib Require Import Ascii String.
From S2P Require Import Prelude GoStrings GoNet IPPool Tcpip Switch Link Types GoHTTP Ports Nat DHCP VirtualNetwork Cmdline.

Local Open Scope string_scope.
Local Open Scope list_scope.
Local Open Scope Z_scope.

(** The constants. *)
Definition gatewayIP : string := "192.168.127.1".
Definition sshHostPort : string := "192.168.127.2:22".
Definition hostIP : string := "192.168.127.254".
Definition host : string := "host".
Definition gateway : string := "gateway".

(** The flag variables. *)
Definition endpoints : flags → list string := array_flag "listen".
Definition vpnkitSocket : flags → string := string_flag "listen-vpnkit".
Definition qemuSocket : flags → string := string_flag "listen-qemu".
Definition bessSocket : flags → string := string_flag "listen-bess".
Definition stdioSocket : flags → string := string_flag "listen-stdio".
Definition vfkitSocket : flags → string := string_flag "listen-vfkit".
Definition forwardSocket : flags → list string := array_flag "forward-sock".
Definition forwardDest : flags → list string := array_flag "forward-dest".
Definition forwardUser : flags → list string := array_flag "forward-user".
Definition forwardIdentify : flags → list string := array_flag "forward-identity".
Definition pidFile : flags → string := string_flag "pid-file".

(** The outside: files, sockets and the environment of the network. *)
Record host_env := {
  h_network : environment;
  Stat : string → option error;                   (* os.Stat *)
  Create : string → option error;                 (* os.Create of the PID file and the write to it *)
  transport_Listen : string → option error;
  transport_ListenUnixgram : string → option error;
  ListenTCP : FullAddress → option error;         (* gonet.ListenTCP in the network *)
  resolv_conf : option (list string * option error);  (* the lines of /etc/resolv.conf, the scanner's error *)
  is_unix : bool;                                 (* GOOS is darwin or linux *)
}.

Section main.
Context (h : host_env).

Definition parse_url (s : string) : error + URL := url_Parse (env_os (h_network h)) s.

(** ** The checks of main *)

Definition already_exists (path : string) : error := ErrStd "already exists" path.

Definition check_qemu (fl : flags) : res unit :=
  if decide (qemuSocket fl ≠ "") then
    uri ← wrap "invalid value for listen-qemu" (of_sum (parse_url (qemuSocket fl)));
    if decide (Stat h (url_Path uri) = None ∧ url_Scheme uri = "unix") then Err (already_exists (url_Path uri)) else mret tt
  else mret tt.

(** The same checks for the bess and the vfkit socket. *)
Definition check_scheme (flag scheme value : string) : res unit :=
  if decide (value ≠ "") then
    uri ← wrap ("invalid value for " +:+ flag) (of_sum (parse_url value));
    if decide (url_Scheme uri ≠ scheme) then Err (ErrMsg (flag +:+ " must be " +:+ scheme +:+ ":// address"))
    else if decide (Stat h (url_Path uri) = None) then Err (already_exists (url_Path uri)) else mret tt
  else mret tt.
Definition check_bess (fl : flags) : res unit := check_scheme "listen-bess" "unixpacket" (bessSocket fl).
Definition check_vfkit (fl : flags) : res unit := check_scheme "listen-vfkit" "unixgram" (vfkitSocket fl).

Definition check_exclusive (fl : flags) : res unit :=
  if decide (vpnkitSocket fl ≠ "" ∧ qemuSocket fl ≠ "") then
    Err (ErrMsg "cannot use qemu and vpnkit protocol at the same time")
  else if decide (vpnkitSocket fl ≠ "" ∧ bessSocket fl ≠ "") then
    Err (ErrMsg "cannot use bess and vpnkit protocol at the same time")
  else if decide (qemuSocket fl ≠ "" ∧ bessSocket fl ≠ "") then
    Err (ErrMsg "cannot use qemu and bess protocol at the same time")
  else mret tt.

Definition check_port (fl : flags) : res unit :=
  if decide (fl_sshPort fl < 1024 ∨ fl_sshPort fl > 65535)
  then Err (ErrMsg "ssh-port value must be between 1024 and 65535") else mret tt.

Definition protocol_of (fl : flags) : string :=
  let protocol := "hyperkit" in
  let protocol := if decide (qemuSocket fl ≠ "") then "qemu" else protocol in
  let protocol := if decide (bessSocket fl ≠ "") then "bess" else protocol in
  if decide (vfkitSocket fl ≠ "") then "vfkit" else protocol.

Definition check_forwards (fl : flags) : res unit :=
  let c := length (forwardSocket fl) in
  if decide (c ≠ length (forwardDest fl) ∨ c ≠ length (forwardUser fl) ∨ c ≠ length (forwardIdentify fl))
  then Err (ErrMsg "-forward-sock, --forward-dest, --forward-user, and --forward-identity must all be specified together, the same number of times, or not at all")
  else mret tt.

(** The loop over the identity files. *)
Fixpoint check_identities (ids : list string) : res unit :=
  match ids with
  | [] => mret tt
  | id :: ids => _ ← wrap ("Identity file " +:+ id +:+ " can't be loaded") (check (Stat h id)); check_identities ids
  end.

Definition create_pid_file (fl : flags) : res unit :=
  if decide (pidFile fl ≠ "") then check (Create h (pidFile fl)) else mret tt.

(** What main does before the network is started; an error exits with 1. *)
Definition validate (fl : flags) : res unit :=
  _ ← check_qemu fl;
  _ ← check_bess fl;
  _ ← check_vfkit fl;
  _ ← check_exclusive fl;
  _ ← check_port fl;
  _ ← check_forwards fl;
  _ ← check_identities (forwardIdentify fl);
  create_pid_file fl.

(** ** The configuration *)

Definition captureFile (fl : flags) : string := if negb (fl_debug fl) then "" else "capture.pcap".

(** The scanning loop of [searchDomains]. *)
Fixpoint scan_search (lines : list string) : option (list string) :=
  match lines with
  | [] => None
  | line :: lines =>
      if HasPrefix line "search " then Some (Split " " (TrimPrefix line "search ")) else scan_search lines
  end.

Definition searchDomains : list string :=
  if is_unix h then
    match resolv_conf h with
    | None => []
    | Some (lines, _) => default [] (scan_search lines)
    end
  else [].

Definition host_records : list DnsRecord :=
  [{| rec_Name := gateway; rec_IP := ParseIP gatewayIP; rec_Regexp := None |};
   {| rec_Name := host; rec_IP := ParseIP hostIP; rec_Regexp := None |}].

Definition configuration (fl : flags) : Configuration := {|
  cfg_Debug := fl_debug fl;
  cfg_CaptureFile := captureFile fl;
  cfg_MTU := fl_mtu fl;
  cfg_Subnet := "192.168.127.0/24";
  GatewayIP := gatewayIP;
  GatewayMacAddress := "5a:94:ef:e4:0c:dd";
  DHCPStaticLeases := {["192.168.127.2" := "5a:94:ef:e4:0c:ee"]};
  cfg_DNS := [{| zone_Name := "containers.internal."; zone_Records := host_records; DefaultIP := [] |};
              {| zone_Name := "docker.internal."; zone_Records := host_records; DefaultIP := [] |}];
  DNSSearchDomains := searchDomains;
  cfg_Forwards := {["127.0.0.1:" +:+ Itoa (fl_sshPort fl) := sshHostPort]};
  cfg_NAT := {[hostIP := "127.0.0.1"]};
  GatewayVirtualIPs := [hostIP];
  VpnKitUUIDMacAddresses := {["c3d68012-0208-11ea-9fd7-f2189899ab08" := "5a:94:ef:e4:0c:ee"]};
  cfg_Protocol := protocol_of fl;
|}.

(** ** run *)

(** The goroutines of the error group. *)
Inductive task :=
  | ServeAll (endpoint : string) (profiler : bool)  (* the whole API on a control endpoint *)
  | ServeForwarder (a : FullAddress)                (* /services/forwarder inside the network *)
  | LogTraffic
  | AcceptAllVpnKit (socket : string)
  | AcceptOne (protocol socket : string)            (* qemu, bess and vfkit *)
  | RemoveWhenDone (path : string)                  (* close the listener, then os.Remove(path) *)
  | AcceptStdioConn
  | SSHTask (src dest : URL) (user ident socket : string).

(** The tasks that were started, and the outcome. *)
Definition R (A : Type) : Type := list task * res A.
Definition and_then {A B} (m : R A) (f : A → R B) : R B :=
  match m with
  | (l, Ok a) => let '(l', r) := f a in (l ++ l', r)
  | (l, Err e) => (l, Err e)
  | (l, Panic) => (l, Panic)
  end.
Definition go (t : task) : R unit := ([t], Ok tt).
Definition try {A} (r : res A) : R A := ([], r).
#[local] Notation "x ⟵ m ;; k" := (and_then m (λ x, k)) (at level 100, m at next level, right associativity).
#[local] Notation "m ;;; k" := (and_then m (λ _, k)) (at level 100, right associativity).
Definition when (b : bool) (m : R unit) : R unit := if b then m else try (Ok tt).

(** The loop over the control endpoints. *)
Fixpoint listen_endpoints (profiler : bool) (l : list string) : R unit :=
  match l with
  | [] => try (Ok tt)
  | endpoint :: l =>
      try (wrap "cannot listen" (check (transport_Listen h endpoint))) ;;;
      go (ServeAll endpoint profiler) ;;;
      listen_endpoints profiler l
  end.

(** A socket for one guest. *)
Definition guest_socket (protocol socket : string) (listen : option error) : R unit :=
  when (bool_decide (socket ≠ "")) (
    try (check listen) ;;;
    go (RemoveWhenDone socket) ;;;
    go (AcceptOne protocol socket)).

Definition forward_src (sock : string) : res URL :=
  if Contains sock "://" then of_sum (parse_url sock)
  else Ok {| url_Scheme := "unix"; url_Host := ""; url_Path := sock; url_Query := ∅ |}.

(** The loop over the forwarded sockets, from index [i] on; the lists are read
    by index, which panics out of range. *)
Fixpoint start_forwards (fl : flags) (i : nat) (socks : list string) : R unit :=
  match socks with
  | [] => try (Ok tt)
  | sock :: socks =>
      src ⟵ try (forward_src sock) ;;
      match forwardUser fl !! i, forwardDest fl !! i, forwardIdentify fl !! i with
      | Some user, Some path, Some ident =>
          go (SSHTask src {| url_Scheme := "ssh"; url_Host := sshHostPort; url_Path := path; url_Query := ∅ |}
                user ident sock) ;;;
          start_forwards fl (S i) socks
      | _, _, _ => try Panic
      end
  end.

Definition run (fl : flags) (cfg : Configuration) (lease_order nat_order fwd_order : list (string * string))
    : R VirtualNetwork :=
  vn ⟵ try (New (h_network h) cfg lease_order nat_order fwd_order) ;;
  listen_endpoints (fl_debug fl) (endpoints fl) ;;;
  a ⟵ try (conn_address "tcp" (gatewayIP +:+ ":80")) ;;
  try (check (ListenTCP h a)) ;;;
  go (ServeForwarder a) ;;;
  when (fl_debug fl) (go LogTraffic) ;;;
  when (bool_decide (vpnkitSocket fl ≠ ""))
    (try (check (transport_Listen h (vpnkitSocket fl))) ;;; go (AcceptAllVpnKit (vpnkitSocket fl))) ;;;
  guest_socket "qemu" (qemuSocket fl) (transport_Listen h (qemuSocket fl)) ;;;
  guest_socket "bess" (bessSocket fl) (transport_Listen h (bessSocket fl)) ;;;
  guest_socket "vfkit" (vfkitSocket fl) (transport_ListenUnixgram h (vfkitSocket fl)) ;;;
  when (bool_decide (stdioSocket fl ≠ "")) (go AcceptStdioConn) ;;;
  start_forwards fl 0 (forwardSocket fl) ;;;
  try (Ok vn).

(** ** main *)

(** The status main exits with after [groupErrs.Wait()]: the argument of the
    deferred [os.Exit] is evaluated where it is deferred. *)
Definition main_exit (wait : option error) : Z :=
  let exitCode := 0 in
  let deferred := exitCode in
  let exitCode := match wait with Some _ => 1 | None => exitCode end in
  deferred.

(** The error group: the first error of its goroutines, in the order in which
    they return. *)
Fixpoint group_Wait (returned : list (option error)) : option error :=
  match returned with
  | [] => None
  | Some err :: _ => Some err
  | None :: returned => group_Wait returned
  end.

(** The goroutine that waits for a signal or for the end of the context. *)
Definition wait_signal (signal : bool) : option error := if signal then Some (ErrMsg "signal caught") else None.

(** The handler inside the network, on port 80 of the gateway: of the API only the
    exposed ports. *)
Definition gateway_patterns : list string :=
  ["/services/forwarder/all"; "/services/forwarder/expose"; "/services/forwarder/unexpose"].
Definition gateway_Mux (os : OS) (json : mux_json) (stats : stat) (o_ports : list (string * proxy))
    (o_leases : list (string * string)) (o_cam : list (list Z * Z)) (query : string → string) (hj : hijack)
    (r : http_request) (n : VirtualNetwork) : VirtualNetwork * mux_action :=
  match mux_route gateway_patterns (req_Method r) (req_Path r) with
  | RNone => (n, MuxReply http_NotFound)
  | RMoved location => (n, MuxReply (http_Moved location))
  | RPattern _ => VN_Mux os json stats o_ports o_leases o_cam query hj r n
  end.

(** The handlers of a control endpoint besides the API. *)
Definition withProfiler (debug : bool) : list string :=
  if debug then ["/debug/pprof/"; "/debug/pprof/cmdline"; "/debug/pprof/profile"; "/debug/pprof/symbol"] else [].

Inductive outcome :=
  | Exit (code : Z)
  | Running (tasks : list task) (r : res VirtualNetwork).

Definition main (args : list string) (lease_order nat_order fwd_order : list (string * string)) : outcome :=
  match flag_Parse args flags0 with
  | Ok fl =>
      if fl_version fl then Exit 0
      else
        match validate fl with
        | Ok _ => let '(tasks, r) := run fl (configuration fl) lease_order nat_order fwd_order in Running tasks r
        | _ => Exit 1
        end
  | Err err => Exit (if decide (err = ErrHelp) then 0 else 2)
  | Panic => Exit 2
  end.

(** ** The command lines main accepts *)

(** A socket of the given scheme, not yet used. *)
Definition fresh_socket (scheme value : string) : Prop :=
  value ≠ "" → ∃ u, parse_url value = inr u ∧ url_Scheme u = scheme ∧ Stat h (url_Path u) ≠ None.

Record accepted (fl : flags) : Prop := {
  acc_qemu : qemuSocket fl ≠ "" →
    ∃ u, parse_url (qemuSocket fl) = inr u ∧ (url_Scheme u = "unix" → Stat h (url_Path u) ≠ None);
  acc_bess : fresh_socket "unixpacket" (bessSocket fl);
  acc_vfkit : fresh_socket "unixgram" (vfkitSocket fl);
  acc_exclusive : (vpnkitSocket fl = "" ∨ qemuSocket fl = "") ∧ (vpnkitSocket fl = "" ∨ bessSocket fl = "") ∧
                  (qemuSocket fl = "" ∨ bessSocket fl = "");
  acc_port : 1024 ≤ fl_sshPort fl ≤ 65535;
  acc_forwards : length (forwardDest fl) = length (forwardSocket fl) ∧
                 length (forwardUser fl) = length (forwardSocket fl) ∧
                 length (forwardIdentify fl) = length (forwardSocket fl);
  acc_identities : Forall (λ id, Stat h id = None) (forwardIdentify fl);
  acc_pid : pidFile fl ≠ "" → Create h (pidFile fl) = None;
}.

Lemma check_ok e : check e = Ok tt ↔ e = None.
Proof. by destruct e. Qed.

Lemma check_qemu_ok fl : check_qemu fl = Ok tt ↔
  (qemuSocket fl ≠ "" → ∃ u, parse_url (qemuSocket fl) = inr u ∧ (url_Scheme u = "unix" → Stat h (url_Path u) ≠ None)).
Proof.
  unfold check_qemu. case_decide as Hq; [|by split; [intros _ []|]].
  destruct (parse_url (qemuSocket fl)) as [err|u] eqn:E; cbn.
  - split; [done|]. intros H. destruct (H Hq) as (? & ? & _). congruence.
  - case_decide as Hs; split; try done.
    + intros H. destruct (H Hq) as (u' & [= <-] & Hu). destruct Hs as [Hs1 Hs2]. by destruct (Hu Hs2).
    + intros _ _. exists u. split; [done|]. intros ??. by apply Hs.
Qed.

Lemma check_scheme_ok flag scheme value : check_scheme flag scheme value = Ok tt ↔ fresh_socket scheme value.
Proof.
  unfold check_scheme, fresh_socket. case_decide as Hq; [|by split; [intros _ []|]].
  destruct (parse_url value) as [err|u] eqn:E; cbn.
  - split; [done|]. intros H. destruct (H Hq) as (? & ? & _). congruence.
  - repeat case_decide; split; try done.
    + intros H'. by destruct (H' Hq) as (u' & [= <-] & Hu & _).
    + intros H'. by destruct (H' Hq) as (u' & [= <-] & _ & Hu).
    + intros _ _. exists u. split_and!; [done| |done].
      by destruct (decide (url_Scheme u = scheme)).
Qed.

Lemma check_exclusive_ok fl : check_exclusive fl = Ok tt ↔
  (vpnkitSocket fl = "" ∨ qemuSocket fl = "") ∧ (vpnkitSocket fl = "" ∨ bessSocket fl = "") ∧
  (qemuSocket fl = "" ∨ bessSocket fl = "").
Proof.
  unfold check_exclusive. destruct (decide (vpnkitSocket fl = "")), (decide (qemuSocket fl = "")),
    (decide (bessSocket fl = "")); repeat case_decide; naive_solver.
Qed.

Lemma check_identities_ok ids : check_identities ids = Ok tt ↔ Forall (λ id, Stat h id = None) ids.
Proof.
  induction ids as [|id ids IH]; cbn; [done|]. rewrite Forall_cons, <- IH.
  destruct (Stat h id); cbn; naive_solver.
Qed.

Lemma bind_tt_ok (m : res unit) (k : res unit) : (m ≫= λ _, k) = Ok tt ↔ m = Ok tt ∧ k = Ok tt.
Proof. destruct m as [[]| |]; cbn; naive_solver. Qed.

Lemma validate_ok fl : validate fl = Ok tt ↔ accepted fl.
Proof.
  unfold validate. rewrite !bind_tt_ok, check_qemu_ok, check_exclusive_ok, check_identities_ok.
  unfold check_bess, check_vfkit. rewrite !check_scheme_ok.
  assert (check_port fl = Ok tt ↔ 1024 ≤ fl_sshPort fl ≤ 65535) as ->.
  { unfold check_port. case_decide; split; intros; try done; lia. }
  assert (check_forwards fl = Ok tt ↔ length (forwardDest fl) = length (forwardSocket fl) ∧
     length (forwardUser fl) = length (forwardSocket fl) ∧ length (forwardIdentify fl) = length (forwardSocket fl)) as ->.
  { unfold check_forwards. case_decide; split; intros; try done; try lia. }
  assert (create_pid_file fl = Ok tt ↔ (pidFile fl ≠ "" → Create h (pidFile fl) = None)) as ->.
  { unfold create_pid_file. case_decide; [rewrite check_ok|]; naive_solver. }
  split; [intros (?&?&?&?&?&?&?&?); by constructor|by intros []].
Qed.

(** ** A host on which nothing fails *)

(** Nothing outside fails for these flags; [src] is what the forwarded sockets
    that are URLs parse to. *)
Record host_ok (fl : flags) (src : string → URL) : Prop := {
  ok_file : CreateFile (h_network h) = None;
  ok_sniffer : NewSniffer (h_network h) = None;
  ok_nic : CreateNIC (h_network h) = None;
  ok_address : AddProtocolAddress (h_network h) = None;
  ok_dns_udp : dns_DialUDP (h_network h) = None;
  ok_dns_tcp : dns_ListenTCP (h_network h) = None;
  ok_dhcp : dhcp_New (h_network h) = None;
  ok_ssh_port : os_Listen (env_os (h_network h)) "tcp" ("127.0.0.1:" +:+ Itoa (fl_sshPort fl)) ∅ = None;
  ok_listen s : transport_Listen h s = None;
  ok_unixgram s : transport_ListenUnixgram h s = None;
  ok_http a : ListenTCP h a = None;
  ok_src s : s ∈ forwardSocket fl → forward_src s = Ok (src s);
}.

(** The SSH port of the host is forwarded to port 22 of the guest. *)
Definition ssh_proxy (fl : flags) : proxy :=
  {| Local_ := "127.0.0.1:" +:+ Itoa (fl_sshPort fl); Remote_ := sshHostPort; Protocol_ := TCP; underlying := 0 |}.
Definition ssh_listener (fl : flags) : listener :=
  {| l_network := "tcp"; l_address := "127.0.0.1:" +:+ Itoa (fl_sshPort fl);
     l_dial := DialTCP {| fa_NIC := 1; fa_Addr := [192; 168; 127; 2]; fa_Port := 22 |} |}.

(** The network of these flags. *)
Record gvproxy_network (fl : flags) (n : VirtualNetwork) : Prop := {
  net_configuration : vn_configuration n = configuration fl;
  net_address : st_address (vn_stack n) = [192; 168; 127; 1];
  net_pool : base (vn_ipPool n) = {| net_IP := [192; 168; 127; 0]; net_Mask := [255; 255; 255; 0] |};
  net_leases : leases (vn_ipPool n) =
    {["192.168.127.1" := "5a:94:ef:e4:0c:dd"; "192.168.127.2" := "5a:94:ef:e4:0c:ee"]};
  net_proxies : proxies (sv_ports (vn_services n)) = {[key TCP (Local_ (ssh_proxy fl)) := ssh_proxy fl]};
  net_listeners : listeners (sv_ports (vn_services n)) = {[0%nat := ssh_listener fl]};
  net_nat : sv_nat (vn_services n) = {[ [192; 168; 127; 254] := [127; 0; 0; 1] ]};
  net_zones : sv_zones (vn_services n) = cfg_DNS (configuration fl);
  net_conns : conns (vn_switch n) = ∅;
}.

Lemma parsed_subnet : ParseCIDR "192.168.127.0/24" =
  Ok (ParseIP "192.168.127.0", {| net_IP := [192; 168; 127; 0]; net_Mask := [255; 255; 255; 0] |}).
Proof. by vm_compute. Qed.

Lemma forward_ssh fl src : host_ok fl src →
  forwardHostVM (env_os (h_network h)) [(Local_ (ssh_proxy fl), sshHostPort)] NewPortsForwarder =
    (add_proxy TCP (Local_ (ssh_proxy fl)) sshHostPort (ssh_listener fl) NewPortsForwarder, Ok tt).
Proof.
  intros Hok. cbn [forwardHostVM].
  assert (HasPrefix (Local_ (ssh_proxy fl)) "udp:" = false) as -> by done.
  unfold Expose, open_socket, open_tcp. cbn [proxies NewPortsForwarder]. rewrite lookup_empty.
  rewrite (decide_False (P := TCP = UNIX ∨ TCP = NPIPE)), (decide_False (P := TCP = UDP)), decide_True
    by (done || by intros []).
  assert (tcpipAddress 1 sshHostPort = Ok {| fa_NIC := 1; fa_Addr := [192; 168; 127; 2]; fa_Port := 22 |}) as ->
    by by vm_compute.
  cbn [mbind res_bind listeners NewPortsForwarder Local_ ssh_proxy]. by rewrite (ok_ssh_port _ _ Hok).
Qed.

Lemma New_ok fl src lo no fo : host_ok fl src →
  range_order (DHCPStaticLeases (configuration fl)) lo → range_order (cfg_NAT (configuration fl)) no →
  range_order (cfg_Forwards (configuration fl)) fo →
  ∃ n, New (h_network h) (configuration fl) lo no fo = Ok n ∧ gvproxy_network fl n.
Proof.
  intros Hok ->%range_order_singleton ->%range_order_singleton ->%range_order_singleton.
  pose proof (forward_ssh fl src Hok) as Hf. destruct Hok.
  assert (capture (h_network h) (configuration fl) = Ok tt) as Hcap.
  { unfold capture. rewrite ok_file0, ok_sniffer0. by case_decide. }
  unfold New, NewLinkEndpoint, createStack, addServices, dnsServer, dhcpServer. rewrite Hcap.
  cbn [cfg_Subnet configuration GatewayIP GatewayMacAddress]. rewrite parsed_subnet.
  rewrite ok_nic0, ok_address0, ok_dns_udp0, ok_dns_tcp0, ok_dhcp0.
  assert (ParseMAC "5a:94:ef:e4:0c:dd" = Ok [90; 148; 239; 228; 12; 221]) as -> by by vm_compute.
  assert (AddrFrom4Slice (To4 (ParseIP gatewayIP)) = Ok [192; 168; 127; 1]) as -> by by vm_compute.
  assert (parseNATTable [(hostIP, "127.0.0.1")] ∅ = Ok {[ [192; 168; 127; 254] := [127; 0; 0; 1] ]}) as ->
    by by vm_compute.
  change ("127.0.0.1:" +:+ Itoa (fl_sshPort fl)) with (Local_ (ssh_proxy fl)). rewrite Hf.
  eexists. split; [reflexivity|]. split; try reflexivity; by vm_compute.
Qed.

(** The goroutines main ends up with. *)
Definition guest_tasks (protocol socket : string) : list task :=
  if decide (socket = "") then [] else [RemoveWhenDone socket; AcceptOne protocol socket].
Definition ssh_task (src : string → URL) (f : (string * string) * (string * string)) : task :=
  SSHTask (src f.1.1) {| url_Scheme := "ssh"; url_Host := sshHostPort; url_Path := f.1.2; url_Query := ∅ |}
    f.2.1 f.2.2 f.1.1.
Definition ssh_forwards (fl : flags) : list ((string * string) * (string * string)) :=
  zip (zip (forwardSocket fl) (forwardDest fl)) (zip (forwardUser fl) (forwardIdentify fl)).
Definition all_tasks (fl : flags) (src : string → URL) : list task :=
  ((λ e, ServeAll e (fl_debug fl)) <$> endpoints fl) ++
  [ServeForwarder {| fa_NIC := 1; fa_Addr := [192; 168; 127; 1]; fa_Port := 80 |}] ++
  (if fl_debug fl then [LogTraffic] else []) ++
  (if decide (vpnkitSocket fl = "") then [] else [AcceptAllVpnKit (vpnkitSocket fl)]) ++
  guest_tasks "qemu" (qemuSocket fl) ++ guest_tasks "bess" (bessSocket fl) ++
  guest_tasks "vfkit" (vfkitSocket fl) ++
  (if decide (stdioSocket fl = "") then [] else [AcceptStdioConn]) ++
  (ssh_task src <$> ssh_forwards fl).

Lemma and_then_ok {A B} l (a : A) (m : R A) (f : A → R B) l' r :
  m = (l, Ok a) → f a = (l', r) → and_then m f = (l ++ l', r).
Proof. intros -> H. cbn. by rewrite H. Qed.

Lemma listen_endpoints_ok p l : (∀ s, transport_Listen h s = None) →
  listen_endpoints p l = ((λ e, ServeAll e p) <$> l, Ok tt).
Proof. intros Hl. induction l as [|e l IH]; [done|]. cbn. rewrite Hl. cbn. by rewrite IH. Qed.

Lemma guest_socket_ok protocol socket : guest_socket protocol socket None = (guest_tasks protocol socket, Ok tt).
Proof. unfold guest_socket, guest_tasks. case_decide as E; [by rewrite E|]. by rewrite bool_decide_eq_true_2. Qed.

Lemma start_forwards_ok fl src i :
  (∀ s, s ∈ forwardSocket fl → forward_src s = Ok (src s)) →
  length (forwardDest fl) = length (forwardSocket fl) → length (forwardUser fl) = length (forwardSocket fl) →
  length (forwardIdentify fl) = length (forwardSocket fl) →
  start_forwards fl i (drop i (forwardSocket fl)) = (ssh_task src <$> drop i (ssh_forwards fl), Ok tt).
Proof.
  intros Hs Hd Hu Hi. remember (drop i (forwardSocket fl)) as l eqn:El. revert i El.
  induction l as [|s l IH]; intros i El.
  - assert (length (forwardSocket fl) <= i)%nat as Hle.
    { apply (f_equal length) in El. rewrite length_drop in El. cbn in El. lia. }
    rewrite drop_ge; [done|]. unfold ssh_forwards. rewrite !length_zip_with. lia.
  - assert (forwardSocket fl !! i = Some s) as Hlk.
    { rewrite <- (Nat.add_0_r i), <- lookup_drop, <- El. done. }
    pose proof (lookup_lt_Some _ _ _ Hlk) as Hlt.
    destruct (lookup_lt_is_Some_2 (forwardUser fl) i) as [u Hui]; [lia|].
    destruct (lookup_lt_is_Some_2 (forwardDest fl) i) as [d Hdi]; [lia|].
    destruct (lookup_lt_is_Some_2 (forwardIdentify fl) i) as [ident Hii]; [lia|].
    assert (ssh_forwards fl !! i = Some ((s, d), (u, ident))) as Hf.
    { unfold ssh_forwards. rewrite !lookup_zip_with, Hlk, Hui, Hdi, Hii. done. }
    rewrite (drop_S _ _ _ Hf). cbn [start_forwards fmap list_fmap].
    rewrite Hs, Hui, Hdi, Hii by (by eapply list_elem_of_lookup_2). cbn.
    rewrite (IH (S i)); [done|]. symmetry. apply (f_equal tail) in El. cbn in El. rewrite El.
    by rewrite (drop_S _ _ _ Hlk).
Qed.

Lemma run_ok fl src lo no fo n : host_ok fl src → accepted fl →
  New (h_network h) (configuration fl) lo no fo = Ok n →
  run fl (configuration fl) lo no fo = (all_tasks fl src, Ok n).
Proof.
  intros Hok Hacc Hn. 
  assert (conn_address "tcp" (gatewayIP +:+ ":80") = Ok {| fa_NIC := 1; fa_Addr := [192; 168; 127; 1]; fa_Port := 80 |})
    as Ha by by vm_compute.
  unfold run, all_tasks. rewrite Hn, Ha, (ok_unixgram _ _ Hok), !(ok_listen _ _ Hok), !guest_socket_ok.
  eapply (and_then_ok []); [done|]. eapply and_then_ok; [by apply listen_endpoints_ok, Hok|].
  eapply (and_then_ok []); [done|]. eapply (and_then_ok []); [by rewrite (ok_http _ _ Hok)|].
  eapply (and_then_ok [_]); [done|].
  eapply and_then_ok; [by destruct (fl_debug fl)|].
  eapply and_then_ok; [by case_decide; unfold when; [rewrite bool_decide_eq_false_2|rewrite bool_decide_eq_true_2]; auto|].
  do 3 (eapply and_then_ok; [done|]).
  eapply and_then_ok; [by case_decide; unfold when; [rewrite bool_decide_eq_false_2|rewrite bool_decide_eq_true_2]; auto|].
  rewrite <- (app_nil_r (_ <$> _)). eapply and_then_ok; [|done].
  destruct (acc_forwards _ Hacc) as (Hd & Hu & Hi). by apply (start_forwards_ok fl src 0); [apply Hok|..].
Qed.

(** ** Properties *)

(** Which command lines start the network.  When the flags are accepted (a
    fresh qemu, bess or vfkit socket of the right scheme, at most one of vpnkit,
    qemu and bess, an SSH port from 1024 to 65535, as many destinations, users
    and identity files as forwarded sockets, identity files that exist, a PID
    file that can be written) main runs; otherwise it exits with 1. *)
Theorem main_checks args fl lo no fo :
  flag_Parse args flags0 = Ok fl → fl_version fl = false →
  (accepted fl →
     main args lo no fo = Running (run fl (configuration fl) lo no fo).1 (run fl (configuration fl) lo no fo).2) ∧
  (¬ accepted fl → main args lo no fo = Exit 1).
Proof.
  intros Hp Hv. unfold main. rewrite Hp, Hv, <- validate_ok. split.
  - intros ->. by destruct (run _ _ _ _ _).
  - intros Hn. destruct (validate fl) as [[]| |]; [by destruct Hn|done..].
Qed.

(** A request of a guest changes the ports at most, and is answered. *)
Lemma guest_request os json stats o_ports o_leases o_cam query hj r n p :
  mux_route gateway_patterns (req_Method r) (req_Path r) = RPattern p →
  ∃ path, path ∈ ["/all"; "/expose"; "/unexpose"] ∧ req_Path r = "/services/forwarder" +:+ path ∧
    let y := Ports_Mux os (json_ports json) o_ports
      {| req_Method := req_Method r; req_Path := path; req_RemoteAddr := req_RemoteAddr r; req_Body := req_Body r |}
      (sv_ports (vn_services n)) in
    VN_Mux os json stats o_ports o_leases o_cam query hj r n = (with_ports y.1 n, of_response y.2).
Proof.
  intros Er. pose proof (mux_route_elem _ _ _ _ Er) as Hp. apply mux_route_exact in Er; [|by apply (bool_decide_unpack _); vm_compute].
  assert (∃ path, path ∈ ["/all"; "/expose"; "/unexpose"] ∧ p = "/services/forwarder" +:+ path) as (path & Hin & ->).
  { unfold gateway_patterns in Hp.
    apply elem_of_cons in Hp as [->|Hp]; [by exists "/all"; split; [set_solver|]|].
    apply elem_of_cons in Hp as [->|Hp]; [by exists "/expose"; split; [set_solver|]|].
    apply list_elem_of_singleton in Hp as ->. by exists "/unexpose"; split; [set_solver|]. }
  exists path. split_and!; [done..|]. destruct r as [method q addr body]. cbn [req_Path req_Method req_RemoteAddr req_Body] in *. subst q.
  rewrite VN_Mux_forwarder by done. by destruct (Ports_Mux _ _ _ _ _).
Qed.

Lemma guest_request_answer os json stats o_ports o_leases o_cam query hj r n :
  match (gateway_Mux os json stats o_ports o_leases o_cam query hj r n).2 with MuxReply _ | MuxPanic => True | _ => False end.
Proof.
  unfold gateway_Mux. destruct (mux_route _ _ _) as [p|location|] eqn:Er; [|done..].
  destruct (guest_request os json stats o_ports o_leases o_cam query hj r n p Er) as (path & _ & _ & ->).
  cbn. by destruct (Ports_Mux _ _ _ _ _).2.
Qed.

(** C5: what the guests may ask of the API.  Through port 80 of the gateway a request
    is one to list, expose or unexpose a port, with exactly the effect and the
    answer of the port forwarder and nothing else of the network changed; any other
    request is not found or redirected.  No guest reaches the rest of the API: no
    tunnel, no new connection to the switch, no zone and no lease. *)
Theorem guest_api_limited os json stats o_ports o_leases o_cam query hj r n :
  let x := gateway_Mux os json stats o_ports o_leases o_cam query hj r n in
  (x.1 = n ∧ (x.2 = MuxReply http_NotFound ∨ ∃ location, x.2 = MuxReply (http_Moved location))) ∨
  ∃ path, path ∈ ["/all"; "/expose"; "/unexpose"] ∧ req_Path r = "/services/forwarder" +:+ path ∧
    let y := Ports_Mux os (json_ports json) o_ports
      {| req_Method := req_Method r; req_Path := path; req_RemoteAddr := req_RemoteAddr r; req_Body := req_Body r |}
      (sv_ports (vn_services n)) in
    x = (with_ports y.1 n, of_response y.2).
Proof.
  cbv zeta. unfold gateway_Mux. destruct (mux_route _ _ _) as [p|location|] eqn:Er; [|left; eauto..]. right.
  by apply guest_request with p.
Qed.

(** C32: what gvproxy starts.  On accepted flags and a host on which nothing
    fails, the virtual network is created: address 192.168.127.1 in
    192.168.127.0/24, 192.168.127.2 reserved for the MAC address of the guest,
    127.0.0.1 behind 192.168.127.254, the two zones, nobody connected, and as
    only open port of the host 127.0.0.1:ssh-port, forwarded to port 22 of the
    guest; and exactly the servers, listeners and SSH forwards of the flags are
    running, whatever the orders of the maps. *)
Theorem main_runs args fl src lo no fo :
  flag_Parse args flags0 = Ok fl → fl_version fl = false → accepted fl → host_ok fl src →
  range_order (DHCPStaticLeases (configuration fl)) lo → range_order (cfg_NAT (configuration fl)) no →
  range_order (cfg_Forwards (configuration fl)) fo →
  ∃ n, main args lo no fo = Running (all_tasks fl src) (Ok n) ∧ gvproxy_network fl n.
Proof.
  intros Hp Hv Hacc Hok Hlo Hno Hfo. destruct (New_ok fl src lo no fo) as (n & Hn & Hnet); [done..|].
  exists n. split; [|done]. unfold main. rewrite Hp, Hv, (proj2 (validate_ok fl) Hacc).
  by rewrite (run_ok fl src lo no fo n).
Qed.
End main.

(** ** Witnesses *)

Definition qemu_uri : URL :=
  {| url_Scheme := "unix"; url_Host := ""; url_Path := "/tmp/qemu.sock"; url_Query := ∅ |}.

(** A host without any of the sockets. *)
Definition host0 : host_env := {|
  h_network := {|
    env_os := {| url_Parse := λ s, if decide (s = "unix:///tmp/qemu.sock") then inr qemu_uri else inl (ErrExt "parse");
                 os_Remove := os_Remove os0; os_Listen := os_Listen os0; ListenNpipe := ListenNpipe os0;
                 ResolveUDPAddr := ResolveUDPAddr os0 |};
    CreateFile := None; NewSniffer := None; CreateNIC := None; AddProtocolAddress := None;
    dns_DialUDP := None; dns_ListenTCP := None; dhcp_New := None |};
  Stat := λ path, if decide (path = "/home/core/id") then None else Some (ErrExt "no such file");
  Create := λ _, None;
  transport_Listen := λ _, None;
  transport_ListenUnixgram := λ _, None;
  ListenTCP := λ _, None;
  resolv_conf := Some (["nameserver 1.1.1.1"; "search crc.testing example.com"], None);
  is_unix := true;
|}.

Definition args0 : list string :=
  ["-listen"; "unix:///tmp/net.sock"; "-ssh-port"; "2223"; "-listen-qemu"; "unix:///tmp/qemu.sock";
   "-forward-sock"; "/tmp/docker.sock"; "-forward-dest"; "/run/docker.sock"; "-forward-user"; "core";
   "-forward-identity"; "/home/core/id"].
Definition flags_of (args : list string) : flags := match flag_Parse args flags0 with Ok fl => fl | _ => flags0 end.
Definition src0 (sock : string) : URL :=
  {| url_Scheme := "unix"; url_Host := ""; url_Path := sock; url_Query := ∅ |}.

Lemma accepted0 : accepted host0 (flags_of args0).
Proof. refine (proj1 (validate_ok host0 (flags_of args0)) _). by vm_compute. Qed.

Lemma host0_ok : host_ok host0 (flags_of args0) src0.
Proof.
  split; try done. change (forwardSocket (flags_of args0)) with ["/tmp/docker.sock"].
  intros s ->%list_elem_of_singleton. by vm_compute.
Qed.

Lemma main_checks_witness : main host0 ["-ssh-port"; "80"] [] [] [] = Exit 1.
Proof.
  refine (proj2 (main_checks host0 ["-ssh-port"; "80"] (flags_of ["-ssh-port"; "80"]) [] [] [] _ _) _);
    [by vm_compute|by vm_compute|].
  intros Hacc. pose proof (acc_port _ _ Hacc) as [H _].
  change (fl_sshPort (flags_of ["-ssh-port"; "80"])) with 80 in H. lia.
Defined.

Lemma main_runs_witness : ∃ tasks n,
  main host0 args0 [("192.168.127.2", "5a:94:ef:e4:0c:ee")] [(hostIP, "127.0.0.1")] [("127.0.0.1:2223", sshHostPort)] =
    Running tasks (Ok n) ∧
  AcceptOne "qemu" "unix:///tmp/qemu.sock" ∈ tasks ∧
  proxies (sv_ports (vn_services n)) !! "tcp/127.0.0.1:2223" = Some (ssh_proxy (flags_of args0)).
Proof.
  destruct (main_runs host0 args0 (flags_of args0) src0 [("192.168.127.2", "5a:94:ef:e4:0c:ee")]
    [(hostIP, "127.0.0.1")] [("127.0.0.1:2223", sshHostPort)]) as (n & Hr & Hn).
  - by vm_compute.
  - by vm_compute.
  - exact accepted0.
  - exact host0_ok.
  - unfold range_order. change (DHCPStaticLeases _) with ({["192.168.127.2" := "5a:94:ef:e4:0c:ee"]} : gmap string string).
    by rewrite map_to_list_singleton.
  - unfold range_order. change (cfg_NAT _) with ({[hostIP := "127.0.0.1"]} : gmap string string).
    by rewrite map_to_list_singleton.
  - unfold range_order. change (cfg_Forwards _) with ({["127.0.0.1:2223" := sshHostPort]} : gmap string string).
    by rewrite map_to_list_singleton.
  - exists (all_tasks (flags_of args0) src0), n. split; [exact Hr|]. split.
    + change (all_tasks (flags_of args0) src0) with
        [ServeAll "unix:///tmp/net.sock" false; ServeForwarder {| fa_NIC := 1; fa_Addr := [192; 168; 127; 1]; fa_Port := 80 |};
         RemoveWhenDone "unix:///tmp/qemu.sock"; AcceptOne "qemu" "unix:///tmp/qemu.sock";
         SSHTask (src0 "/tmp/docker.sock") {| url_Scheme := "ssh"; url_Host := sshHostPort;
           url_Path := "/run/docker.sock"; url_Query := ∅ |} "core" "/home/core/id" "/tmp/docker.sock"].
      do 3 right. left.
    + rewrite (net_proxies _ _ _ Hn). by rewrite lookup_singleton.
Defined.
