(* ===== verification/Shutdown.v ===== *)
(** cmd/gvproxy/main.go while it runs: the goroutines that [run] starts in the
    error group ([Gvproxy.task]), the context they share, the signal, and
    [groupErrs.Wait()].  A goroutine is at a point [pc] of its code; a step lets
    one goroutine go on, with a [wakeup] from the outside where it blocks.  What
    a goroutine does between two blocking points is in the other files. *)
From Stdlib Require Import Ascii String.
From S2P Require Import Prelude GoStrings GoNet IPPool Tcpip Switch Link Types Ports Nat DHCP VirtualNetwork Cmdline Gvproxy.

Local Open Scope string_scope.
Local Open Scope list_scope.
Local Open Scope nat_scope.

(** ** Goroutines *)

(** What lets a goroutine go on: nothing but its own code (a call that does not
    block and succeeds, the context), or an event outside. *)
Inductive wakeup :=
  | AGo
  | ASignal          (* a signal on sigChan *)
  | ATimer           (* the five seconds of the traffic log *)
  | AConn            (* Accept returns a connection; a connection is set up *)
  | AData            (* a frame arrived and was handled *)
  | AErr (err : error).

(** Where a goroutine is.  A listener is a number. *)
Inductive pc :=
  | Running (pending : list task) (err : option error)  (* run: what it still has to start, what it returns *)
  | WaitSignal                                (* main: select *)
  | SignalCaught                              (* main: after cancel() *)
  | Closing (l : nat)                         (* httpServe: <-ctx.Done(); ln.Close() *)
  | Serving (l : nat)                         (* httpServe: s.Serve(ln) *)
  | Logging
  | VpnkitLoop (l : nat)                      (* the select at the top of vpnloop *)
  | VpnkitAccept (l : nat)
  | VpnkitConn                                (* AcceptVpnKit *)
  | Removing (l : nat) (path : string)        (* <-ctx.Done(); listener.Close() *)
  | RemovePath (path : string)                (* os.Remove *)
  | Accepting (protocol : string) (l : nat)
  | RxLoop (sock : option nat)                (* the select at the top of the receive loop *)
  | RxRead (sock : option nat)                (* Read; the socket, if it is a listener that is closed elsewhere *)
  | SshConnect (path : string)                (* CreateSSHForward *)
  | SshLoop (l : nat) (path : string)         (* the select at the top of the loop *)
  | SshAccept (l : nat) (path : string)       (* AcceptAndTunnel: Accept *)
  | SshTunnel (l : nat) (path : string)       (* AcceptAndTunnel: connectForward *)
  | SshReturn (path : string) (err : option error)  (* the deferred os.Remove *)
  | SshClose (l : nat)                        (* <-ctx.Done(); forward.Close() *)
  | Returned (err : option error).

(** What the goroutines share: the context, the open listeners, the paths given to [os.Remove]. *)
Record shared := {
  sh_done : bool;
  sh_open : gset nat;
  sh_fresh : nat;
  sh_removed : list string;
}.
Definition shared0 : shared := {| sh_done := false; sh_open := ∅; sh_fresh := 0; sh_removed := [] |}.
Definition cancel (sh : shared) : shared :=
  {| sh_done := true; sh_open := sh_open sh; sh_fresh := sh_fresh sh; sh_removed := sh_removed sh |}.
Definition sh_listen (sh : shared) : shared :=
  {| sh_done := sh_done sh; sh_open := {[sh_fresh sh]} ∪ sh_open sh; sh_fresh := S (sh_fresh sh);
     sh_removed := sh_removed sh |}.
Definition sh_close (l : nat) (sh : shared) : shared :=
  {| sh_done := sh_done sh; sh_open := sh_open sh ∖ {[l]}; sh_fresh := sh_fresh sh; sh_removed := sh_removed sh |}.
Definition remove_path (path : string) (sh : shared) : shared :=
  {| sh_done := sh_done sh; sh_open := sh_open sh; sh_fresh := sh_fresh sh; sh_removed := sh_removed sh ++ [path] |}.

(** The goroutines of a task.  [run] opens a listener just before it starts the
    goroutine that closes it; the one that accepts is started next. *)
Definition start_task (t : task) (sh : shared) : shared * list pc :=
  let l := sh_fresh sh in
  match t with
  | ServeAll _ _ | ServeForwarder _ => (sh_listen sh, [Closing l; Serving l])
  | LogTraffic => (sh, [Logging])
  | AcceptAllVpnKit _ => (sh_listen sh, [VpnkitLoop l])
  | RemoveWhenDone path => (sh_listen sh, [Removing l path])
  | AcceptOne protocol _ => (sh, [Accepting protocol (pred l)])
  | AcceptStdioConn => (sh, [RxLoop None])
  | SSHTask _ _ _ _ path => (sh, [SshConnect path])
  end.

Definition ErrClosed : error := ErrStd "net" "use of closed network connection".
Definition accept_error (protocol : string) (err : error) : error :=
  if decide (protocol = "vfkit") then err else ErrWrap (protocol +:+ " accept error") err.

(** [vn.AcceptQemu], [AcceptBess] and [AcceptVfkit] after the connection: the vfkit
    connection is the listening socket itself. *)
Definition rx_socket (protocol : string) (l : nat) : option nat :=
  if decide (protocol = "vfkit") then Some l else None.

(** The error of [os.Remove]. *)
Definition remove_result (a : wakeup) : option (option error) :=
  match a with AGo => Some None | AErr err => Some (Some err) | _ => None end.

(** The calls that block on a listener that was closed return an error. *)
Definition closed_result (l : nat) (sh : shared) (p : pc) : option (pc * shared * list (bool * pc)) :=
  if decide (l ∈ sh_open sh) then None else Some (p, sh, []).
Definition when_done (sh : shared) (r : pc * shared * list (bool * pc)) : option (pc * shared * list (bool * pc)) :=
  if sh_done sh then Some r else None.

(** One step of a goroutine: where it is next, what is shared, and the goroutines it
    starts, inside ([true]) or outside the group. *)
Definition next (a : wakeup) (sh : shared) (p : pc) : option (pc * shared * list (bool * pc)) :=
  match p, a with
  | Running (t :: ts) err, AGo => let '(sh', new) := start_task t sh in Some (Running ts err, sh', pair true <$> new)
  | Running [] err, AGo => Some (Returned err, sh, [])
  | WaitSignal, ASignal => Some (SignalCaught, cancel sh, [])
  | WaitSignal, AGo => when_done sh (Returned None, sh, [])
  | SignalCaught, AGo => Some (Returned (Some (ErrMsg "signal caught")), sh, [])
  | Closing l, AGo => when_done sh (Returned None, sh_close l sh, [])
  | Closing l, AErr err => when_done sh (Returned (Some err), sh_close l sh, [])
  | Serving l, AGo => closed_result l sh (Returned (Some ErrClosed))
  | Serving l, AErr err => Some (Returned (Some err), sh_close l sh, [])  (* Serve closes the listener *)
  | Logging, ATimer => Some (Logging, sh, [])
  | Logging, AGo => when_done sh (Returned None, sh, [])
  | VpnkitLoop l, AGo => Some (if sh_done sh then Returned None else VpnkitAccept l, sh, [])
  | VpnkitAccept l, AConn => Some (VpnkitLoop l, sh, [(true, VpnkitConn)])
  | VpnkitAccept l, AErr _ => Some (VpnkitLoop l, sh, [])
  | VpnkitConn, AData => Some (VpnkitConn, sh, [])
  | VpnkitConn, AErr _ => Some (Returned None, sh, [])
  | Removing l path, AGo | Removing l path, AErr _ => when_done sh (RemovePath path, sh_close l sh, [])
  | RemovePath path, a => err ← remove_result a; Some (Returned err, remove_path path sh, [])
  | Accepting protocol l, AConn =>
      if decide (l ∈ sh_open sh) then Some (RxLoop (rx_socket protocol l), sh, []) else None
  | Accepting protocol l, AErr err => Some (Returned (Some (accept_error protocol err)), sh, [])
  | Accepting protocol l, AGo => closed_result l sh (Returned (Some (accept_error protocol ErrClosed)))
  | RxLoop c, AGo => Some (if sh_done sh then Returned None else RxRead c, sh, [])
  | RxRead c, AData => Some (RxLoop c, sh, [])
  | RxRead _, AErr err => Some (Returned (Some err), sh, [])
  | RxRead (Some l), AGo => closed_result l sh (Returned (Some ErrClosed))
  | SshConnect path, AConn =>
      let l := sh_fresh sh in Some (SshLoop l path, sh_listen sh, [(false, SshClose l)])
  | SshConnect path, AErr err => Some (SshReturn path (Some err), sh, [])
  | SshLoop l path, AGo => Some (if sh_done sh then SshReturn path None else SshAccept l path, sh, [])
  | SshAccept l path, AConn => if decide (l ∈ sh_open sh) then Some (SshTunnel l path, sh, []) else None
  | SshAccept l path, AErr _ => Some (SshLoop l path, sh, [])
  | SshAccept l path, AGo => closed_result l sh (SshLoop l path)
  | SshTunnel l path, AConn | SshTunnel l path, AErr _ => Some (SshLoop l path, sh, [])
  | SshReturn path err, AGo | SshReturn path err, AErr _ => Some (Returned err, remove_path path sh, [])
  | SshClose l, AGo => when_done sh (Returned None, sh_close l sh, [])
  | _, _ => None
  end.

(** ** The error group *)

Record group := {
  routines : list (bool * pc);   (* every goroutine started so far, and whether the group waits for it *)
  g_shared : shared;
  g_err : option error;
  g_returned : list (option error);  (* what its goroutines have returned, in order *)
}.

(** The function given to [Go] has returned: the first error is kept and cancels the context. *)
Definition go_return (grouped : bool) (p : pc) (g : group) : group :=
  match grouped, p with
  | true, Returned err =>
      let first := match g_err g, err with None, Some _ => true | _, _ => false end in
      {| routines := routines g;
         g_shared := if first then cancel (g_shared g) else g_shared g;
         g_err := if first then err else g_err g;
         g_returned := g_returned g ++ [err] |}
  | _, _ => g
  end.

Definition step_at (i : nat) (a : wakeup) (g : group) : option group :=
  '(grouped, p) ← routines g !! i;
  '(p', sh', new) ← next a (g_shared g) p;
  Some (go_return grouped p'
    {| routines := <[i := (grouped, p')]> (routines g) ++ new; g_shared := sh'; g_err := g_err g;
       g_returned := g_returned g |}).
Definition step (g g' : group) : Prop := ∃ i a, step_at i a g = Some g'.

(** [Wait]: nothing as long as a goroutine of the group runs. *)
Definition returned (r : bool * pc) : bool := match r with (true, Returned _) => true | (b, _) => negb b end.
Definition Wait (g : group) : option (option error) :=
  if forallb returned (routines g) then Some (g_err g) else None.

(** main after the configuration: [run] and the goroutine of the signals. *)
Definition start_group (tasks : list task) (err : option error) : group :=
  {| routines := [(true, Running tasks err); (true, WaitSignal)]; g_shared := shared0; g_err := None;
     g_returned := [] |}.

(** What main does after the configuration, on the outcome of [Gvproxy.main]; a panic of [run] ends the process. *)
Definition group_of (o : outcome) : option group :=
  match o with
  | Gvproxy.Running tasks (Ok _) => Some (start_group tasks None)
  | Gvproxy.Running tasks (Err err) => Some (start_group tasks (Some err))
  | _ => None
  end.

(** ** Work: every step after the end of the context that changes something decreases it *)

Definition pc_work (p : pc) : nat :=
  match p with
  | Running ts _ => 1 + 5 * length ts
  | Returned _ => 0
  | WaitSignal | RxRead _ | Removing _ _ | Accepting _ _ | SshLoop _ _ => 2
  | VpnkitAccept _ | SshTunnel _ _ => 3
  | SshAccept _ _ | SshConnect _ => 4
  | _ => 1
  end.
Definition pcs_work (l : list (bool * pc)) : nat := sum_list_with (λ r, pc_work r.2) l.
Definition work (g : group) : nat := pcs_work (routines g).

Lemma pcs_work_app l1 l2 : pcs_work (l1 ++ l2) = pcs_work l1 + pcs_work l2.
Proof. apply sum_list_with_app. Qed.

Lemma pcs_work_insert i g p p' l : l !! i = Some (g, p) →
  pcs_work (<[i:=(g, p')]> l) + pc_work p = pcs_work l + pc_work p'.
Proof.
  intros Hi. rewrite <- (take_drop_middle l i _ Hi) at 2.
  rewrite insert_take_drop by (by eapply lookup_lt_Some). rewrite !pcs_work_app. cbn. lia.
Qed.

(** Case analysis on a step of a goroutine. *)
Ltac inv_next H :=
  unfold next, when_done, closed_result, remove_result in H;
  repeat (case_match || case_decide); simplify_option_eq.

(** ** What a goroutine still owes *)

(** The listener it will close, and the paths it will remove. *)
Definition closes (p : pc) : option nat :=
  match p with Closing l | Removing l _ | SshClose l => Some l | _ => None end.
Definition task_path (t : task) : list string :=
  match t with RemoveWhenDone path | SSHTask _ _ _ _ path => [path] | _ => [] end.
Definition keeps (p : pc) : list string :=
  match p with
  | Running ts _ => ts ≫= task_path
  | Removing _ path | RemovePath path | SshConnect path | SshLoop _ path | SshAccept _ path | SshTunnel _ path
  | SshReturn path _ => [path]
  | _ => []
  end.

(** The listener of VPNKit is never closed; these goroutines have none. *)
Definition no_vpnkit_task (t : task) : bool := match t with AcceptAllVpnKit _ => false | _ => true end.
Definition no_vpnkit (p : pc) : bool :=
  match p with
  | Running ts _ => forallb no_vpnkit_task ts
  | VpnkitLoop _ | VpnkitAccept _ | VpnkitConn => false
  | _ => true
  end.

(** Outside the group there are only the closers of the SSH forwards. *)
Definition outside_group (r : bool * pc) : Prop :=
  r.1 = false → match r.2 with SshClose _ | Returned _ => True | _ => False end.

Lemma start_task_spec t sh sh' new : start_task t sh = (sh', new) →
  sh_done sh' = sh_done sh ∧ sh_removed sh' = sh_removed sh ∧ pcs_work (pair true <$> new) < 5 ∧
  (no_vpnkit_task t = true → forallb no_vpnkit new = true ∧
     ∀ l, l ∈ sh_open sh' → l ∈ sh_open sh ∨ ∃ q, q ∈ new ∧ closes q = Some l) ∧
  (∀ path, path ∈ task_path t → ∃ q, q ∈ new ∧ path ∈ keeps q) ∧
  (∀ err, Returned err ∉ new).
Proof.
  intros H. split_and!.
  1-3: destruct t; cbn in H; simplify_eq/=; unfold pcs_work; cbn; done || lia.
  - destruct t; cbn in H; simplify_eq/=; intros Hv; try done; (split; [done|]); intros l Hl; try (by left);
      apply elem_of_union in Hl as [->%elem_of_singleton|?]; try (by left);
      right; eexists; (split; [by left|done]).
  - destruct t; cbn in H; simplify_eq/=; try (by intros ? []%not_elem_of_nil);
      intros ? ->%list_elem_of_singleton; eexists; (split; [by left|by left]).
  - intros err. destruct t; cbn in H; simplify_eq/=; rewrite list_elem_of_In; cbn; intuition congruence.
Qed.

(** One step of a goroutine. *)
Record next_spec (sh : shared) (p p' : pc) (sh' : shared) (new : list (bool * pc)) : Prop := {
  nx_done : sh_done sh = true → sh_done sh' = true;
  nx_cancel : sh_done sh' = true → sh_done sh = true ∨ p' = SignalCaught;
  nx_waits : p = WaitSignal → sh_done sh' = true;
  nx_caught : p = SignalCaught → ∃ e, p' = Returned (Some e);
  nx_work : sh_done sh = true → (p' = p ∧ sh' = sh ∧ new = []) ∨ pc_work p' + pcs_work new < pc_work p;
  nx_keeps path : path ∈ keeps p → path ∈ sh_removed sh' ∨ path ∈ keeps p' ∨ ∃ r, r ∈ new ∧ path ∈ keeps r.2;
  nx_removed path : path ∈ sh_removed sh → path ∈ sh_removed sh';
  nx_vpnkit : no_vpnkit p = true → no_vpnkit p' = true ∧ Forall (λ r, no_vpnkit r.2 = true) new;
  nx_open l : no_vpnkit p = true → l ∈ sh_open sh' →
    (l ∈ sh_open sh ∧ closes p ≠ Some l) ∨ closes p' = Some l ∨ ∃ r, r ∈ new ∧ closes r.2 = Some l;
  nx_outside : outside_group (false, p) → outside_group (false, p');
  nx_new : Forall outside_group new;
  nx_running e : (true, Returned (Some e)) ∉ new;
}.

Lemma next_start t ts err sh sh' new : start_task t sh = (sh', new) →
  next_spec sh (Running (t :: ts) err) (Running ts err) sh' (pair true <$> new).
Proof.
  intros H. destruct (start_task_spec t sh sh' new H) as (Hd & Hr & Hw & Hv & Hk & Hs). split; try done.
  - by rewrite Hd.
  - rewrite Hd. by left.
  - intros _. right. cbn. lia.
  - intros path Hp. right. cbn in Hp. apply elem_of_app in Hp as [Hp|Hp].
    + right. destruct (Hk path Hp) as (q & Hq & ?). exists (true, q). split; [by apply list_elem_of_fmap_2|done].
    + by left.
  - by rewrite Hr.
  - cbn. intros [Ht Hts]%andb_prop. split; [done|]. destruct (Hv Ht) as [Hn _]. apply Forall_fmap, Forall_forall. intros q Hq. cbn.
    rewrite forallb_forall in Hn. by apply Hn, list_elem_of_In.
  - cbn. intros l [Ht Hts]%andb_prop Hl. destruct (proj2 (Hv Ht) l Hl) as [?|(q & ? & ?)]; [by left|right; right].
    exists (true, q). split; [by apply list_elem_of_fmap_2|done].
  - apply Forall_fmap, Forall_true. by intros.
  - intros e ([] & [= <-] & Hq)%list_elem_of_fmap. by apply Hs in Hq.
Qed.

Lemma next_ok a sh p p' sh' new : next a sh p = Some (p', sh', new) → next_spec sh p p' sh' new.
Proof.
  intros H. destruct p as [[|t ts] err| | | | | | | | | | | | | | | | | | | |], a; try done; cbn in H;
    try (destruct (start_task t sh) as [sh1 new1] eqn:E; simplify_eq/=; by apply next_start);
    try (unfold when_done, closed_result in H; repeat (case_match || case_decide); simplify_eq/=);
    (split; cbn in *; try done; auto; try congruence;
      try (right; cbn; lia); 
      try (intros ?; rewrite ?elem_of_difference, ?elem_of_union, ?not_elem_of_singleton, ?elem_of_singleton,
        ?elem_of_app, ?list_elem_of_singleton, ?elem_of_nil; naive_solver)).
  - by apply Forall_singleton.
  - intros ? _ [->%elem_of_singleton|?]%elem_of_union; [|by left].
    right. right. eexists. split; [by apply list_elem_of_singleton|done].
  - by apply Forall_singleton.
Qed.

(** One step of the group. *)
Definition moved (i : nat) (b : bool) (p' : pc) (sh' : shared) (new : list (bool * pc)) (g : group) : group :=
  {| routines := <[i := (b, p')]> (routines g) ++ new; g_shared := sh'; g_err := g_err g; g_returned := g_returned g |}.

Lemma step_at_inv i a g g' : step_at i a g = Some g' →
  ∃ b p p' sh' new, routines g !! i = Some (b, p) ∧ next a (g_shared g) p = Some (p', sh', new) ∧
    next_spec (g_shared g) p p' sh' new ∧ g' = go_return b p' (moved i b p' sh' new g).
Proof.
  unfold step_at. destruct (routines g !! i) as [[b p]|] eqn:Hi; cbn; [|done].
  destruct (next a (g_shared g) p) as [[[p' sh'] new]|] eqn:Hn; cbn; [|done]. intros [= <-].
  exists b, p, p', sh', new. split_and!; [done..|by eapply next_ok|done].
Qed.

Lemma group_Wait_app l x : group_Wait (l ++ [x]) = match group_Wait l with Some e => Some e | None => x end.
Proof. induction l as [|[e|] l IH]; [by destruct x|done|done]. Qed.

Lemma go_return_same b p g :
  routines (go_return b p g) = routines g ∧ sh_open (g_shared (go_return b p g)) = sh_open (g_shared g) ∧
  sh_removed (g_shared (go_return b p g)) = sh_removed (g_shared g) ∧
  (sh_done (g_shared g) = true → sh_done (g_shared (go_return b p g)) = true).
Proof. destruct b; [|done]. destruct p; try done. cbn. by cases. Qed.

Lemma go_return_err b p g : g_err g = group_Wait (g_returned g) →
  let g' := go_return b p g in
  g_err g' = group_Wait (g_returned g') ∧ (g_err g ≠ None → g_err g' = g_err g) ∧
  (g_err g' ≠ None → g_err g ≠ None ∨ sh_done (g_shared g') = true) ∧
  (sh_done (g_shared g') = true → sh_done (g_shared g) = true ∨ g_err g' ≠ None) ∧
  (∀ e, b = true → p = Returned (Some e) → g_err g' ≠ None).
Proof.
  intros Hf. destruct b; [|by split_and!; try done; auto]. destruct p; try by (split_and!; auto; done).
  cbn. rewrite group_Wait_app, <- Hf. destruct (g_err g), err; cbn; split_and!; auto; naive_solver.
Qed.

Section moved.
Context {i : nat} {b : bool} {p p' : pc} {l new : list (bool * pc)} (Hi : l !! i = Some (b, p)).

Lemma elem_moved_old r : r ∈ l → r = (b, p) ∨ r ∈ <[i := (b, p')]> l ++ new.
Proof using Hi.
  intros [j Hj]%list_elem_of_lookup. destruct (decide (i = j)) as [<-|Hij]; [left; congruence|right].
  apply elem_of_app. left. apply list_elem_of_lookup. exists j. by rewrite list_lookup_insert_ne.
Qed.
Lemma elem_moved_at : (b, p') ∈ <[i := (b, p')]> l ++ new.
Proof using Hi.
  apply elem_of_app. left. apply list_elem_of_lookup. exists i. apply list_lookup_insert_eq. by eapply lookup_lt_Some.
Qed.
Lemma elem_moved_new r : r ∈ new → r ∈ <[i := (b, p')]> l ++ new.
Proof using Type. intros ?. apply elem_of_app. by right. Qed.
Lemma elem_moved_inv r : r ∈ <[i := (b, p')]> l ++ new → r ∈ l ∨ r = (b, p') ∨ r ∈ new.
Proof using Type.
  intros [[j Hj]%list_elem_of_lookup|?]%elem_of_app; [|auto]. destruct (decide (i = j)) as [<-|Hij].
  - apply list_lookup_insert_Some in Hj as [(_ & <- & _)|[? _]]; [auto|done].
  - rewrite list_lookup_insert_ne in Hj by done. left. apply list_elem_of_lookup. eauto.
Qed.

(** What a goroutine owes is kept by it, by one it starts, or done. *)
Lemma owed_moved (P : pc → Prop) (Q : Prop) :
  (P p → Q ∨ P p' ∨ ∃ r, r ∈ new ∧ P r.2) → (∃ r, r ∈ l ∧ P r.2) →
  Q ∨ ∃ r, r ∈ <[i := (b, p')]> l ++ new ∧ P r.2.
Proof using Hi.
  intros Hp (r & Hr & HP). destruct (elem_moved_old r Hr) as [->|Hr']; [|right; eauto].
  destruct (Hp HP) as [?|[?|(r & ? & ?)]]; [by left|right..].
  - exists (b, p'). split; [apply elem_moved_at|done].
  - exists r. split; [by apply elem_moved_new|done].
Qed.

Lemma Forall_moved (P : bool * pc → Prop) :
  Forall P l → (P (b, p) → P (b, p')) → Forall P new → Forall P (<[i := (b, p')]> l ++ new).
Proof using Hi.
  intros Hl Hp Hn. apply Forall_app. split; [|done]. apply Forall_insert; [done|].
  apply Hp. by eapply (Forall_lookup_1 _ _ _ _ Hl).
Qed.
End moved.

(** ** Invariants *)

Definition paths (tasks : list task) : list string := tasks ≫= task_path.
Definition done (g : group) : bool := sh_done (g_shared g).

Record group_ok (tasks : list task) (g : group) : Prop := {
  ok_first : g_err g = group_Wait (g_returned g);
  ok_err_done : g_err g ≠ None → done g = true;
  ok_done : done g = true → g_err g ≠ None ∨ (true, SignalCaught) ∈ routines g;
  ok_signal : done g = true ∨ (true, WaitSignal) ∈ routines g;
  ok_paths path : path ∈ paths tasks → path ∈ sh_removed (g_shared g) ∨ ∃ r, r ∈ routines g ∧ path ∈ keeps r.2;
  ok_outside : Forall outside_group (routines g);
  ok_errors e : (true, Returned (Some e)) ∈ routines g → g_err g ≠ None;
}.

Record vpnkit_free (g : group) : Prop := {
  free_pc : Forall (λ r, no_vpnkit r.2 = true) (routines g);
  free_open l : l ∈ sh_open (g_shared g) → ∃ r, r ∈ routines g ∧ closes r.2 = Some l;
}.

Lemma group_start_ok tasks err : group_ok tasks (start_group tasks err).
Proof.
  split; cbn; try done.
  - right. right. by left.
  - intros path Hp. right. eexists. split; [by left|done].
  - by repeat constructor.
  - intros e. rewrite list_elem_of_In. cbn. intuition congruence.
Qed.

Lemma group_step_ok tasks g g' : group_ok tasks g → step g g' → group_ok tasks g'.
Proof.
  intros [Hf Hed Hd Hs Hp Ho He] (i & a & Hst). apply step_at_inv in Hst as (b & p & p' & sh' & new & Hi & _ & Hn & ->).
  set (g1 := moved i b p' sh' new g).
  destruct (go_return_same b p' g1) as (Er & _ & Erm & Hmono).
  destruct (go_return_err b p' g1 Hf) as (Hf' & Hkeep & Herr & Hdn & Hret).
  assert (done g = true → done (go_return b p' g1) = true) as Hdd by (intros ?; apply Hmono; cbn; by apply (nx_done _ _ _ _ _ Hn)).
  assert (b = false → p ≠ SignalCaught ∧ p ≠ WaitSignal ∧ p' ≠ SignalCaught) as Hb.
  { intros ->. pose proof (Forall_lookup_1 _ _ _ _ Ho Hi) as Hout. pose proof (nx_outside _ _ _ _ _ Hn Hout) as Hout'.
    split_and!; intros ->; by (destruct (Hout eq_refl) || destruct (Hout' eq_refl)). }
  split; rewrite ?Er, ?Erm.
  - done.
  - intros [H|H]%Herr; [by apply Hdd, Hed|done].
  - intros [H|H]%Hdn; [|by left]. cbn in H. destruct (nx_cancel _ _ _ _ _ Hn H) as [Hg| ->].
    + destruct (Hd Hg) as [Hge|Hc]; [left; by rewrite Hkeep|].
      destruct (elem_moved_old (new := new) (p' := p') Hi _ Hc) as [[= <- <-]|?]; [left|by right].
      destruct (nx_caught _ _ _ _ _ Hn eq_refl) as [e ->]. by eapply Hret.
    + right. destruct b; [apply (elem_moved_at Hi)|]. by destruct (Hb eq_refl) as (_ & _ & ?).
  - destruct Hs as [Hg|Hw]; [left; by apply Hdd|].
    destruct (elem_moved_old (new := new) (p' := p') Hi _ Hw) as [[= <- <-]|?]; [left|by right].
    apply Hmono. cbn. by apply (nx_waits _ _ _ _ _ Hn).
  - intros path [Hr|Hr]%Hp; [left; by apply (nx_removed _ _ _ _ _ Hn)|].
    eapply (owed_moved Hi (λ p, path ∈ keeps p)); [|done]. by apply (nx_keeps _ _ _ _ _ Hn).
  - apply (Forall_moved Hi); [done| |apply (nx_new _ _ _ _ _ Hn)].
    intros H. destruct b; [done|]. by apply (nx_outside _ _ _ _ _ Hn).
  - intros e [H|[[= <- <-]|H]]%elem_moved_inv.
    + rewrite Hkeep; by apply (He e).
    + by apply (Hret e).
    + by destruct (nx_running _ _ _ _ _ Hn e).
Qed.

Lemma group_reachable_ok tasks err g : star step (start_group tasks err) g → group_ok tasks g.
Proof. intros Hr. eapply star_invariant; [|apply group_start_ok|exact Hr]. intros ?? H ?. by eapply group_step_ok. Qed.

Lemma step_vpnkit_free g g' : vpnkit_free g → step g g' → vpnkit_free g'.
Proof.
  intros [Hp Ho] (i & a & Hst). apply step_at_inv in Hst as (b & p & p' & sh' & new & Hi & _ & Hn & ->).
  set (g1 := moved i b p' sh' new g). destruct (go_return_same b p' g1) as (Er & Eo & _ & _).
  pose proof (Forall_lookup_1 _ _ _ _ Hp Hi) as Hfree. split; rewrite ?Er, ?Eo.
  - apply (Forall_moved Hi); [done| |]; cbn; intros; by apply (nx_vpnkit _ _ _ _ _ Hn).
  - cbn. intros l Hl. destruct (nx_open _ _ _ _ _ Hn l Hfree Hl) as [[Hg Hc]|[Hc|(r & ? & ?)]].
    + destruct (Ho l Hg) as (r & Hr & Hcl). destruct (elem_moved_old (new := new) (p' := p') Hi _ Hr) as [->|?]; [done|eauto].
    + exists (b, p'). split; [apply (elem_moved_at Hi)|done].
    + exists r. split; [by apply elem_moved_new|done].
Qed.

Lemma reachable_vpnkit_free tasks err g :
  forallb no_vpnkit_task tasks = true → star step (start_group tasks err) g → vpnkit_free g.
Proof.
  intros Ht Hr. eapply star_invariant; [|split|exact Hr].
  - intros ?? H ?. by eapply step_vpnkit_free.
  - by repeat constructor.
  - cbn. intros l []%not_elem_of_empty.
Qed.

(** ** The end *)

Lemma step_done g g' : step g g' → done g = true → done g' = true.
Proof.
  intros (i & a & Hst) Hd. apply step_at_inv in Hst as (b & p & p' & sh' & new & Hi & _ & Hn & ->).
  apply (go_return_same b p'). by apply (nx_done _ _ _ _ _ Hn).
Qed.

Lemma step_work g g' : step g g' → done g = true → g' = g ∨ work g' < work g.
Proof.
  intros (i & a & Hst) Hd. apply step_at_inv in Hst as (b & p & p' & sh' & new & Hi & Hnx & Hn & ->).
  destruct (nx_work _ _ _ _ _ Hn Hd) as [(-> & -> & ->)|Hw].
  - left. unfold moved. rewrite app_nil_r, list_insert_id by done.
    destruct g; cbn in *. destruct b; [|done]. by destruct p.
  - right. unfold work. destruct (go_return_same b p' (moved i b p' sh' new g)) as (-> & _). cbn.
    rewrite pcs_work_app. pose proof (pcs_work_insert i b p p' _ Hi). lia.
Qed.

Definition changes (g g' : group) : Prop := step g g' ∧ g ≠ g'.
Lemma changes_bounded n g g' : nsteps changes n g g' → done g = true → n + work g' ≤ work g.
Proof.
  induction 1 as [|n g1 g2 g3 [Hs Hne] _ IH]; intros Hd; [done|].
  pose proof (IH (step_done _ _ Hs Hd)). destruct (step_work _ _ Hs Hd) as [->|?]; [done|lia].
Qed.

(** No goroutine can go on without an event outside. *)
Definition quiescent (g : group) : Prop := ∀ i, step_at i AGo g = None.

(** What a goroutine can still wait for when the context is done: the next frame of
    a connected guest, a client of the VPNKit listener, the SSH server. *)
Definition waits_outside (p : pc) : bool :=
  match p with
  | RxRead None | VpnkitAccept _ | VpnkitConn | SshConnect _ | SshTunnel _ _ => true
  | _ => false
  end.

Lemma quiescent_next g r : quiescent g → r ∈ routines g → next AGo (g_shared g) r.2 = None.
Proof.
  intros Hq [i Hi]%list_elem_of_lookup. specialize (Hq i). unfold step_at in Hq. rewrite Hi in Hq. destruct r as [b p].
  cbn in *. by destruct (next AGo (g_shared g) p) as [[[??]?]|].
Qed.

Lemma next_AGo_None sh p : sh_done sh = true → sh_open sh = ∅ → next AGo sh p = None →
  waits_outside p = true ∨ ∃ err, p = Returned err.
Proof.
  intros Hd Ho. unfold next, when_done, closed_result. rewrite Hd, Ho.
  destruct p as [[] ?| | | | | | | | | | | | |sock| | | | | | |]; try destruct sock; cbn; try rewrite decide_False by apply not_elem_of_empty;
    try (by destruct (start_task _ _)); naive_solver.
Qed.

Lemma next_closes sh p l : sh_done sh = true → closes p = Some l → next AGo sh p ≠ None.
Proof. intros Hd. destruct p; try done; cbn; unfold when_done; by rewrite Hd. Qed.

Lemma quiescent_closed g : vpnkit_free g → done g = true → quiescent g → sh_open (g_shared g) = ∅.
Proof.
  intros [_ Ho] Hd Hq. apply leibniz_equiv, elem_of_equiv_empty. intros l (r & Hr & Hc)%Ho.
  by apply (next_closes _ _ _ Hd Hc), quiescent_next.
Qed.

Lemma Wait_Some g r : Wait g = Some r ↔ r = g_err g ∧ ∀ p, (true, p) ∈ routines g → ∃ err, p = Returned err.
Proof.
  unfold Wait. destruct (forallb returned (routines g)) eqn:E.
  - rewrite forallb_forall in E. split; [|by intros [-> _]]. intros [= <-]. split; [done|]. intros p Hp%list_elem_of_In.
    specialize (E _ Hp). destruct p; try done. eauto.
  - split; [done|]. intros [_ H]. enough (forallb returned (routines g) = true) by congruence. apply forallb_forall.
    intros [[] p] Hin; [|by destruct p]. by destruct (H p (proj2 (list_elem_of_In _ _) Hin)) as [? ->].
Qed.

(** ** Properties *)

(** C8: the error group under every interleaving.  As soon as a goroutine of the group has
    returned an error the context is done, and it is done for no other reason than an
    error or a caught signal.  [Wait] returns when every goroutine has returned, always
    with an error, the first one in the order of the returns; by then every socket of
    a guest, the one of VPNKit aside, and of an SSH forward has been given to [os.Remove]; the process exits
    with 0 all the same. *)
Theorem group_errors tasks err g :
  star step (start_group tasks err) g →
  (∀ e, (true, Returned (Some e)) ∈ routines g → done g = true) ∧
  (done g = true → g_err g ≠ None ∨ (true, SignalCaught) ∈ routines g) ∧
  (∀ r, Wait g = Some r →
     (∃ e, r = Some e ∧ group_Wait (g_returned g) = Some e) ∧ main_exit r = 0%Z ∧
     ∀ path, path ∈ paths tasks → path ∈ sh_removed (g_shared g)).
Proof.
  intros [Hf Hed Hd Hs Hp Ho He]%group_reachable_ok. split_and!; [by intros e H%He; apply Hed|done|].
  intros r [-> Hall]%Wait_Some.
  assert (g_err g ≠ None) as Herr.
  { destruct Hd as [?|[? [=]]%Hall]; [|done]. by destruct Hs as [?|[? [=]]%Hall]. }
  split_and!.
  - destruct (g_err g) as [e|] eqn:E; [|done]. by exists e.
  - by destruct (g_err g).
  - intros path [?|([b p] & Hr & Hk)]%Hp; [done|]. destruct b.
    + by destruct (Hall p Hr) as [? ->]; apply elem_of_nil in Hk.
    + rewrite Forall_forall in Ho. specialize (Ho _ Hr eq_refl). by destruct p; try done; apply elem_of_nil in Hk.
Qed.

(** C7: gvproxy stops.  When the context is done, at most [work g] further steps change
    anything, whatever the outside does; and if VPNKit is not used, a state in which no
    goroutine can go on by itself is either the end ([Wait] has returned an error and
    every listener is closed) or has a goroutine that waits for a connected guest or an SSH server. *)
Theorem gvproxy_stops tasks err g :
  star step (start_group tasks err) g → done g = true →
  (∀ n g', nsteps changes n g g' → n ≤ work g) ∧
  (forallb no_vpnkit_task tasks = true → ∀ g', star step g g' → quiescent g' →
     (∃ e, Wait g' = Some (Some e) ∧ sh_open (g_shared g') = ∅) ∨
     ∃ r, r ∈ routines g' ∧ waits_outside r.2 = true).
Proof.
  intros Hr Hd. split; [intros n g' Hn; pose proof (changes_bounded n g g' Hn Hd); lia|].
  intros Hv g' Hs Hq.
  assert (done g' = true) as Hd' by (eapply (star_invariant step (λ g, done g = true)); [|done..]; intros; by eapply step_done).
  assert (star step (start_group tasks err) g') as Hr'
    by (eapply (star_invariant step (star step (start_group tasks err))); [|done..]; intros; by eapply star_snoc).
  pose proof (quiescent_closed g' (reachable_vpnkit_free tasks err g' Hv Hr') Hd' Hq) as Hopen.
  destruct (decide (Exists (λ r, waits_outside r.2 = true) (routines g'))) as [Hex|Hno].
  { right. by apply Exists_exists in Hex. }
  left. assert (Wait g' = Some (g_err g')) as Hw.
  { apply Wait_Some. split; [done|]. intros p Hp.
    destruct (next_AGo_None _ p Hd' Hopen (quiescent_next g' _ Hq Hp)) as [Hwt|?]; [|done].
    destruct Hno. apply Exists_exists. by exists (true, p). }
  rewrite Hw. destruct (group_reachable_ok tasks err g' Hr') as [_ _ Hdone _ _ _ _].
  apply Wait_Some in Hw as [_ Hall]. destruct (g_err g') as [e|] eqn:E; [by exists e|].
  by destruct (Hdone Hd') as [?|[? [=]]%Hall].
Qed.

(** ** Runs *)

Fixpoint run_steps (l : list (nat * wakeup)) (g : group) : option group :=
  match l with [] => Some g | (i, a) :: l => g' ← step_at i a g; run_steps l g' end.

Lemma run_steps_star l g g' : run_steps l g = Some g' → star step g g'.
Proof.
  revert g. induction l as [|[i a] l IH]; cbn; intros g; [intros [= <-]; constructor|].
  destruct (step_at i a g) as [g1|] eqn:E; cbn; [|done]. intros ?. econstructor; [by exists i, a|auto].
Qed.

(** With -listen-vpnkit and no client, a signal ends everything but the goroutine in
    [Accept]: its listener is never closed, and gvproxy waits for a client. *)
Definition vpnkit_signal : list (nat * wakeup) := [(0, AGo); (0, AGo); (2, AGo); (1, ASignal); (1, AGo)].
Theorem vpnkit_blocks_shutdown sock : ∃ g,
  run_steps vpnkit_signal (start_group [AcceptAllVpnKit sock] None) = Some g ∧
  done g = true ∧ Wait g = None ∧
  ∀ i a g', step_at i a g = Some g' → a = AConn ∨ ∃ err, a = AErr err.
Proof.
  eexists. split; [reflexivity|]. split_and!; [done..|]. intros [|[|[|i]]] [] g'; cbn; try done; eauto.
Qed.

(** ** Witnesses *)

Definition quiescentb (g : group) : bool :=
  forallb (λ i, match step_at i AGo g with None => true | Some _ => false end) (seq 0 (length (routines g))).
Lemma quiescentb_ok g : quiescentb g = true → quiescent g.
Proof.
  unfold quiescentb. rewrite forallb_forall. intros H i.
  destruct (decide (i < length (routines g))) as [Hi|Hi].
  - assert (i ∈ seq 0 (length (routines g))) as Hin by (apply elem_of_seq; lia).
    apply list_elem_of_In, H in Hin. by destruct (step_at i AGo g).
  - unfold step_at. by rewrite (lookup_ge_None_2 (routines g) i) by lia.
Qed.

(** gvproxy with a control endpoint, a qemu guest and an SSH forward. *)
Definition tasks0 : list task := all_tasks (flags_of args0) src0.
Definition group0 : group := start_group tasks0 None.
Definition go_on (l : list nat) : list (nat * wakeup) := (λ i, (i, AGo)) <$> l.

(** Everything is started, the guest connects and sends a frame, the SSH server
    answers, and the guest hangs up. *)
Definition session : list (nat * wakeup) :=
  go_on [0; 0; 0; 0; 0; 0] ++ [(7, AConn); (7, AGo); (7, AData); (7, AGo); (8, AConn); (8, AGo); (7, AErr (ErrExt "EOF"))].
Definition ending : list (nat * wakeup) := go_on [2; 3; 4; 5; 6; 6; 9; 8; 8; 8; 1].
Definition hung_up : group := default group0 (run_steps session group0).
Definition ended : group := default group0 (run_steps ending hung_up).

Lemma group0_main : ∃ n, group_of (main host0 args0 [("192.168.127.2", "5a:94:ef:e4:0c:ee")] [(hostIP, "127.0.0.1")]
  [("127.0.0.1:2223", sshHostPort)]) = Some (start_group tasks0 n).
Proof. by vm_compute; eexists. Qed.

Lemma hung_up_reachable : star step group0 hung_up.
Proof. apply (run_steps_star session). by vm_compute. Qed.
Lemma ended_reachable : star step hung_up ended.
Proof. apply (run_steps_star ending). by vm_compute. Qed.

Lemma group_errors_witness :
  Wait ended = Some (Some (ErrExt "EOF")) ∧ sh_removed (g_shared ended) = ["unix:///tmp/qemu.sock"; "/tmp/docker.sock"] ∧
  "/tmp/docker.sock" ∈ sh_removed (g_shared ended).
Proof.
  assert (Wait ended = Some (Some (ErrExt "EOF"))) as Hw by by vm_compute.
  assert ("/tmp/docker.sock" ∈ paths tasks0) as Hp.
  { assert (paths tasks0 = ["unix:///tmp/qemu.sock"; "/tmp/docker.sock"]) as -> by by vm_compute. right. left. }
  split_and!; [exact Hw|by vm_compute|].
  exact (proj2 (proj2 (proj2 (proj2 (group_errors tasks0 None ended (star_trans step _ _ _ hung_up_reachable ended_reachable))) _ Hw)) _ Hp).
Defined.

Lemma gvproxy_stops_witness : sh_open (g_shared ended) = ∅ ∧ work hung_up = 13.
Proof.
  destruct (proj2 (gvproxy_stops tasks0 None hung_up hung_up_reachable eq_refl) eq_refl ended ended_reachable)
    as [(e & _ & Ho)|(r & Hr & Hw)].
  - apply quiescentb_ok. by vm_compute.
  - split; [exact Ho|by vm_compute].
  - exfalso. assert (forallb (λ r, negb (waits_outside r.2)) (routines ended) = true) as Hf by by vm_compute.
    rewrite forallb_forall in Hf. apply list_elem_of_In in Hr. specialize (Hf r Hr). rewrite Hw in Hf. discriminate Hf.
Defined.
