(* ===== verification/Transport.v ===== *)
(** pkg/transport: the endpoints given as URLs, on every platform, the handshake
    of vfkit and of /tunnel.  The sockets themselves are the operating system's: an
    endpoint is resolved to the [address] that is dialed or listened on. *)
From Stdlib Require Import Ascii String.
From S2P Require Import Prelude GoStrings GoNet GoURL Types Ports Switch.

Local Open Scope string_scope.
Local Open Scope list_scope.
Local Open Scope Z_scope.

Inductive address :=
  | AVsock (contextID : option Z) (port : Z)   (* None: any context *)
  | AHvsock (serviceID : string)               (* of any virtual machine *)
  | ASock (network addr : string)
  | ACommand (path : string) (args : list string).

#[export] Instance address_eq_dec : EqDecision address.
Proof. solve_decision. Defined.

Definition unexpected_scheme : error := ErrMsg "unexpected scheme".

(** listen.go *)
Definition defaultListenURL (u : URL) : res address :=
  if decide (url_Scheme u = "unix") then mret (ASock (url_Scheme u) (url_Path u))
  else if decide (url_Scheme u = "tcp") then mret (ASock "tcp" (url_Host u))
  else Err unexpected_scheme.

(** listen_linux.go *)
Definition listenURL (u : URL) : res address :=
  if decide (url_Scheme u = "vsock") then
    port ← Atoi (URL_Port u);
    if decide (Hostname u ≠ "") then cid ← Atoi (Hostname u); mret (AVsock (Some (u32 cid)) (u32 port))
    else mret (AVsock None (u32 port))
  else if decide (url_Scheme u = "unixpacket") then mret (ASock (url_Scheme u) (url_Path u))
  else defaultListenURL u.

(** [fmt.Sprintf("%08x", z)]: the width counts the sign. *)
Fixpoint hex_go (fuel : nat) (z : Z) (s : string) : string :=
  match fuel with
  | O => s
  | S fuel => let s := String (hex_digit (z mod 16)) s in if decide (z < 16) then s else hex_go fuel (z / 16) s
  end.
Definition hex_abs (z : Z) : string := hex_go 16 (Z.abs z) "".   (* an int has 16 digits *)
Fixpoint zeros (n : nat) : string := match n with O => "" | S n => String "0" (zeros n) end.
Definition hex08 (z : Z) : string :=
  let digits := hex_abs z in
  if decide (z < 0) then "-" +:+ zeros (7 - String.length digits) +:+ digits
  else zeros (8 - String.length digits) +:+ digits.

(** listen_darwin.go: the path of a vsock port is a UNIX socket, which is
    removed first; [Remove] is [os.Remove] but for a file that does not exist. *)
Definition vsock_path (dir : string) (port : Z) : string := path_Join [dir; "00000002." +:+ hex08 port].
Definition listenURL_darwin (Remove : string → option error) (u : URL) : res address :=
  if decide (url_Scheme u = "vsock") then
    port ← Atoi (URL_Port u);
    let path := vsock_path (url_Path u) port in
    match Remove path with
    | Some err => Err err
    | None => mret (ASock "unix" path)
    end
  else defaultListenURL u.

(** listen_windows.go *)
Definition listenURL_windows (GUIDFromString : string → error + string) (u : URL) : res address :=
  if decide (url_Scheme u = "vsock") then svcid ← of_sum (GUIDFromString (Hostname u)); mret (AHvsock svcid)
  else defaultListenURL u.

(** listen_generic.go *)
Definition listenURL_generic : URL → res address := defaultListenURL.

(** The platforms, and the version of [listenURL] that is built for each. *)
Inductive goos := Linux | Darwin | Windows | OtherOS.
Definition listenURL_on (os : goos) (Remove : string → option error) (GUIDFromString : string → error + string)
    : URL → res address :=
  match os with
  | Linux => listenURL
  | Darwin => listenURL_darwin Remove
  | Windows => listenURL_windows GUIDFromString
  | OtherOS => listenURL_generic
  end.

Section transport.
Context (parse : string → error + URL).

Definition Listen_on (os : goos) Remove GUIDFromString (endpoint : string) : res address :=
  of_sum (parse endpoint) ≫= listenURL_on os Remove GUIDFromString.
Definition Listen_address (endpoint : string) : res address := of_sum (parse endpoint) ≫= listenURL.

(** dial_darwin.go *)
Definition Dial_darwin (endpoint : string) : res (address * string) := Err (ErrMsg "unsupported").

(** The loop over the query of a stdio URL, in range order. *)
Definition stdio_args (order : list (string * list string)) : list string :=
  concat ((λ kvs : string * list string, (λ v, "-" +:+ kvs.1 +:+ "=" +:+ v) <$> kvs.2) <$> order).

(** dial_linux.go: what is dialed, and the path of the request that follows. *)
Definition Dial_address (order : list (string * list string)) (endpoint : string) : res (address * string) :=
  parsed ← of_sum (parse endpoint);
  if decide (url_Scheme parsed = "vsock") then
    contextID ← Atoi (Hostname parsed);
    port ← Atoi (URL_Port parsed);
    mret (AVsock (Some (u32 contextID)) (u32 port), url_Path parsed)
  else if decide (url_Scheme parsed = "unix") then mret (ASock "unix" (url_Path parsed), "/connect")
  else if decide (url_Scheme parsed = "stdio") then mret (ACommand (url_Path parsed) (stdio_args order), "")
  else Err unexpected_scheme.

(** listen_darwin.go *)
Definition ListenUnixgram_address (endpoint : string) : res address :=
  parsed ← of_sum (parse endpoint);
  if decide (url_Scheme parsed ≠ "unixgram") then Err unexpected_scheme
  else mret (ASock "unixgram" (url_Path parsed)).
End transport.

(** unixgram_nondarwin.go *)
Definition ListenUnixgram_nondarwin (endpoint : string) : res address :=
  Err (ErrMsg "unsupported 'unixgram' scheme").
Definition AcceptVfkit_nondarwin : res string := Err (ErrMsg "vfkit is unsupported on this platform").

(** unixgram_darwin.go: a connection of the socket to one sender. *)
Record connectedUnixgramConn := { UnixConn : string; remoteAddr : string }.
Definition connected_RemoteAddr (c : connectedUnixgramConn) : string := remoteAddr c.
(** [Write] is [WriteTo] the sender. *)
Definition connected_Write (c : connectedUnixgramConn) (b : list Z) : string * list Z := (remoteAddr c, b).

Inductive sockopt := SO_SNDBUF (size : Z) | SO_RCVBUF (size : Z).

(** The options, in order, until one fails: those that were set and the error. *)
Fixpoint set_options (SetsockoptInt : sockopt → option error) (l : list sockopt) : list sockopt * option error :=
  match l with
  | [] => ([], None)
  | opt :: l =>
      match SetsockoptInt opt with
      | Some err => ([], Some err)
      | None => let '(done_, e) := set_options SetsockoptInt l in (opt :: done_, e)
      end
  end.

(** The error of an option is overwritten by the result of [rawConn.Control]. *)
Definition connectListeningUnixgramConn (SyscallConn Control : option error) (SetsockoptInt : sockopt → option error)
    (conn from : string) : list sockopt * res connectedUnixgramConn :=
  match SyscallConn with
  | Some err => ([], Err err)
  | None =>
      match Control with
      | Some err => ([], Err err)
      | None =>
          let '(opts, err) := set_options SetsockoptInt
                                [SO_SNDBUF (1 * 1024 * 1024); SO_RCVBUF (4 * 1024 * 1024)] in
          (opts, Ok {| UnixConn := conn; remoteAddr := from |})
      end
  end.

(** unixgram_darwin.go: [AcceptVfkit] on the first datagram, truncated to four
    bytes: the socket's error, the sender's address if it is a UNIX one. *)
Definition AcceptVfkit (dgram : list Z) (err : option error) (from : option string) : res string :=
  let vfkitMagic := take 4 dgram in
  if decide (length vfkitMagic ≠ 4%nat) then Err (ErrMsg ("invalid magic length: " +:+ Itoa 4))
  else match err with
       | Some err => Err err
       | None =>
           match from with
           | None => Err (ErrMsg "unexpected type for vfkit unix sockaddr")
           | Some vfkitAddr =>
               if decide (vfkitMagic ≠ bytes_of_string "VFKT")
               then Err (ErrMsg ("invalid magic from the vfkit process: " +:+ hexString vfkitMagic))
               else mret vfkitAddr
           end
       end.

(** tunnel.go: the path of the request, and the check of the answer. *)
Definition Tunnel_path (ip : string) (port : Z) : string :=
  "/tunnel?ip=" +:+ ip +:+ "&port=" +:+ Itoa port.
Definition Tunnel_answer (inp : conn_input) : res conn_input :=
  '(ok, rest) ← ReadFull inp 2;
  if decide (ok ≠ bytes_of_string "OK") then Err (ErrMsg "handshake failed") else mret rest.

(** ** Lemmas *)

(** A scheme is refused unless it is one of the platform's. *)
Lemma listenURL_on_scheme os Remove GUID u a : listenURL_on os Remove GUID u = Ok a →
  url_Scheme u ∈ ["unix"; "tcp"] ∨
  (url_Scheme u = "vsock" ∧ os ≠ OtherOS) ∨ (url_Scheme u = "unixpacket" ∧ os = Linux).
Proof.
  destruct os; cbn; unfold listenURL, listenURL_darwin, listenURL_windows, listenURL_generic, defaultListenURL;
    repeat case_decide; try done; intros _;
    first [by right; left | by right; right | left; set_solver].
Qed.

(** UNIX and TCP endpoints mean the same on every platform. *)
Lemma listenURL_on_common os Remove GUID u : url_Scheme u ∈ ["unix"; "tcp"] →
  listenURL_on os Remove GUID u = defaultListenURL u.
Proof.
  intros Hu. assert (url_Scheme u ≠ "vsock" ∧ url_Scheme u ≠ "unixpacket") as [H1 H2].
  { rewrite !elem_of_cons in Hu. by destruct Hu as [->|[->|[]%elem_of_nil]]. }
  destruct os; cbn; unfold listenURL, listenURL_darwin, listenURL_windows; by rewrite ?decide_False.
Qed.

Example vsock_path_1024 : vsock_path "/vm_directory" 1024 = "/vm_directory/00000002.00000400".
Proof. by vm_compute. Qed.

(** The query of the request of [Tunnel] carries the address and the port. *)
Lemma Tunnel_path_query ip port : query_plain ip → query_plain (Itoa port) →
  request_path (Tunnel_path ip port) = "/tunnel" ∧
  Query_Get (request_query (Tunnel_path ip port)) "ip" = ip ∧
  Query_Get (request_query (Tunnel_path ip port)) "port" = Itoa port.
Proof.
  intros Hip Hport.
  assert (Cut "?" (Tunnel_path ip port) = ("/tunnel", Some ("ip=" +:+ ip +:+ "&port=" +:+ Itoa port))) as Hc.
  { change (Tunnel_path ip port) with ("/tunnel" +:+ String "?" ("ip=" +:+ ip +:+ "&port=" +:+ Itoa port)).
    by apply Cut_app. }
  assert (∀ k, Query_Get (request_query (Tunnel_path ip port)) k =
    default "" (head (snd <$> filter (λ kv, kv.1 = k) [("ip", ip); ("port", Itoa port)]))) as Hq.
  { intros k. unfold Query_Get, request_query. rewrite Hc. cbn [default snd id].
    pose proof (Query_two "ip" ip "port" (Itoa port)) as H2.
    change ("ip" +:+ "=" +:+ ip +:+ "&" +:+ "port" +:+ "=" +:+ Itoa port)
      with ("ip=" +:+ ip +:+ "&port=" +:+ Itoa port) in H2.
    rewrite H2; [done|done|done| |done| |done]; repeat constructor. }
  unfold request_path. rewrite Hc, !Hq. by vm_compute.
Qed.
