(* ===== verification/Stdio.v ===== *)
(** pkg/net/stdio: a connection over the standard input and output of a child
    process ([Dial]) or of this process ([GetStdioConn]).  The pipes and the
    process are the operating system's: an operation of the connection is what
    it does to them. *)
From Stdlib Require Import Ascii String.
From S2P Require Import Prelude GoStrings.

Local Open Scope string_scope.
Local Open Scope list_scope.
Local Open Scope Z_scope.

(** ** ioaddr.go *)

Record IoAddr := { addr_path : string }.
Definition IoAddr_Network (a : IoAddr) : string := "stdio".
Definition IoAddr_String (a : IoAddr) : string := addr_path a.

(** ** ioconn.go *)

(** The ends of pipes a connection is made of. *)
Inductive pipe := ChildStdin (pid : Z) | ChildStdout (pid : Z) | OwnStdin | OwnStdout.

#[export] Instance pipe_eq_dec : EqDecision pipe.
Proof. solve_decision. Defined.

(** [io_close] is the process that [Close] kills, if any. *)
Record IoConn := {
  io_writer : pipe;
  io_reader : pipe;
  io_local : IoAddr;
  io_remote : IoAddr;
  io_close : option Z;
}.

(** What the connection asks the operating system to do. *)
Inductive sys := SysRead (p : pipe) (n : nat) | SysWrite (p : pipe) (b : list Z) | SysKill (pid : Z).

Definition IoConn_Read (c : IoConn) (n : nat) : list sys := [SysRead (io_reader c) n].
Definition IoConn_Write (c : IoConn) (b : list Z) : list sys := [SysWrite (io_writer c) b].
Definition IoConn_Close (c : IoConn) : list sys :=
  match io_close c with Some pid => [SysKill pid] | None => [] end.
Definition LocalAddr (c : IoConn) : IoAddr := io_local c.
Definition RemoteAddr (c : IoConn) : IoAddr := io_remote c.
(** Deadlines are ignored. *)
Definition SetDeadline (c : IoConn) (t : Z) : list sys := [].

(** ** dial.go *)

(** The steps of [exec.Command] that can fail, and the process it starts. *)
Record exec_env := {
  StdinPipe : option error;
  StdoutPipe : option error;
  Start : string → list string → error + Z;
  own_pid : Z;
}.

Definition Dial (x : exec_env) (endpoint : string) (arg : list string) : res IoConn :=
  match StdinPipe x with
  | Some err => Err err
  | None =>
      match StdoutPipe x with
      | Some err => Err err
      | None =>
          match Start x endpoint arg with
          | inl err => Err err
          | inr pid =>
              Ok {| io_reader := ChildStdout pid; io_writer := ChildStdin pid;
                    io_local := {| addr_path := Itoa (own_pid x) |};
                    io_remote := {| addr_path := Itoa pid |}; io_close := Some pid |}
          end
      end
  end.

Definition GetStdioConn (pid : Z) : IoConn :=
  {| io_reader := OwnStdin; io_writer := OwnStdout; io_local := {| addr_path := Itoa pid |};
     io_remote := {| addr_path := "remote" |}; io_close := None |}.

(** ** Lemmas *)

(** The two ends of a dialed connection are those of the process it names, which
    is the one that is killed; the connection of this process is never closed. *)
Lemma Dial_pipes x endpoint arg c : Dial x endpoint arg = Ok c →
  ∃ pid, Start x endpoint arg = inr pid ∧ io_reader c = ChildStdout pid ∧ io_writer c = ChildStdin pid ∧
         IoAddr_String (RemoteAddr c) = Itoa pid ∧ IoConn_Close c = [SysKill pid].
Proof.
  unfold Dial. destruct (StdinPipe x), (StdoutPipe x), (Start x endpoint arg) as [err|pid]; try done.
  intros [= <-]. by exists pid.
Qed.
Lemma GetStdioConn_Close pid : IoConn_Close (GetStdioConn pid) = [].
Proof. done. Qed.
