(* ===== verification/Forwarder.v ===== *)
(** cmd/vm/main_linux.go: gvforwarder, the program of the guest.  It dials the
    host, asks for [ConnectPath] and copies the frames between the connection
    and a TAP device, with the framing of the hyperkit protocol.  The device, the
    socket and the DHCP client are parameters. *)
From Stdlib Require Import Ascii String.
From S2P Require Import Prelude GoStrings GoNet Tcpip Protocols Switch Types Ports Transport.

Local Open Scope string_scope.
Local Open Scope list_scope.
Local Open Scope Z_scope.

(** [contains]. *)
Fixpoint contains (s : list string) (e : string) : bool :=
  match s with [] => false | a :: s => if decide (a = e) then true else contains s e end.

(** The interfaces that keep the program from running. *)
Fixpoint stopped_by (expected links : list string) : option string :=
  match links with
  | [] => None
  | link :: links => if contains expected link then Some link else stopped_by expected links
  end.

(** ** From the device to the connection *)

(** One frame on the wire: its length on 16 bits, little endian, and its bytes. *)
Definition rx_message (frame : list Z) : list Z := put_u16_le (u16 (Z.of_nat (length frame))) ++ frame.

(** [rx] on what the device gives: the writes, and the error put in [errCh];
    [None] when the device has nothing more to read. *)
Fixpoint rx (write : list Z → option error) (reads : list (error + list Z)) : list (list Z) * option error :=
  match reads with
  | [] => ([], None)
  | inl err :: _ => ([], Some (ErrWrap "cannot read packet from tap" err))
  | inr frame :: reads =>
      match write (rx_message frame) with
      | Some err => ([], Some (ErrWrap "cannot write size and packet to socket" err))
      | None => let '(written, failed) := rx write reads in (rx_message frame :: written, failed)
      end
  end.

(** ** From the connection to the device *)

(** How [tx] ends: with an error in [errCh], or with a panic of the goroutine. *)
Inductive tx_end := TxError (e : error) | TxPanic.

Definition unexpected_size (n size : Z) : error :=
  ErrMsg ("unexpected size " +:+ Itoa n +:+ " != " +:+ Itoa size).

(** One iteration: the frame for the device, or the end. *)
Definition tx_step (buflen : Z) (inp : conn_input) : (list Z * conn_input) + tx_end :=
  match wrap "cannot read size from socket" (ReadFull inp 2) with
  | Err err => inr (TxError err)
  | Panic => inr TxPanic
  | Ok (sizeBuf, inp1) =>
      match hyperkit_Read sizeBuf with
      | Ok size =>
          if decide (buflen < size) then inr TxPanic     (* buf[:size] *)
          else match wrap "cannot read payload from socket" (ReadFull inp1 (Z.to_nat size)) with
               | Err err => inr (TxError err)
               | Panic => inr TxPanic
               | Ok (payload, inp2) =>
                   if decide (size = 0) then inr (TxError (unexpected_size 0 0)) else inl (payload, inp2)
               end
      | _ => inr TxPanic
      end
  end.

Fixpoint tx_loop (fuel : nat) (buflen : Z) (write : list Z → option error) (inp : conn_input)
    : option (list (list Z) * tx_end) :=
  match fuel with
  | O => None
  | S fuel =>
      match tx_step buflen inp with
      | inr e => Some ([], e)
      | inl (frame, inp) =>
          match write frame with
          | Some err => Some ([], TxError (ErrWrap "cannot write packet to tap" err))
          | None => '(written, e) ← tx_loop fuel buflen write inp; Some (frame :: written, e)
          end
      end
  end.

(** [tx]: the buffer has the size of the MTU and an Ethernet header; a negative
    size makes its allocation panic. *)
Definition tx (mtu : Z) (write : list Z → option error) (inp : conn_input) : option (list (list Z) * tx_end) :=
  if decide (mtu + EthernetMinimumSize < 0) then Some ([], TxPanic)
  else tx_loop (S (length (in_bytes inp))) (mtu + EthernetMinimumSize) write inp.

(** ** run *)

Record vm_env := {
  vm_parse : string → error + URL;
  vm_query : list (string * list string);      (* the order of the query of a stdio URL *)
  vm_dial : address → option error;
  NewRequest : string → option error;          (* http.NewRequest and the write of the request *)
  NewTap : string → option error;
  LinkByName : string → option error;
  LinkSetHardwareAddr : list Z → option error;
  LinkSetUp : option error;
}.

Inductive goroutine := GoTx | GoRx | GoDhcp.

Section run.
Context (v : vm_env).
Definition lift_err (e : option error) : res unit := match e with Some e => Err e | None => Ok tt end.

Definition linkUp (iface mac : string) : res unit :=
  _ ← lift_err (LinkByName v iface);
  if decide (mac = "") then lift_err (LinkSetUp v)
  else
    hw ← ParseMAC mac;
    _ ← lift_err (LinkSetHardwareAddr v hw);
    lift_err (LinkSetUp v).

(** What [run] asks the host for, and the goroutines it starts. *)
Definition run (endpoint iface mac : string) (tapPreexists : bool) : res (option string * list goroutine) :=
  '(addr, path) ← wrap "cannot connect to host" (Dial_address (vm_parse v) (vm_query v) endpoint);
  _ ← wrap "cannot connect to host" (lift_err (vm_dial v addr));
  _ ← (if decide (path ≠ "") then lift_err (NewRequest v path) else mret tt);
  _ ← wrap "cannot create tap device" (lift_err (NewTap v iface));
  _ ← (if tapPreexists : bool then mret tt else wrap "cannot set mac address" (linkUp iface mac));
  mret (if decide (path ≠ "") then Some path else None,
        [GoTx; GoRx] ++ (if tapPreexists then [] else [GoDhcp])).
End run.

(** ** main *)

(** The flags, and their defaults. *)
Record vm_flags := {
  f_url : string; f_iface : string; stopIfIfaceExist : string; f_mac : string; f_debug : bool; f_mtu : Z;
  f_preexisting : bool;
}.
Definition vm_flags0 : vm_flags :=
  {| f_url := "vsock://2:1024" +:+ ConnectPath; f_iface := "tap0"; stopIfIfaceExist := "eth0,ens3,enp0s1";
     f_mac := "5a:94:ef:e4:0c:ee"; f_debug := false; f_mtu := 4000; f_preexisting := false |}.

(** How gvforwarder ends, or what it has asked for in the attempts so far; the
    attempts are a second apart. *)
Inductive vm_outcome :=
  | VmVersion
  | VmFatal (e : error)
  | VmStopped (link : string)
  | VmRuns (attempts : list (res (option string * list goroutine))).

Definition vm_main (version : bool) (fl : vm_flags) (LinkList : error + list string) (v : nat → vm_env) (n : nat)
    : vm_outcome :=
  if version then VmVersion
  else
    let expected := Split "," (stopIfIfaceExist fl) in
    match LinkList with
    | inl err => VmFatal err
    | inr links =>
        match stopped_by expected links with
        | Some link => VmStopped link
        | None => VmRuns ((λ i, run (v i) (f_url fl) (f_iface fl) (f_mac fl) (f_preexisting fl)) <$> seq 0 n)
        end
    end.

(** The DHCP client that [dhcp] runs on the interface. *)
Definition dhcp_command (LookPath : string → option error) (iface : string) : string * list string :=
  match LookPath "udhcpc" with
  | None => ("udhcpc", ["-f"; "-q"; "-i"; iface; "-v"])
  | Some _ => ("dhclient", ["-4"; "-d"; "-v"; iface])
  end.

(** ** Lemmas *)

Lemma stopped_by_None expected links : stopped_by expected links = None ↔ ∀ l, l ∈ links → l ∉ expected.
Proof.
  assert (∀ l, contains expected l = true ↔ l ∈ expected) as Hc.
  { intros l. induction expected as [|a expected IH]; cbn; [set_solver|]. rewrite elem_of_cons, <- IH.
    case_decide; naive_solver. }
  induction links as [|l links IH]; cbn; [set_solver|]. specialize (Hc l).
  destruct (contains expected l); [|rewrite IH; set_solver].
  split; [done|]. intros H. exfalso. apply (H l); [by left|by apply Hc].
Qed.

(** The program runs exactly when no interface of the machine is excluded, and
    then tries again for ever. *)
Lemma vm_main_runs fl links v n : (∀ l, l ∈ links → l ∉ Split "," (stopIfIfaceExist fl)) ↔
  vm_main false fl (inr links) v n =
    VmRuns ((λ i, run (v i) (f_url fl) (f_iface fl) (f_mac fl) (f_preexisting fl)) <$> seq 0 n).
Proof.
  rewrite <- stopped_by_None. unfold vm_main. by destruct (stopped_by _ _).
Qed.

Lemma rx_frames_written write frames : (∀ d, write d = None) →
  rx write (inr <$> frames) = (rx_message <$> frames, None).
Proof. intros Hw. induction frames as [|f frames IH]; [done|]. cbn. by rewrite Hw, IH. Qed.

Lemma rx_message_enc f : rx_message f = frame_enc hyperkit_stream f.
Proof. done. Qed.

(** An iteration reads at least the two bytes of the size. *)
Lemma tx_step_consumes buflen inp frame inp' :
  tx_step buflen inp = inl (frame, inp') → (2 + length (in_bytes inp') <= length (in_bytes inp))%nat.
Proof.
  unfold tx_step, ReadFull. repeat case_decide; try done; cbn;
    try (by destruct (in_err inp)); destruct (hyperkit_Read _); try done;
    repeat case_decide; cbn; try done; intros [= <- <-]; cbn in *; rewrite ?length_drop in *; lia.
Qed.

Lemma tx_loop_total fuel buflen write inp : (length (in_bytes inp) < fuel)%nat →
  is_Some (tx_loop fuel buflen write inp).
Proof.
  revert inp. induction fuel as [|fuel IH]; intros inp Hf; [lia|]. cbn.
  destruct (tx_step buflen inp) as [[frame inp']|e] eqn:E; [|by eexists].
  destruct (write frame); [by eexists|]. apply tx_step_consumes in E.
  destruct (IH inp') as [[written e] ->]; [lia|]. by eexists.
Qed.

(** One frame that fits. *)
Lemma tx_step_frame buflen f rest err : f ≠ [] → Z.of_nat (length f) < 65536 → Z.of_nat (length f) <= buflen →
  tx_step buflen {| in_bytes := rx_message f ++ rest; in_err := err |} =
    inl (f, {| in_bytes := rest; in_err := err |}).
Proof.
  intros Hne Hlt Hfit. destruct (frame_enc_spec hyperkit_stream 2 f) as (hdr & He & Hl & Hr); [done|].
  rewrite rx_message_enc, He, <- app_assoc. unfold tx_step. rewrite <- Hl, ReadFull_app. cbn [wrap].
  cbn in Hr. rewrite Hr, decide_False by lia. rewrite Nat2Z.id, ReadFull_app. cbn [wrap].
  rewrite decide_False; [done|]. by destruct f.
Qed.

Lemma tx_step_long buflen f rest err : Z.of_nat (length f) < 65536 → buflen < Z.of_nat (length f) →
  tx_step buflen {| in_bytes := rx_message f ++ rest; in_err := err |} = inr TxPanic.
Proof.
  intros Hlt Hlong. destruct (frame_enc_spec hyperkit_stream 2 f) as (hdr & He & Hl & Hr); [done|].
  rewrite rx_message_enc, He, <- app_assoc. unfold tx_step. rewrite <- Hl, ReadFull_app. cbn [wrap].
  cbn in Hr. by rewrite Hr, decide_True by lia.
Qed.

(** A frame that fits in the buffer of [tx]. *)
Definition fits (mtu : Z) (f : list Z) : Prop :=
  f ≠ [] ∧ Z.of_nat (length f) < 65536 ∧ Z.of_nat (length f) <= mtu + EthernetMinimumSize.

Lemma tx_loop_frames mtu write frames rest err fuel r :
  (∀ d, write d = None) → Forall (fits mtu) frames →
  (∀ fuel, (length rest < fuel)%nat →
     tx_loop fuel (mtu + EthernetMinimumSize) write {| in_bytes := rest; in_err := err |} = Some ([], r)) →
  (length (concat (rx_message <$> frames) ++ rest) < fuel)%nat →
  tx_loop fuel (mtu + EthernetMinimumSize) write
    {| in_bytes := concat (rx_message <$> frames) ++ rest; in_err := err |} = Some (frames, r).
Proof.
  intros Hw Hf Hend. revert fuel. induction Hf as [|f frames (Hne & Hlt & Hfit) Hf IH]; intros fuel Hfu; [by apply Hend|].
  destruct fuel as [|fuel]; [lia|]. cbn [fmap list_fmap concat] in *. rewrite <- app_assoc in *.
  cbn [tx_loop]. rewrite tx_step_frame by done. rewrite Hw, IH; [done|]. rewrite length_app in Hfu. cbn in Hfu. lia.
Qed.

(** ** Properties *)

(** The frames between the guest and the host.  What [rx] writes for the frames
    of the device is read by the switch of the host as these frames, in order;
    what the switch writes to the connection is written by [tx] to the device as
    these frames, in order, as long as they fit in the MTU and an Ethernet
    header; the first frame that is longer makes [tx] panic; and [tx] always
    ends when the connection does. *)
Theorem frames_roundtrip wr ToView rng id mtu write frames e :
  (∀ d, write d = None) → 0 <= mtu →
  (Forall (λ f, Z.of_nat (length f) < 65536) frames →
     rx write (inr <$> frames) = (rx_message <$> frames, None) ∧
     rxStream wr ToView rng (λ _, false) id hyperkit_stream
       {| in_bytes := concat (rx write (inr <$> frames)).1; in_err := EOF |} e =
     bind (rx_frames wr ToView rng id frames) (λ _, throw (ErrWrap "cannot read size from socket" EOF)) e) ∧
  (Forall (fits mtu) frames →
     tx mtu write {| in_bytes := concat (wire hyperkitProtocol <$> frames); in_err := EOF |} =
       Some (frames, TxError (ErrWrap "cannot read size from socket" EOF)) ∧
     ∀ long rest err, mtu + EthernetMinimumSize < Z.of_nat (length long) < 65536 →
       tx mtu write {| in_bytes := concat (wire hyperkitProtocol <$> (frames ++ [long])) ++ rest; in_err := err |} =
         Some (frames, TxPanic)) ∧
  (∀ inp, is_Some (tx mtu write inp)).
Proof.
  intros Hw Hmtu.
  assert (∀ inp, tx mtu write inp =
    tx_loop (S (length (in_bytes inp))) (mtu + EthernetMinimumSize) write inp) as Htx.
  { intros inp. unfold tx. by rewrite decide_False by (unfold EthernetMinimumSize; lia). }
  split_and!.
  - intros Hf. rewrite rx_frames_written by done. split; [done|]. cbn [fst].
    rewrite <- (app_nil_r (concat _)).
    change (rx_message <$> frames) with (frame_enc hyperkit_stream <$> frames).
    pose proof (rxStream_frames wr ToView rng hyperkit_stream 2 (λ _, false) id frames [] e) as H.
    rewrite decide_True in H by done. apply H; [done|cbn; lia|done].
  - intros Hf. split.
    + rewrite <- (app_nil_r (concat _)), Htx. apply tx_loop_frames; [done|done| |apply Nat.lt_succ_diag_r].
      intros fuel Hfu. destruct fuel; [cbn in Hfu; lia|done].
    + intros long rest err Hlong. rewrite fmap_app, concat_app, <- app_assoc. cbn [fmap list_fmap concat].
      rewrite app_nil_r, Htx. apply tx_loop_frames; [done|done| |apply Nat.lt_succ_diag_r].
      intros fuel Hfu. destruct fuel; [lia|]. cbn [tx_loop].
      change (wire hyperkitProtocol long) with (rx_message long). by rewrite tx_step_long by lia.
  - intros inp. rewrite Htx. apply tx_loop_total. lia.
Qed.

(** ** Witness *)

(** A frame of 20 bytes passes both ways, one of 60 bytes is too long for a
    device with an MTU of 40. *)
Lemma frames_roundtrip_witness :
  tx 40 (λ _, None) {| in_bytes := concat (wire hyperkitProtocol <$> ([replicate 20 1] ++ [replicate 60 2])) ++ [];
                       in_err := EOF |} =
    Some ([replicate 20 1], TxPanic).
Proof.
  refine (proj2 (proj1 (proj2 (frames_roundtrip all_ok slice_of canonical_range 0 40 (λ _, None) [replicate 20 1]
    (sw net4_) _ _)) _) (replicate 60 2) [] EOF _); [done|lia| |unfold EthernetMinimumSize; cbn; lia].
  constructor; [|constructor]. split; [done|split; [cbn; lia|unfold EthernetMinimumSize; cbn; lia]].
Defined.
