(* ===== verification/Traffic.v ===== *)
(** The frames between the guests and the gateway, end to end: the gvforwarder
    of each guest (Forwarder.v), the sockets, the receive loops and the
    transmissions of the switch (Switch.v), under every interleaving of their
    steps.  The guests are those of the hyperkit protocol, the one gvforwarder
    speaks; the sockets carry bytes.  A guest may leave at any time, and a failing write
    may put a part of its message on the socket before the switch drops the connection. *)
From Stdlib Require Import Ascii String.
From S2P Require Import Prelude GoStrings GoNet Tcpip Protocols Switch Link Types Ports Transport Forwarder.

Local Open Scope string_scope.
Local Open Scope list_scope.
Local Open Scope Z_scope.

(** ** One iteration of a receive loop *)

(** What [rxStream] reads before it calls [rxBuf]. *)
Definition rx_read (sp : StreamProtocol) (inp : conn_input) : res (list Z * conn_input) :=
  '(sizeBuf, inp1) ← wrap "cannot read size from socket" (ReadFull inp (length (Buf sp)));
  size ← Read sp sizeBuf;
  wrap "cannot read packet from socket" (ReadFull inp1 (Z.to_nat size)).

Lemma rxStream_loop_read wr ToView rng fuel done i id sp inp e : done i = false →
  rxStream_loop wr ToView rng (S fuel) done i id sp inp e =
    match rx_read sp inp with
    | Ok (buf, inp2) =>
        match rxBuf wr ToView (rng (conns e)) id (slice_of buf) e with
        | (Ok _, e1, ev1) =>
            match rxStream_loop wr ToView rng fuel done (S i) id sp inp2 e1 with
            | Some (r, e2, ev2) => Some (r, e2, ev1 ++ ev2)
            | None => None
            end
        | (r, e1, ev1) => Some (r, e1, ev1)
        end
    | Err err => Some (Err err, e, [])
    | Panic => Some (Panic, e, [])
    end.
Proof.
  intros Hd. cbn [rxStream_loop]. rewrite Hd. unfold rx_read.
  destruct (wrap _ (ReadFull inp _)) as [[sizeBuf inp1]|err|]; [|done..]. cbn [mbind res_bind].
  destruct (Read sp sizeBuf) as [size|err|]; [|done..]. cbn [mbind res_bind].
  by destruct (wrap _ (ReadFull inp1 _)) as [[buf inp2]|err|].
Qed.

(** One frame that a gvforwarder wrote. *)
Lemma rx_read_message f rest err : Z.of_nat (length f) < 65536 →
  rx_read hyperkit_stream {| in_bytes := rx_message f ++ rest; in_err := err |} =
    Ok (f, {| in_bytes := rest; in_err := err |}).
Proof.
  intros Hlt. destruct (frame_enc_spec hyperkit_stream 2 f) as (hdr & He & Hl & Hr); [done|].
  rewrite rx_message_enc, He, <- app_assoc. unfold rx_read. change (length (Buf hyperkit_stream)) with 2%nat.
  rewrite <- Hl, ReadFull_app. cbn [wrap mbind res_bind]. rewrite Hr. cbn [mbind res_bind].
  by rewrite Nat2Z.id, ReadFull_app.
Qed.

(** ** The system *)

(** What a receive loop does with the frame it has read: nothing yet, the source is
    learned and it is forwarded next, or it is delivered to the gateway next. *)
Inductive rx_pc := Idle | Forwarding (f : list Z) | Delivering (f : list Z).

(** A transmission writes to several sockets; each event is kept with the connection
    the frame came from ([None] for the gateway) and the frame.  [en_part] is what a
    failing write has put on the socket before it failed. *)
Record entry := { en_from : option Z; en_frame : list Z; en_part : list Z; en_event : event }.

Record lan := {
  l_net : net;
  l_written : Z → list (list Z);   (* the frames the guest of a connection has sent *)
  l_gone : gset Z;                 (* the guests that have left or lost their end of the socket *)
  l_input : Z → list Z;            (* the bytes on the socket, *)
  l_buffer : Z → list Z;           (* and those that its receive loop has taken from it *)
  l_pc : Z → rx_pc;
  l_log : list entry;
  l_gateway : list (Z * list Z);   (* what the gateway was given *)
}.

Definition upd {A} (id : Z) (a : A) (f : Z → A) : Z → A := λ i, if decide (i = id) then a else f i.

(** The connection of a guest; each has a socket of its own. *)
Definition guest_conn (id : Z) : protocolConn := {| Conn := Z.to_nat id; protocolImpl := hyperkitProtocol |}.

Definition lan0 (dbg : bool) (mtu : Z) (ep : LinkEndpoint) : lan :=
  {| l_net := initial_net dbg mtu (as_device ep); l_written := λ _, []; l_gone := ∅; l_input := λ _, [];
     l_buffer := λ _, []; l_pc := λ _, Idle; l_log := []; l_gateway := [] |}.

Definition with_net (n : net) (s : lan) : lan :=
  {| l_net := n; l_written := l_written s; l_gone := l_gone s; l_input := l_input s; l_buffer := l_buffer s;
     l_pc := l_pc s; l_log := l_log s; l_gateway := l_gateway s |}.
Definition with_pc (id : Z) (p : rx_pc) (s : lan) : lan :=
  {| l_net := l_net s; l_written := l_written s; l_gone := l_gone s; l_input := l_input s; l_buffer := l_buffer s;
     l_pc := upd id p (l_pc s); l_log := l_log s; l_gateway := l_gateway s |}.
Definition with_buffer (id : Z) (buf : list Z) (s : lan) : lan :=
  {| l_net := l_net s; l_written := l_written s; l_gone := l_gone s; l_input := l_input s;
     l_buffer := upd id buf (l_buffer s); l_pc := l_pc s; l_log := l_log s; l_gateway := l_gateway s |}.

(** The gvforwarder of the guest reads a frame from its device and writes it. *)
Definition guest_sends (id : Z) (f : list Z) (s : lan) : lan :=
  let bytes := concat (rx (λ _, None) [inr f]).1 in
  {| l_net := l_net s; l_written := upd id (l_written s id ++ [f]) (l_written s); l_gone := l_gone s;
     l_input := upd id (l_input s id ++ bytes) (l_input s); l_buffer := l_buffer s;
     l_pc := l_pc s; l_log := l_log s; l_gateway := l_gateway s |}.

(** The guest leaves, perhaps in the middle of a write, or loses the connection: of what
    is on the socket, the receive loop may still find [rest]. *)
Definition guest_leaves (id : Z) (rest : list Z) (s : lan) : lan :=
  {| l_net := l_net s; l_written := l_written s; l_gone := {[id]} ∪ l_gone s;
     l_input := upd id rest (l_input s); l_buffer := l_buffer s;
     l_pc := l_pc s; l_log := l_log s; l_gateway := l_gateway s |}.

(** The buffered reader of the receive loop takes [k] bytes. *)
Definition loop_takes (id : Z) (k : nat) (s : lan) : lan :=
  {| l_net := l_net s; l_written := l_written s; l_gone := l_gone s;
     l_input := upd id (drop k (l_input s id)) (l_input s);
     l_buffer := upd id (l_buffer s id ++ take k (l_input s id)) (l_buffer s);
     l_pc := l_pc s; l_log := l_log s; l_gateway := l_gateway s |}.

(** The gateway is given the packet of a frame. *)
Definition gateway_given (f : list Z) (s : lan) : lan :=
  {| l_net := l_net s; l_written := l_written s; l_gone := l_gone s; l_input := l_input s; l_buffer := l_buffer s;
     l_pc := l_pc s; l_log := l_log s; l_gateway := l_gateway s ++ [(frame_type f, drop 14 f)] |}.

(** A transmission. *)
Definition entries (from : option Z) (f part : list Z) (evs : list event) : list entry :=
  (λ ev, {| en_from := from; en_frame := f; en_part := part; en_event := ev |}) <$> evs.
Definition transmitted (from : option Z) (f part : list Z) (x : res unit * Switch * list event) (s : lan) : lan :=
  {| l_net := {| sw := run_state x; running := running (l_net s) |}; l_written := l_written s; l_gone := l_gone s;
     l_input := l_input s; l_buffer := l_buffer s; l_pc := l_pc s;
     l_log := l_log s ++ entries from f part (run_events x); l_gateway := l_gateway s |}.

(** Where a frame goes after its source is learned, and after it is forwarded. *)
Definition after_learn (gw f : list Z) : rx_pc := if decide (frame_dst f = gw) then Delivering f else Forwarding f.
Definition after_forward (f : list Z) : rx_pc :=
  if decide (frame_dst f = EthernetBroadcastAddress) then Delivering f else Idle.

Section lan.
Context (ToView : list Z → slice) (ep : LinkEndpoint).

(** A connection that the switch has closed ([disconnect]) takes and yields no more
    bytes; its receive loop still works on those it has taken. *)
Definition open_conn (id : Z) (s : lan) : Prop := is_Some (conns (sw (l_net s)) !! id).

Inductive lan_step : lan → lan → Prop :=
  | lan_connect s :
      let id := nextConnID (sw (l_net s)) in
      lan_step s (with_net {| sw := run_state (connect (guest_conn id) (sw (l_net s)));
                              running := {[id]} ∪ running (l_net s) |} s)
  | lan_write s id f :
      open_conn id s → id ∉ l_gone s → Z.of_nat (length f) < 65536 →
      lan_step s (guest_sends id f s)
  | lan_leave s id rest :
      id ∈ running (l_net s) → rest `prefix_of` l_input s id →
      lan_step s (guest_leaves id rest s)
  | lan_take s id k :
      open_conn id s → l_pc s id = Idle →
      lan_step s (loop_takes id k s)
  | lan_read s id f rest gw :
      id ∈ running (l_net s) → l_pc s id = Idle → gateway (sw (l_net s)) = Some gw →
      rx_read hyperkit_stream {| in_bytes := l_buffer s id; in_err := EOF |} =
        Ok (f, {| in_bytes := rest; in_err := EOF |}) →
      frame_ok (slice_of f) →
      lan_step s (with_pc id (after_learn (vd_LinkAddress gw) f) (with_buffer id rest
        (with_net {| sw := learned id f (sw (l_net s)); running := running (l_net s) |} s)))
  | lan_forward s id f part wr order :
      l_pc s id = Forwarding f → range_order (conns (sw (l_net s))) order →
      part `prefix_of` rx_message f →
      run_res (Switch.tx wr order (ToView f) (sw (l_net s))) ≠ Panic →
      lan_step s (with_pc id (after_forward f)
        (transmitted (Some id) f part (Switch_DeliverNetworkPacket wr order (ToView f) (sw (l_net s))) s))
  | lan_deliver s id f :
      l_pc s id = Delivering f →
      lan_step s (with_pc id Idle (gateway_given f s))
  | lan_gateway s pkt part wr order :
      packet_ok ep pkt → arp_whole pkt → networkSwitch ep = true →
      Z.of_nat (length (link_frame ep pkt)) < 65536 →
      range_order (conns (sw (l_net s))) order → part `prefix_of` rx_message (link_frame ep pkt) →
      run_res (writePacket wr ToView order ep pkt (sw (l_net s))) ≠ Panic →
      lan_step s (transmitted None (link_frame ep pkt) part (writePacket wr ToView order ep pkt (sw (l_net s))) s)
  | lan_received s n :
      lan_step s (with_net {| sw := set_Received (u64 (Received (sw (l_net s)) + n)) (sw (l_net s));
                              running := running (l_net s) |} s)
  | lan_exit s id :
      id ∈ running (l_net s) → l_pc s id = Idle →
      lan_step s (with_net {| sw := run_state (disconnect id (guest_conn id) (sw (l_net s)));
                              running := running (l_net s) ∖ {[id]} |} s).
End lan.

(** ** What is on the sockets *)

(** The socket of a write, and the bytes that reached it. *)
Definition socket_of (ev : event) : option nat :=
  match ev with EvWrite c _ | EvWriteErr c => Some c | _ => None end.
Definition bytes_at (n : nat) (en : entry) : option (list Z) :=
  match en_event en with
  | EvWrite c data => if decide (c = n) then Some data else None
  | EvWriteErr c => if decide (c = n) then Some (en_part en) else None
  | _ => None
  end.

(** A write carries its frame when the whole message has reached the socket. *)
Definition carried (n : nat) (en : entry) : option (option Z * list Z) :=
  match bytes_at n en with
  | Some data => if decide (data = rx_message (en_frame en)) then Some (en_from en, en_frame en) else None
  | None => None
  end.

(** The bytes written to a socket, and the whole frames they carry with their origins. *)
Definition bytes_to (n : nat) (log : list entry) : list Z := concat (omap (bytes_at n) log).
Definition frames_to (n : nat) (log : list entry) : list (option Z * list Z) := omap (carried n) log.
Definition frames_from (from : option Z) (n : nat) (log : list entry) : list (list Z) :=
  (filter (λ x, x.1 = from) (frames_to n log)).*2.

Definition guests_only (e : Switch) : Prop := ∀ id c, conns e !! id = Some c → c = guest_conn id ∧ 0 ≤ id.

(** A transmission writes at most once to a socket, and when that write fails it drops
    the connection. *)
Definition socket_events (n : nat) (evs : list event) : list event := filter (λ ev, socket_of ev = Some n) evs.

Definition written_once (n : nat) (f : list Z) (e : Switch) (x : res unit * Switch * list event) : Prop :=
  let w := socket_events n (run_events x) in
  w = [] ∨ (is_Some (conns e !! Z.of_nat n) ∧
    (w = [EvWrite n (rx_message f)] ∨ (w = [EvWriteErr n] ∧ conns (run_state x) !! Z.of_nat n = None))).

Lemma socket_events_cons n ev evs :
  socket_events n (ev :: evs) = (if decide (socket_of ev = Some n) then [ev] else []) ++ socket_events n evs.
Proof. unfold socket_events. rewrite filter_cons. by case_decide. Qed.
Lemma socket_events_app n l1 l2 : socket_events n (l1 ++ l2) = socket_events n l1 ++ socket_events n l2.
Proof. apply filter_app. Qed.

(** One connection that fails. *)
Lemma failed_once n f id e :
  conns e !! id = Some (guest_conn id) → 0 ≤ id → ∀ r,
  written_once n f e (r, disconnected id e, [EvWriteErr (Conn (guest_conn id)); EvClose (Conn (guest_conn id))]).
Proof.
  intros Hc Hid r. unfold written_once, run_events. cbn [snd]. rewrite !socket_events_cons. cbn. case_decide as Hn; [|by left].
  injection Hn as <-. rewrite Z2Nat.id by done. right. split; [by eexists|]. right. split; [done|].
  apply lookup_delete_eq.
Qed.

Lemma broadcast_once wr srcID buf n order : ∀ e,
  Forall (λ ic, ic.2 = guest_conn ic.1 ∧ 0 ≤ ic.1 ∧ conns e !! ic.1 = Some ic.2) order → NoDup order.*1 →
  let x := broadcast wr order srcID buf e in
  written_once n buf e x ∧ (socket_events n (run_events x) ≠ [] → Z.of_nat n ∈ order.*1).
Proof.
  induction order as [|[id c] order IH]; intros e Hg Hnd; [by split; [left|]|].
  apply Forall_cons in Hg as [(Hcn & Hid & He) Hg]. apply NoDup_cons in Hnd as [Hni Hnd].
  cbn [fst snd] in Hcn, Hid, He, Hni. subst c.
  destruct (decide (id = srcID)) as [Heq|Hne].
  { rewrite broadcast_skip by done. destruct (IH e Hg Hnd) as [? Hin]. split; [done|]. intros Hev. right. by apply Hin. }
  destruct (wr (Conn (guest_conn id)) (wire hyperkitProtocol buf)) as [err|] eqn:Ew.
  { rewrite (broadcast_step_err _ _ _ _ _ _ _ err) by done. split; [by apply failed_once|].
    unfold run_events. cbn [snd]. rewrite !socket_events_cons. cbn. case_decide as Hn; [|done]. injection Hn as <-.
    intros _. rewrite Z2Nat.id by done. left. }
  rewrite broadcast_step_ok by done.
  destruct (IH (bump_Sent (Z.of_nat (length buf)) e) Hg Hnd) as [Hw Hin]. unfold written_once in *. cbn zeta in *.
  destruct (broadcast wr order srcID buf _) as [[r e'] evs]. unfold run_events, run_state in *. cbn [fst snd] in *.
  rewrite socket_events_cons. cbn [write_event socket_of fst snd]. case_decide as Hc; [|split; [exact Hw|]].
  - injection Hc as Hc. assert (socket_events n evs = []) as Hnil.
    { destruct (decide (socket_events n evs = [])) as [|H]; [done|]. destruct Hni.
      cbn in Hc. replace id with (Z.of_nat n) by lia. by apply Hin. }
    rewrite Hnil, app_nil_r. cbn in Hc. rewrite <- Hc, Z2Nat.id by done. split; [|intros _; by left].
    right. split; [by eexists|]. by left.
  - intros H. right. by apply Hin.
Qed.

Lemma tx_once wr order pkt e n : has_addresses pkt → guests_only e → range_order (conns e) order →
  written_once n (s_data pkt) e (Switch_DeliverNetworkPacket wr order pkt e).
Proof.
  intros Ha Hg Ho. assert (written_once n (s_data pkt) e (Switch.tx wr order pkt e)) as Hw.
  { unfold Switch.tx. rewrite txPkt_run by done. cbn zeta. case_decide.
    - apply broadcast_once; [|by eapply range_order_NoDup]. apply Forall_forall. intros [id c] Hin.
      apply (range_order_elem _ _ _ _ Ho) in Hin. by destruct (Hg _ _ Hin).
    - destruct (cam e !! _) as [id|]; [|by left]. destruct (conns e !! id) as [c|] eqn:Ec; [|by left].
      destruct (Hg _ _ Ec) as [-> Hid]. destruct (wr _ _); [by apply failed_once|].
      unfold written_once, write_event, run_events. cbn [snd]. rewrite socket_events_cons. cbn. case_decide as Hn; [|by left].
      injection Hn as <-. rewrite Z2Nat.id by done. right. split; [by eexists|by left]. }
  unfold Switch_DeliverNetworkPacket, catch. destruct (Switch.tx wr order pkt e) as [[[|err|] e'] evs]; [done| |done].
  unfold written_once, run_events, run_state, emit in *. cbn [fst snd] in *. by rewrite socket_events_app, app_nil_r.
Qed.

Lemma deliver_state wr order pkt e :
  run_state (Switch_DeliverNetworkPacket wr order pkt e) = run_state (Switch.tx wr order pkt e).
Proof. unfold Switch_DeliverNetworkPacket, catch. by destruct (Switch.tx wr order pkt e) as [[[|err|] e'] evs]. Qed.

(** *** The entries of a transmission *)

Lemma frames_to_app n l1 l2 : frames_to n (l1 ++ l2) = frames_to n l1 ++ frames_to n l2.
Proof. apply omap_app. Qed.
Lemma bytes_to_app n l1 l2 : bytes_to n (l1 ++ l2) = bytes_to n l1 ++ bytes_to n l2.
Proof. unfold bytes_to. by rewrite omap_app, concat_app. Qed.
Lemma frames_from_app g n l1 l2 : frames_from g n (l1 ++ l2) = frames_from g n l1 ++ frames_from g n l2.
Proof. unfold frames_from. by rewrite frames_to_app, filter_app, fmap_app. Qed.

(** Only the events of the socket count. *)
Lemma bytes_at_other n en : socket_of (en_event en) ≠ Some n → bytes_at n en = None.
Proof. unfold bytes_at. destruct (en_event en); cbn; intros; try done; by rewrite decide_False by congruence. Qed.

Lemma entries_socket n from f part evs :
  omap (bytes_at n) (entries from f part evs) = omap (bytes_at n) (entries from f part (socket_events n evs)) ∧
  frames_to n (entries from f part evs) = frames_to n (entries from f part (socket_events n evs)).
Proof.
  induction evs as [|ev evs [IHb IHf]]; [done|]. rewrite socket_events_cons. unfold frames_to, entries in *.
  case_decide as Hn; cbn [app]; rewrite !fmap_cons; [by cbn [omap list_omap]; rewrite IHb, IHf|].
  assert (bytes_at n {| en_from := from; en_frame := f; en_part := part; en_event := ev |} = None) as Hnone
    by by apply bytes_at_other.
  cbn [omap list_omap]. unfold carried at 1. by rewrite Hnone.
Qed.

(** What a transmission adds to the socket [n]. *)
Inductive adds (n : nat) (from : option Z) (f part : list Z) (conn conn' : option protocolConn)
    : list Z → list (option Z * list Z) → Prop :=
  | adds_nothing : adds n from f part conn conn' [] []
  | adds_frame : is_Some conn → adds n from f part conn conn' (rx_message f) [(from, f)]
  | adds_part : is_Some conn → conn' = None → part ≠ rx_message f → adds n from f part conn conn' part [].

Lemma transmission_adds n from f part e x : written_once n f e x →
  adds n from f part (conns e !! Z.of_nat n) (conns (run_state x) !! Z.of_nat n)
    (bytes_to n (entries from f part (run_events x))) (frames_to n (entries from f part (run_events x))).
Proof.
  intros Hw. destruct (entries_socket n from f part (run_events x)) as [Hb Hf].
  unfold bytes_to. rewrite Hb, Hf. unfold frames_to, entries.
  destruct Hw as [->|[Hc [->|[-> Hn]]]]; [constructor|..]; cbn [fmap list_fmap omap list_omap]; unfold carried, bytes_at;
    cbn -[rx_message]; rewrite !decide_True by done; cbn -[rx_message]; rewrite app_nil_r; [by constructor|].
  case_decide as Hp; [rewrite Hp; by constructor|by constructor].
Qed.

Lemma adds_from g n from f part conn conn' bs fs : adds n from f part conn conn' bs fs →
  (filter (λ x, x.1 = g) fs).*2 = [] ∨ (from = g ∧ (filter (λ x, x.1 = g) fs).*2 = [f]).
Proof.
  destruct 1; [by left| |by left]. rewrite filter_cons. cbn. case_decide; [by right|by left].
Qed.

Lemma upd_eq {A} id (a : A) f : upd id a f id = a.
Proof. unfold upd. by rewrite decide_True. Qed.
Lemma upd_ne {A} id i (a : A) f : i ≠ id → upd id a f i = f i.
Proof. intros. unfold upd. by rewrite decide_False. Qed.

(** ** Invariants *)

Definition short (f : list Z) : Prop := Z.of_nat (length f) < 65536.

(** The frames of a guest: those that were handed to the guests, the one its receive
    loop holds, and those still on the way to it, of which nothing is lost as long as
    the guest is there. *)
Record stream_ok (s : lan) (id : Z) (done pending : list (list Z)) : Prop := {
  st_input : l_buffer s id ++ l_input s id `prefix_of` concat (rx_message <$> pending);
  st_there : id ∉ l_gone s → l_buffer s id ++ l_input s id = concat (rx_message <$> pending);
  st_pending : Forall short pending;
  st_written : match l_pc s id with
    | Forwarding f => l_written s id = done ++ f :: pending ∧ short f ∧ frame_ok (slice_of f)
    | _ => l_written s id = done ++ pending
    end;
  st_frames n : frames_from (Some id) n (l_log s) `sublist_of` done;
}.

(** A frame that is cut: a message without its end. *)
Definition cut_frame (cut : list Z) : Prop := ∃ g rest, short g ∧ rest ≠ [] ∧ rx_message g = cut ++ rest.

(** The bytes on the socket of a guest: whole frames, and after them perhaps the one
    in which its connection was dropped. *)
Record socket_ok (s : lan) (n : nat) (cut : list Z) : Prop := {
  sk_bytes : bytes_to n (l_log s) = concat (rx_message <$> (frames_to n (l_log s)).*2) ++ cut;
  sk_short : Forall short (frames_to n (l_log s)).*2;
  sk_cut : cut = [] ∨ (cut_frame cut ∧ conns (sw (l_net s)) !! Z.of_nat n = None ∧
                       Z.of_nat n < nextConnID (sw (l_net s)));
}.

(** A frame that the endpoint of the gateway may send. *)
Definition from_gateway (ep : LinkEndpoint) (f : list Z) : Prop :=
  ∃ pkt, packet_ok ep pkt ∧ arp_whole pkt ∧ spoofing ep pkt = false ∧ f = link_frame ep pkt.

Record lan_ok (ep : LinkEndpoint) (s : lan) : Prop := {
  lo_net : net_inv (l_net s) ∧ 0 ≤ nextConnID (sw (l_net s));
  lo_guests : guests_only (sw (l_net s));
  lo_streams id : ∃ done pending, stream_ok s id done pending;
  lo_sockets n : ∃ cut, socket_ok s n cut;
  lo_gateway : Forall (λ en, en_from en = None → from_gateway ep (en_frame en)) (l_log s);
}.

Lemma lan0_ok dbg mtu ep : lan_ok ep (lan0 dbg mtu ep).
Proof.
  split.
  - split; [apply net_inv_initial|done].
  - intros id c Hc. cbn in Hc. by apply lookup_empty_Some in Hc.
  - intros id. by exists [], [].
  - intros n. exists []. split; [done|done|by left].
  - done.
Qed.

(** Only the streams of [id] change, or none. *)
Lemma stream_same s s' id done pending :
  l_input s' id = l_input s id → l_buffer s' id = l_buffer s id → (id ∉ l_gone s' → id ∉ l_gone s) →
  l_pc s' id = l_pc s id → l_written s' id = l_written s id →
  (∀ n, frames_from (Some id) n (l_log s') = frames_from (Some id) n (l_log s)) →
  stream_ok s id done pending → stream_ok s' id done pending.
Proof. intros Hi Hb Hg Hp Hw Hf []. split; rewrite ?Hi, ?Hb, ?Hp, ?Hw; try done; [auto|]. intros n. by rewrite Hf. Qed.

(** Nothing is written to a socket: it stays as it is while no new connection has its number. *)
Lemma socket_same s s' n cut : l_log s' = l_log s →
  nextConnID (sw (l_net s)) ≤ nextConnID (sw (l_net s')) →
  (Z.of_nat n < nextConnID (sw (l_net s)) → conns (sw (l_net s)) !! Z.of_nat n = None →
   conns (sw (l_net s')) !! Z.of_nat n = None) →
  socket_ok s n cut → socket_ok s' n cut.
Proof.
  intros Hl Hn Hc [Hb Hs Hk]. split; rewrite ?Hl; [done..|].
  destruct Hk as [->|(? & ? & ?)]; [by left|right]. split_and!; [done|auto|lia].
Qed.

(** [rx_read] does not look behind the frame it returns. *)
Lemma ReadFull_more inp n bs rest err more :
  ReadFull {| in_bytes := inp; in_err := err |} n = Ok (bs, {| in_bytes := rest; in_err := err |}) →
  ReadFull {| in_bytes := inp ++ more; in_err := err |} n = Ok (bs, {| in_bytes := rest ++ more; in_err := err |}).
Proof.
  unfold ReadFull. cbn. case_decide as H; [|by case_decide]. intros [= <- <-].
  rewrite decide_True by (rewrite length_app; lia). by rewrite take_app_le, drop_app_le by lia.
Qed.

Lemma ReadFull_err inp n bs inp' : ReadFull inp n = Ok (bs, inp') → in_err inp' = in_err inp.
Proof. unfold ReadFull. repeat case_decide; try done. by intros [= <- <-]. Qed.

Lemma rx_read_more inp f rest more :
  rx_read hyperkit_stream {| in_bytes := inp; in_err := EOF |} = Ok (f, {| in_bytes := rest; in_err := EOF |}) →
  rx_read hyperkit_stream {| in_bytes := inp ++ more; in_err := EOF |} =
    Ok (f, {| in_bytes := rest ++ more; in_err := EOF |}).
Proof.
  unfold rx_read. destruct (ReadFull _ (length (Buf hyperkit_stream))) as [[sb [inp1 e1]]|?|] eqn:E1; [|done..].
  pose proof (ReadFull_err _ _ _ _ E1) as He. cbn in He. subst e1. rewrite (ReadFull_more _ _ _ _ _ more E1). cbn [wrap mbind res_bind].
  destruct (Read hyperkit_stream sb) as [size|?|]; [|done..]. cbn [mbind res_bind].
  destruct (ReadFull {| in_bytes := inp1; in_err := EOF |} (Z.to_nat size)) as [[b inp2]|?|] eqn:E2; [|done..].
  cbn [wrap]. intros [= -> ->]. by rewrite (ReadFull_more _ _ _ _ _ more E2).
Qed.

Section preservation.
Context (ToView : list Z → slice) (ToView_data : ∀ d, s_data (ToView d) = d) (ep : LinkEndpoint).

(** The endpoint drops the packet, or transmits its frame. *)
Lemma gateway_cases s pkt part wr order : packet_ok ep pkt → arp_whole pkt → networkSwitch ep = true →
  let f := link_frame ep pkt in
  let x := writePacket wr ToView order ep pkt (sw (l_net s)) in
  run_res x ≠ Panic →
  transmitted None f part x s = s ∨
  (from_gateway ep f ∧ run_res (Switch.tx wr order (ToView f) (sw (l_net s))) ≠ Panic ∧
   x = Switch_DeliverNetworkPacket wr order (ToView f) (sw (l_net s))).
Proof using Type.
  intros Hk Ha Hns f x. unfold x. rewrite writePacket_run by done. destruct (spoofing ep pkt) eqn:Es; intros Hp.
  - left. unfold transmitted. cbn. rewrite app_nil_r. by destruct s as [[]].
  - right. split; [by exists pkt|]. split; [|done]. intros Hpan. apply Hp. unfold Switch_DeliverNetworkPacket, catch.
    by destruct (Switch.tx _ _ _ _) as [[[]?]?].
Qed.

Lemma link_frame_length pkt : packet_ok ep pkt → (12 ≤ length (link_frame ep pkt))%nat.
Proof using Type. intros (_ & Hs & Hd). unfold link_frame. rewrite !length_app. lia. Qed.

(** *** A transmission of [f], from a guest or from the gateway *)

Section transmission.
Context (s : lan) (from : option Z) (f part : list Z).
Context (wr : nat → list Z → option error) (order : list (Z * protocolConn)).
Context (Hnet : net_inv (l_net s)) (Hok : guests_only (sw (l_net s))) (Hlen : (12 ≤ length f)%nat) (Ho : range_order (conns (sw (l_net s))) order).
#[local] Abbreviation x := (Switch_DeliverNetworkPacket wr order (ToView f) (sw (l_net s))).
#[local] Abbreviation s' := (transmitted from f part x s).

Lemma transmission_shrinks : shrinks (sw (l_net s)) (sw (l_net s')).
Proof using ToView_data Hlen.
  cbn. rewrite deliver_state. apply (tx_effect wr order (ToView f)). unfold has_addresses. by rewrite ToView_data.
Qed.

Lemma transmission_socket n :
  adds n from f part (conns (sw (l_net s)) !! Z.of_nat n) (conns (sw (l_net s')) !! Z.of_nat n)
    (bytes_to n (entries from f part (run_events x))) (frames_to n (entries from f part (run_events x))).
Proof using ToView_data Hok Hlen Ho.
  apply transmission_adds. pose proof (tx_once wr order (ToView f) (sw (l_net s)) n) as Hw.
  rewrite ToView_data in Hw. apply Hw; [|done..]. unfold has_addresses. by rewrite ToView_data.
Qed.

Lemma transmit_socket n cut : short f → part `prefix_of` rx_message f → socket_ok s n cut → ∃ cut', socket_ok s' n cut'.
Proof using ToView_data Hnet Hok Hlen Ho.
  intros Hsh [rest Hpart] [Hb Hs Hk]. pose proof (transmission_socket n) as Hadds.
  pose proof transmission_shrinks as (Hnext & Hsub & _).
  assert (cut = [] ∨ conns (sw (l_net s)) !! Z.of_nat n = None) as Hopen by (destruct Hk as [|(_ & ? & _)]; auto).
  remember (bytes_to n (entries from f part (run_events x))) as bs eqn:Ebs.
  remember (frames_to n (entries from f part (run_events x))) as fs eqn:Efs.
  assert (bytes_to n (l_log s') = bytes_to n (l_log s) ++ bs) as Hb' by (rewrite Ebs; apply bytes_to_app).
  assert (frames_to n (l_log s') = frames_to n (l_log s) ++ fs) as Hf' by (rewrite Efs; apply frames_to_app).
  destruct Hadds as [|[c Hc]|[c Hc] Hc' Hne].
  - exists cut. rewrite !app_nil_r in *. split; rewrite ?Hb', ?Hf'; [done..|].
    destruct Hk as [->|(? & ? & ?)]; [by left|right]. split_and!; [done| |lia].
    by eapply lookup_weaken_None.
  - destruct Hopen as [->|Hnone]; [|congruence]. exists []. split; [..|by left].
    + rewrite Hb', Hf', Hb, !fmap_app, concat_app. cbn. by rewrite !app_nil_r.
    + rewrite Hf', fmap_app. apply Forall_app. split; [done|]. by apply Forall_singleton.
  - destruct Hopen as [->|Hnone]; [|congruence]. exists part. rewrite app_nil_r in *. split.
    + by rewrite Hb', Hf', Hb.
    + by rewrite Hf'.
    + right. split_and!; [|done|].
      * exists f, rest. split_and!; [done| |done]. intros ->. by rewrite app_nil_r in Hpart.
      * rewrite Hnext. by apply (inv_ids _ Hnet), (inv_conns _ Hnet); exists c.
Qed.

Lemma transmit_frames n g :
  frames_from g n (l_log s') = frames_from g n (l_log s) ∨
  (from = g ∧ frames_from g n (l_log s') = frames_from g n (l_log s) ++ [f]).
Proof using ToView_data Hok Hlen Ho.
  change (l_log s') with (l_log s ++ entries from f part (run_events x)). rewrite frames_from_app.
  destruct (adds_from g _ _ _ _ _ _ _ _ (transmission_socket n) :
    frames_from g n (entries from f part (run_events x)) = [] ∨
    (from = g ∧ frames_from g n (entries from f part (run_events x)) = [f])) as [->|[? ->]].
  - left. by rewrite app_nil_r.
  - by right.
Qed.
End transmission.

Lemma guests_only_subseteq e e' : guests_only e → conns e' ⊆ conns e → guests_only e'.
Proof using Type. intros Hg Hs id c Hc. apply Hg. by eapply lookup_weaken. Qed.

(** What a receive loop is forwarding has a header. *)
Lemma forwarding_frame s id f : lan_ok ep s → l_pc s id = Forwarding f →
  frame_ok (slice_of f) ∧ short f ∧ (12 ≤ length f)%nat.
Proof using Type.
  intros Hok Hpc. destruct (lo_streams _ _ Hok id) as (d & p & [_ _ _ Hw _]). rewrite Hpc in Hw.
  destruct Hw as (_ & Hs & Hf). split_and!; [done..|]. unfold frame_ok in Hf. cbn in Hf. lia.
Qed.

(** A step moves the switch as in Switch.v, or not at all. *)
Lemma lan_step_net s s' : lan_ok ep s → lan_step ToView ep s s' → l_net s' = l_net s ∨ net_step true (l_net s) (l_net s').
Proof using ToView_data.
  intros Hok Hs.
  destruct Hs as [s id|s id f Hop Hgo Hl|s id rest Hid Hp|s id k Hop Hpc|s id f rest gw Hid Hpc Hgw Hr Hf|
                  s id f part wr order Hpc Ho Hpt Hp|s id f Hpc|s pkt part wr order Hk Ha Hns Hl Ho Hpt Hp|s n|s id Hid Hpc];
    try (by left).
  - right. apply (step_connect true (l_net s) (guest_conn id)).
  - right. by apply (step_learn true (l_net s) id (frame_src f)).
  - destruct (forwarding_frame s id f Hok Hpc) as (_ & _ & Hf).
    right. cbn [l_net with_pc transmitted]. rewrite deliver_state. apply step_tx; [done| |by left|done].
    unfold has_addresses. by rewrite ToView_data.
  - destruct (gateway_cases s pkt part wr order Hk Ha Hns Hp) as [->|(_ & Hp' & ->)]; [by left|right].
    cbn [l_net transmitted]. rewrite deliver_state. apply step_tx; [done| |by left|done].
    unfold has_addresses. rewrite ToView_data. by apply link_frame_length.
  - right. apply (step_received true (l_net s) n).
  - right. by apply (step_exit true (l_net s) id (guest_conn id)).
Qed.

Lemma lan_step_guests s s' : lan_ok ep s → lan_step ToView ep s s' → guests_only (sw (l_net s')).
Proof using ToView_data.
  intros Hok Hs. pose proof Hok as [[_ Hn] Hg _ _ _].
  destruct Hs as [s id|s id f Hop Hgo Hl|s id rest Hid Hp|s id k Hop Hpc|s id f rest gw Hid Hpc Hgw Hr Hf|
                  s id f part wr order Hpc Ho Hpt Hp|s id f Hpc|s pkt part wr order Hk Ha Hns Hl Ho Hpt Hp|s n|s id Hid Hpc];
    try exact Hg.
  - intros i c Hi. cbn in Hi. apply lookup_insert_Some in Hi as [[<- <-]|[_ Hi]]; [done|]. by apply Hg.
  - destruct (forwarding_frame s id f Hok Hpc) as (_ & _ & Hf).
    eapply guests_only_subseteq; [done|]. by apply (transmission_shrinks s (Some id) f part).
  - destruct (gateway_cases s pkt part wr order Hk Ha Hns Hp) as [->|(_ & _ & ->)]; [done|].
    eapply guests_only_subseteq; [done|]. by apply (transmission_shrinks s None), link_frame_length.
  - eapply guests_only_subseteq; [done|]. apply delete_subseteq.
Qed.

(** What the receive loop reads is the next frame of its guest. *)
Lemma read_next s id done pending f rest :
  stream_ok s id done pending →
  rx_read hyperkit_stream {| in_bytes := l_buffer s id; in_err := EOF |} = Ok (f, {| in_bytes := rest; in_err := EOF |}) →
  ∃ pending', pending = f :: pending' ∧ rest ++ l_input s id `prefix_of` concat (rx_message <$> pending') ∧
    (id ∉ l_gone s → rest ++ l_input s id = concat (rx_message <$> pending')).
Proof using Type.
  intros [[more Hi] Ht Hp _ _] Hr. apply (rx_read_more _ _ _ (l_input s id ++ more)) in Hr.
  rewrite app_assoc, <- Hi in Hr. destruct Hp as [|g pending Hg Hp]; [done|].
  cbn [fmap list_fmap concat] in *. rewrite rx_read_message in Hr by done. injection Hr as -> Hrest.
  exists pending. split; [done|]. split; [exists more; by rewrite <- app_assoc|]. intros Hgo.
  specialize (Ht Hgo). rewrite Hi in Ht. assert (more = []) as ->.
  { apply (f_equal length) in Ht, Hi. rewrite !length_app in *. destruct more; [done|]. cbn in *. lia. }
  by rewrite Hrest, app_nil_r.
Qed.

Lemma lan_step_streams s s' i : lan_ok ep s → lan_step ToView ep s s' → ∃ done pending, stream_ok s' i done pending.
Proof using ToView_data.
  intros Hlan Hs. destruct (lo_streams _ _ Hlan i) as (d & p & Hok). pose proof (lo_guests _ _ Hlan) as Hg.
  destruct Hs as [s id|s id f Hop Hgo Hl|s id rest Hid Hp|s id k Hop Hpc|s id f rest gw Hid Hpc Hgw Hr Hf|
                  s id f part wr order Hpc Ho Hpt Hp|s id f Hpc|s pkt part wr order Hk Ha Hns Hl Ho Hpt Hp|s n|s id Hid Hpc];
    try (by exists d, p; eapply stream_same; [..|exact Hok]);
    try (destruct (decide (i = id)) as [->|Hne];
         [|by exists d, p; eapply stream_same; [..|exact Hok]; cbn; rewrite ?upd_ne; try done; set_solver]).
  - exists d, (p ++ [f]). destruct Hok as [Hi Ht Hp Hw Hfr].
    assert (l_buffer s id ++ l_input s id ++ rx_message f ++ [] = concat (rx_message <$> (p ++ [f]))) as Heq.
    { rewrite app_assoc, (Ht Hgo), fmap_app, concat_app. done. }
    split; cbn -[rx_message]; rewrite ?upd_eq, ?Heq; try done.
    + by apply Forall_app_2; [|apply Forall_singleton].
    + destruct (l_pc s id); [|destruct Hw as (Hw & ? & ?)|]; rewrite ?Hw, <- ?app_assoc; auto.
  - exists d, p. destruct Hok as [Hi Ht Hp' Hw Hfr]. split; cbn; rewrite ?upd_eq; try done; [|set_solver].
    etrans; [|exact Hi]. by apply prefix_app.
  - exists d, p. destruct Hok as [Hi Ht Hp' Hw Hfr].
    split; cbn; rewrite ?upd_eq, <- ?app_assoc, ?take_drop; done.
  - destruct (read_next _ _ _ _ _ _ Hok Hr) as (p' & -> & Hpre & Hthere). destruct Hok as [Hi Ht Hp Hw Hfr].
    apply Forall_cons in Hp as [Hsh Hp]. rewrite Hpc in Hw.
    destruct (decide (frame_dst f = vd_LinkAddress gw)) as [Hd|Hd].
    + exists (d ++ [f]), p'. split; cbn; rewrite ?upd_eq; try done; unfold after_learn.
      * rewrite decide_True by done. by rewrite Hw, <- app_assoc.
      * intros n. etrans; [apply Hfr|]. by apply sublist_inserts_r.
    + exists d, p'. split; cbn; rewrite ?upd_eq; try done; unfold after_learn. by rewrite decide_False.
  - destruct (forwarding_frame s id f Hlan Hpc) as (_ & _ & Hlen).
    pose proof (λ n, transmit_frames s (Some id) f part wr order Hg Hlen Ho n (Some i)) as Htr.
    destruct (decide (i = id)) as [->|Hne].
    + destruct Hok as [Hi Ht Hp' Hw Hfr]. rewrite Hpc in Hw. destruct Hw as (Hw & Hsh & Hf).
      exists (d ++ [f]), p. split; cbn -[l_log]; rewrite ?upd_eq; try done; unfold after_forward.
      * case_decide; by rewrite Hw, <- app_assoc.
      * intros n. change (l_log (with_pc _ _ ?t)) with (l_log t). destruct (Htr n) as [->|[_ ->]];
          [by apply sublist_inserts_r|by apply sublist_app].
    + exists d, p. eapply stream_same; [..|exact Hok]; cbn -[l_log]; rewrite ?upd_ne; try done.
      intros n. change (l_log (with_pc _ _ ?t)) with (l_log t). by destruct (Htr n) as [->|[[= ->] _]].
  - exists d, p. destruct Hok as [Hi Ht Hp Hw Hfr]. rewrite Hpc in Hw. split; cbn; rewrite ?upd_eq; done.
  - destruct (gateway_cases s pkt part wr order Hk Ha Hns Hp) as [->|(_ & _ & ->)]; [by exists d, p|].
    exists d, p. eapply stream_same; [..|exact Hok]; try done. intros n.
    by destruct (transmit_frames s None (link_frame ep pkt) part wr order Hg (link_frame_length pkt Hk) Ho n (Some i))
      as [->|[[=] _]].
Qed.

Lemma lan_step_sockets s s' n : lan_ok ep s → lan_step ToView ep s s' → ∃ cut, socket_ok s' n cut.
Proof using ToView_data.
  intros Hlan Hs. destruct (lo_sockets _ _ Hlan n) as [cut Hok]. pose proof (lo_guests _ _ Hlan) as Hg.
  destruct (lo_net _ _ Hlan) as [Hnet Hn].
  destruct Hs as [s id|s id f Hop Hgo Hl|s id rest Hid Hp|s id k Hop Hpc|s id f rest gw Hid Hpc Hgw Hr Hf|
                  s id f part wr order Hpc Ho Hpt Hp|s id f Hpc|s pkt part wr order Hk Ha Hns Hl Ho Hpt Hp|s m|s id Hid Hpc];
    try (by exists cut; eapply socket_same; [..|exact Hok]; try done; cbn; lia).
  - exists cut. eapply socket_same; [..|exact Hok]; [done|cbn; lia|]. intros Hlt Hnone. cbn.
    by rewrite lookup_insert_ne by (unfold id; lia).
  - destruct (forwarding_frame s id f Hlan Hpc) as (_ & Hsh & Hlen).
    destruct (transmit_socket s (Some id) f part wr order Hnet Hg Hlen Ho n cut Hsh Hpt Hok) as [cut' [? ? ?]].
    by exists cut'.
  - destruct (gateway_cases s pkt part wr order Hk Ha Hns Hp) as [->|(_ & _ & ->)]; [by exists cut|].
    by apply (transmit_socket s None (link_frame ep pkt) part wr order Hnet Hg (link_frame_length pkt Hk) Ho n cut).
  - exists cut. eapply socket_same; [..|exact Hok]; [done|cbn; lia|]. intros _ Hnone. cbn. rewrite lookup_delete_None. auto.
Qed.

Lemma lan_step_ok s s' : lan_ok ep s → lan_step ToView ep s s' → lan_ok ep s'.
Proof using ToView_data.
  intros Hok Hs. pose proof Hok as [[Hi Hn] Hg Hst _ Hga]. split.
  - destruct (lan_step_net s s' Hok Hs) as [->|Hstep]; [done|]. split; [by eapply net_inv_step|].
    pose proof (nextConnID_step _ _ _ Hn Hstep). lia.
  - by eapply lan_step_guests.
  - intros i. by eapply lan_step_streams.
  - intros n. by eapply lan_step_sockets.
  - destruct Hs as [s id|s id f Hop Hgo Hl|s id rest Hid Hp|s id k Hop Hpc|s id f rest gw Hid Hpc Hgw Hr Hf|
                  s id f part wr order Hpc Ho Hpt Hp|s id f Hpc|s pkt part wr order Hk Ha Hns Hl Ho Hpt Hp|s m|s id Hid Hpc];
      try exact Hga; cbn [l_log with_pc].
    + apply Forall_app. split; [done|]. apply Forall_fmap, Forall_true. by intros ? [=].
    + destruct (gateway_cases s pkt part wr order Hk Ha Hns Hp) as [->|(Hfr & _ & _)]; [done|].
      apply Forall_app. split; [done|]. apply Forall_fmap, Forall_true. by intros ? _.
Qed.
End preservation.

(** ** Delivery *)

(** What is written to a socket. *)
Definition write_to (n : nat) (ev : event) : option (list Z) :=
  match ev with EvWrite c data => if decide (c = n) then Some data else None | _ => None end.
Definition writes (n : nat) (evs : list event) : list (list Z) := omap (write_to n) evs.

Lemma writes_cons n ev l :
  writes n (ev :: l) = match write_to n ev with Some d => [d] | None => [] end ++ writes n l.
Proof. unfold writes. cbn. by destruct (write_to n ev). Qed.

(** A frame for the learned address of another guest, which fits in its device. *)
Record unicast_to (mac : list Z) (mtu : Z) (f : list Z) : Prop := {
  uc_header : frame_ok (slice_of f);
  uc_fits : fits mtu f;
  uc_dst : frame_dst f = mac;
  uc_src : frame_src f ≠ mac;
}.

Section delivery.
Context (wr : nat → list Z → option error) (rng : gmap Z protocolConn → list (Z * protocolConn)).
Context (ToView : list Z → slice) (ToView_data : ∀ d, s_data (ToView d) = d).
Context (gw : VirtualDevice) (mac : list Z) (id : Z).
Context (Hmac : mac ≠ vd_LinkAddress gw ∧ mac ≠ EthernetBroadcastAddress).
Context (Hwr : ∀ data, wr (Conn (guest_conn id)) data = None).

(** The address is learned on the connection of the guest. *)
Record knows (e : Switch) : Prop := {
  kn_gateway : gateway e = Some gw;
  kn_conn : conns e !! id = Some (guest_conn id);
  kn_cam : cam e !! mac = Some id;
}.

Lemma rxBuf_unicast mtu order i f e : unicast_to mac mtu f → knows e →
  ∃ e', rxBuf wr ToView order i (slice_of f) e = (Ok tt, e', [EvWrite (Z.to_nat id) (rx_message f)]) ∧
    knows e' ∧ conns e' = conns e ∧ cam e' = <[frame_src f := i]> (cam e).
Proof using All.
  intros [Hh Hf Hd Hs] [Hg Hc Hm]. destruct Hmac as [Hm1 Hm2].
  assert (forwarded wr ToView order (vd_LinkAddress gw) f (learned i f e) =
    (Ok tt, bump_Sent (Z.of_nat (length f)) (learned i f e), [EvWrite (Z.to_nat id) (rx_message f)])) as Hfw.
  { unfold forwarded. rewrite decide_False by congruence. unfold Switch_DeliverNetworkPacket, catch, Switch.tx.
    rewrite txPkt_run by (unfold has_addresses, frame_ok in *; rewrite ToView_data; cbn in Hh; lia). cbn zeta.
    assert (cam (learned i f e) !! frame_dst f = Some id) as Hcam.
    { change (cam (learned i f e)) with (<[frame_src f := i]> (cam e)). rewrite lookup_insert_ne by congruence. by rewrite Hd. }
    assert (conns (learned i f e) !! id = Some (guest_conn id)) as Hconn by done.
    by rewrite ToView_data, decide_False, Hcam, Hconn, Hwr by congruence. }
  eexists. split; [|split; [|split]].
  - rewrite (rxBuf_run wr ToView order i (slice_of f) gw e Hh Hg) by (cbn [s_data slice_of]; by rewrite Hfw).
    cbn [s_data slice_of]. rewrite Hfw. cbn [run_state run_events fst snd].
    rewrite decide_False by (intros [?|?]; congruence). by rewrite app_nil_r.
  - split; cbn; [done|done|]. by rewrite lookup_insert_ne.
  - done.
  - done.
Qed.

Lemma rx_frames_unicast mtu i frames e : Forall (unicast_to mac mtu) frames → knows e →
  ∃ e', rx_frames wr ToView rng i frames e = (Ok tt, e', (λ f, EvWrite (Z.to_nat id) (rx_message f)) <$> frames) ∧
    knows e' ∧ conns e' = conns e ∧ (∀ f, f ∈ frames → cam e' !! frame_src f = Some i) ∧
    ∀ a, cam e !! a = Some i → cam e' !! a = Some i.
Proof using All.
  intros Hf. revert e. induction Hf as [|f frames Hf Hfs IH]; intros e Hk.
  { exists e. split_and!; try done. intros f []%elem_of_nil. }
  destruct (rxBuf_unicast mtu (rng (conns e)) i f e Hf Hk) as (e1 & Hr & Hk1 & Hc1 & Hm1).
  destruct (IH e1 Hk1) as (e2 & Hr2 & Hk2 & Hc2 & Hin & Hkeep).
  exists e2. split_and!; [|done|congruence| |].
  - cbn [rx_frames]. unfold bind, gets. rewrite Hr, Hr2. done.
  - intros g [->|Hg]%elem_of_cons; [|by apply Hin]. apply Hkeep. rewrite Hm1. apply lookup_insert_eq.
  - intros a Ha. apply Hkeep. rewrite Hm1. destruct (decide (frame_src f = a)) as [->|]; [apply lookup_insert_eq|].
    by rewrite lookup_insert_ne.
Qed.

Lemma writes_unicast frames :
  writes (Z.to_nat id) ((λ f, EvWrite (Z.to_nat id) (rx_message f)) <$> frames) = rx_message <$> frames.
Proof using Type.
  induction frames as [|f frames IH]; [done|]. rewrite fmap_cons, writes_cons, IH. cbn [write_to].
  by rewrite decide_True.
Qed.
End delivery.

(** The bytes of frames that fit are read as these frames; what is left of a frame that
    is cut ends the loop. *)
Lemma tx_step_cut buflen cut : cut = [] ∨ cut_frame cut →
  ∃ r, tx_step buflen {| in_bytes := cut; in_err := EOF |} = inr r ∧
    (cut = [] → r = TxError (ErrWrap "cannot read size from socket" EOF)).
Proof.
  intros [->|(g & rest & Hg & Hne & Hcut)]; [by eexists|].
  destruct (frame_enc_spec hyperkit_stream 2 g) as (hdr & He & Hl & Hr); [done|]. cbn in Hr.
  rewrite rx_message_enc, He in Hcut. unfold tx_step.
  destruct (decide (length cut < 2)%nat) as [Hshort|Hlong].
  - unfold ReadFull at 1. cbn [in_bytes]. rewrite decide_False by lia.
    case_decide as Hd; eexists; (split; [done|]); [|done]. intros ->. by destruct Hd.
  - assert (∃ g1, cut = hdr ++ g1 ∧ g = g1 ++ rest) as (g1 & -> & ->).
    { exists (drop 2 cut). assert (hdr = take 2 cut) as ->.
      { rewrite <- (take_app_le cut rest) by lia. by rewrite <- Hcut, <- Hl, take_app_length. }
      rewrite take_drop. split; [done|]. apply (f_equal (drop 2)) in Hcut.
      rewrite drop_app_length', drop_app_le in Hcut by (rewrite ?length_take; lia). done. }
    rewrite <- Hl, ReadFull_app. cbn [wrap]. rewrite Hr.
    assert (hdr ++ g1 ≠ []) as Hnn by by destruct hdr. case_decide; [by eexists|].
    rewrite Nat2Z.id. unfold ReadFull. cbn [in_bytes in_err].
    rewrite decide_False by (rewrite length_app; destruct rest; [done|]; cbn; lia).
    case_decide; eexists; by split.
Qed.

Lemma tx_fitting mtu frames cut : 0 ≤ mtu → Forall (fits mtu) frames → cut = [] ∨ cut_frame cut →
  ∃ r, Forwarder.tx mtu (λ _, None) {| in_bytes := concat (rx_message <$> frames) ++ cut; in_err := EOF |} =
    Some (frames, r) ∧ (cut = [] → r = TxError (ErrWrap "cannot read size from socket" EOF)).
Proof.
  intros Hm Hf Hc. destruct (tx_step_cut (mtu + EthernetMinimumSize) cut Hc) as (r & Hr & Hend). exists r. split; [|done].
  unfold Forwarder.tx. rewrite decide_False by (unfold EthernetMinimumSize; lia).
  apply tx_loop_frames; [done|done| |apply Nat.lt_succ_diag_r]. intros fuel Hfu. destruct fuel; [lia|]. cbn [tx_loop].
  by rewrite Hr.
Qed.

(** ** Properties *)

Lemma lan_reachable_ok ToView ep dbg mtu s : (∀ d, s_data (ToView d) = d) →
  star (lan_step ToView ep) (lan0 dbg mtu ep) s → lan_ok ep s ∧ reachable true (l_net s).
Proof.
  intros Hv Hs.
  assert (lan_ok ep s ∧ star (net_step true) (initial_net dbg mtu (as_device ep)) (l_net s)) as [Hok Hn].
  { refine (star_invariant (lan_step ToView ep)
      (λ s, lan_ok ep s ∧ star (net_step true) (initial_net dbg mtu (as_device ep)) (l_net s)) _ _ _ _ Hs).
    - intros a b [Ha Hna] Hab. split; [by eapply lan_step_ok|].
      destruct (lan_step_net ToView Hv ep a b Ha Hab) as [->|?]; [done|by eapply star_snoc].
    - split; [apply lan0_ok|constructor]. }
  split; [done|]. by exists dbg, mtu, (as_device ep).
Qed.

(** C6: frames end to end, under every interleaving, with any failing writes, each of
    which may have put any part of its message on the socket, and with guests that
    leave at any time.  The bytes on the socket of a guest are whole frames one after
    the other, and behind them perhaps the beginning of one more, which is the end: its
    connection has been dropped.  The frames that came from another guest were sent by it,
    in that order, none of them twice.  When they fit in the device of the guest, that
    is when they are not empty and not longer than its MTU and an Ethernet header, its
    gvforwarder gives the device exactly the whole frames.  The switch moves as the switch
    alone would. *)
Theorem frames_end_to_end ToView ep dbg mtu s :
  (∀ d, s_data (ToView d) = d) → star (lan_step ToView ep) (lan0 dbg mtu ep) s →
  reachable true (l_net s) ∧
  ∀ n, ∃ cut,
    let frames := (frames_to n (l_log s)).*2 in
    (∀ id, frames_from (Some id) n (l_log s) `sublist_of` l_written s id) ∧
    bytes_to n (l_log s) = concat (rx_message <$> frames) ++ cut ∧
    (cut = [] ∨ (cut_frame cut ∧ conns (sw (l_net s)) !! Z.of_nat n = None)) ∧
    ∀ mtu', 0 ≤ mtu' → Forall (fits mtu') frames → ∃ r,
      Forwarder.tx mtu' (λ _, None) {| in_bytes := bytes_to n (l_log s); in_err := EOF |} = Some (frames, r) ∧
      (cut = [] → r = TxError (ErrWrap "cannot read size from socket" EOF)).
Proof.
  intros Hv Hs. destruct (lan_reachable_ok ToView ep dbg mtu s Hv Hs) as [[_ _ Hst Hb _] Hn].
  split; [done|]. intros n. destruct (Hb n) as (cut & [Hbytes _ Hcut]). exists cut. cbn zeta.
  assert (cut = [] ∨ cut_frame cut) as Hc by (destruct Hcut as [|(? & _ & _)]; auto). split_and!.
  - intros id. destruct (Hst id) as (d & p & [_ _ _ Hw Hfr]). etrans; [apply Hfr|].
    destruct (l_pc s id); [|destruct Hw as [Hw _]|]; rewrite Hw; by apply sublist_inserts_r.
  - done.
  - destruct Hcut as [|(? & ? & _)]; auto.
  - intros mtu' Hm Hf. rewrite Hbytes. by apply tx_fitting.
Qed.

(** C35: what guests get from the gateway, under every interleaving.  Take a frame on the
    socket of a guest that no other guest has sent.  If it carries ARP (type 2054) and its
    payload is a valid ARP reply, the sender address in it is the address of the gateway
    or one of its virtual addresses: the gateway never claims the address of somebody
    else.  (The ARP packets of the stack have their 28 bytes in the network header,
    which is what the guard looks at.) *)
Theorem gateway_frames_honest ToView ep dbg mtu s n f :
  (∀ d, s_data (ToView d) = d) → star (lan_step ToView ep) (lan0 dbg mtu ep) s →
  (None, f) ∈ frames_to n (l_log s) →
  frame_type f = 2054 → ARP_IsValid (drop 14 f) = true → ARP_Op (drop 14 f) = ARPReply →
  let ip := v4_string (ProtocolAddressSender (drop 14 f)) in ip = le_ip ep ∨ ip ∈ virtualIPs ep.
Proof.
  intros Hv Hs Hin. destruct (lan_reachable_ok ToView ep dbg mtu s Hv Hs) as [[_ _ _ _ Hga] _].
  apply list_elem_of_omap in Hin as (en & Hen & Hw). unfold carried in Hw.
  destruct (bytes_at n en); [|done]. case_decide; [|done]. injection Hw as Hfr <-. rewrite Forall_forall in Hga.
  destruct (Hga en Hen Hfr) as (pkt & Hp & Ha & Hsp & ->). by apply link_frame_honest.
Qed.

(** C15: delivery from guest to guest.  What the gvforwarder of one guest reads from its
    device for the learned address of another is written by the gvforwarder of the
    other to its device: the same frames, in order, through both framings and the
    switch; the sources are learned on the connection of the first guest. *)
Theorem guest_to_guest wr rng ToView gw mac id i mtu frames e :
  (∀ d, s_data (ToView d) = d) → mac ≠ vd_LinkAddress gw ∧ mac ≠ EthernetBroadcastAddress →
  (∀ data, wr (Conn (guest_conn id)) data = None) →
  knows gw mac id e → 0 ≤ mtu → Forall (unicast_to mac mtu) frames →
  let x := rxStream wr ToView rng (λ _, false) i hyperkit_stream
             {| in_bytes := concat (Forwarder.rx (λ _, None) (inr <$> frames)).1; in_err := EOF |} e in
  run_res x = Err (ErrWrap "cannot read size from socket" EOF) ∧
  Forwarder.tx mtu (λ _, None)
    {| in_bytes := concat (writes (Z.to_nat id) (run_events x)); in_err := EOF |} =
    Some (frames, TxError (ErrWrap "cannot read size from socket" EOF)) ∧
  knows gw mac id (run_state x) ∧ ∀ f, f ∈ frames → cam (run_state x) !! frame_src f = Some i.
Proof.
  intros Hv Hmac Hwr Hk Hm Hf x.
  destruct (rx_frames_unicast wr rng ToView Hv gw mac id Hmac Hwr mtu i frames e Hf Hk) as (e' & Hr & Hk' & _ & Hin & _).
  assert (Forall (fits mtu) frames) as Hfit by (eapply Forall_impl; [exact Hf|]; by intros f []).
  assert (x = (Err (ErrWrap "cannot read size from socket" EOF), e',
               (λ f, EvWrite (Z.to_nat id) (rx_message f)) <$> frames)) as ->.
  { unfold x. rewrite rx_frames_written by done. cbn [fst]. rewrite <- (app_nil_r (concat _)).
    change (rx_message <$> frames) with (frame_enc hyperkit_stream <$> frames).
    rewrite (rxStream_frames wr ToView rng hyperkit_stream 2 (λ _, false) i frames [] e); [|..|by cbn; lia|done].
    - rewrite decide_True by done. unfold bind. rewrite Hr. cbn. by rewrite app_nil_r.
    - eapply Forall_impl; [exact Hfit|]. by intros f (_ & ? & _). }
  cbn [run_res run_state run_events fst snd]. split_and!; [done| |done|done].
  rewrite writes_unicast. destruct (tx_fitting mtu frames [] Hm Hfit (or_introl eq_refl)) as (r & Ht & Hend).
  rewrite app_nil_r, Hend in Ht by done. exact Ht.
Qed.

(** ** Runs and witnesses *)

Definition ep0 : LinkEndpoint :=
  {| le_debug := false; le_mtu := 1500; le_mac := mac_gw; le_ip := "192.168.127.1";
     virtualIPs := {["192.168.127.254"]}; dispatcher := true; networkSwitch := true |}.

(** The writes to the sockets of [bad] fail after [part] bytes. *)
Record faults := { bad : list nat; part_len : nat }.
Definition no_faults : faults := {| bad := []; part_len := 0 |}.
Definition wr_of (fs : faults) : nat → list Z → option error :=
  λ c _, if decide (c ∈ bad fs) then Some (ErrExt "broken pipe") else None.

Inductive action :=
  | AGateway (pkt : PacketBuffer) (fs : faults)
  | AConnect
  | AWrite (id : Z) (f : list Z)
  | ARead (id : Z)                       (* the loop takes all there is and reads a frame *)
  | AForward (id : Z) (fs : faults)
  | ADeliver (id : Z).

Definition lan_act (ep : LinkEndpoint) (a : action) (s : lan) : option lan :=
  let e := sw (l_net s) in
  match a with
  | AGateway pkt fs =>
      let x := writePacket (wr_of fs) slice_of (map_to_list (conns e)) ep pkt e in
      if decide (((14 ≤ length (pk_reserved pkt))%nat ∧ length (src_addr ep pkt) = 6%nat ∧
                 length (RemoteLinkAddress pkt) = 6%nat) ∧ pk_data pkt = [] ∧
                 Z.of_nat (length (link_frame ep pkt)) < 65536 ∧ networkSwitch ep = true) then
        match run_res x with
        | Panic => None
        | _ => Some (transmitted None (link_frame ep pkt) (take (part_len fs) (rx_message (link_frame ep pkt))) x s)
        end
      else None
  | AConnect =>
      Some (with_net {| sw := run_state (connect (guest_conn (nextConnID e)) e);
                        running := {[nextConnID e]} ∪ running (l_net s) |} s)
  | AWrite id f =>
      if decide (is_Some (conns e !! id) ∧ id ∉ l_gone s ∧ Z.of_nat (length f) < 65536) then Some (guest_sends id f s) else None
  | ARead id =>
      let s := loop_takes id (length (l_input s id)) s in
      match l_pc s id, gateway e, rx_read hyperkit_stream {| in_bytes := l_buffer s id; in_err := EOF |} with
      | Idle, Some gw, Ok (f, inp) =>
          if decide (is_Some (conns e !! id) ∧ id ∈ running (l_net s) ∧ (14 ≤ length f)%nat ∧ in_err inp = EOF) then
            Some (with_pc id (after_learn (vd_LinkAddress gw) f) (with_buffer id (in_bytes inp)
              (with_net {| sw := learned id f e; running := running (l_net s) |} s)))
          else None
      | _, _, _ => None
      end
  | AForward id fs =>
      match l_pc s id with
      | Forwarding f =>
          match run_res (Switch.tx (wr_of fs) (map_to_list (conns e)) (slice_of f) e) with
          | Panic => None
          | _ => Some (with_pc id (after_forward f) (transmitted (Some id) f (take (part_len fs) (rx_message f))
                   (Switch_DeliverNetworkPacket (wr_of fs) (map_to_list (conns e)) (slice_of f) e) s))
          end
      | _ => None
      end
  | ADeliver id => match l_pc s id with Delivering f => Some (with_pc id Idle (gateway_given f s)) | _ => None end
  end.
Fixpoint lan_acts (ep : LinkEndpoint) (l : list action) (s : lan) : option lan :=
  match l with [] => Some s | a :: l => s' ← lan_act ep a s; lan_acts ep l s' end.

Lemma lan_act_steps ep a s s' : lan_act ep a s = Some s' → star (lan_step slice_of ep) s s'.
Proof.
  assert (∀ k (l : list Z), take k l `prefix_of` l) as Hpre.
  { intros k l. rewrite <- (take_drop k l) at 2. by apply prefix_app_r. }
  destruct a as [pkt fs| |id f|id|id fs|id]; cbn -[connect rx_read writePacket link_frame src_addr rx_message loop_takes].
  - case_decide as H; [|done]. destruct H as (H1 & H2 & H3 & H4).
    destruct (run_res _) eqn:Er; try done; intros [= <-];
      (eapply star_snoc; [apply star_refl|]; apply lan_gateway; try done; first [by intros _|by apply Hpre|by rewrite Er]).
  - intros [= <-]. eapply star_step; [apply lan_connect|constructor].
  - case_decide as H; [|done]. intros [= <-]. destruct H as (? & ? & ?). eapply star_step; [by apply lan_write|constructor].
  - destruct (l_pc _ id) eqn:Ep; try done. destruct (gateway _) as [gw|] eqn:Eg; [|done].
    destruct (rx_read _ _) as [[f [rest err]]| |] eqn:Er; try done. case_decide as H; [|done].
    destruct H as (Hop & Hid & Hl & He). cbn in He. subst err. intros [= <-].
    eapply star_step; [by apply (lan_take slice_of ep s id (length (l_input s id)))|].
    eapply star_step; [by apply lan_read|constructor].
  - destruct (l_pc s id) eqn:Ep; try done.
    destruct (run_res _) eqn:Er; try done; intros [= <-];
      (eapply star_snoc; [apply star_refl|]; apply lan_forward; try done; first [by intros _|by apply Hpre|by rewrite Er]).
  - destruct (l_pc s id) eqn:Ep; try done. intros [= <-]. eapply star_step; [by apply lan_deliver|constructor].
Qed.
Lemma acts_star ep l s s' : lan_acts ep l s = Some s' → star (lan_step slice_of ep) s s'.
Proof.
  revert s. induction l as [|a l IH]; cbn; intros s; [intros [= <-]; constructor|].
  destruct (lan_act ep a s) as [s1|] eqn:E; cbn; [|done]. intros H. eapply star_trans; [by eapply lan_act_steps|by apply IH].
Qed.

(** Two guests: the second says hello to the gateway, the first sends it two frames. *)
Definition hello : list Z := s_data (mk_frame mac_gw mac_b [0]).
Definition msg (b : Z) : list Z := s_data (mk_frame mac_b mac_a [b]).
(** The gateway answers the question for its own address. *)
Definition arp_packet : list Z :=
  [0; 1; 8; 0; 6; 4; 0; 2] ++ mac_gw ++ [192; 168; 127; 1] ++ mac_b ++ [192; 168; 127; 3].
Definition arp_answer : PacketBuffer :=
  {| pk_reserved := replicate 14 0; pk_net := arp_packet; pk_data := []; LocalLinkAddress := [];
     RemoteLinkAddress := mac_b; NetworkProtocolNumber := 2054 |}.
Definition chat : list action :=
  [AConnect; AConnect; AWrite 1 hello; AWrite 0 (msg 1); ARead 1; ADeliver 1; AWrite 0 (msg 2); ARead 0;
   AForward 0 no_faults; ARead 0; AForward 0 no_faults; AGateway arp_answer no_faults].
Definition run_acts (l : list action) : lan := default (lan0 false 1500 ep0) (lan_acts ep0 l (lan0 false 1500 ep0)).
Definition chatted : lan := run_acts chat.

Lemma run_acts_reachable l : bool_decide (is_Some (lan_acts ep0 l (lan0 false 1500 ep0))) = true →
  star (lan_step slice_of ep0) (lan0 false 1500 ep0) (run_acts l).
Proof.
  intros H. apply (acts_star ep0 l). unfold run_acts.
  destruct (lan_acts ep0 l (lan0 false 1500 ep0)) as [s|]; [done|by rewrite bool_decide_eq_true in H; destruct H].
Qed.
Lemma chatted_reachable : star (lan_step slice_of ep0) (lan0 false 1500 ep0) chatted.
Proof. apply run_acts_reachable. by vm_compute. Qed.

(** The answer of the gateway is cut after five bytes. *)
Definition cut_chat : list action := take 11 chat ++ [AGateway arp_answer {| bad := [1%nat]; part_len := 5 |}].

Lemma fits_small mtu f : f ≠ [] → (length f <= 100)%nat → 100 ≤ mtu → fits mtu f.
Proof. intros. unfold fits, EthernetMinimumSize. split_and!; [done|lia|lia]. Qed.

Lemma frames_end_to_end_witness :
  bytes_to 1 (l_log (run_acts cut_chat)) =
    rx_message (msg 1) ++ rx_message (msg 2) ++ take 5 (rx_message (link_frame ep0 arp_answer)) ∧
  ∃ r, Forwarder.tx 1500 (λ _, None) {| in_bytes := bytes_to 1 (l_log (run_acts cut_chat)); in_err := EOF |} =
    Some ([msg 1; msg 2], r).
Proof.
  split; [by vm_compute|].
  destruct (proj2 (frames_end_to_end slice_of ep0 false 1500 (run_acts cut_chat) (λ d, eq_refl)
    (run_acts_reachable cut_chat ltac:(by vm_compute))) 1%nat) as (cut & _ & _ & _ & Ht).
  assert ((frames_to 1 (l_log (run_acts cut_chat))).*2 = [msg 1; msg 2]) as Hf by by vm_compute.
  rewrite Hf in Ht. destruct (Ht 1500 ltac:(lia)) as (r & Hr & _); [|by exists r].
  apply Forall_cons; split; [|apply Forall_singleton]; (apply fits_small; [done|apply Nat.leb_le; by vm_compute|lia]).
Defined.

Lemma gateway_frames_honest_witness :
  let ip := v4_string (ProtocolAddressSender arp_packet) in ip = "192.168.127.1" ∨ ip ∈ virtualIPs ep0.
Proof.
  refine (gateway_frames_honest slice_of ep0 false 1500 chatted 1 (link_frame ep0 arp_answer) (λ d, eq_refl)
    chatted_reachable _ _ _ _); [|by vm_compute..].
  assert (frames_to 1 (l_log chatted) = [(Some 0, msg 1); (Some 0, msg 2); (None, link_frame ep0 arp_answer)]) as ->
    by by vm_compute. do 2 right. left.
Defined.

Lemma guest_to_guest_witness :
  let x := rxStream all_ok slice_of map_to_list (λ _, false) 0 hyperkit_stream
             {| in_bytes := concat (Forwarder.rx (λ _, None) (inr <$> [msg 1; msg 2])).1; in_err := EOF |}
             (sw (l_net chatted)) in
  Forwarder.tx 1500 (λ _, None) {| in_bytes := concat (writes 1 (run_events x)); in_err := EOF |} =
    Some ([msg 1; msg 2], TxError (ErrWrap "cannot read size from socket" EOF)).
Proof.
  refine (proj1 (proj2 (guest_to_guest all_ok map_to_list slice_of gw0 mac_b 1 0 1500 [msg 1; msg 2] (sw (l_net chatted))
    (λ d, eq_refl) _ _ _ _ _))); [by split|done| |lia|].
  - split; by vm_compute.
  - apply Forall_cons; split; [|apply Forall_singleton];
      (split; [unfold frame_ok; cbn; lia|apply fits_small; [done|cbn; lia|lia]|by vm_compute|by vm_compute]).
Defined.
