(* ===== verification/World.v ===== *)
(** The program as one system: the guests and their frames (Traffic.v), the
    requests of the API and the pool (Network.v), and the services that the network
    stack of the gateway calls for the packets it is given: the DHCP and DNS servers
    and the forwarders of the flows (services.go), and the API inside the network
    (gvproxy's main.go).  Every effect on the outside is
    kept, and traced back to frames that guests have sent. *)
From Stdlib Require Import Ascii String.
From S2P Require Import Gvproxy Prelude GoStrings GoNet IPPool Tcpip Protocols Switch Link Types GoHTTP DNS Ports Nat DHCP VirtualNetwork Network Transport Forwarder Traffic.

Local Open Scope string_scope.
Local Open Scope list_scope.
Local Open Scope Z_scope.

(** ** Where the packets of the gateway come from *)

Section provenance.
Context (ToView : list Z → slice).

(** A guest has sent a frame with this packet, to the gateway or to everybody. *)
Definition sent_by_guest (mac : list Z) (s : lan) (p : Z * list Z) : Prop :=
  ∃ id f, f ∈ l_written s id ∧ (frame_dst f = mac ∨ frame_dst f = EthernetBroadcastAddress) ∧
    p = (frame_type f, drop 14 f).

(** What the receive loops hold was sent, and so was what the gateway was given. *)
Record guests_ok (mac : list Z) (s : lan) : Prop := {
  go_gateway : vd_LinkAddress <$> gateway (sw (l_net s)) = Some mac;
  go_forwarding id f : l_pc s id = Forwarding f → f ∈ l_written s id;
  go_delivering id f : l_pc s id = Delivering f →
    f ∈ l_written s id ∧ (frame_dst f = mac ∨ frame_dst f = EthernetBroadcastAddress);
  go_packets : Forall (sent_by_guest mac s) (l_gateway s);
}.

(** What a guest has sent, and what the gateway was given, is not forgotten. *)
Lemma lan_step_grows ep s s' : lan_step ToView ep s s' →
  l_gateway s `prefix_of` l_gateway s' ∧ ∀ id f, f ∈ l_written s id → f ∈ l_written s' id.
Proof.
  destruct 1; cbn; try (by split; [|auto]).
  - split; [done|]. intros i g Hg. destruct (decide (i = id)) as [->|]; rewrite ?upd_eq, ?upd_ne; set_solver.
  - split; [by apply prefix_app_r|auto].
Qed.

Lemma sent_by_guest_grows ep mac s s' p :
  lan_step ToView ep s s' → sent_by_guest mac s p → sent_by_guest mac s' p.
Proof. intros [_ Hw]%lan_step_grows (id & f & Hf & Hd & ->). exists id, f. auto. Qed.

(** The frame a receive loop reads is one its guest has sent. *)
Lemma read_sent ep s id f rest : lan_ok ep s → l_pc s id = Idle →
  rx_read hyperkit_stream {| in_bytes := l_buffer s id; in_err := EOF |} = Ok (f, {| in_bytes := rest; in_err := EOF |}) →
  f ∈ l_written s id.
Proof.
  intros Hok Hpc Hr. destruct (lo_streams _ _ Hok id) as (d & p & Hst).
  destruct (read_next _ _ _ _ _ _ Hst Hr) as (p' & -> & _ & _). pose proof (st_written _ _ _ _ Hst) as Hw.
  rewrite Hpc in Hw. rewrite Hw. set_solver.
Qed.

Context (ToView_data : ∀ d, s_data (ToView d) = d).

(** The gateway of the switch never changes. *)
Lemma lan_step_gateway ep s s' : lan_ok ep s → lan_step ToView ep s s' →
  gateway (sw (l_net s')) = gateway (sw (l_net s)).
Proof.
  intros Hok Hs. destruct (lan_step_net ToView ToView_data ep s s' Hok Hs) as [->|Hn]; [done|].
  destruct Hn as [t conn|t id src Hid|t wr order pkt Ho Ha Hw Hp|t n|t id conn Hid]; try done.
  cbn. by destruct (tx_effect wr order pkt (sw t) Ha) as [(_ & _ & _ & ->) _].
Qed.

Lemma lan_step_guests_ok ep mac s s' : lan_ok ep s → lan_step ToView ep s s' →
  guests_ok mac s → guests_ok mac s'.
Proof.
  intros Hok Hs [Hgw Hf Hd Hp].
  pose proof (lan_step_gateway ep s s' Hok Hs) as Hgw'. pose proof (lan_step_grows ep s s' Hs) as [_ Hw].
  assert (Forall (sent_by_guest mac s') (l_gateway s)) as Hp'.
  { eapply Forall_impl; [exact Hp|]. intros. by eapply sent_by_guest_grows. }
  assert (∀ i f, l_pc s i = Delivering f → f ∈ l_written s' i ∧ (frame_dst f = mac ∨ frame_dst f = EthernetBroadcastAddress))
    as Hd' by (intros i g Hi; destruct (Hd i g Hi); auto).
  destruct Hs as [s id|s id f Hop Hgo Hl|s id rest Hid Hpr|s id k Hop Hpc|s id f rest gw Hid Hpc Hg Hr Hfo|
                  s id f part wr order Hpc Ho Hpt Hpn|s id f Hpc|s pkt part wr order Hk Ha Hns Hl Ho Hpt Hpn|s n|s id Hid Hpc];
    split; rewrite ?Hgw'; cbn in *; eauto;
    try (intros i g Hi; destruct (decide (i = id)) as [->|Hne]; rewrite ?upd_eq, ?upd_ne in Hi by done; [|by eauto]).
  - unfold after_learn in Hi. case_decide; [done|]. injection Hi as ->. by eapply read_sent.
  - unfold after_learn in Hi. case_decide as Hdst; [|done]. injection Hi as ->. split; [by eapply read_sent|].
    left. rewrite Hg in Hgw. injection Hgw as <-. exact Hdst.
  - unfold after_forward in Hi. by case_decide.
  - unfold after_forward in Hi. case_decide; [|done]. injection Hi as ->. auto.
  - done.
  - done.
  - apply Forall_app. split; [done|]. apply Forall_singleton. destruct (Hd' id f Hpc). exists id, f. auto.
Qed.

(** *** A frame to everybody reaches the gateway *)

(** Nothing of the guest is on its way, and its connection stands. *)
Record quiet (id : Z) (s : lan) : Prop := {
  qt_open : is_Some (conns (sw (l_net s)) !! id);
  qt_there : id ∉ l_gone s;
  qt_idle : l_pc s id = Idle;
  qt_input : l_input s id = [];
  qt_buffer : l_buffer s id = [];
}.

(** A frame of a quiet guest gets into its receive loop. *)
Lemma lan_frame_read ep s id f gw : Z.of_nat (length f) < 65536 → (14 ≤ length f)%nat →
  gateway (sw (l_net s)) = Some gw → id ∈ running (l_net s) → quiet id s →
  ∃ s1, star (lan_step ToView ep) s s1 ∧ l_pc s1 id = after_learn (vd_LinkAddress gw) f ∧
    l_gateway s1 = l_gateway s ∧ l_written s1 id = l_written s id ++ [f].
Proof using Type.
  intros Hl Hlen Hgw Hid [Hop Hgo Hpc Hin Hbuf]. set (s0 := guest_sends id f s).
  assert (l_input s0 id = rx_message f) as Hin0 by (cbn -[rx_message]; rewrite upd_eq, Hin; cbn -[rx_message]; by rewrite app_nil_r).
  set (s1 := loop_takes id (length (rx_message f)) s0).
  assert (l_buffer s1 id = rx_message f ++ []) as Hbuf1.
  { unfold s1, loop_takes. cbn [l_buffer]. rewrite upd_eq, Hin0, firstn_all, app_nil_r. cbn [s0 guest_sends l_buffer]. by rewrite Hbuf. }
  eexists. split; [|split; [|split]].
  - eapply star_step; [by apply (lan_write ToView ep s id f)|].
    eapply star_step; [by apply (lan_take ToView ep s0 id (length (rx_message f)))|].
    eapply star_snoc; [apply star_refl|]. apply (lan_read ToView ep s1 id f [] gw); [done|exact Hpc|exact Hgw| |exact Hlen].
    rewrite Hbuf1. by apply rx_read_message.
  - cbn. by rewrite upd_eq.
  - done.
  - cbn. by rewrite upd_eq.
Qed.

Lemma lan_broadcast ep s id f : Z.of_nat (length f) < 65536 → (14 ≤ length f)%nat →
  frame_dst f = EthernetBroadcastAddress → is_Some (gateway (sw (l_net s))) →
  id ∈ running (l_net s) → quiet id s →
  ∃ s', star (lan_step ToView ep) s s' ∧ l_gateway s' = l_gateway s ++ [(frame_type f, drop 14 f)] ∧
    l_written s' id = l_written s id ++ [f].
Proof using ToView_data.
  intros Hl Hlen Hdst [gw Hgw] Hid Hq.
  destruct (lan_frame_read ep s id f gw Hl Hlen Hgw Hid Hq) as (s1 & Hread & Hpc1 & Hg1 & Hw1).
  assert (∃ s2, star (lan_step ToView ep) s1 s2 ∧ l_pc s2 id = Delivering f ∧
    l_gateway s2 = l_gateway s ∧ l_written s2 id = l_written s id ++ [f]) as (s2 & Hfwd & Hpc2 & Hg2 & Hw2).
  { unfold after_learn in Hpc1. case_decide as Hd; [exists s1; split; [constructor|done]|].
    eexists. split; [eapply star_snoc; [apply star_refl|];
      apply (lan_forward ToView ep s1 id f [] (λ _ _, None) (map_to_list (conns (sw (l_net s1)))));
      [exact Hpc1|apply range_order_canonical|apply prefix_nil|]|].
    - unfold Switch.tx. rewrite txPkt_run by (unfold has_addresses; rewrite ToView_data; lia).
      cbn zeta. rewrite ToView_data, decide_True by done. apply broadcast_shrinks.
    - cbn. rewrite upd_eq. unfold after_forward. by rewrite decide_True. }
  exists (with_pc id Idle (gateway_given f s2)). split; [|split].
  - eapply star_trans; [exact Hread|]. eapply star_snoc; [exact Hfwd|]. by apply lan_deliver.
  - cbn. by rewrite Hg2.
  - cbn. by rewrite Hw2.
Qed.
End provenance.

(** ** The system *)

(** What the stack calls, as [addServices] and gvproxy have registered it. *)
Inductive upcall :=
  | UpDHCP (m : DHCPv4)
  | UpDNS (socket : dns_socket) (r : Msg)
  | UpTCP (id : endpoint_id)
  | UpUDP (id : endpoint_id)
  | UpHTTP (r : http_request).                        (* port 80 of the gateway *)

Inductive effect :=
  | EReply (r : DHCPv4)                               (* a DHCP message to a client *)
  | EAnswer (socket : dns_socket) (query answer : Msg)
  | EFlow (id : endpoint_id) (ev : flow_event)
  | EHTTP (r : http_request) (a : mux_action).

(** The network, the frames, and the effects so far, in order. *)
Record world := { w_vn : VirtualNetwork; w_lan : lan; w_effects : list effect }.

Definition world0 (n : VirtualNetwork) : world :=
  {| w_vn := n; w_lan := lan0 (cfg_Debug (vn_configuration n)) (cfg_MTU (vn_configuration n)) (vn_endpoint n);
     w_effects := [] |}.

Definition with_vn (n : VirtualNetwork) (efs : list effect) (w : world) : world :=
  {| w_vn := n; w_lan := w_lan w; w_effects := w_effects w ++ efs |}.
Definition with_lan (s : lan) (w : world) : world :=
  {| w_vn := set_switch (sw (l_net s)) (w_vn w); w_lan := s; w_effects := w_effects w |}.

Section world.
(** The operating system, the encodings, the counters; the regular expressions and
    the truncation of the DNS library; [raised]: the packets (Ethernet type and
    payload) given to the stack so far make it call a service. *)
Context (os : OS) (json : mux_json) (stats : stat).
Context (MatchString : string → string → bool) (Truncate : Z → Msg → Msg).
Context (ToView : list Z → slice) (raised : list (Z * list Z) → upcall → Prop).

(** The stack may be late: a call is for some of the packets it was given. *)
Definition calls (w : world) (u : upcall) : Prop := ∃ packets, packets `prefix_of` l_gateway (w_lan w) ∧ raised packets u.

Inductive world_step : world → world → Prop :=
  | world_frames w s :
      lan_step ToView (vn_endpoint (w_vn w)) (w_lan w) s →
      world_step w (with_lan s w)
  | world_guest_request w r query hj o_ports o_leases o_cam :
      calls w (UpHTTP r) →
      range_order (proxies (sv_ports (vn_services (w_vn w)))) o_ports →
      range_order (leases (vn_ipPool (w_vn w))) o_leases →
      range_order (cam (vn_switch (w_vn w))) o_cam →
      let x := gateway_Mux os json stats o_ports o_leases o_cam query hj r (w_vn w) in
      world_step w (with_vn x.1 [EHTTP r x.2] w)
  | world_request w r query hj o_ports o_leases o_cam :
      range_order (proxies (sv_ports (vn_services (w_vn w)))) o_ports →
      range_order (leases (vn_ipPool (w_vn w))) o_leases →
      range_order (cam (vn_switch (w_vn w))) o_cam →
      world_step w (with_vn (VN_Mux os json stats o_ports o_leases o_cam query hj r (w_vn w)).1 [] w)
  | world_dhcp w order xid wr m p' evs :
      calls w (UpDHCP m) → range_order (leases (vn_ipPool (w_vn w))) order →
      handler (vn_configuration (w_vn w)) order xid wr m (vn_ipPool (w_vn w)) = (p', Ok evs) →
      world_step w (with_vn (set_pool p' (w_vn w)) (EReply <$> replies_of evs) w)
  | world_dns w resolver socket q a :
      calls w (UpDNS socket q) →
      Serve MatchString resolver Truncate socket (sv_zones (vn_services (w_vn w))) q = Ok a →
      world_step w (with_vn (w_vn w) [EAnswer socket q a] w)
  | world_tcp w dial create id evs :
      calls w (UpTCP id) → TCP_handler dial create (sv_nat (vn_services (w_vn w))) id = Ok evs →
      world_step w (with_vn (w_vn w) (EFlow id <$> evs) w)
  | world_udp w create id evs :
      calls w (UpUDP id) → UDP_handler create (sv_nat (vn_services (w_vn w))) id = Ok evs →
      world_step w (with_vn (w_vn w) (EFlow id <$> evs) w).

(** *** The parts *)

Definition reply_of (ef : effect) : option DHCPv4 := match ef with EReply r => Some r | _ => None end.

(** The system of Network.v inside. *)
Definition net_part (w : world) : system :=
  {| s_vn := w_vn w; s_running := running (l_net (w_lan w)); s_sent := omap reply_of (w_effects w) |}.

Definition coherent (w : world) : Prop := s_net (net_part w) = l_net (w_lan w).

Lemma with_vn_part n efs w :
  net_part (with_vn n efs w) =
    {| s_vn := n; s_running := running (l_net (w_lan w)); s_sent := omap reply_of (w_effects w) ++ omap reply_of efs |}.
Proof. unfold net_part, with_vn. cbn. by rewrite omap_app. Qed.

Lemma replies_part (rs : list DHCPv4) : omap reply_of (EReply <$> rs) = rs.
Proof. induction rs as [|r rs IH]; [done|]. rewrite fmap_cons. cbn. by f_equal. Qed.
Lemma flows_part id (evs : list flow_event) : omap reply_of (EFlow id <$> evs) = [].
Proof. by induction evs. Qed.

Lemma set_switch_same n : set_switch (vn_switch n) n = n.
Proof. by destruct n. Qed.

(** A request leaves the endpoint, the switch and the pool alone. *)
Lemma request_keeps r query hj o1 o2 o3 n :
  let n' := (VN_Mux os json stats o1 o2 o3 query hj r n).1 in
  vn_endpoint n' = vn_endpoint n ∧ vn_switch n' = vn_switch n ∧ vn_ipPool n' = vn_ipPool n.
Proof. cbn zeta. by destruct (VN_Mux_cases os json stats o1 o2 o3 query hj r n) as [->|[[o ->]|[z ->]]]. Qed.

Lemma guest_request_cases r query hj o1 o2 o3 n :
  let x := gateway_Mux os json stats o1 o2 o3 query hj r n in
  x.1 = n ∨ x.1 = (VN_Mux os json stats o1 o2 o3 query hj r n).1.
Proof. cbn zeta. unfold gateway_Mux. destruct (mux_route _ _ _); auto. Qed.

Lemma guest_request_keeps r query hj o1 o2 o3 n :
  let n' := (gateway_Mux os json stats o1 o2 o3 query hj r n).1 in
  vn_endpoint n' = vn_endpoint n ∧ vn_switch n' = vn_switch n ∧ vn_ipPool n' = vn_ipPool n.
Proof.
  cbn zeta. destruct (guest_request_cases r query hj o1 o2 o3 n) as [->| ->]; [done|apply request_keeps].
Qed.

Lemma world_step_coherent w w' : coherent w → world_step w w' → coherent w'.
Proof.
  unfold coherent, s_net. intros Hc Hs.
  destruct Hs as [w s Hl|w r query hj o1 o2 o3 _ _ _ _ x|w r query hj o1 o2 o3|w order xid wr m p' evs| | |]; cbn in *; try done.
  - by destruct (l_net s).
  - unfold x. by rewrite (proj1 (proj2 (guest_request_keeps r query hj o1 o2 o3 (w_vn w)))).
  - by rewrite (proj1 (proj2 (request_keeps r query hj o1 o2 o3 (w_vn w)))).
Qed.

Lemma world_step_endpoint w w' : world_step w w' → vn_endpoint (w_vn w') = vn_endpoint (w_vn w).
Proof.
  destruct 1 as [w s Hl|w r query hj o1 o2 o3 _ _ _ _ x|w r query hj o1 o2 o3|w order xid wr m p' evs| | |]; cbn; try done.
  - apply guest_request_keeps.
  - apply request_keeps.
Qed.

(** A step is one of the frames, or none. *)
Lemma world_step_lan w w' : world_step w w' →
  w_lan w' = w_lan w ∨ lan_step ToView (vn_endpoint (w_vn w)) (w_lan w) (w_lan w').
Proof. destruct 1; auto. Qed.

(** A step is one of Network.v, or changes nothing there. *)
Lemma world_step_net w w' : (∀ d, s_data (ToView d) = d) →
  lan_ok (vn_endpoint (w_vn w)) (w_lan w) → coherent w → world_step w w' →
  net_part w' = net_part w ∨ vn_step os json stats true (net_part w) (net_part w').
Proof.
  intros Hv Hok Hc Hs. destruct Hs as [w s Hl|w r query hj o1 o2 o3 _ H1 H2 H3 x|w r query hj o1 o2 o3 H1 H2 H3|w order xid wr m p' evs _ Ho Hh|
    w resolver socket q a _ _|w dial create id evs _ _|w create id evs _ _]; rewrite ?with_vn_part, ?flows_part, ?replies_part; cbn [omap list_omap reply_of]; rewrite ?app_nil_r.
  - destruct (lan_step_net ToView Hv _ _ _ Hok Hl) as [He|Hn].
    + left. unfold net_part, with_lan. cbn. rewrite He, <- Hc. cbn. by rewrite set_switch_same.
    + right. rewrite <- Hc in Hn. by apply (step_switch os json stats true (net_part w)).
  - unfold x. destruct (guest_request_cases r query hj o1 o2 o3 (w_vn w)) as [->| ->]; [by left|right].
    by apply (step_request os json stats true (net_part w)).
  - right. by apply (step_request os json stats true (net_part w)).
  - right. by apply (step_message os json stats true (net_part w) order xid wr m).
  - by left.
  - by left.
  - by left.
Qed.


(** Steps of the frames are steps of the whole. *)
Lemma with_lan_same w : coherent w → with_lan (w_lan w) w = w.
Proof.
  unfold coherent, with_lan. intros Hc. rewrite <- Hc. cbn. rewrite set_switch_same. by destruct w.
Qed.

Lemma frames_run w s :
  coherent w → star (lan_step ToView (vn_endpoint (w_vn w))) (w_lan w) s → star world_step w (with_lan s w).
Proof.
  intros Hc Hs. rewrite <- (with_lan_same w Hc) at 1. revert Hs. generalize (w_lan w) as s0. intros s0 Hs.
  induction Hs as [s|s1 s2 s3 Hs _ IH]; [constructor|]. econstructor; [|exact IH].
  exact (world_frames (with_lan s1 w) s2 Hs).
Qed.

(** ** The invariant *)

Section invariant.
Context (cfg : Configuration) (gw : list Z) (subnet : IPNet) (k : Z) (n0 : VirtualNetwork).
#[local] Abbreviation mac := (le_mac (vn_endpoint n0)).

(** Frames of guests made the stack call a service. *)
Definition asked (s : lan) (u : upcall) : Prop := ∃ packets, raised packets u ∧ Forall (sent_by_guest mac s) packets.

Definition configured (q : Question) : Prop := ∃ z, z ∈ cfg_DNS cfg ∧ in_zone z (q_Name q).

(** An effect was asked for; a reply is for the client that asked; a question in a
    configured zone is answered whatever the resolver of the host says; the only
    address a flow reaches on the host is the NAT image of its destination; a request
    to the API is answered and opens no tunnel. *)
Definition effect_ok (s : lan) (ef : effect) : Prop :=
  match ef with
  | EReply r => ∃ m, asked s (UpDHCP m) ∧ ClientHWAddr r = ClientHWAddr m
  | EAnswer socket q a =>
      asked s (UpDNS socket q) ∧
      (∀ qu, head (msg_Question q) = Some qu → configured qu →
       ∃ zones, (zone_Name <$> cfg_DNS cfg) `prefix_of` (zone_Name <$> zones) ∧
         ∀ resolver, Serve MatchString resolver Truncate socket zones q = Ok a)
  | EFlow id ev =>
      (asked s (UpTCP id) ∨ asked s (UpUDP id)) ∧
      ∀ addr, event_address ev = Some addr →
        addr = dial_text (translate (sv_nat (vn_services n0)) (LocalAddress id)) (LocalPort id) ∧
        (is_ip4 (LocalAddress id) → link_local (LocalAddress id) = false)
  | EHTTP r a => asked s (UpHTTP r) ∧ match a with MuxReply _ | MuxPanic => True | _ => False end
  end.

(** A lease is the gateway's, a static one, or was asked for. *)
Definition lease_ok (s : lan) (ip mac_ : string) : Prop :=
  mac_ = GatewayMacAddress cfg ∨ DHCPStaticLeases cfg !! ip = Some mac_ ∨
  ∃ m, asked s (UpDHCP m) ∧ mac_ = HardwareAddr_String (ClientHWAddr m).

Record world_ok (w : world) : Prop := {
  wo_coherent : coherent w;
  wo_net : network_ok os cfg gw subnet k n0 (net_part w);
  wo_lan : lan_ok (vn_endpoint n0) (w_lan w);
  wo_guests : guests_ok mac (w_lan w);
  wo_leases ip mac_ : leases (vn_ipPool (w_vn w)) !! ip = Some mac_ → lease_ok (w_lan w) ip mac_;
  wo_effects : Forall (effect_ok (w_lan w)) (w_effects w);
}.

Lemma asked_grows ep s s' u : lan_step ToView ep s s' → asked s u → asked s' u.
Proof.
  intros Hs (packets & Hr & Hp). exists packets. split; [done|]. eapply Forall_impl; [exact Hp|].
  intros. by apply (sent_by_guest_grows _ _ _ _ _ _ Hs).
Qed.

Lemma effect_grows ep s s' ef : lan_step ToView ep s s' → effect_ok s ef → effect_ok s' ef.
Proof.
  intros Hs. pose proof (asked_grows ep s s') as Ha. destruct ef as [r|socket q a|id ev|r a]; cbn.
  - intros (m & Hm & He). eauto.
  - intros [Hq He]. eauto.
  - intros [[Hq|Hq] He]; eauto.
  - intros [Hr Hx]. eauto.
Qed.

Lemma lease_grows ep s s' ip m : lan_step ToView ep s s' → lease_ok s ip m → lease_ok s' ip m.
Proof. intros Hs [?|[?|(x & Hx & ?)]]; unfold lease_ok; eauto 6 using asked_grows. Qed.

Lemma calls_asked w u : guests_ok mac (w_lan w) → calls w u → asked (w_lan w) u.
Proof.
  intros Hg (packets & [rest Hp] & Hr). exists packets. split; [done|].
  pose proof (go_packets _ _ Hg) as Hall. rewrite Hp in Hall. by apply Forall_app in Hall as [? _].
Qed.

(** The handler leases an address to nobody but the client of the message. *)
Lemma handler_leases order xid wr m p p' evs a :
  pool4 p k → represents p a → range_order (leases p) order → handler cfg order xid wr m p = (p', Ok evs) →
  ∀ ip mac_, leases p' !! ip = Some mac_ → leases p !! ip = Some mac_ ∨ mac_ = HardwareAddr_String (ClientHWAddr m).
Proof.
  intros Hp HR Ho Hh ip m' Hl. destruct (handler_spec _ _ _ _ _ _ _ _ _ _ Hp HR Ho Hh) as (a' & _ & HR' & _ & _ & Hs & _).
  destruct (proj2 HR' _ _ Hl) as (i & -> & Ha). destruct Hs as [->|(r & Hs)]; [left; by apply HR|].
  destruct (pool_spec_new _ _ _ _ _ _ Hs _ _ Ha) as [?|?]; [left; by apply HR|by right].
Qed.

Lemma handler_client c order xid wr m p p' evs r :
  handler c order xid wr m p = (p', Ok evs) → r ∈ replies_of evs → ClientHWAddr r = ClientHWAddr m.
Proof. intros Hh Hr. by destruct (handler_reply_inv _ _ _ _ _ _ _ _ _ Hh Hr) as (ip & _ & _ & ?). Qed.

(** A question in a configured zone is for the zones. *)
Lemma zone_loop_in z zones q m : z ∈ zones → in_zone z (q_Name q) → is_Some (zone_loop MatchString zones q m).
Proof.
  unfold in_zone. induction zones as [|y zones IH]; intros Hz Hin; [by apply elem_of_nil in Hz|]. cbn.
  destruct (HasSuffix (q_Name q) ("." +:+ zone_Name y)) eqn:E.
  - case_decide; [by eexists|]. destruct (record_loop _ _ _ _); [by eexists|]. destruct (negb _); by eexists.
  - apply elem_of_cons in Hz as [->|Hz]; [congruence|by apply IH].
Qed.

Lemma configured_in zones q m : (zone_Name <$> cfg_DNS cfg) `prefix_of` (zone_Name <$> zones) → configured q →
  is_Some (zone_loop MatchString zones q m).
Proof.
  intros [rest Hz] (z & Hin & Hs). assert (zone_Name z ∈ zone_Name <$> zones) as Hn.
  { rewrite Hz. apply elem_of_app. left. by apply list_elem_of_fmap_2. }
  apply list_elem_of_fmap in Hn as (z' & He & Hz'). apply (zone_loop_in z'); [done|]. unfold in_zone in *. by rewrite <- He.
Qed.

Lemma configured_Serve zones socket q qu r1 r2 :
  (zone_Name <$> cfg_DNS cfg) `prefix_of` (zone_Name <$> zones) → head (msg_Question q) = Some qu → configured qu →
  Serve MatchString r1 Truncate socket zones q = Serve MatchString r2 Truncate socket zones q.
Proof.
  intros Hz Hq Hc. destruct (msg_Question q) as [|x qs] eqn:Eq; [done|]. injection Hq as ->.
  unfold Serve, handleUDP, handleTCP, handle, addAnswers.
  change (msg_Question (set_RecursionAvailable (SetReply q))) with (take 1 (msg_Question q)). rewrite Eq. cbn [take question_loop].
  destruct (configured_in zones qu (set_RecursionAvailable (SetReply q)) Hz Hc) as [m' ->]. by destruct socket.
Qed.

(** *** Preservation *)

Context (ToView_data : ∀ d, s_data (ToView d) = d).

Lemma world_endpoint w : world_ok w → vn_endpoint (w_vn w) = vn_endpoint n0.
Proof. intros Hok. exact (ok_endpoint _ _ _ _ _ _ _ (wo_net _ Hok)). Qed.

(** A step of the network that is not one of the frames, with its effects. *)
Lemma with_vn_ok n efs w :
  world_ok w → coherent (with_vn n efs w) → network_ok os cfg gw subnet k n0 (net_part (with_vn n efs w)) →
  (∀ ip m, leases (vn_ipPool n) !! ip = Some m → lease_ok (w_lan w) ip m) → Forall (effect_ok (w_lan w)) efs →
  world_ok (with_vn n efs w).
Proof. intros [] Hc Hn Hl He. split; auto. by apply Forall_app. Qed.

Lemma world_step_part_ok w w' : world_ok w → world_step w w' →
  coherent w' ∧ network_ok os cfg gw subnet k n0 (net_part w').
Proof using ToView_data.
  intros Hok Hs. pose proof (world_endpoint w Hok) as He. destruct Hok as [Hc Hn Hl Hg Hle Hef].
  split; [by eapply world_step_coherent|]. rewrite <- He in Hl.
  destruct (world_step_net w w' ToView_data Hl Hc Hs) as [->|Hv]; [done|by eapply step_ok].
Qed.

Lemma flow_effects s id evs :
  (asked s (UpTCP id) ∨ asked s (UpUDP id)) →
  (∀ ev addr, ev ∈ evs → event_address ev = Some addr →
     addr = dial_text (translate (sv_nat (vn_services n0)) (LocalAddress id)) (LocalPort id) ∧
     (is_ip4 (LocalAddress id) → link_local (LocalAddress id) = false)) →
  Forall (effect_ok s) (EFlow id <$> evs).
Proof. intros Ha Hev. apply Forall_fmap, Forall_forall. intros ev Hin. split; [done|]. eauto. Qed.

Lemma world_step_ok w w' : world_ok w → world_step w w' → world_ok w'.
Proof using ToView_data.
  intros Hok Hs. pose proof (world_step_part_ok w w' Hok Hs) as [Hc' Hn'].
  pose proof (world_endpoint w Hok) as Hep. pose proof Hok as [Hc Hn Hl Hg Hle Hef].
  destruct Hs as [w s Hs|w r query hj o1 o2 o3 Hq H1 H2 H3 x|w r query hj o1 o2 o3 H1 H2 H3|w order xid wr m p' evs Hq Ho Hh|
    w resolver socket q a Hq Ha|w dial create id evs Hq Hh|w create id evs Hq Hh]; try apply with_vn_ok; try done.
  - rewrite Hep in Hs. split; [done|done|by eapply lan_step_ok|by eapply lan_step_guests_ok| |].
    + intros ip m Hm. eapply lease_grows; [exact Hs|]. by apply Hle.
    + eapply Forall_impl; [exact Hef|]. intros ef. by eapply effect_grows.
  - unfold x. rewrite (proj2 (proj2 (guest_request_keeps r query hj o1 o2 o3 (w_vn w)))). done.
  - apply Forall_singleton. split; [by apply calls_asked|]. by apply guest_request_answer.
  - rewrite (proj2 (proj2 (request_keeps r query hj o1 o2 o3 (w_vn w)))). done.
  - intros ip m' Hm. destruct (ok_table _ _ _ _ _ _ _ Hn) as (tab & HR & _).
    pose proof (ok_configuration _ _ _ _ _ _ _ Hn) as Hcf. cbn in Hcf. rewrite Hcf in Hh.
    destruct (handler_leases _ _ _ _ _ _ _ _ (ok_pool _ _ _ _ _ _ _ Hn) HR Ho Hh ip m' Hm) as [?| ->]; [by apply Hle|].
    right; right. exists m. split; [by apply calls_asked|done].
  - apply Forall_fmap, Forall_forall. intros r Hr. exists m. split; [by apply calls_asked|by eapply handler_client].
  - apply Forall_singleton. split; [by apply calls_asked|]. intros qu Hqu Hcf.
    exists (sv_zones (vn_services (w_vn w))). pose proof (ok_zones _ _ _ _ _ _ _ Hn) as Hz. split; [done|].
    intros res. rewrite <- Ha. by eapply configured_Serve.
  - apply flow_effects; [left; by apply calls_asked|]. rewrite <- (ok_nat _ _ _ _ _ _ _ Hn).
    intros ev addr. by eapply TCP_handler_addresses.
  - apply flow_effects; [right; by apply calls_asked|]. rewrite <- (ok_nat _ _ _ _ _ _ _ Hn).
    intros ev addr. by eapply UDP_handler_addresses.
Qed.

Lemma world0_ok env lease_order nat_order fwd_order :
  config_ok cfg gw subnet k → env_os env = os → range_order (DHCPStaticLeases cfg) lease_order →
  New env cfg lease_order nat_order fwd_order = Ok n0 → world_ok (world0 n0).
Proof.
  intros Hcfg Hos Ho Hnew. destruct (ok_gateway _ _ _ _ Hcfg) as [Hgw Hip].
  split; [|by eapply start_ok|apply lan0_ok| | |done].
  - apply New_built in Hnew as [Hc (ep & _ & He & Hsw) _ _ _]. unfold coherent, s_net, world0. cbn. by rewrite Hsw, He, Hc.
  - split; [done..|]. by apply Forall_nil.
  - cbn [w_vn world0]. rewrite (New_leases _ _ _ _ _ _ _ Hnew Ho Hgw Hip).
    + intros ip m [Hs|[_ [_ <-]%lookup_singleton_Some]]%lookup_union_Some_raw; [right; by left|by left].
    + intros s m Hs. destruct (ok_static _ _ _ _ Hcfg _ _ Hs) as (_ & ip & ? & ? & _). by exists ip.
Qed.

Lemma world_invariant w : world_ok (world0 n0) → star world_step (world0 n0) w →
  world_ok w ∧ star (vn_step os json stats true) (start n0) (net_part w) ∧
  star (lan_step ToView (vn_endpoint n0)) (w_lan (world0 n0)) (w_lan w).
Proof using ToView_data.
  intros H0 Hs. refine (star_invariant world_step (λ w, world_ok w ∧ star (vn_step os json stats true) (start n0) (net_part w) ∧
    star (lan_step ToView (vn_endpoint n0)) (w_lan (world0 n0)) (w_lan w)) _ _ _ _ Hs).
  - intros a b (Hok & Hn & Hl) Hab. pose proof (world_endpoint a Hok) as He. split_and!; [by eapply world_step_ok| |].
    + pose proof (wo_lan _ Hok) as Hlan. rewrite <- He in Hlan.
      destruct (world_step_net a b ToView_data Hlan (wo_coherent _ Hok) Hab) as [->|?]; [done|by eapply star_snoc].
    + destruct (world_step_lan a b Hab) as [->|Hx]; [done|]. rewrite He in Hx. by eapply star_snoc.
  - split_and!; [done|constructor|constructor].
Qed.
End invariant.

(** ** Properties *)

(** C4: the whole program is its parts put together.  Every run from the network
    that [New] builds, of the guests, the requests of the API from the host and from
    the guests, the DHCP and DNS servers and the forwarders, under every interleaving, is a run of the network
    of Network.v and a run of the frames of Traffic.v on the same switch and the
    same receive loops: what is proved of each part alone holds of the whole. *)
Theorem world_refines_parts env cfg gw subnet k lease_order nat_order fwd_order n0 w :
  (∀ d, s_data (ToView d) = d) → config_ok cfg gw subnet k → env_os env = os →
  range_order (DHCPStaticLeases cfg) lease_order → New env cfg lease_order nat_order fwd_order = Ok n0 →
  star world_step (world0 n0) w →
  star (vn_step os json stats true) (start n0) (net_part w) ∧
  star (lan_step ToView (vn_endpoint n0)) (lan0 (cfg_Debug cfg) (cfg_MTU cfg) (vn_endpoint n0)) (w_lan w) ∧
  s_net (net_part w) = l_net (w_lan w) ∧ network_ok os cfg gw subnet k n0 (net_part w) ∧
  lan_ok (vn_endpoint n0) (w_lan w).
Proof.
  intros Hv Hcfg Hos Ho Hnew Hs. pose proof (world0_ok cfg gw subnet k n0 env _ _ _ Hcfg Hos Ho Hnew) as H0.
  destruct (world_invariant cfg gw subnet k n0 Hv w H0 Hs) as ([] & Hn & Hl).
  apply New_built in Hnew as [Hc _ _ _ _]. split_and!; [done| |done..]. rewrite <- Hc. exact Hl.
Qed.

(** C1: nothing happens unasked.  In every run of the whole program, a lease that is
    neither the gateway's nor a static one belongs to the client of a DHCP message
    that the stack was given in frames of guests; so does every DHCP reply; every
    answer of the DNS server, every effect of a flow on the host and every answer of
    the API inside the network stands for packets of guests too, and that API opens
    no tunnel and no connection to the switch.  A question in a configured zone is answered from the
    zones, whatever the resolver of the host says, and the host address that a flow
    reaches is the NAT image of the destination the guest chose, which is never a
    link-local one. *)
Theorem effects_asked_for env cfg gw subnet k lease_order nat_order fwd_order n0 w :
  (∀ d, s_data (ToView d) = d) → config_ok cfg gw subnet k → env_os env = os →
  range_order (DHCPStaticLeases cfg) lease_order → New env cfg lease_order nat_order fwd_order = Ok n0 →
  star world_step (world0 n0) w →
  (∀ ip m, leases (vn_ipPool (w_vn w)) !! ip = Some m → lease_ok cfg n0 (w_lan w) ip m) ∧
  ∀ ef, ef ∈ w_effects w → effect_ok cfg n0 (w_lan w) ef.
Proof.
  intros Hv Hcfg Hos Ho Hnew Hs. pose proof (world0_ok cfg gw subnet k n0 env _ _ _ Hcfg Hos Ho Hnew) as H0.
  destruct (world_invariant cfg gw subnet k n0 Hv w H0 Hs) as ([_ _ _ _ Hle He] & _).
  split; [done|]. by apply Forall_forall.
Qed.

(** The handler on a message that asks for an address, while one is left. *)
Lemma handler_answers cfg gw subnet k xid m p a :
  config_ok cfg gw subnet k → pool4 p k → represents p a → Z.of_nat (size (leases p)) < 2 ^ k - 1 →
  MessageType m ∈ [MessageTypeDiscover; MessageTypeRequest] →
  ∃ p' r, handler cfg (map_to_list (leases p)) (inr xid) None m p = (p', Ok [DhcpReply r]) ∧
    ClientHWAddr r = ClientHWAddr m ∧ TransactionID r = TransactionID m ∧
    leases p' !! v4_string (To4 (YourIPAddr r)) = Some (reply_mac r).
Proof.
  intros Hcfg Hp HR Hsz Hmt. pose proof (range_order_canonical (leases p)) as Ho.
  destruct (ok_gateway _ _ _ _ Hcfg) as [Hgw Hip]. destruct (ok_subnet _ _ _ _ Hcfg) as [ip0 Hcidr].
  destruct (GetOrAssign_available (map_to_list (leases p)) (HardwareAddr_String (ClientHWAddr m)) p k Hp Ho Hsz) as [ip Hg].
  destruct (GetOrAssign (map_to_list (leases p)) (HardwareAddr_String (ClientHWAddr m)) p) as [p' x] eqn:Eg. cbn in Hg. subst x.
  destruct (handler_reply cfg _ xid m p ip p' gw subnet ip0 Hgw Hip Hcidr Hmt Eg) as (r & Hr & _ & Hhw & Hx & _).
  exists p', r. split_and!; [done..|].
  destruct (handler_spec cfg _ _ _ _ _ _ _ k a Hp HR Ho Hr) as (a' & _ & [HR' _] & _ & _ & _ & Ha).
  by destruct (HR' _ _ (Ha r ltac:(by left))).
Qed.

(** C3: a guest that asks for an address gets one.  In every reachable state of the
    whole program, whatever the guests, the clients of the API and failing writes
    have done before, a guest whose connection is still open and whose receive loop
    waits for a frame can broadcast one
    that the stack takes for a DHCP discover or request: as long as an address is
    left, the program can go on until the reply to that client is sent, with an
    address that is leased to it. *)
Theorem asking_gets_address env cfg gw subnet k lease_order nat_order fwd_order n0 w id src payload m :
  (∀ d, s_data (ToView d) = d) → config_ok cfg gw subnet k → env_os env = os →
  range_order (DHCPStaticLeases cfg) lease_order → New env cfg lease_order nat_order fwd_order = Ok n0 →
  star world_step (world0 n0) w →
  let s := w_lan w in
  quiet id s →
  let f := EthernetBroadcastAddress ++ src ++ [8; 0] ++ payload in
  length src = 6%nat → Z.of_nat (length f) < 65536 →
  raised (l_gateway s ++ [(2048, payload)]) (UpDHCP m) → MessageType m ∈ [MessageTypeDiscover; MessageTypeRequest] →
  Z.of_nat (size (leases (vn_ipPool (w_vn w)))) < 2 ^ k - 1 →
  ∃ w' r, star world_step (world0 n0) w' ∧ star world_step w w' ∧
    l_written (w_lan w') id = l_written s id ++ [f] ∧ w_effects w' = w_effects w ++ [EReply r] ∧
    ClientHWAddr r = ClientHWAddr m ∧ TransactionID r = TransactionID m ∧
    leases (vn_ipPool (w_vn w')) !! v4_string (To4 (YourIPAddr r)) = Some (reply_mac r).
Proof.
  intros Hv Hcfg Hos Ho Hnew Hs s Hq f Hsrc Hlen Hra Hmt Hsz.
  pose proof (world0_ok cfg gw subnet k n0 env _ _ _ Hcfg Hos Ho Hnew) as H0.
  destruct (world_invariant cfg gw subnet k n0 Hv w H0 Hs) as (Hok & _ & _).
  assert (frame_type f = 2048 ∧ drop 14 f = payload ∧ (14 ≤ length f)%nat) as (Hty & Hdr & Hl14).
  { unfold f. do 7 (destruct src as [|? src]; try done). split_and!; [done..|cbn; lia]. }
  assert (id ∈ running (l_net s)) as Hid.
  { apply (inv_conns _ (proj1 (lo_net _ _ (wo_lan _ _ _ _ _ _ Hok)))), Hq. }
  destruct (lan_broadcast ToView Hv (vn_endpoint (w_vn w)) s id f Hlen Hl14 eq_refl) as (s' & Hs' & Hg' & Hw'); [|done..|].
  { pose proof (go_gateway _ _ (wo_guests _ _ _ _ _ _ Hok)) as Hg. by destruct (gateway _). }
  destruct (ok_table _ _ _ _ _ _ _ (wo_net _ _ _ _ _ _ Hok)) as (a & HR & _).
  destruct (handler_answers cfg gw subnet k [] m (vn_ipPool (w_vn w)) a Hcfg (ok_pool _ _ _ _ _ _ _ (wo_net _ _ _ _ _ _ Hok)) HR Hsz Hmt)
    as (p' & r & Hh & Hhw & Hx & Hle).
  rewrite <- (ok_configuration _ _ _ _ _ _ _ (wo_net _ _ _ _ _ _ Hok)) in Hh.
  exists (with_vn (set_pool p' (w_vn (with_lan s' w))) [EReply r] (with_lan s' w)), r.
  assert (star world_step w (with_vn (set_pool p' (w_vn (with_lan s' w))) [EReply r] (with_lan s' w))) as Hstar.
  { eapply star_snoc; [apply frames_run; [apply Hok|exact Hs']|].
    eapply (world_dhcp (with_lan s' w) _ _ _ m _ [DhcpReply r]); [|apply range_order_canonical|exact Hh].
    exists (l_gateway s'). split; [done|]. by rewrite Hg', Hty, Hdr. }
  split_and!; [by eapply star_trans|done..].
Qed.
End world.

(** The configuration of gvproxy is one of those these theorems are about. *)
Lemma gvproxy_config_ok h fl : config_ok (Gvproxy.configuration h fl) [192; 168; 127; 1] net127 8.
Proof. by apply default_config_ok. Qed.

(** ** Witness

    A guest of the network of Network.v asks for an address: its frame goes through
    its gvforwarder, the socket, the receive loop and the switch to the gateway. *)

(** The stack understands one packet: six bytes of an IPv4 packet are the hardware
    address of a client in search of an address. *)
Definition raised0 (packets : list (Z * list Z)) (u : upcall) : Prop :=
  ∃ hw, last packets = Some (2048, hw) ∧ length hw = 6%nat ∧ u = UpDHCP (dhcp_message MessageTypeDiscover hw).

Definition ep1 : LinkEndpoint :=
  {| le_debug := false; le_mtu := 1500; le_mac := mac_gw; le_ip := "192.168.127.1"; virtualIPs := ∅;
     dispatcher := true; networkSwitch := true |}.
Definition discover_frame : list Z := EthernetBroadcastAddress ++ hw_new ++ [8; 0] ++ hw_new.
Definition asking : list action := [AConnect; AWrite 0 discover_frame; ARead 0; AForward 0 no_faults; ADeliver 0].
Definition lan1 : lan := lan0 false 1500 ep1.
Definition lan2 : lan := default lan1 (lan_acts ep1 asking lan1).

Lemma lan2_reached : star (lan_step slice_of ep1) lan1 lan2 ∧ l_gateway lan2 = [(2048, hw_new)].
Proof.
  assert (bool_decide (is_Some (lan_acts ep1 asking lan1)) = true) as H by by vm_compute.
  split; [|by vm_compute]. apply (acts_star ep1 asking). unfold lan2.
  destruct (lan_acts ep1 asking lan1); [done|by rewrite bool_decide_eq_true in H; destruct H].
Qed.

Lemma ep1_New : Attach true (LinkEndpoint_Connect {| le_debug := false; le_mtu := 1500; le_mac := mac_gw;
    le_ip := "192.168.127.1"; virtualIPs := ∅; dispatcher := false; networkSwitch := false |}) = ep1.
Proof. done. Qed.

Lemma New1_endpoint n0 : New env0 cfg1 lease1 [] [] = Ok n0 → vn_endpoint n0 = ep1.
Proof.
  intros [_ (ep & Hep & -> & _) _ _ _]%New_built. rewrite <- ep1_New. do 2 f_equal.
  assert (NewLinkEndpoint (cfg_Debug cfg1) (cfg_MTU cfg1) (GatewayMacAddress cfg1) (GatewayIP cfg1) (GatewayVirtualIPs cfg1)
    = Ok {| le_debug := false; le_mtu := 1500; le_mac := mac_gw; le_ip := "192.168.127.1"; virtualIPs := ∅;
            dispatcher := false; networkSwitch := false |}) as H by by vm_compute.
  rewrite H in Hep. by injection Hep.
Qed.

#[local] Abbreviation step1 := (world_step os0 mj1 (SStruct []) (λ _ _, false) (λ _ m, m) slice_of raised0).

(** The offer is sent. *)
Lemma world1_reached : ∃ n0 w, New env0 cfg1 lease1 [] [] = Ok n0 ∧ star step1 (world0 n0) w ∧ EReply offer1 ∈ w_effects w.
Proof.
  destruct New1 as (n0 & Hnew & Hp & Hc). pose proof (New1_endpoint n0 Hnew) as He. destruct lan2_reached as [Hl Hg].
  assert (w_lan (world0 n0) = lan1) as Hl0 by (unfold world0; cbn; by rewrite He, Hc).
  pose proof (world0_ok os0 (λ _ _, false) (λ _ m, m) raised0 cfg1 _ _ _ n0 env0 _ _ _ cfg1_ok eq_refl
    lease1_order Hnew) as Hok.
  assert (match discover1.2 with Ok _ => true | _ => false end = true) as Hd by by vm_compute.
  pose proof (proj1 discover1_reply) as Hin. unfold replies1 in Hin.
  remember discover1 as x eqn:E. symmetry in E. destruct x as [p1 [evs|err|]]; [|discriminate Hd..].
  exists n0. eexists. split; [done|]. split.
  - eapply star_snoc; [apply (frames_run _ _ _ _ _ _ _ (world0 n0) lan2); [apply Hok|by rewrite Hl0, <- He in *]|].
    eapply (world_dhcp _ _ _ _ _ _ _ (with_lan lan2 (world0 n0)) _ _ _ (dhcp_message MessageTypeDiscover hw_new)).
    + exists [(2048, hw_new)]. cbn [w_lan with_lan]. rewrite Hg. split; [reflexivity|]. exists hw_new. repeat split; reflexivity.
    + apply range_order_canonical.
    + cbn. rewrite Hp, Hc. exact E.
  - cbn. by apply list_elem_of_fmap_2.
Qed.

Lemma effects_asked_for_witness : ∃ w, EReply offer1 ∈ w_effects w ∧
  ∃ m packets, raised0 packets (UpDHCP m) ∧ Forall (sent_by_guest mac_gw (w_lan w)) packets ∧
    ClientHWAddr offer1 = ClientHWAddr m.
Proof.
  destruct world1_reached as (n0 & w & Hnew & Hs & Hin).
  destruct (effects_asked_for os0 mj1 (SStruct []) (λ _ _, false) (λ _ m, m) slice_of raised0 env0 cfg1 [192; 168; 127; 1]
    net127 8 lease1 [] [] n0 w (λ _, eq_refl) cfg1_ok eq_refl lease1_order Hnew Hs) as [_ H].
  exists w. split; [exact Hin|]. destruct (H _ Hin) as (m & (packets & Hr & Hp) & Hm).
  rewrite (New1_endpoint n0 Hnew) in Hp. exists m, packets. exact (conj Hr (conj Hp Hm)).
Defined.

Lemma world_refines_parts_witness : ∃ n0 w, EReply offer1 ∈ w_effects w ∧
  star (vn_step os0 mj1 (SStruct []) true) (start n0) (net_part w).
Proof.
  destruct world1_reached as (n0 & w & Hnew & Hs & Hin). exists n0, w. split; [exact Hin|].
  exact (proj1 (world_refines_parts os0 mj1 (SStruct []) (λ _ _, false) (λ _ m, m) slice_of raised0 env0 cfg1 [192; 168; 127; 1]
    net127 8 lease1 [] [] n0 w (λ _, eq_refl) cfg1_ok eq_refl lease1_order Hnew Hs)).
Defined.

(** The same guest, connected and silent. *)
Definition lan_c : lan := default lan1 (lan_acts ep1 [AConnect] lan1).

Lemma lan_c_reached : star (lan_step slice_of ep1) lan1 lan_c.
Proof. by apply (acts_star ep1 [AConnect]). Qed.

Lemma world_c_reached n0 : New env0 cfg1 lease1 [] [] = Ok n0 → star step1 (world0 n0) (with_lan lan_c (world0 n0)).
Proof.
  intros Hnew. pose proof (New1_endpoint n0 Hnew) as He. apply frames_run.
  - exact (wo_coherent _ _ _ _ _ _ _ _ _ _ (world0_ok os0 (λ _ _, false) (λ _ m, m) raised0 cfg1 [192; 168; 127; 1] net127 8 n0 env0
      lease1 [] [] cfg1_ok eq_refl lease1_order Hnew)).
  - destruct (New_built _ _ _ _ _ _ Hnew) as [Hc _ _ _ _]. unfold world0. cbn [w_vn w_lan]. rewrite He, Hc. exact lan_c_reached.
Qed.

Lemma asking_gets_address_witness : ∃ w' r, w_effects w' = [EReply r] ∧ ClientHWAddr r = hw_new ∧
  leases (vn_ipPool (w_vn w')) !! v4_string (To4 (YourIPAddr r)) = Some (reply_mac r).
Proof.
  destruct New1 as (n0 & Hnew & Hp & _).
  destruct (asking_gets_address os0 mj1 (SStruct []) (λ _ _, false) (λ _ m, m) slice_of raised0 env0 cfg1 [192; 168; 127; 1]
    net127 8 lease1 [] [] n0 (with_lan lan_c (world0 n0)) 0 hw_new hw_new (dhcp_message MessageTypeDiscover hw_new)
    (λ _, eq_refl) cfg1_ok eq_refl lease1_order Hnew (world_c_reached n0 Hnew)) as (w' & r & _ & _ & _ & He & Hr & _ & Hl).
  - split; [by eexists|set_solver|reflexivity..].
  - reflexivity.
  - reflexivity.
  - exists hw_new. repeat split; reflexivity.
  - left.
  - cbn [w_vn with_lan vn_ipPool set_switch world0]. rewrite Hp. by vm_compute.
  - exists w', r. exact (conj He (conj Hr Hl)).
Defined.
