(* ===== verification/Client.v ===== *)
(** pkg/client: the Go client of the HTTP API.  The HTTP transport and the JSON
    encoding are parameters; the last part connects the client to the API of the
    virtual network, [VN_Mux]. *)
From Stdlib Require Import Ascii String.
From S2P Require Import Prelude GoStrings GoNet IPPool Tcpip Switch Link Types GoHTTP DNS Ports Nat DHCP VirtualNetwork.

Local Open Scope string_scope.
Local Open Scope list_scope.
Local Open Scope Z_scope.

(** [strings.TrimSpace], on ASCII text. *)
Definition is_space (c : ascii) : bool := bool_decide (code c ∈ [9; 10; 11; 12; 13; 32]).
Fixpoint trim_left (s : string) : string :=
  match s with String c t => if is_space c then trim_left t else s | EmptyString => EmptyString end.
Fixpoint trim_right (s : string) : string :=
  match s with
  | EmptyString => EmptyString
  | String c t => match trim_right t with
                  | EmptyString => if is_space c then EmptyString else String c EmptyString
                  | t => String c t
                  end
  end.
Definition TrimSpace (s : string) : string := trim_right (trim_left s).

(** A response whose body may fail while it is read. *)
Record http_reply := { rp_Status : Z; rp_Body : error + string }.

(** The encodings of the requests and of the answers. *)
Record client_json := {
  Marshal_expose : ExposeRequest → error + string;
  Marshal_unexpose : UnexposeRequest → error + string;
  Marshal_zone : Zone → error + string;
  Decode_ports : string → error + list ExposeRequest;
  Decode_zones : string → error + list Zone;
}.

Section client.
Context {S : Type} (json : client_json).

(** The client: its base URL and the HTTP client, which acts on the server. *)
Record Client := { base : string; http : string → string → string → S → S * (error + http_reply) }.
Definition New (http : string → string → string → S → S * (error + http_reply)) (base : string) : Client :=
  {| base := base; http := http |}.

(** A GET whose answer is decoded. *)
Definition get {A} (path : string) (decode : string → error + A) (c : Client) (s : S) : S * (error + A) :=
  let '(s', r) := http c "GET" (base c +:+ path) "" s in
  (s', match r with
       | inl err => inl err
       | inr rp =>
           if decide (rp_Status rp ≠ StatusOK) then inl (ErrMsg ("unexpected status: " +:+ Itoa (rp_Status rp)))
           else match rp_Body rp with inl err => inl err | inr body => decode body end
       end).

(** A POST whose answer is a status; the body of an error is its text. *)
Definition post (path : string) (bin : error + string) (c : Client) (s : S) : S * option error :=
  match bin with
  | inl err => (s, Some err)
  | inr bin =>
      let '(s', r) := http c MethodPost (base c +:+ path) bin s in
      (s', match r with
           | inl err => Some err
           | inr rp =>
               if decide (rp_Status rp ≠ StatusOK) then
                 match rp_Body rp with
                 | inl readErr => Some (ErrMsg ("error while reading error message: " +:+ error_text readErr))
                 | inr err => Some (ErrMsg (TrimSpace err))
                 end
               else None
           end)
  end.

Definition List_ (c : Client) (s : S) : S * (error + list ExposeRequest) :=
  get "/services/forwarder/all" (Decode_ports json) c s.
Definition Client_Expose (req : ExposeRequest) (c : Client) (s : S) : S * option error :=
  post "/services/forwarder/expose" (Marshal_expose json req) c s.
Definition Client_Unexpose (req : UnexposeRequest) (c : Client) (s : S) : S * option error :=
  post "/services/forwarder/unexpose" (Marshal_unexpose json req) c s.
Definition ListDNS (c : Client) (s : S) : S * (error + list Zone) :=
  get "/services/dns/all" (Decode_zones json) c s.
Definition AddDNS (req : Zone) (c : Client) (s : S) : S * option error :=
  post "/services/dns/add" (Marshal_zone json req) c s.
End client.
Arguments Client : clear implicits.

(** ** The client of a virtual network *)

Section server.
Context (os : OS) (mj : mux_json) (stats : stat) (o_leases : list (string * string)) (o_cam : list (list Z * Z)).
Context (query : string → string) (hj : hijack) (json : client_json).
(** The order in which the table of the ports is listed, the address of the
    client, and what the server answers when a handler panics. *)
Context (order : gmap string proxy → list (string * proxy)) (addr : string) (broken : error).

(** The server behind the base URL [url]. *)
Definition serve (url method target body : string) (n : VirtualNetwork) : VirtualNetwork * (error + http_reply) :=
  let '(n', a) := VN_Mux os mj stats (order (proxies (sv_ports (vn_services n)))) o_leases o_cam query hj
    {| req_Method := method; req_Path := TrimPrefix target url; req_RemoteAddr := addr; req_Body := body |} n in
  (n', match a with
       | MuxReply r => inr {| rp_Status := resp_Status r; rp_Body := inr (resp_Body r) |}
       | _ => inl broken
       end).
Definition client_of (url : string) : Client VirtualNetwork := New (serve url) url.

(** The error a client reports for an error of the server. *)
Definition reported (r : res unit) : option error :=
  match r with
  | Ok _ => None
  | Err e => Some (ErrMsg (TrimSpace (error_text e +:+ newline)))
  | Panic => Some broken
  end.

(** What becomes of a request: the client encodes it, the server decodes it and acts;
    the error of the client's encoding is the client's own, the other errors are
    reported with their text. *)
Definition sent_and_done {A} (marshal : A → error + string) (decode : string → error + A)
    (act : A → VirtualNetwork * res unit) (a : A) (n : VirtualNetwork) : VirtualNetwork * option error :=
  match marshal a with
  | inl err => (n, Some err)
  | inr bin =>
      match decode bin with
      | inl err => (n, reported (Err err))
      | inr a' => let x := act a' in (x.1, reported x.2)
      end
  end.

Definition protocol_or_tcp (p : string) : string := if decide (p = "") then TCP else p.

Lemma with_same n : with_ports (sv_ports (vn_services n)) n = n ∧ with_zones (sv_zones (vn_services n)) n = n.
Proof. unfold with_ports, with_zones, set_services. by destruct n as [? ? ? ? [] ?]. Qed.

Lemma serve_path url method path body n :
  serve url method (url +:+ path) body n = serve "" method path body n.
Proof. unfold serve. by rewrite TrimPrefix_app. Qed.

(** The routes of the API. *)
Lemma serve_forwarder url method path body n : path ∈ ["/all"; "/expose"; "/unexpose"] →
  serve url method (url +:+ "/services/forwarder" +:+ path) body n =
    let '(f, r) := Ports_Mux os (json_ports mj) (order (proxies (sv_ports (vn_services n))))
      {| req_Method := method; req_Path := path; req_RemoteAddr := addr; req_Body := body |} (sv_ports (vn_services n)) in
    (with_ports f n, match r with
                     | Ok r => inr {| rp_Status := resp_Status r; rp_Body := inr (resp_Body r) |}
                     | _ => inl broken
                     end).
Proof.
  intros Hp. rewrite serve_path. unfold serve. change (TrimPrefix ?s "") with s. rewrite VN_Mux_forwarder by done.
  by destruct (Ports_Mux _ _ _ _ _) as [f [r|e|]].
Qed.

Lemma serve_dns url method path body n : path ∈ ["/all"; "/add"] →
  serve url method (url +:+ "/services/dns" +:+ path) body n =
    let '(z, r) := DNS_Mux (json_zones mj) (decode_zone mj)
      {| req_Method := method; req_Path := path; req_RemoteAddr := addr; req_Body := body |} (sv_zones (vn_services n)) in
    (with_zones z n, inr {| rp_Status := resp_Status r; rp_Body := inr (resp_Body r) |}).
Proof.
  intros Hp. rewrite serve_path. unfold serve. change (TrimPrefix ?s "") with s. rewrite VN_Mux_dns by done. by destruct (DNS_Mux _ _ _ _) as [z r].
Qed.

(** What a client reports for the status of an operation. *)
Lemma reported_status (x : PortsForwarder * res unit) n :
  (let '(s', r) := let '(f, r) := status_of x in
     (with_ports f n, match r with
                      | Ok r => inr {| rp_Status := resp_Status r; rp_Body := inr (resp_Body r) |}
                      | _ => inl broken
                      end) in
   (s', match r with
        | inl err => Some err
        | inr rp =>
            if decide (rp_Status rp ≠ StatusOK) then
              match rp_Body rp with
              | inl readErr => Some (ErrMsg ("error while reading error message: " +:+ error_text readErr))
              | inr err => Some (ErrMsg (TrimSpace err))
              end
            else None
        end)) = (with_ports x.1 n, reported x.2).
Proof. by destruct x as [f [[]|e|]]. Qed.

(** *** What the services do for a request they have decoded *)

Definition act_expose (n : VirtualNetwork) (req : ExposeRequest) : VirtualNetwork * res unit :=
  let protocol := protocol_or_tcp (exp_Protocol req) in
  match (if decide (protocol ≠ UNIX ∧ protocol ≠ NPIPE) then remote req addr else Ok (exp_Remote req)) with
  | Ok remoteAddr => let x := Expose os protocol (exp_Local req) remoteAddr (sv_ports (vn_services n)) in (with_ports x.1 n, x.2)
  | Err err => (n, Err err)
  | Panic => (n, Panic)
  end.
Definition act_unexpose (n : VirtualNetwork) (req : UnexposeRequest) : VirtualNetwork * res unit :=
  let x := Unexpose (protocol_or_tcp (unexp_Protocol req)) (unexp_Local req) (sv_ports (vn_services n)) in
  (with_ports x.1 n, x.2).
Definition act_add (n : VirtualNetwork) (z : Zone) : VirtualNetwork * res unit :=
  (with_zones (addZone z (sv_zones (vn_services n))) n, Ok tt).

(** ** Properties *)

(** C19: the client and the API.  Whatever the encodings do: a request that the client
    cannot encode is an error of the client and goes nowhere; one that the server cannot
    decode is reported with the text of the error; otherwise Expose and Unexpose act
    on the table of forwarded ports with the request and the protocol as the server has
    decoded them (tcp when the protocol is empty; the remote host completed with the
    address of the client) and AddDNS adds the zone as decoded, and the client reports the
    text of the service's error, and nothing else.  List and ListDNS change nothing
    and return what the client decodes from the server's encoding of the sorted table
    and of the zones. *)
Theorem client_refines_api url n :
  let c := client_of url in
  (∀ req, Client_Expose json req c n =
     sent_and_done (Marshal_expose json) (decode_expose (json_ports mj)) (act_expose n) req n) ∧
  (∀ req, Client_Unexpose json req c n =
     sent_and_done (Marshal_unexpose json) (decode_unexpose (json_ports mj)) (act_unexpose n) req n) ∧
  (∀ z, AddDNS json z c n = sent_and_done (Marshal_zone json) (decode_zone mj) (act_add n) z n) ∧
  List_ json c n =
    (n, Decode_ports json (encode_proxies (json_ports mj) (Ports_all (order (proxies (sv_ports (vn_services n))))))) ∧
  ListDNS json c n = (n, Decode_zones json (json_zones mj (sv_zones (vn_services n)))).
Proof.
  intros c. unfold Client_Expose, Client_Unexpose, AddDNS, List_, ListDNS, post, get, sent_and_done.
  cbn beta iota delta [base http c client_of New].
  destruct (with_same n) as [Hports Hzones]. split_and!.
  - intros req. destruct (Marshal_expose json req) as [err|bin]; [done|].
    change ("/services/forwarder/expose") with ("/services/forwarder" +:+ "/expose").
    rewrite serve_forwarder by set_solver. unfold Ports_Mux, Ports_expose. cbn [req_Path req_Method req_Body req_RemoteAddr].
    rewrite (mux_route_plain _ _ "/expose" "/expose") by by vm_compute.
    rewrite (decide_False (P := "/expose" = "/all")), (decide_True (P := "/expose" = "/expose")) by done.
    rewrite (decide_False (P := MethodPost ≠ MethodPost)) by auto.
    destruct (decode_expose (json_ports mj) bin) as [err|req']; [by rewrite Hports|]. cbn zeta. unfold act_expose.
    fold (protocol_or_tcp (exp_Protocol req')).
    destruct (if decide (_ ∧ _) then _ else _) as [remoteAddr|err|]; [|by rewrite Hports..].
    apply reported_status.
  - intros req. destruct (Marshal_unexpose json req) as [err|bin]; [done|].
    change ("/services/forwarder/unexpose") with ("/services/forwarder" +:+ "/unexpose").
    rewrite serve_forwarder by set_solver. unfold Ports_Mux, Ports_unexpose. cbn [req_Path req_Method req_Body].
    rewrite (mux_route_plain _ _ "/unexpose" "/unexpose") by by vm_compute.
    rewrite (decide_False (P := "/unexpose" = "/all")), (decide_False (P := "/unexpose" = "/expose")) by done.
    rewrite (decide_False (P := MethodPost ≠ MethodPost)) by auto.
    destruct (decode_unexpose (json_ports mj) bin) as [err|req']; [by rewrite Hports|].
    apply reported_status.
  - intros z. destruct (Marshal_zone json z) as [err|bin]; [done|].
    change ("/services/dns/add") with ("/services/dns" +:+ "/add").
    rewrite serve_dns by set_solver. unfold DNS_Mux. cbn [req_Path req_Method req_Body].
    rewrite (mux_route_plain _ _ "/add" "/add"), (decide_False (P := "/add" = "/all")) by (done || by vm_compute).
    rewrite (decide_False (P := MethodPost ≠ MethodPost)) by auto.
    destruct (decode_zone mj bin) as [err|z']; [by rewrite Hzones|done].
  - change ("/services/forwarder/all") with ("/services/forwarder" +:+ "/all").
    rewrite serve_forwarder by set_solver. unfold Ports_Mux. cbn [req_Path req_Method].
    rewrite (mux_route_plain _ _ "/all" "/all"), decide_True by (done || by vm_compute).
    by rewrite Hports.
  - change ("/services/dns/all") with ("/services/dns" +:+ "/all").
    rewrite serve_dns by set_solver. unfold DNS_Mux. cbn [req_Path req_Method].
    rewrite (mux_route_plain _ _ "/all" "/all"), decide_True by (done || by vm_compute).
    by rewrite Hzones.
Qed.
End server.

(** ** Witness

    Texts as the decimal numbers of stdpp's encodings. *)
Definition enc_text `{Countable A} (a : A) : string := Itoa (Z.pos (encode a)).
Definition dec_text {A} `{Countable A} (s : string) : error + A :=
  match digits_val s 0 with
  | Some (Z.pos p) => match decode p with Some a => inr a | None => inl (ErrExt "json") end
  | _ => inl (ErrExt "json")
  end.

Lemma dec_enc_text `{Countable A} (a : A) : dec_text (enc_text a) = inr a.
Proof. unfold dec_text, enc_text. rewrite digits_val_Itoa by done. by rewrite decode_encode. Qed.

#[local] Instance expose_countable : Countable ExposeRequest.
Proof.
  refine (inj_countable' (λ r, (exp_Local r, exp_Remote r, exp_Protocol r))
    (λ '(l, r, p), {| exp_Local := l; exp_Remote := r; exp_Protocol := p |}) _). by intros [].
Defined.
#[local] Instance unexpose_eq_dec : EqDecision UnexposeRequest.
Proof. solve_decision. Defined.
#[local] Instance unexpose_countable : Countable UnexposeRequest.
Proof.
  refine (inj_countable' (λ r, (unexp_Local r, unexp_Protocol r))
    (λ '(l, p), {| unexp_Local := l; unexp_Protocol := p |}) _). by intros [].
Defined.
#[local] Instance record_countable : Countable DnsRecord.
Proof.
  refine (inj_countable' (λ r, (rec_Name r, rec_IP r, rec_Regexp r))
    (λ '(n, i, r), {| rec_Name := n; rec_IP := i; rec_Regexp := r |}) _). by intros [].
Defined.
#[local] Instance zone_countable : Countable Zone.
Proof.
  refine (inj_countable' (λ z, (zone_Name z, zone_Records z, DefaultIP z))
    (λ '(n, r, d), {| zone_Name := n; zone_Records := r; DefaultIP := d |}) _). by intros [].
Defined.

(** The fields that the list of the ports and a request share. *)
Definition as_request (p : proxy) : ExposeRequest :=
  {| exp_Local := Local_ p; exp_Remote := Remote_ p; exp_Protocol := Protocol_ p |}.
Definition mj0 : mux_json := {|
  json_ports := {| encode_proxies := λ l, enc_text (as_request <$> l); decode_expose := dec_text;
                   decode_unexpose := dec_text |};
  json_zones := enc_text; decode_zone := dec_text;
  json_leases := λ _, ""; json_cam := λ _, ""; json_stats := λ _, "" |}.
Definition client_json0 : client_json := {|
  Marshal_expose := λ r, inr (enc_text r); Marshal_unexpose := λ r, inr (enc_text r);
  Marshal_zone := λ z, inr (enc_text z); Decode_ports := dec_text; Decode_zones := dec_text |}.

Definition network0 : VirtualNetwork := {|
  vn_configuration := cfg127;
  vn_stack := {| st_address := [192; 168; 127; 1]; st_route := {| sn_address := [192; 168; 127; 0]; sn_mask := [255; 255; 255; 0] |};
                 st_spoofing := true; st_promiscuous := true |};
  vn_endpoint := {| le_debug := false; le_mtu := 1500; le_mac := [90; 148; 239; 228; 12; 221]; le_ip := "192.168.127.1";
                    virtualIPs := ∅; dispatcher := true; networkSwitch := true |};
  vn_switch := NewSwitch false 1500;
  vn_services := {| sv_zones := []; sv_ports := NewPortsForwarder; sv_nat := ∅ |};
  vn_ipPool := pool127 |}.
Definition client0 : Client VirtualNetwork :=
  client_of os0 mj0 (SStruct []) [] [] (λ _, "") NoHijacker map_to_list "192.168.127.2:5000" (ErrExt "EOF") "http://gateway".
Definition request0 : ExposeRequest := {| exp_Local := ":2222"; exp_Remote := ":22"; exp_Protocol := "" |}.

(** The client exposes port 2222 for itself, and finds it in the list. *)
Lemma client_refines_api_witness : ∃ n',
  Client_Expose client_json0 request0 client0 network0 = (n', None) ∧
  List_ client_json0 client0 n' =
    (n', inr [{| exp_Local := ":2222"; exp_Remote := "192.168.127.2:22"; exp_Protocol := "tcp" |}]).
Proof.
  pose proof (λ n, client_refines_api os0 mj0 (SStruct []) [] [] (λ _, "") NoHijacker client_json0 map_to_list
    "192.168.127.2:5000" (ErrExt "EOF") "http://gateway" n) as H.
  exists (with_ports (Expose os0 TCP ":2222" "192.168.127.2:22" NewPortsForwarder).1 network0). split.
  - destruct (H network0) as (He & _).
    etransitivity; [exact (He request0)|]. unfold sent_and_done, client_json0, mj0. cbn [Marshal_expose decode_expose json_ports].
    rewrite dec_enc_text. reflexivity.
  - destruct (H (with_ports (Expose os0 TCP ":2222" "192.168.127.2:22" NewPortsForwarder).1 network0))
      as (_ & _ & _ & Hl & _).
    etransitivity; [exact Hl|]. unfold client_json0, mj0. cbn [Decode_ports encode_proxies json_ports].
    rewrite dec_enc_text. by vm_compute.
Defined.
