(* ===== verification/Tools.v ===== *)
(** The small programs: cmd/ssh-over-vsock (a command over SSH through the
    /tunnel of the API), cmd/qemu-wrapper (a process with a connected socket) and
    cmd/test-companion (the DNS and HTTP servers of the tests).  A program is the
    list of what it does to the outside, and its outcome. *)
From Stdlib Require Import Ascii String.
From S2P Require Import Client Prelude GoStrings GoNet GoURL IPPool Tcpip Switch Types GoHTTP DNS Ports SSH VirtualNetwork Transport.

Local Open Scope string_scope.
Local Open Scope list_scope.
Local Open Scope Z_scope.

(** * cmd/ssh-over-vsock *)

(** The flags and their defaults. *)
Record ssh_options := { o_ip : string; o_port : Z; o_user : string; o_key : string; o_endpoint : string }.
Definition ssh_options0 : ssh_options :=
  {| o_ip := "192.168.127.2"; o_port := 22; o_user := ""; o_key := ""; o_endpoint := "/tmp/network.sock" |}.

Section ssh_over_vsock.
Context {signer hostkey : Type}.
#[local] Abbreviation config := (ClientConfig signer hostkey).

Inductive step :=
  | Connected (path : string)
  | Requested (target : string)                     (* the request written to the connection *)
  | Handshake (c : config) (rest : conn_input)      (* SSH over what follows the answer *)
  | Command (cmd : string)
  | SessionClosed
  | SSHClosed
  | ConnClosed
  | Printed (out : string).

(** The outside; [reply] is what the other end of the connection sends. *)
Record ssh_env := {
  DialUnix : string → option error;
  NewRequest : string → option error;               (* http.NewRequest on the target *)
  WriteRequest : string → option error;
  reply : string → conn_input;
  read_key : string → error + string;
  parse_key : string → error + signer;
  ssh_NewClientConn : config → conn_input → option error;
  ssh_NewSession : option error;
  CombinedOutput : string → error + string;
}.
Context (x : ssh_env).

Definition P (A : Type) : Type := list step * res A.
Definition bind {A B} (m : P A) (f : A → P B) : P B :=
  match m with
  | (l, Ok a) => let '(l', r) := f a in (l ++ l', r)
  | (l, Err e) => (l, Err e)
  | (l, Panic) => (l, Panic)
  end.
Definition did (s : step) : P unit := ([s], Ok tt).
Definition call {A} (r : res A) : P A := ([], r).
(** A deferred action: also after an error or a panic. *)
Definition defer {A} (s : step) (m : P A) : P A := (m.1 ++ [s], m.2).
Definition failing (e : option error) : P unit := call (match e with Some err => Err err | None => Ok tt end).
#[local] Notation "a ⟵ m ;; k" := (bind m (λ a, k)) (at level 100, m at next level, right associativity).
#[local] Notation "m ;;; k" := (bind m (λ _, k)) (at level 100, right associativity).

(** pkg/transport/tunnel.go: [Tunnel]. *)
Definition Tunnel (ip : string) (port : Z) : P conn_input :=
  let target := Tunnel_path ip port in
  failing (NewRequest x target) ;;;
  failing (WriteRequest x target) ;;;
  did (Requested target) ;;;
  call (Tunnel_answer (reply x target)).

Definition newConfig (user keyFile : string) : res config :=
  key ← of_sum (read_key x keyFile);
  privateKey ← of_sum (parse_key x key);
  mret {| cc_User := user; cc_Auth := [PublicKeys privateKey]; cc_HostKeyCallback := InsecureIgnoreHostKey;
          cc_HostKeyAlgorithms := []; cc_Timeout := 60 * Second |}.

Definition newClient (user key : string) : res config :=
  match newConfig user key with
  | Err err => Err (ErrMsg ("Error getting config for native Go SSH: " +:+ error_text err))
  | r => r
  end.

(** [client.output], on the connection after the answer of [Tunnel]. *)
Definition output (c : config) (conn : conn_input) (command : string) : P string :=
  failing (ssh_NewClientConn x c conn) ;;;
  did (Handshake c conn) ;;;
  match ssh_NewSession x with
  | Some err => did SSHClosed ;;; call (Err err)
  | None =>
      defer SSHClosed (defer SessionClosed (
        did (Command command) ;;;
        call (of_sum (CombinedOutput x command))))
  end.

Definition ssh_run (o : ssh_options) : P unit :=
  failing (option_map (ErrWrap "cannot connect to host") (DialUnix x (o_endpoint o))) ;;;
  did (Connected (o_endpoint o)) ;;;
  defer ConnClosed (
    conn ⟵ Tunnel (o_ip o) (o_port o) ;;
    c ⟵ call (newClient (o_user o) (o_key o)) ;;
    out ⟵ output c conn "ps" ;;
    did (Printed out)).

(** A program that does not panic. *)
Definition safe {A} (m : P A) : Prop := m.2 ≠ Panic.

Lemma bind_safe {A B} (m : P A) (f : A → P B) : safe m → (∀ a, safe (f a)) → safe (bind m f).
Proof. unfold safe. destruct m as [l [a| |]]; cbn; try done. intros _ H. specialize (H a). by destruct (f a). Qed.
Lemma failing_safe e : safe (failing e).
Proof. by destruct e. Qed.
Lemma did_safe s : safe (did s).
Proof. done. Qed.
Lemma call_safe {A} (r : res A) : r ≠ Panic → safe (call r).
Proof. done. Qed.
Lemma defer_safe {A} s (m : P A) : safe m → safe (defer s m).
Proof. done. Qed.
#[local] Hint Resolve bind_safe failing_safe did_safe call_safe defer_safe : core.

Lemma Tunnel_answer_safe inp : Tunnel_answer inp ≠ Panic.
Proof. unfold Tunnel_answer, ReadFull. repeat case_decide; cbn; repeat case_decide; done. Qed.
Lemma newClient_safe user key : newClient user key ≠ Panic.
Proof. unfold newClient, newConfig. destruct (read_key x key) as [|k]; [done|]. cbn. by destruct (parse_key x k). Qed.
Lemma output_safe c conn cmd : safe (output c conn cmd).
Proof.
  unfold output. apply bind_safe; [auto|]. intros _. apply bind_safe; [auto|]. intros _.
  destruct (ssh_NewSession x); [by auto|]. apply defer_safe, defer_safe, bind_safe; [auto|]. intros _.
  apply call_safe. by destruct (CombinedOutput x cmd).
Qed.

(** Nothing panics, and a connection that was opened is closed at the end. *)
Lemma ssh_run_closes o : DialUnix x (o_endpoint o) = None → safe (ssh_run o) ∧ last (ssh_run o).1 = Some ConnClosed.
Proof.
  intros Hd. unfold ssh_run. rewrite Hd. cbn [option_map].
  set (m := bind (Tunnel _ _) _). split; [|cbn; by rewrite last_cons, last_snoc].
  apply bind_safe; [auto|]. intros _. apply bind_safe; [auto|]. intros _. apply defer_safe, bind_safe.
  { repeat (apply bind_safe; [by auto|]; intros _). apply call_safe, Tunnel_answer_safe. }
  intros conn. apply bind_safe; [apply call_safe, newClient_safe|]. intros c.
  apply bind_safe; [apply output_safe|auto].
Qed.
End ssh_over_vsock.

(** ** The tunnel and the API *)

Section tunnel.
Context (os : OS) (json : mux_json) (stats : stat).
Context (o_ports : list (string * proxy)) (o_leases : list (string * string)) (o_cam : list (list Z * Z)).

(** The request [Tunnel] writes, as the server reads it. *)
Definition tunnel_request (target remoteAddr : string) : http_request :=
  {| req_Method := MethodPost; req_Path := request_path target; req_RemoteAddr := remoteAddr; req_Body := "" |}.

Definition serve_tunnel (hj : hijack) (target remoteAddr : string) (n : VirtualNetwork) : VirtualNetwork * mux_action :=
  VN_Mux os json stats o_ports o_leases o_cam (Query_Get (request_query target)) hj
    (tunnel_request target remoteAddr) n.

(** The first bytes of what the handler sends on the connection: the two of the
    tunnel, or the status line of a response. *)
Definition answer_start (a : mux_action) : list Z :=
  bytes_of_string (match a with MuxTunnel _ | MuxAborted => "OK" | MuxReply _ => "HTTP/1.1 " | _ => "" end).

(** A host that the request of [Tunnel], which escapes nothing, carries as it is:
    printable ASCII without the characters that a URL or a query gives a meaning to. *)
Definition plain_host (host : string) : Prop :=
  host ≠ "" ∧ query_plain host ∧ Forall (λ c, 33 <= code c < 127 ∧ c ≠ "#"%char) (list_ascii_of_string host).

(** The API on the request of [Tunnel]. *)
Lemma serve_tunnel_path hj host port remoteAddr n : query_plain host → host ≠ "" → 0 ≤ port < 2 ^ 63 →
  serve_tunnel hj (Tunnel_path host port) remoteAddr n =
    (n, hijacked hj true (match AddrFrom4Slice (To4 (ParseIP host)) with
                          | Ok a => MuxTunnel {| fa_NIC := 1; fa_Addr := a; fa_Port := port mod 65536 |}
                          | _ => MuxAborted
                          end)).
Proof.
  intros Hip Hne Hport. destruct (Tunnel_path_query host port Hip) as (Hp & Hi & Hq); [apply query_plain_Itoa; lia|].
  unfold serve_tunnel, VN_Mux, tunnel_request. cbn [req_Path]. rewrite Hp.
  rewrite (mux_route_plain _ _ "/tunnel" "/tunnel") by by vm_compute. rewrite !decide_False by done.
  unfold VirtualNetwork.tunnel. rewrite Hi, Hq, decide_False, Atoi_Itoa by (done || lia). done.
Qed.

Lemma serve_tunnel_v4 hj ip port remoteAddr n : is_ip4 ip → 0 ≤ port < 2 ^ 63 →
  serve_tunnel hj (Tunnel_path (v4_string ip) port) remoteAddr n =
    (n, hijacked hj true (MuxTunnel {| fa_NIC := 1; fa_Addr := ip; fa_Port := port mod 65536 |})).
Proof.
  intros Hip Hport. rewrite serve_tunnel_path; [|auto| |done].
  - rewrite ParseIP_v4_string, To4_v4in6 by done. unfold AddrFrom4Slice. destruct Hip as [Hl _]. by rewrite decide_True.
  - apply is_ip4_inv in Hip as (a & b & c & d & -> & _). cbn. by destruct (Itoa a).
Qed.

Lemma Tunnel_answer_start a rest err :
  Tunnel_answer {| in_bytes := answer_start a ++ rest; in_err := err |} =
    match a with
    | MuxTunnel _ | MuxAborted => Ok {| in_bytes := rest; in_err := err |}
    | MuxReply _ => Err (ErrMsg "handshake failed")
    | _ => Tunnel_answer {| in_bytes := rest; in_err := err |}
    end.
Proof. by destruct a. Qed.

(** C26: the handshake of a tunnel, whatever the port.  For an IPv4 address the
    request [Tunnel] writes makes the API pipe the connection to that address of
    the network and to the port modulo 2^16 (the port itself when it is one).  For
    any other host that a URL holds unescaped the API still answers OK, and then its handler panics
    and the connection is closed.  When the connection cannot be hijacked, or
    written to once it is, the API answers with an error or closes it.  Neither
    changes the network.  [Tunnel] succeeds exactly on the OK, and what follows is
    then the first byte of the tunnel: on an error of the API and on a
    connection closed without an answer it reports an error. *)
Theorem tunnel_handshake port remoteAddr n rest err :
  0 ≤ port < 2 ^ 63 →
  let api hj host := serve_tunnel hj (Tunnel_path host port) remoteAddr n in
  (∀ ip, is_ip4 ip →
    api Hijacked (v4_string ip) = (n, MuxTunnel {| fa_NIC := 1; fa_Addr := ip; fa_Port := port mod 65536 |})) ∧
  (∀ host, plain_host host → length (To4 (ParseIP host)) ≠ 4%nat → api Hijacked host = (n, MuxAborted)) ∧
  (∀ hj host, plain_host host → hj ≠ Hijacked → api hj host = (n, MuxClosed) ∨
    ∃ text, api hj host = (n, MuxReply (http_Error text StatusInternalServerError))) ∧
  (∀ a, (∃ address, a = MuxTunnel address) ∨ a = MuxAborted →
    Tunnel_answer {| in_bytes := answer_start a ++ rest; in_err := err |} = Ok {| in_bytes := rest; in_err := err |}) ∧
  (∀ resp, Tunnel_answer {| in_bytes := answer_start (MuxReply resp) ++ rest; in_err := err |} =
    Err (ErrMsg "handshake failed")) ∧
  Tunnel_answer {| in_bytes := answer_start MuxClosed; in_err := err |} = Err err.
Proof.
  intros Hp api. unfold api. split_and!.
  - intros ip Hip. by rewrite serve_tunnel_v4.
  - intros host (Hne & Hq & _) Hl. rewrite serve_tunnel_path by done. unfold AddrFrom4Slice. by rewrite decide_False.
  - intros hj host (Hne & Hq & _) Hh. rewrite serve_tunnel_path by done. destruct hj; [..|done]; cbn; eauto.
  - intros a Ha. rewrite Tunnel_answer_start. by destruct Ha as [[x ->]| ->].
  - intros resp. by rewrite Tunnel_answer_start.
  - cbn. unfold Tunnel_answer, ReadFull. cbn. rewrite decide_False by lia. by rewrite decide_False by tauto.
Qed.
End tunnel.

(** * cmd/qemu-wrapper *)

(** The command qemu-wrapper runs: path, arguments and inherited sockets. *)
Record wrapped := { w_path : string; w_args : list string; w_files : list string }.

(** The status of qemu-wrapper; [log.Fatal] exits with 1.  [socket_dial] and
    [socket_file] are net.Dial and File, [run_cmd] is the result of the command. *)
Definition wrapper_main (socket_dial socket_file : string → option error) (run_cmd : wrapped → option error)
    (args : list string) : res (option wrapped * Z) :=
  match args !! 1%nat with
  | None => Panic
  | Some socket =>
      match socket_dial socket with
      | Some _ => Ok (None, 1)
      | None =>
          match socket_file socket with
          | Some _ => Ok (None, 1)
          | None =>
              match args !! 2%nat with
              | None => Panic
              | Some path =>
                  let cmd := {| w_path := path; w_args := drop 3 args; w_files := [socket] |} in
                  Ok (Some cmd, match run_cmd cmd with Some _ => 1 | None => 0 end)
              end
          end
      end
  end.

(** The command gets the arguments after its path, and the socket as its only
    additional descriptor; without two arguments the program panics. *)
Lemma wrapper_main_spec dial file cmd prog socket path args :
  dial socket = None → file socket = None →
  ∃ c, wrapper_main dial file cmd (prog :: socket :: path :: args) = Ok (Some c, if decide (cmd c = None) then 0 else 1) ∧
       c = {| w_path := path; w_args := args; w_files := [socket] |}.
Proof.
  intros Hd Hf. unfold wrapper_main. cbn. rewrite Hd, Hf. eexists. split; [|done].
  by destruct (cmd _).
Qed.
Lemma wrapper_main_panics dial file cmd prog : wrapper_main dial file cmd [prog] = Panic.
Proof. done. Qed.

(** * cmd/test-companion *)

(** The DNS handler of the tests: 1.2.3.4 for every question of type A. *)
Definition companion_answers (r : Msg) : list RR :=
  (λ q, answer q TypeA (RD_A (ParseIP "1.2.3.4"))) <$> filter (λ q, Qtype q = TypeA) (msg_Question (SetReply r)).
Definition companion (r : Msg) : Msg :=
  let m := SetReply r in
  {| msg_Id := msg_Id m; Response := Response m; Opcode := Opcode m; RecursionDesired := RecursionDesired m;
     RecursionAvailable := true; CheckingDisabled := CheckingDisabled m; Rcode := Rcode m;
     msg_Question := msg_Question m; msg_Answer := companion_answers r; msg_Extra := msg_Extra m |}.
Definition companion_http (r : http_request) : http_response := http_OK "Hello world!".

Lemma companion_answer r q : msg_Question r = [q] → Qtype q = TypeA →
  msg_Answer (companion r) = [answer q TypeA (RD_A (v4in6 [1; 2; 3; 4]))] ∧ msg_Id (companion r) = msg_Id r.
Proof.
  intros Hq Ht. split; [|done]. cbn [companion msg_Answer]. unfold companion_answers, SetReply. cbn [msg_Question].
  rewrite Hq. cbn [take]. rewrite filter_cons_True, filter_nil by done. cbn. do 3 f_equal; try by vm_compute.
Qed.

(** * Witness *)

Lemma tunnel_handshake_witness :
  serve_tunnel os0 mj0 (SStruct []) [] [] [] Hijacked (Tunnel_path "192.168.127.2" 22) "@" network0 =
    (network0, MuxTunnel {| fa_NIC := 1; fa_Addr := [192; 168; 127; 2]; fa_Port := 22 |}) ∧
  serve_tunnel os0 mj0 (SStruct []) [] [] [] Hijacked (Tunnel_path "::1" 22) "@" network0 = (network0, MuxAborted).
Proof.
  assert (is_ip4 [192; 168; 127; 2]) as Hip by (split; [done|byte_list]).
  destruct (tunnel_handshake os0 mj0 (SStruct []) [] [] [] 22 "@" network0 [] EOF ltac:(lia)) as (H & H6 & _).
  split; [|apply H6; [by apply (bool_decide_unpack _); vm_compute|by vm_compute]].
  etransitivity; [|exact (H _ Hip)]. by vm_compute.
Defined.
