(* ===== verification/MockServer.v ===== *)
(** test-win-sshproxy/mock_sshserver.go: the SSH server that stands for the guest in
    the tests of win-sshproxy.  It accepts every client, and answers one HTTP request
    on every channel that a tunnel opens.  The SSH protocol and net/http are
    parameters: what arrives is data, what is sent are events. *)
From Stdlib Require Import Ascii String.
From S2P Require Import Prelude GoStrings.

Local Open Scope string_scope.
Local Open Scope list_scope.
Local Open Scope Z_scope.

Record streamLocalDirect := { SocketPath : string; Reserved0 : string; Reserved1 : Z }.

(** A channel that a client opens: its type, what [ssh.Unmarshal] makes of its data,
    what [Accept] and [http.ReadRequest] return. *)
Record NewChannel := {
  ChannelType : string;
  ExtraData : error + streamLocalDirect;
  AcceptErr : option error;
  RequestURI : error + string;
}.

Inductive RejectionReason := Prohibited | UnknownChannelType.

Inductive mock_event :=
  | EvReject (reason : RejectionReason) (msg : string)
  | EvResponse (status : Z) (body : string)   (* with its length, on the channel *)
  | EvEndOfChannel                            (* channel.CloseWrite *)
  | EvMockLog (msg : string) (err : error).

(** The answer to a request. *)
Definition mock_response (uri : string) : Z * string :=
  if decide (uri = "/ping") then (200, "pong") else (404, "").

(** One iteration of [handleChannels]: the events, and whether the loop goes on
    ([Err] is its early return). *)
Definition handle_channel (c : NewChannel) : list mock_event * res unit :=
  if decide (ChannelType c ≠ "direct-streamlocal@openssh.com") then
    ([EvReject UnknownChannelType ("unknown channel type: " +:+ ChannelType c)], Ok tt)
  else
    match ExtraData c with
    | inl err => ([EvMockLog "could not direct-streamlocal data: " err; EvReject Prohibited "invalid format"], Err err)
    | inr _ =>
        match AcceptErr c with
        | Some err => ([EvMockLog "could not accept channel: " err], Ok tt)
        | None =>
            match RequestURI c with
            | inl err => ([EvMockLog "could not process http request: " err], Panic)   (* req is nil *)
            | inr uri => let '(status, body) := mock_response uri in ([EvResponse status body; EvEndOfChannel], Ok tt)
            end
        end
    end.

(** [handleChannels], until the connection ends. *)
Fixpoint handleChannels (chans : list NewChannel) : list mock_event * res unit :=
  match chans with
  | [] => ([], Ok tt)
  | c :: chans =>
      match handle_channel c with
      | (evs, Ok _) => let '(evs', r) := handleChannels chans in (evs ++ evs', r)
      | (evs, Err _) => (evs, Ok tt)
      | (evs, Panic) => (evs, Panic)
      end
  end.

(** The accept loop: at each iteration whether the context is done, what [Accept]
    and the handshake give.  The result is the connections that are served, and
    whether the goroutine closed the listener or panicked; [None]: it still runs. *)
Fixpoint mock_accept_loop (inputs : list (bool * (error + (error + list NewChannel))))
    : list (list NewChannel) * option (res unit) :=
  match inputs with
  | [] => ([], None)
  | (true, _) :: _ => ([], Some (Ok tt))
  | (false, inl _) :: _ | (false, inr (inl _)) :: _ => ([], Some Panic)
  | (false, inr (inr chans)) :: inputs => let '(l, r) := mock_accept_loop inputs in (chans :: l, r)
  end.

(** [startMockServer]: the host key (without one [AddHostKey] panics) and the listener. *)
Definition startMockServer (key listen : option error) : res unit :=
  match key, listen with None, None => Ok tt | _, _ => Panic end.

(** [handleRequests] drops every request. *)
Definition handleRequests {R} (reqs : list R) : list mock_event := [].

(** ** What the tests rely on *)

(** A channel of a tunnel whose request can be read. *)
Definition tunnel_channel (c : NewChannel) (uri : string) : Prop :=
  ChannelType c = "direct-streamlocal@openssh.com" ∧ (∃ m, ExtraData c = inr m) ∧ AcceptErr c = None ∧
  RequestURI c = inr uri.
Definition other_channel (c : NewChannel) : Prop := ChannelType c ≠ "direct-streamlocal@openssh.com".

(** The requests on the tunnels, and the answers. *)
Definition requests (chans : list NewChannel) : list string :=
  omap (λ c, if decide (other_channel c) then None else match RequestURI c with inr u => Some u | inl _ => None end) chans.
Definition responses (evs : list mock_event) : list (Z * string) :=
  omap (λ ev, match ev with EvResponse s b => Some (s, b) | _ => None end) evs.

(** Requests on tunnels are answered in order, "pong" to /ping and 404 to the rest,
    and channels of other types are rejected without disturbing them. *)
Theorem pings_answered chans :
  Forall (λ c, other_channel c ∨ ∃ uri, tunnel_channel c uri) chans →
  (handleChannels chans).2 = Ok tt ∧
  responses (handleChannels chans).1 = mock_response <$> requests chans.
Proof.
  intros Hc. unfold requests, responses. induction Hc as [|c chans Hc _ [IH1 IH2]]; [done|]. cbn [handleChannels omap list_omap].
  unfold handle_channel. destruct Hc as [Ho|(uri & Ht & [m Hm] & Ha & Hu)].
  - rewrite decide_True by done. destruct (handleChannels chans) as [evs r]. cbn in *. by rewrite decide_True.
  - rewrite decide_False by (by intros ?). rewrite Hm, Ha, Hu. rewrite (decide_False (P := other_channel c)) by (by intros ?).
    cbn [fmap list_fmap]. destruct (mock_response uri) as [st b]. destruct (handleChannels chans) as [evs r]. cbn in *. by rewrite IH2.
Qed.

(** A request that cannot be read takes the server down. *)
Lemma bad_request_panics c err : (∃ m, ExtraData c = inr m) → ChannelType c = "direct-streamlocal@openssh.com" →
  AcceptErr c = None → RequestURI c = inl err → (handleChannels [c]).2 = Panic.
Proof.
  intros [m Hm] Ht Ha Hu. cbn. unfold handle_channel. rewrite decide_False by (by intros ?). by rewrite Hm, Ha, Hu.
Qed.

Lemma pings_answered_witness :
  let c uri := {| ChannelType := "direct-streamlocal@openssh.com";
                  ExtraData := inr {| SocketPath := "/run/docker.sock"; Reserved0 := ""; Reserved1 := 0 |};
                  AcceptErr := None; RequestURI := inr uri |} in
  responses (handleChannels [c "/ping"; c "/info"]).1 =
    [(200, "pong"); (404, "")].
Proof.
  intros c. refine (proj2 (pings_answered [c "/ping"; c "/info"] _)).
  apply Forall_cons; split; [|apply Forall_singleton]; right; eexists; (split_and!; [done|by eexists|done|done]).
Defined.
